(* ===== verification/_CoqProject ===== *)
-Q . S2P
Prelude.v
Snowflake.v
Breaker.v
Retry.v
Room.v
RoomManager.v
Mongo.v
Proto.v
LobbyStore.v
Lobby.v
Session.v
SessionManager.v
Streaming.v
Lifecycle.v
RoomSnapshots.v
UserStore.v
Idempotency.v
KeyLock.v
Auth.v
TokenBucket.v
Metrics.v
Indexes.v
ServiceClients.v
ClientProto.v
WebSocket.v
Gateway.v
Documents.v
DocumentCodec.v
Discovery.v
ClientManager.v
BattleRestore.v
Config.v
GatewayModule.v
Etcd.v
Modules.v
App.v
Process.v
LoadTest.v
Util.v
