(* ===== verification/Prelude.v ===== *)
(** * game01-server: a verification development

    The program is the server of a multiplayer game, written in Go. One process runs any
    of four services: the gateway, which holds the websocket connections of the clients and
    their sessions; the user center, which authenticates; the lobby, which keeps players,
    assets and settlements; and battle, which keeps the rooms. Services find each other
    through a registry and talk over bidirectional gRPC streams; their data is in MongoDB,
    sessions are in Redis. All paths below are under [src/].

    ** Files, and the code they model

    The prelude holds what all files share: Go's integers, times, strings and errors, the
    type [res] of fallible results, programs [prog S A] over a state (whose effects remain
    when they fail), the order of map iteration as a parameter ([MapRange]), the hint
    database [go] and tactics.

    Building blocks:
    - [Snowflake]: [common/idgen/snowflake.go], record [Generator], operations [Next] and
      [Parse] over an arbitrary clock;
    - [Breaker], [Retry], [TokenBucket]: [common/reliability];
    - [Metrics]: [common/observability/metrics.go], the collectors and the observers the
      retry policy, the breaker and the limiter call;
    - [Config]: [common/config/config.go], [Load], [applyEnv], [Validate];
    - [Discovery]: [common/discovery], the registry in memory with its watchers;
    - [Etcd]: [common/discovery/etcd] and [bootstrap], the registry in etcd: keys, leases,
      discovery and the watch loop, and the choice between the registries;
    - [Indexes]: the [indexes.go] of the three repositories;
    - [Modules]: [common/mongodb/mongo_mod.go], [common/redis/client.go] and the modules of
      user center, lobby and battle: construction, start and message routes;
    - [App]: [common/app/module.go], [main.go], [services/common/module.go], starting,
      registering, draining and stopping the modules of a process;
    - [Process]: [main] as a whole, with its deferred calls and its exits;
    - [Util]: [common/util] and the request ids of [common/logging];
    - [LoadTest]: [cmd/loadtest], a client as a program whose log of counter updates is
      interleaved with those of the others;
    - [Streaming]: [common/streaming] router, connection, server and client; a handler works
      on a world [W], the envelopes on the wire of each connection are a list;
    - [ClientManager]: [common/streaming/manager.go], critical sections as functions and the
      goroutines that run them as a transition system, [NewClient] of [client.go];
    - [Mongo]: [common/mongodb/transaction.go] over the driver, which is a type class;
    - [Documents]: [services/common/repository/dbmodel/md], nodes, lists, maps, schemas;
      [DocumentCodec]: their iteration, JSON and BSON methods and copies;
    - [Proto], [ClientProto]: the messages of [proto/src], as records.

    Battle: [Room] ([services/battle/domain]), [RoomManager]
    ([components/room_manager.go]), [RoomSnapshots] ([repository/mongo], which implements the
    repository interface of the manager), [BattleRestore] ([components/restore_codec.go], the
    handler of [module.go]).

    Lobby: [LobbyStore] ([services/lobby/domain], [repository/mongo]), [Lobby]
    ([components/player_component.go]: ensuring a player, settlements, restoring).

    User center: [UserStore] ([services/usercenter/domain], [repository/mongo]),
    [Idempotency] (the reservation protocol of [idempotency_repository.go] and
    [domain_auth_component.go]), [KeyLock] (its lock per key), [Auth] (the handlers).

    Gateway: [Session] ([services/gateway/session] stores), [SessionManager] (the manager),
    [Lifecycle] (events from the gateway to the services), [ServiceClients] (the calls
    between services), [WebSocket] ([websocket.go]: connections, table, pumps), [Gateway]
    ([dispatcher.go], [error_mapper.go], [module.go]), [GatewayModule] (the settings
    [NewModule] gives the parts, routes, readiness).

    ** Interfaces between components

    A client component is proved against what it is promised, as a type class with laws, and
    the implementation discharges the laws: [RoomManager.SnapshotRepository] by
    [RoomSnapshots]; [Session.Store] by the memory store and by the Redis store;
    [Mongo.Collection] and [Mongo.Database] by the driver's documented behaviour, with a
    database in memory as instance; [ServiceClients.AuthenticationService] and
    [PlayerResolver] by the streaming clients; [App.Registrar] by the registry of
    [Discovery]; [Proto.ProtoMessage] stands for the protobuf codec with its round trip.
    [Etcd.Client], [Metrics.Prometheus], [Modules.Driver], [Modules.Services],
    [DocumentCodec.Library], [Process.Host] and [LoadTest.Network] state what is relied on of
    the libraries and of the host, each with an instance in memory.

    ** What the theorems show

    - Money: every lobby handler keeps balances equal to the sums of the ledger under
      interference of other processes; a settlement is applied exactly once, as one commit.
    - Authentication: answers to one idempotency key agree on all processes; refresh tokens
      are spent once; password and guest logins are sound and stable; all handlers keep the
      user database consistent; the lock per key excludes, leaks nothing, cannot deadlock.
    - Sessions: a session is resumed at most once per epoch under any interleaving of
      gateways, and no two connections share a session and an epoch; [Resume] does exactly
      what it documents.
    - Process: what [main] opens it closes, and it withdraws its registrations; a service
      starts only on its indexes, which are exactly the conflicts the other theorems assume
      of the collections; every message the services exchange has its handler.
    - Gateway: each client message has exactly one answer, out of a fixed set of public
      errors if it is one; a connection is bound only to stored sessions; accepted payloads
      reach the client in order; the table of connections is exact.
    - Battle: a client that catches up by a delta ends with the players of the live room,
      shown for the manager and, end to end, for what the client decodes; memory and
      repository agree; failed mutations are rolled back.
    - Streams: requests are answered in order and correlated by id; the client manager hands
      out open clients only, leaks no connection, and pursues each known instance; watchers
      of the registry know its items unless their channel overflowed; the registry in etcd
      refines a table of instances with leases.
    - Building blocks: identifiers increase, round-trip and are produced in finite time; the
      breaker refines an abstract one and is safe under concurrency; retries stop when they
      should, for the gateway's own policy with its waits and metrics; the counters of the
      breaker account for its states; the counters of the load test add up; the bucket counts exactly in floating point; dirty paths cover what was saved;
      document initialisation succeeds exactly on typed models; what lists and maps write
      they read back, and copies are detached; a configuration that loads
      meets what the components require.
    - Flaws the models exposed are lemmas too, run on concrete inputs (for instance
      [Lobby.racing_conflict_is_answered], [SessionManager.expiry_deletes_resumed_session],
      [Gateway.second_login_leaves_first_session], [Documents.delete_leaves_stale_names],
      [ClientManager.failed_dial_abandons_instance], [Config.bad_node_id_is_ignored],
      [Etcd.failed_keep_alive_leaves_registration],
      [Metrics.late_notification_leaves_stale_gauge], [LoadTest.hold_ends_at_first_message]).

    ** Assumptions, bounds and fuel

    Integers that can overflow carry their wrap-around; floats are IEEE 754 binary64 or
    binary32 as [SpecFloat] computes them. Times are nanoseconds. Clock readings, random
    ids and tokens are arguments, so theorems hold for every clock; where uniqueness of
    random ids or freshness of random tokens matters it is a hypothesis ([known] is the set
    of token hashes seen so far). The other processes on a shared database take steps of the
    same handlers between any two calls ([env]), and writes that report a failure may have
    been applied. Idempotency theorems hold for clock readings below a [horizon]: the
    expiry of the records in question. [Snowflake.Next] has fuel for the readings it takes
    while it waits: [next_returns] shows that the readings up to the first later millisecond
    are enough. [TokenBucket.Wait] and [Idempotency.waitForIdempotency] recurse over the list
    of their rounds. A client of [LoadTest] has fuel for its rounds and for the messages it
    reads while it waits for an answer: [load_client_finishes] shows that one more round than
    resume intervals fit before the deadline is enough, given a bound on the messages that
    come before a read deadline. A theorem about a run is by induction on a step relation or on the list
    of operations, with no bound on its length. Hashes, bcrypt, JSON and YAML are parameters.
    Go strings are their bytes. Log lines are left out, apart from the access log of [Util]: nothing reads them. Outside
    [Metrics] the calls that only count are left out too; [Metrics] and [GatewayModule] relate
    the logs of the observers to the counters.

    ** Not modelled

    Generated protocol code, whose messages are records. Of the libraries (MongoDB, Redis and
    etcd clients, Prometheus, gRPC, gin, websocket, protobuf, JSON, BSON, YAML, bcrypt) only
    what the code relies on, as classes with laws. The constructor of the logger, the pings of
    the load test, and signal handling: when the context of [main] ends is left open. *)

From stdpp Require Export base gmap strings list fin_maps sets sorting.
From Stdlib Require Export ZArith Lia.

#[export] Set Default Goal Selector "!".

Declare Scope go_scope.
Delimit Scope go_scope with go.
Open Scope Z_scope.

(** ** Automation of the development *)

Create HintDb go discriminated.

(** Destructs the existentials, conjunctions and pairs found in the hypotheses. *)
Ltac deex :=
  repeat match goal with
    | H : exists x, _ |- _ => let y := fresh x in destruct H as [y H]
    | H : _ /\ _ |- _ => destruct H
    | p : (_ * _)%type |- _ => destruct p
    end.

(** One step of case analysis on the scrutinee of a [match] of the goal or of a
    hypothesis, with its equation kept. *)
Ltac case_on :=
  match goal with
  | |- context [match ?x with _ => _ end] => destruct x eqn:?
  | H : context [match ?x with _ => _ end] |- _ => destruct x eqn:?
  end.

(** Turns boolean comparisons of the hypotheses into the propositions they decide. *)
Ltac breflect :=
  repeat match goal with
    | H : (_ && _)%bool = true |- _ => apply andb_true_iff in H; destruct H
    | H : (_ || _)%bool = false |- _ => apply orb_false_iff in H; destruct H
    | H : negb _ = true |- _ => apply negb_true_iff in H
    | H : negb _ = false |- _ => apply negb_false_iff in H
    | H : (_ <? _) = true |- _ => apply Z.ltb_lt in H
    | H : (_ <? _) = false |- _ => apply Z.ltb_ge in H
    | H : (_ <=? _) = true |- _ => apply Z.leb_le in H
    | H : (_ <=? _) = false |- _ => apply Z.leb_gt in H
    | H : (_ =? _) = true |- _ => apply Z.eqb_eq in H
    | H : (_ =? _) = false |- _ => apply Z.eqb_neq in H
    | H : bool_decide _ = true |- _ => apply bool_decide_eq_true in H
    | H : bool_decide _ = false |- _ => apply bool_decide_eq_false in H
    end.

(** ** Machine integers

    Go's fixed-width integers are [Z] kept in range by the wrap-around functions
    below; arithmetic that can overflow in the code is followed by its wrap. *)

Definition uint64 (x : Z) : Z := x mod 2 ^ 64.
Definition uint16 (x : Z) : Z := x mod 2 ^ 16.
Definition int64 (x : Z) : Z := (x + 2 ^ 63) mod 2 ^ 64 - 2 ^ 63.

Definition in_uint64 (x : Z) : Prop := 0 <= x < 2 ^ 64.
Definition in_int64 (x : Z) : Prop := - 2 ^ 63 <= x < 2 ^ 63.

Lemma uint64_id x : in_uint64 x -> uint64 x = x.
Proof. apply Z.mod_small. Qed.

Lemma uint64_range x : in_uint64 (uint64 x).
Proof. apply Z.mod_pos_bound. lia. Qed.

Lemma uint16_id x : 0 <= x < 2 ^ 16 -> uint16 x = x.
Proof. apply Z.mod_small. Qed.

Lemma int64_id x : in_int64 x -> int64 x = x.
Proof. intros [? ?]. unfold int64. rewrite Z.mod_small; lia. Qed.

Lemma int64_range x : in_int64 (int64 x).
Proof.
  unfold int64, in_int64.
  pose proof (Z.mod_pos_bound (x + 2 ^ 63) (2 ^ 64) ltac:(lia)). lia.
Qed.

#[export] Hint Resolve uint64_range int64_range : go.


Lemma land_field a b k : 0 <= k -> 0 <= b < 2 ^ k -> Z.land (a * 2 ^ k) b = 0.
Proof.
  intros Hk Hb. apply Z.bits_inj'. intros n Hn.
  rewrite Z.land_spec, Z.bits_0. destruct (Z.ltb_spec n k).
  - rewrite Z.mul_pow2_bits_low by lia. done.
  - rewrite <- (Z.mod_small b (2 ^ k)) by lia.
    rewrite Z.mod_pow2_bits_high by lia. apply andb_false_r.
Qed.

Lemma lor_field a b k : 0 <= k -> 0 <= b < 2 ^ k -> Z.lor (a * 2 ^ k) b = a * 2 ^ k + b.
Proof.
  intros Hk Hb. pose proof (land_field a b k Hk Hb) as Hl.
  rewrite <- Z.lxor_lor by done. symmetry. by apply Z.add_nocarry_lxor.
Qed.

(** ** Time

    A [time.Time] is the instant it denotes, in nanoseconds since the Unix epoch
    (locations and monotonic readings carry no meaning for the code below); its
    zero value is January 1 of year 1. A [time.Duration] is its nanoseconds. *)

Definition Millisecond : Z := 10 ^ 6.
Definition Second : Z := 10 ^ 9.
Definition zero_time : Z := - 62135596800 * Second.
Definition time_IsZero (t : Z) : bool := t =? zero_time.
Definition time_Before (t u : Z) : bool := t <? u.
Definition time_After (t u : Z) : bool := u <? t.
Definition time_Add (t d : Z) : Z := t + d.
Definition time_Unix (t : Z) : Z := t / Second.
Definition time_UnixMilli (t : Z) : Z := t / Millisecond.
Definition time_of_UnixMilli (ms : Z) : Z := ms * Millisecond.

(** ** Errors and results

    An [error] is a package-level sentinel (identified by the variable that holds
    it), an error made on the spot, or an error wrapped with [%w]. *)

Inductive error : Type :=
  | Sentinel (var msg : string)
  | Text (msg : string)
  | Wrapf (context : string) (e : error).

#[export] Instance error_eq_dec : EqDecision error.
Proof. solve_decision. Defined.

(** [errors.Is] against a sentinel: the chain of wrapped errors holds it. *)
Fixpoint errors_Is (e target : error) : bool :=
  match e with
  | Sentinel v _ => match target with Sentinel w _ => bool_decide (v = w) | _ => false end
  | Text _ => false
  | Wrapf _ e' => errors_Is e' target
  end.

(** [err.Error()]; every [%w] of the code stands at the end of its format. *)
Fixpoint error_Error (e : error) : string :=
  match e with
  | Sentinel _ msg => msg
  | Text msg => msg
  | Wrapf context e' => context +:+ ": " +:+ error_Error e'
  end.

(** The errors of a context that ended. *)
Definition Canceled := Sentinel "context.Canceled" "context canceled".
Definition DeadlineExceeded := Sentinel "context.DeadlineExceeded" "context deadline exceeded".

(** What a fallible function returns. *)
Inductive res (A : Type) : Type :=
  | Ok (a : A)
  | Err (e : error).
Arguments Ok {A} a.
Arguments Err {A} e.

#[export] Instance res_eq_dec {A} `{EqDecision A} : EqDecision (res A).
Proof. solve_decision. Defined.

Definition is_ok {A} (r : res A) : bool := match r with Ok _ => true | Err _ => false end.

(** A function that reads and changes a state [S]: its effects remain when it fails. *)
Definition prog (S A : Type) : Type := S -> res A * S.

Definition ret {S A} (a : A) : prog S A := fun s => (Ok a, s).
Definition throw {S A} (e : error) : prog S A := fun s => (Err e, s).
Definition bind {S A B} (p : prog S A) (k : A -> prog S B) : prog S B :=
  fun s => match p s with
           | (Ok a, s') => k a s'
           | (Err e, s') => (Err e, s')
           end.
(** [if err := p(); err != nil { return fmt.Errorf(context, err) }] *)
Definition with_context {S A} (context : string) (p : prog S A) : prog S A :=
  fun s => match p s with
           | (Ok a, s') => (Ok a, s')
           | (Err e, s') => (Err (Wrapf context e), s')
           end.

Notation "x <- p ;; k" := (bind p (fun x => k))
  (at level 100, p at level 99, k at level 200, right associativity) : go_scope.
Lemma bind_ok {S A B} (p : prog S A) (k : A -> prog S B) s b s' :
  bind p k s = (Ok b, s') -> exists a s1, p s = (Ok a, s1) /\ k a s1 = (Ok b, s').
Proof. unfold bind. destruct (p s) as [[a|e] s1]; [eauto | done]. Qed.

Lemma bind_ok_intro {S A B} (p : prog S A) (k : A -> prog S B) s a s1 :
  p s = (Ok a, s1) -> bind p k s = k a s1.
Proof. unfold bind. by intros ->. Qed.

Lemma bind_err_intro {S A B} (p : prog S A) (k : A -> prog S B) s e s1 :
  p s = (Err e, s1) -> bind p k s = (Err e, s1).
Proof. unfold bind. by intros ->. Qed.

Lemma bind_err {S A B} (p : prog S A) (k : A -> prog S B) s e s' :
  bind p k s = (Err e, s') ->
  p s = (Err e, s') \/ exists a s1, p s = (Ok a, s1) /\ k a s1 = (Err e, s').
Proof. unfold bind. destruct (p s) as [[a|e1] s1]; [eauto | intros [= -> ->]; eauto]. Qed.

(** ** Strings

    A Go string is its bytes. [unicode_space s] is the number of bytes of the white space
    character [s] starts with (0 when it starts with none): the characters of
    [unicode.IsSpace], in UTF-8. *)
Definition unicode_space (s : list Z) : nat :=
  match s with
  | b :: s1 =>
      if ((9 <=? b) && (b <=? 13)) || (b =? 32) then 1%nat
      else match s1 with
      | c :: s2 =>
          if (b =? 194) && ((c =? 133) || (c =? 160)) then 2%nat
          else match s2 with
          | d :: _ =>
              if ((b =? 225) && (c =? 154) && (d =? 128))
                 || ((b =? 226) && (c =? 128) &&
                     (((128 <=? d) && (d <=? 138)) || (d =? 168) || (d =? 169) || (d =? 175)))
                 || ((b =? 226) && (c =? 129) && (d =? 159))
                 || ((b =? 227) && (c =? 128) && (d =? 128))
              then 3%nat else 0%nat
          | [] => 0%nat
          end
      | [] => 0%nat
      end
  | [] => 0%nat
  end.

(** The number of bytes of the white space character a string ends with. *)
Definition unicode_space_last (r : list Z) : nat :=
  match r with
  | d :: r1 =>
      if (unicode_space [d] =? 1)%nat then 1%nat
      else match r1 with
      | c :: r2 =>
          if (unicode_space [c; d] =? 2)%nat then 2%nat
          else match r2 with
          | b :: _ => if (unicode_space [b; c; d] =? 3)%nat then 3%nat else 0%nat
          | [] => 0%nat
          end
      | [] => 0%nat
      end
  | [] => 0%nat
  end.

(** Drops characters recognised by [f] from the front; each step drops a byte at least. *)
Fixpoint trim_by (f : list Z -> nat) (fuel : nat) (s : list Z) : list Z :=
  match fuel, f s with
  | S fuel, S n => trim_by f fuel (drop (S n) s)
  | _, _ => s
  end.

Definition string_bytes (s : string) : list Z :=
  (fun a => Z.of_N (Ascii.N_of_ascii a)) <$> String.list_ascii_of_string s.
Definition bytes_string (l : list Z) : string :=
  String.string_of_list_ascii ((fun b => Ascii.ascii_of_N (Z.to_N b)) <$> l).

(** [strings.TrimSpace] *)
Definition TrimSpace (s : string) : string :=
  let l := string_bytes s in
  let l := trim_by unicode_space (length l) l in
  bytes_string (rev (trim_by unicode_space_last (length l) (rev l))).

Example TrimSpace_ex : TrimSpace " 	a b  " = "a b".
Proof. vm_compute. reflexivity. Qed.

(** [strings.HasPrefix] *)
Definition HasPrefix (s p : string) : bool := String.prefix p s.

Lemma HasPrefix_spec s p : HasPrefix s p = true <-> exists x, s = p +:+ x.
Proof.
  unfold HasPrefix. revert s. induction p as [|a p IH]; intros s.
  { split; [intros _; by exists s|]. by destruct s. }
  destruct s as [|b s]; [split; [done|]; intros [x [=]]|].
  change (String.prefix (String.String a p) (String.String b s)) with (if Ascii.ascii_dec a b then String.prefix p s else false).
  destruct (Ascii.ascii_dec a b) as [->|Hne].
  - rewrite IH. split; intros [x E]; exists x; [by rewrite E|by injection E].
  - split; [done|]. by intros [x [= E _]].
Qed.

Lemma append_assoc (s t u : string) : s +:+ (t +:+ u) = (s +:+ t) +:+ u.
Proof.
  induction s as [|a s IH]; [done|]. change (String.String a (s +:+ (t +:+ u)) = String.String a ((s +:+ t) +:+ u)). by rewrite IH.
Qed.

(** ** Lists *)

Lemma NoDup_fmap_inj {A B} (f : A -> B) (l : list A) x y :
  NoDup (f <$> l) -> x ∈ l -> y ∈ l -> f x = f y -> x = y.
Proof.
  induction l as [|b l IH]; intros Hnd Hx Hy Hid; [by apply not_elem_of_nil in Hx|].
  cbn in Hnd. apply NoDup_cons in Hnd as [Hni Hnd].
  assert (forall z, z ∈ l -> f z = f b -> False) as Hz.
  { intros z Hin Hz. apply Hni. apply list_elem_of_fmap. eauto. }
  apply elem_of_cons in Hx as [->|Hx], Hy as [->|Hy]; eauto; exfalso; eauto.
Qed.

(** The middle of a list replaced: who is in the new list. *)
Lemma elem_of_middle {A} (l1 l2 : list A) x y z :
  z ∈ l1 ++ y :: l2 -> z = y \/ z ∈ l1 ++ x :: l2.
Proof. set_solver. Qed.

(** Keys of a list stay unique when an element with a new key is appended, when an
    element is replaced by one with its key, and when elements are dropped. *)
Lemma NoDup_fmap_snoc {A B} (f : A -> B) (l : list A) x :
  NoDup (f <$> l) -> (forall y, y ∈ l -> f y <> f x) -> NoDup (f <$> l ++ [x]).
Proof.
  intros Hnd Hx. rewrite fmap_app. apply NoDup_app. split_and!; [done| |apply NoDup_singleton].
  intros k (y & -> & Hy)%list_elem_of_fmap [E|?%not_elem_of_nil]%elem_of_cons; [|done]. by apply (Hx y).
Qed.

Lemma NoDup_fmap_middle {A B} (f : A -> B) (l1 l2 : list A) x y :
  f y = f x -> NoDup (f <$> l1 ++ x :: l2) -> NoDup (f <$> l1 ++ y :: l2).
Proof. intros E. rewrite !fmap_app, !fmap_cons. by rewrite E. Qed.

Lemma NoDup_fmap_sublist {A B} (f : A -> B) (l l' : list A) :
  l' `sublist_of` l -> NoDup (f <$> l) -> NoDup (f <$> l').
Proof. intros Hs Hnd. eapply sublist_NoDup; [exact Hnd|]. by apply fmap_sublist. Qed.

(** A number above all of a list. *)
Definition above (l : list Z) : Z := 1 + foldr Z.max 0 l.
Lemma above_fresh (l : list Z) : above l ∉ l.
Proof.
  unfold above. assert (forall x, x ∈ l -> x <= foldr Z.max 0 l) as Hmax.
  { induction l as [|y l IH]; intros x Hx; [by apply not_elem_of_nil in Hx|]. simpl.
    apply elem_of_cons in Hx as [->|Hx]; [lia|]. specialize (IH x Hx). lia. }
  intros Hin. apply Hmax in Hin. lia.
Qed.

(** ** Iteration over Go maps

    [range m] visits every entry of a map once, in an order the language leaves open:
    the order is a parameter of the code that iterates. *)
Class MapRange (K V : Type) `{Countable K} := {
  range : gmap K V -> list (K * V);
  range_perm m : range m ≡ₚ map_to_list m
}.

Section map_range.
Context `{MapRange K V}.

Lemma elem_of_range (m : gmap K V) k v : (k, v) ∈ range m <-> m !! k = Some v.
Proof. rewrite range_perm. apply elem_of_map_to_list. Qed.

Lemma NoDup_range_fst (m : gmap K V) : NoDup (range m).*1.
Proof. rewrite range_perm. apply NoDup_fst_map_to_list. Qed.

End map_range.

(** A loop that copies a map entry by entry. *)
Lemma map_copy {K V : Type} `{Countable K} (m : gmap K V) :
  map_fold (fun k v copy => <[k := v]> copy) ∅ m = m.
Proof.
  induction m as [|k v m Hk Hfirst IH] using map_first_key_ind; [done|].
  rewrite map_fold_insert_first_key by done. by rewrite IH.
Qed.

(** The order of the finite map's own enumeration, for closed examples. *)
Definition canonical_range {K V : Type} `{Countable K} : MapRange K V :=
  {| range := map_to_list; range_perm m := Permutation_refl _ |}.
