(* ===== verification/Snowflake.v ===== *)
(** * Snowflake identifiers: [common/idgen/snowflake.go]

    The generator keeps the last millisecond it used and a sequence number within
    it. The clock is the sequence of readings [now 0, now 1, ...] that successive
    calls of [g.now()] return, with no assumption on it: it may stall or go back.
    The mutex makes every call of [Next] a critical section, so a run of concurrent
    callers is a sequence of calls. *)

From S2P Require Import Prelude.

Module Snowflake.

Definition NodeBits : Z := 10.
Definition SequenceBits : Z := 12.
Definition MaxNodeID : Z := Z.shiftl 1 NodeBits - 1.
Definition MaxSequence : Z := Z.shiftl 1 SequenceBits - 1.

Record Generator := mkGenerator {
  nodeID : Z;
  epochMilli : Z;
  lastMilli : Z;
  sequence : Z
}.

Record Parts := mkParts {
  Timestamp : Z;
  NodeID : Z;
  Sequence : Z
}.

(** [clock = false] is the nil clock function. *)
Definition NewWithClock (node epoch : Z) (clock : bool) : res Generator :=
  if MaxNodeID <? node then Err (Text "id generator node id is out of range")
  else if negb clock then Err (Text "id generator clock is required")
  else Ok (mkGenerator node (time_UnixMilli epoch) (-1) 0).

(** January 1, 2026. *)
Definition DefaultEpoch : Z := 1767225600 * Second.
Definition New (node : Z) : res Generator := NewWithClock node DefaultEpoch true.

Section clock.
Context (now : nat -> Z).

(** [i] readings of the clock have been taken before the call. *)
Definition currentMilli (g : Generator) (i : nat) : Z :=
  let milli := int64 (time_UnixMilli (now i) - epochMilli g) in
  if milli <? 0 then 0 else milli.

(** The waiting loop, [fuel] iterations at most; one clock reading per iteration. *)
Fixpoint waitNextMilli (fuel : nat) (g : Generator) (previous : Z) (i : nat) : option (Z * nat) :=
  match fuel with
  | O => None
  | S fuel' =>
      let milli := currentMilli g i in
      if previous <? milli then Some (milli, S i) else waitNextMilli fuel' g previous (S i)
  end.

Definition emit (g : Generator) (milli seq : Z) (i : nat) : Z * Generator * nat :=
  (Z.lor (Z.lor (uint64 (Z.shiftl (uint64 milli) (NodeBits + SequenceBits)))
                (uint64 (Z.shiftl (uint64 (nodeID g)) SequenceBits)))
         (uint64 seq),
   mkGenerator (nodeID g) (epochMilli g) milli seq,
   i).

Definition Next (fuel : nat) (g : Generator) (i : nat) : option (Z * Generator * nat) :=
  let milli := currentMilli g i in
  let milli := if milli <? lastMilli g then lastMilli g else milli in
  if milli =? lastMilli g then
    if sequence g =? MaxSequence then
      match waitNextMilli fuel g (lastMilli g) (S i) with
      | None => None
      | Some (milli', i') => Some (emit g milli' 0 i')
      end
    else Some (emit g milli (uint16 (sequence g + 1)) (S i))
  else Some (emit g milli 0 (S i)).

Definition Parse (g : Generator) (id : Z) : Parts :=
  let milli := int64 (Z.shiftr id (NodeBits + SequenceBits)) in
  mkParts (time_of_UnixMilli (int64 (epochMilli g + milli)))
          (uint16 (Z.land (Z.shiftr id SequenceBits) MaxNodeID))
          (uint16 (Z.land id MaxSequence)).

(** [count] successive calls of [Next], by any number of callers. *)
Fixpoint NextN (fuel count : nat) (g : Generator) (i : nat) : option (list Z * Generator * nat) :=
  match count with
  | O => Some ([], g, i)
  | S count' =>
      match Next fuel g i with
      | None => None
      | Some (id, g1, i1) =>
          match NextN fuel count' g1 i1 with
          | None => None
          | Some (ids, g2, i2) => Some (id :: ids, g2, i2)
          end
      end
  end.

(** *** Invariant and representation *)

Definition wf (g : Generator) : Prop :=
  0 <= nodeID g <= MaxNodeID /\ 0 <= sequence g <= MaxSequence /\ -1 <= lastMilli g.

(** The timestamps that fit beside the node and sequence fields. *)
Definition fits (milli : Z) : Prop := milli < 2 ^ 42.

(** The position of a generator in the total order of the ids it can still emit. *)
Definition rank (g : Generator) : Z := lastMilli g * 2 ^ 22 + nodeID g * 2 ^ 12 + sequence g.

Lemma new_wf node epoch clock g :
  0 <= node -> NewWithClock node epoch clock = Ok g -> wf g.
Proof.
  unfold NewWithClock, wf. intros. repeat case_on; simplify_eq; simpl; breflect.
  repeat split; try lia; by vm_compute.
Qed.

Lemma currentMilli_nonneg g i : 0 <= currentMilli g i.
Proof. unfold currentMilli. case_on; breflect; lia. Qed.

Lemma waitNextMilli_gt fuel g p i m j :
  waitNextMilli fuel g p i = Some (m, j) -> p < m.
Proof.
  revert i. induction fuel as [|fuel IH]; simpl; intros i H; [done|].
  case_on; [|eauto]. breflect. simplify_eq. done.
Qed.

(** The field values one call of [Next] emits. *)
Lemma Next_emits fuel g i r :
  wf g -> Next fuel g i = Some r ->
  exists m s j, r = emit g m s j /\ 0 <= m /\ 0 <= s <= MaxSequence /\
    (lastMilli g < m \/ m = lastMilli g /\ s = sequence g + 1).
Proof.
  unfold Next, wf. intros (Hn & Hs & Hl) H.
  pose proof (currentMilli_nonneg g i) as Hc. change MaxSequence with 4095 in *.
  destruct (currentMilli g i <? lastMilli g) eqn:E1;
    repeat case_on; breflect; simplify_eq; try lia.
  all: do 3 eexists; split; [done|].
  all: try match goal with H : waitNextMilli _ _ _ _ = _ |- _ =>
    pose proof (waitNextMilli_gt _ _ _ _ _ _ H) end.
  all: rewrite ?uint16_id by lia; lia.
Qed.

(** What one call of [Next] does to the generator. *)
Lemma Next_step fuel g i id g' i' :
  wf g -> Next fuel g i = Some (id, g', i') ->
  wf g' /\ nodeID g' = nodeID g /\ epochMilli g' = epochMilli g /\ 0 <= lastMilli g' /\
  (lastMilli g < lastMilli g' \/ lastMilli g' = lastMilli g /\ sequence g' = sequence g + 1) /\
  id = fst (fst (emit g' (lastMilli g') (sequence g') i')).
Proof.
  intros Hwf H. destruct (Next_emits _ _ _ _ Hwf H) as (m & s & j & He & Hm & Hs & Hd).
  unfold emit in He. simplify_eq. destruct Hwf as (? & ? & ?).
  unfold wf. simpl. repeat split; try done; lia.
Qed.

Lemma emit_rank g i :
  wf g -> 0 <= lastMilli g -> fits (lastMilli g) ->
  fst (fst (emit g (lastMilli g) (sequence g) i)) = rank g.
Proof.
  unfold wf, fits, emit, rank. intros (Hn & Hs & _) Hl Hf. simpl.
  assert (MaxSequence = 4095) as HM by done. assert (MaxNodeID = 1023) as HN by done.
  rewrite !Z.shiftl_mul_pow2 by done.
  change (NodeBits + SequenceBits) with 22. change SequenceBits with 12.
  rewrite (uint64_id (lastMilli g)), (uint64_id (nodeID g)), (uint64_id (sequence g))
    by (unfold in_uint64; lia).
  rewrite !uint64_id by (unfold in_uint64; lia).
  rewrite lor_field by lia.
  replace (lastMilli g * 2 ^ 22 + nodeID g * 2 ^ 12)
    with ((lastMilli g * 2 ^ 10 + nodeID g) * 2 ^ 12) by lia.
  rewrite lor_field by lia. lia.
Qed.

Lemma Next_rank fuel g i id g' i' :
  wf g -> Next fuel g i = Some (id, g', i') -> fits (lastMilli g') ->
  id = rank g' /\ wf g' /\ rank g < rank g' /\ nodeID g' = nodeID g /\ lastMilli g <= lastMilli g'.
Proof.
  intros Hwf H Hf. destruct (Next_step _ _ _ _ _ _ Hwf H) as (Hwf' & Hn & _ & Hl & Hd & ->).
  rewrite emit_rank by done. repeat split; try done; try apply Hwf'; [|lia].
  destruct Hwf as (? & Hs & ?), Hwf' as (? & Hs' & ?). unfold rank.
  change MaxSequence with 4095 in *. lia.
Qed.

Lemma NextN_lastMilli fuel n g i ids g' i' :
  wf g -> NextN fuel n g i = Some (ids, g', i') -> lastMilli g <= lastMilli g'.
Proof.
  revert g i ids. induction n as [|n IH]; simpl; intros g i ids Hwf H; [by simplify_eq|].
  repeat case_on; simplify_eq.
  match goal with H : Next _ _ _ = _ |- _ =>
    destruct (Next_step _ _ _ _ _ _ Hwf H) as (Hwf' & _ & _ & _ & Hd & _) end.
  match goal with H : NextN _ _ _ _ = _ |- _ => apply IH in H; [lia|done] end.
Qed.

Lemma NextN_above fuel n g i ids g' i' :
  wf g -> NextN fuel n g i = Some (ids, g', i') -> fits (lastMilli g') ->
  StronglySorted Z.lt ids /\ Forall (fun id => rank g < id) ids.
Proof.
  revert g i ids. induction n as [|n IH]; simpl; intros g i ids Hwf H Hf.
  { simplify_eq. split; constructor. }
  destruct (Next fuel g i) as [[[id g1] i1]|] eqn:E1; [|done].
  destruct (NextN fuel n g1 i1) as [[[ids' g2] i2]|] eqn:E2; [|done]. simplify_eq.
  destruct (Next_step _ _ _ _ _ _ Hwf E1) as (Hwf1 & _).
  pose proof (NextN_lastMilli _ _ _ _ _ _ _ Hwf1 E2).
  assert (fits (lastMilli g1)) as Hf1 by (unfold fits in *; lia).
  destruct (Next_rank _ _ _ _ _ _ Hwf E1 Hf1) as (-> & _ & Hr & _).
  destruct (IH _ _ _ Hwf1 E2 Hf) as [Hs Ha]. split; constructor; try done.
  eapply Forall_impl; [done|]. simpl. lia.
Qed.

(** The fields of an id, by division with remainder. *)
Lemma Parse_rank g :
  wf g -> 0 <= lastMilli g -> fits (lastMilli g) -> in_int64 (epochMilli g + lastMilli g) ->
  Parse g (rank g) =
    mkParts (time_of_UnixMilli (epochMilli g + lastMilli g)) (nodeID g) (sequence g).
Proof.
  unfold wf, fits, Parse, rank. intros (Hn & Hs & _) Hl Hf He.
  change MaxSequence with (Z.ones 12) in *. change MaxNodeID with (Z.ones 10) in *.
  change (NodeBits + SequenceBits) with 22. change SequenceBits with 12.
  change (Z.ones 12) with 4095 in Hs. change (Z.ones 10) with 1023 in Hn.
  rewrite !Z.land_ones, !Z.shiftr_div_pow2 by done.
  set (m := lastMilli g) in *. set (n := nodeID g) in *. set (s := sequence g) in *.
  replace ((m * 2 ^ 22 + n * 2 ^ 12 + s) / 2 ^ 22) with m
    by (apply (Z.div_unique _ _ _ (n * 2 ^ 12 + s)); lia).
  replace ((m * 2 ^ 22 + n * 2 ^ 12 + s) / 2 ^ 12) with (m * 2 ^ 10 + n)
    by (apply (Z.div_unique _ _ _ s); lia).
  replace ((m * 2 ^ 10 + n) mod 2 ^ 10) with n
    by (apply (Z.mod_unique _ _ m); lia).
  replace ((m * 2 ^ 22 + n * 2 ^ 12 + s) mod 2 ^ 12) with s
    by (apply (Z.mod_unique _ _ (m * 2 ^ 10 + n)); lia).
  rewrite !uint16_id by lia. rewrite (int64_id m) by (unfold in_int64; lia).
  by rewrite int64_id.
Qed.

Lemma waitNextMilli_fuel g p i k fuel :
  p < currentMilli g (i + k) -> (k < fuel)%nat -> is_Some (waitNextMilli fuel g p i).
Proof.
  revert i k. induction fuel as [|fuel IH]; intros i k H Hk; [lia|]. simpl.
  destruct (p <? currentMilli g i) eqn:E; [eauto|]. breflect.
  destruct k as [|k]; [rewrite Nat.add_0_r in H; lia|].
  apply (IH (S i) k); [|lia]. by replace (S i + k)%nat with (i + S k)%nat by lia.
Qed.

(** C27 A generator made by [NewWithClock] hands out strictly increasing, hence pairwise
    distinct, identifiers over any number of calls of [Next], whatever the clock does
    (it may stall or run backwards), as long as the timestamps fit their 42 bits. *)
Theorem ids_strictly_increasing node epoch clock g fuel count i ids g' i' :
  0 <= node ->
  NewWithClock node epoch clock = Ok g ->
  NextN fuel count g i = Some (ids, g', i') ->
  fits (lastMilli g') ->
  StronglySorted Z.lt ids /\ length ids = count.
Proof.
  intros Hn Hnew HN Hf. pose proof (new_wf _ _ _ _ Hn Hnew) as Hwf. split.
  - by destruct (NextN_above _ _ _ _ _ _ _ Hwf HN Hf).
  - clear -HN. revert g i ids HN. induction count as [|c IH]; simpl; intros; [by simplify_eq|].
    repeat case_on; simplify_eq. simpl. f_equal. eauto.
Qed.

(** Reading an identifier back with [Parse] gives the node, the sequence number and
    the timestamp the generator used for it. *)
Theorem parse_next_roundtrip fuel g i id g' i' :
  wf g ->
  Next fuel g i = Some (id, g', i') ->
  fits (lastMilli g') ->
  in_int64 (epochMilli g + lastMilli g') ->
  Parse g id = mkParts (time_of_UnixMilli (epochMilli g + lastMilli g')) (nodeID g) (sequence g').
Proof.
  intros Hwf H Hf He. destruct (Next_rank _ _ _ _ _ _ Hwf H Hf) as (-> & Hwf' & _ & Hn & _).
  destruct (Next_step _ _ _ _ _ _ Hwf H) as (_ & _ & Hep & Hl & _).
  rewrite <- Hep in He. rewrite <- Hn, <- Hep, <- (Parse_rank g' Hwf' Hl Hf He).
  unfold Parse. by rewrite Hep.
Qed.

(** C28 [Next] returns as soon as the clock passes the generator's last millisecond: with
    that reading [k] readings ahead, any amount of fuel above [k] is enough, and when the
    sequence number is not exhausted no fuel is needed at all. *)
Theorem next_returns g i :
  (sequence g <> MaxSequence -> forall fuel, is_Some (Next fuel g i)) /\
  (forall k fuel, lastMilli g < currentMilli g (S i + k) -> (k < fuel)%nat ->
     is_Some (Next fuel g i)).
Proof.
  unfold Next. split.
  - intros Hs fuel. apply Z.eqb_neq in Hs. rewrite Hs. repeat case_on; eauto.
  - intros k fuel H Hk. destruct (waitNextMilli_fuel g (lastMilli g) (S i) k fuel H Hk) as [[m j] E].
    rewrite E. repeat case_on; eauto.
Qed.

End clock.

(** Two generators of one deployment, each with a clock of its own. *)
Lemma NextN_node now fuel count g i ids g' i' id :
  wf g -> NextN now fuel count g i = Some (ids, g', i') -> fits (lastMilli g') ->
  id ∈ ids -> Z.land (Z.shiftr id SequenceBits) MaxNodeID = nodeID g.
Proof.
  revert g i ids. induction count as [|n IH]; simpl; intros g i ids Hwf H Hf Hin.
  { simplify_eq. by apply not_elem_of_nil in Hin. }
  destruct (Next now fuel g i) as [[[id1 g1] i1]|] eqn:E1; [|done].
  destruct (NextN now fuel n g1 i1) as [[[ids' g2] i2]|] eqn:E2; [|done]. simplify_eq.
  destruct (Next_step _ _ _ _ _ _ _ Hwf E1) as (Hwf1 & Hn & _ & Hl & _).
  pose proof (NextN_lastMilli _ _ _ _ _ _ _ _ Hwf1 E2).
  assert (fits (lastMilli g1)) as Hf1 by (unfold fits in *; lia).
  apply elem_of_cons in Hin as [->|Hin].
  - destruct (Next_rank _ _ _ _ _ _ _ Hwf E1 Hf1) as (-> & _ & _ & <- & _).
    destruct Hwf1 as (Hn1 & Hs1 & _). unfold rank.
    change MaxNodeID with (Z.ones 10) in *. change MaxSequence with 4095 in *.
    change (Z.ones 10) with 1023 in Hn1. change SequenceBits with 12.
    rewrite Z.land_ones, Z.shiftr_div_pow2 by done.
    replace ((lastMilli g1 * 2 ^ 22 + nodeID g1 * 2 ^ 12 + sequence g1) / 2 ^ 12)
      with (lastMilli g1 * 2 ^ 10 + nodeID g1)
      by (apply (Z.div_unique _ _ _ (sequence g1)); lia).
    symmetry. apply (Z.mod_unique _ _ (lastMilli g1)); lia.
  - rewrite <- Hn. eapply IH; eauto.
Qed.

(** Generators configured with different node numbers never produce the same
    identifier, whatever their clocks. *)
Theorem ids_of_nodes_disjoint now1 now2 fuel1 fuel2 n1 n2 g1 g2 i1 i2 ids1 ids2 g1' g2' j1 j2 id :
  wf g1 -> wf g2 -> nodeID g1 <> nodeID g2 ->
  NextN now1 fuel1 n1 g1 i1 = Some (ids1, g1', j1) -> fits (lastMilli g1') ->
  NextN now2 fuel2 n2 g2 i2 = Some (ids2, g2', j2) -> fits (lastMilli g2') ->
  id ∈ ids1 -> ~ id ∈ ids2.
Proof.
  intros W1 W2 Hne H1 F1 H2 F2 I1 I2. apply Hne.
  by rewrite <- (NextN_node _ _ _ _ _ _ _ _ _ W1 H1 F1 I1),
             <- (NextN_node _ _ _ _ _ _ _ _ _ W2 H2 F2 I2).
Qed.

(** *** Witnesses: a clock that goes backwards after its second reading *)

Definition skewed_clock (i : nat) : Z :=
  match i with
  | 0%nat => 5 * Second
  | 1%nat => 7 * Second
  | _ => 6 * Second
  end.

Definition sample : Generator := mkGenerator 7 0 (-1) 0.

Definition sample_run : list Z * Generator * nat :=
  match NextN skewed_clock 0 4 sample 0 with Some r => r | None => ([], sample, 0%nat) end.

Lemma ids_strictly_increasing_witness :
  StronglySorted Z.lt (fst (fst sample_run)) /\ length (fst (fst sample_run)) = 4%nat.
Proof.
  apply (ids_strictly_increasing skewed_clock 7 0 true sample 0 4 0
           (fst (fst sample_run)) (snd (fst sample_run)) (snd sample_run));
    by vm_compute.
Defined.

Lemma parse_next_roundtrip_witness :
  Parse sample (Z.lor (Z.shiftl 5000 22) (Z.shiftl 7 12)) = mkParts (5 * Second) 7 0.
Proof.
  apply (parse_next_roundtrip skewed_clock 0 sample 0 _ (mkGenerator 7 0 5000 0) 1);
    by vm_compute.
Defined.

Definition exhausted : Generator := mkGenerator 7 0 5000 4095.

Lemma next_returns_witness :
  (sequence sample <> MaxSequence /\ is_Some (Next skewed_clock 0 sample 0)) /\
  is_Some (Next skewed_clock 1 exhausted 0).
Proof.
  split; [split; [by vm_compute|]; apply (next_returns skewed_clock sample 0); by vm_compute|].
  apply (next_returns skewed_clock exhausted 0) with (k := 0%nat); [by vm_compute | lia].
Defined.

Lemma ids_of_nodes_disjoint_witness :
  ~ (Z.lor (Z.shiftl 5000 22) (Z.shiftl 7 12)) ∈ [Z.lor (Z.shiftl 5000 22) (Z.shiftl 8 12)].
Proof.
  apply (ids_of_nodes_disjoint skewed_clock skewed_clock 0 0 1 1
           sample (mkGenerator 8 0 (-1) 0) 0 0
           [Z.lor (Z.shiftl 5000 22) (Z.shiftl 7 12)] [Z.lor (Z.shiftl 5000 22) (Z.shiftl 8 12)]
           (mkGenerator 7 0 5000 0) (mkGenerator 8 0 5000 0) 1 1);
    try (by vm_compute); by constructor.
Defined.

End Snowflake.
