(* ===== verification/Breaker.v ===== *)
(** * Circuit breaker: [common/reliability/breaker.go], [observer.go]

    The breaker is a record; [allow] and [complete] are its two critical sections.
    Every reading of [time.Now()] is an argument. What the observer is told is the
    list of notifications an operation produces (none when no observer is set).
    The second half gives the abstract circuit breaker that sequential callers see,
    and the interleavings that concurrent callers produce. *)

From S2P Require Import Prelude.

Module Breaker.

Definition ErrCircuitOpen : error :=
  Sentinel "reliability.ErrCircuitOpen" "circuit breaker is open".

Inductive CircuitState := CircuitStateClosed | CircuitStateOpen | CircuitStateHalfOpen.

#[export] Instance CircuitState_eq_dec : EqDecision CircuitState.
Proof. solve_decision. Defined.

(** The calls made to a [CircuitObserver]. *)
Inductive notification :=
  | OnCall (result : string)
  | OnStateChange (from to : CircuitState).

Record CircuitBreaker := mkBreaker {
  failures : Z;
  threshold : Z;
  openUntil : Z;
  resetTimeout : Z;
  state : CircuitState;
  observer : bool
}.

Definition set_state (b : CircuitBreaker) (s : CircuitState) : CircuitBreaker :=
  mkBreaker (failures b) (threshold b) (openUntil b) (resetTimeout b) s (observer b).

Definition NewCircuitBreaker (failureThreshold reset : Z) (observed : bool) : CircuitBreaker :=
  mkBreaker 0
    (if failureThreshold <? 1 then 1 else failureThreshold)
    zero_time
    (if reset <=? 0 then Second else reset)
    CircuitStateClosed observed.

Definition notify (b : CircuitBreaker) (n : notification) : list notification :=
  if observer b then [n] else [].

Definition notifyStateChange (b : CircuitBreaker) (from to : CircuitState) : list notification :=
  notify b (OnStateChange from to).

Definition allow (b : CircuitBreaker) (now : Z) : bool * CircuitBreaker * list notification :=
  match state b with
  | CircuitStateClosed => (true, b, [])
  | CircuitStateOpen =>
      if time_Before now (openUntil b) then (false, b, [])
      else
        let b' := set_state b CircuitStateHalfOpen in
        (true, b', notifyStateChange b' CircuitStateOpen CircuitStateHalfOpen)
  | CircuitStateHalfOpen => (false, b, [])
  end.

(** [err = None] is the nil error. *)
Definition complete (b : CircuitBreaker) (err : option error) (now : Z)
    : CircuitBreaker * list notification :=
  match err with
  | None =>
      let b' := mkBreaker 0 (threshold b) zero_time (resetTimeout b) CircuitStateClosed (observer b) in
      if decide (state b = CircuitStateClosed) then (b', [])
      else (b', notifyStateChange b' (state b) CircuitStateClosed)
  | Some _ =>
      let f := failures b + 1 in
      if threshold b <=? f then
        let b' := mkBreaker f (threshold b) (time_Add now (resetTimeout b)) (resetTimeout b)
                    CircuitStateOpen (observer b) in
        if decide (state b = CircuitStateOpen) then (b', [])
        else (b', notifyStateChange b' (state b) CircuitStateOpen)
      else (mkBreaker f (threshold b) (openUntil b) (resetTimeout b) (state b) (observer b), [])
  end.

Definition State (b : option CircuitBreaker) : CircuitState :=
  match b with None => CircuitStateClosed | Some b => state b end.

Definition SetObserver (b : CircuitBreaker) (present : bool) : CircuitBreaker * list notification :=
  (mkBreaker (failures b) (threshold b) (openUntil b) (resetTimeout b) (state b) present,
   if present then [OnStateChange (state b) (state b)] else []).

Definition call_result (err : option error) (counts : bool) : string :=
  match err with
  | None => "success"
  | Some _ => if counts then "failure" else "ignored_failure"
  end.

(** [ExecuteClassified] by a single caller: [now1] is read by [allow], [now2] by
    [complete]; the operation works on a world [W]. *)
Definition ExecuteClassified {W : Type} (b : CircuitBreaker)
    (operation : W -> option error * W) (countsFailure : option (option error -> bool))
    (now1 now2 : Z) (w : W) : option error * CircuitBreaker * W * list notification :=
  let '(allowed, b1, n1) := allow b now1 in
  if negb allowed then (Some ErrCircuitOpen, b1, w, n1 ++ notify b1 (OnCall "circuit_open"))
  else
    let '(err, w') := operation w in
    let counts := match countsFailure with None => true | Some f => f err end in
    let '(b2, n2) := complete b1 (if counts then err else None) now2 in
    (err, b2, w', n1 ++ n2 ++ notify b2 (OnCall (call_result err counts))).

Definition Execute {W : Type} (b : CircuitBreaker) (operation : W -> option error * W)
    (now1 now2 : Z) (w : W) : option error * CircuitBreaker * W * list notification :=
  ExecuteClassified b operation (Some (fun _ => true)) now1 now2 w.

(** A nil breaker runs the operation. *)
Definition ExecuteClassified_nil {W : Type} (b : option CircuitBreaker)
    (operation : W -> option error * W) (countsFailure : option (option error -> bool))
    (now1 now2 : Z) (w : W) : option error * option CircuitBreaker * W * list notification :=
  match b with
  | None => let '(err, w') := operation w in (err, None, w', [])
  | Some b =>
      let '(err, b', w', n) := ExecuteClassified b operation countsFailure now1 now2 w in
      (err, Some b', w', n)
  end.

(** ** The abstract circuit breaker *)

Inductive spec_state :=
  | SClosed (consecutive : Z)
  | SOpen (until : Z).

(** One call of a caller who is alone: [None] when it was turned away, otherwise
    whether the operation failed in a way that counts. *)
Definition spec_call (thr reset : Z) (s : spec_state) (now1 now2 : Z) (fails : bool)
    : option bool * spec_state :=
  match s with
  | SClosed n =>
      (Some fails,
       if fails then if thr <=? n + 1 then SOpen (time_Add now2 reset) else SClosed (n + 1)
       else SClosed 0)
  | SOpen u =>
      if time_Before now1 u then (None, s)
      else (Some fails, if fails then SOpen (time_Add now2 reset) else SClosed 0)
  end.

(** A call as its caller sees it: the two clock readings, the operation's error and
    whether that error counts. *)
Record call := mkCall { c_now1 : Z; c_now2 : Z; c_err : option error; c_counts : bool }.

Definition call_fails (c : call) : bool :=
  c_counts c && match c_err c with None => false | Some _ => true end.

Fixpoint spec_run (thr reset : Z) (s : spec_state) (cs : list call) : list (option bool) :=
  match cs with
  | [] => []
  | c :: cs' =>
      let '(o, s') := spec_call thr reset s (c_now1 c) (c_now2 c) (call_fails c) in
      o :: spec_run thr reset s' cs'
  end.

(** The breaker run on the same calls; the world counts the operations that ran. *)
Fixpoint run (b : CircuitBreaker) (ran : Z) (cs : list call) : list (option error * Z) :=
  match cs with
  | [] => []
  | c :: cs' =>
      let '(err, b', ran', _) :=
        ExecuteClassified b (fun n => (c_err c, n + 1)) (Some (fun _ => c_counts c))
          (c_now1 c) (c_now2 c) ran in
      (err, ran') :: run b' ran' cs'
  end.

(** What the abstract run predicts for the caller's error and the number of runs. *)
Fixpoint predicted (ran : Z) (cs : list call) (os : list (option bool)) : list (option error * Z) :=
  match cs, os with
  | c :: cs', o :: os' =>
      match o with
      | None => (Some ErrCircuitOpen, ran) :: predicted ran cs' os'
      | Some _ => (c_err c, ran + 1) :: predicted (ran + 1) cs' os'
      end
  | _, _ => []
  end.

Definition abstracts (b : CircuitBreaker) (s : spec_state) : Prop :=
  match s with
  | SClosed n => state b = CircuitStateClosed /\ failures b = n /\ n < threshold b
  | SOpen u => state b = CircuitStateOpen /\ openUntil b = u /\ threshold b <= failures b
  end.

(** ** Concurrent callers *)

(** The breaker with the number of admitted calls that have not completed yet. *)
Inductive step : CircuitBreaker * nat -> CircuitBreaker * nat -> Prop :=
  | step_admit b n now b' ns :
      allow b now = (true, b', ns) -> step (b, n) (b', S n)
  | step_reject b n now b' ns :
      allow b now = (false, b', ns) -> step (b, n) (b', n)
  | step_complete b n err now b' ns :
      complete b err now = (b', ns) -> step (b, S n) (b', n).

Definition inv (b : CircuitBreaker) : Prop :=
  1 <= threshold b /\ 0 <= failures b /\
  (state b = CircuitStateClosed -> failures b < threshold b) /\
  (state b <> CircuitStateClosed -> threshold b <= failures b).

Lemma new_inv thr reset o : inv (NewCircuitBreaker thr reset o).
Proof. unfold inv, NewCircuitBreaker. simpl. case_on; breflect; naive_solver lia. Qed.

Lemma allow_inv b now ok b' ns : inv b -> allow b now = (ok, b', ns) -> inv b'.
Proof.
  unfold inv, allow, set_state. intros (Ht & Hf & Hc & Ho) Hr.
  repeat case_on; simplify_eq; simpl; try done; split_and?; try done; intros;
    try congruence; first [by apply Hc | by apply Ho].
Qed.

Lemma complete_inv b err now b' ns : inv b -> complete b err now = (b', ns) -> inv b'.
Proof.
  unfold inv, complete. intros (Ht & Hf & Hc & Ho) Hr.
  repeat case_on; simplify_eq; simpl; breflect; try naive_solver lia.
Qed.

#[export] Hint Resolve new_inv allow_inv complete_inv : go.

Lemma steps_inv c c' : rtc step c c' -> inv (fst c) -> inv (fst c').
Proof.
  induction 1 as [|c1 c2 c3 H _ IH]; [done|]. intros Hi. apply IH.
  destruct H; simpl in *; eauto with go.
Qed.

(** The breaker and the abstract breaker take one call in lockstep. *)
Lemma execute_simulates b s c ran :
  abstracts b s -> 1 <= threshold b ->
  exists b' s' ns,
    ExecuteClassified b (fun n => (c_err c, n + 1)) (Some (fun _ => c_counts c))
      (c_now1 c) (c_now2 c) ran =
      ((match fst (spec_call (threshold b) (resetTimeout b) s (c_now1 c) (c_now2 c) (call_fails c)) with
        | None => Some ErrCircuitOpen | Some _ => c_err c end), b',
       (match fst (spec_call (threshold b) (resetTimeout b) s (c_now1 c) (c_now2 c) (call_fails c)) with
        | None => ran | Some _ => ran + 1 end), ns) /\
    snd (spec_call (threshold b) (resetTimeout b) s (c_now1 c) (c_now2 c) (call_fails c)) = s' /\
    abstracts b' s' /\ threshold b' = threshold b /\ resetTimeout b' = resetTimeout b.
Proof.
  intros Ha Ht. unfold ExecuteClassified, allow, spec_call, call_fails.
  destruct c as [now1 now2 err counts]; simpl.
  destruct s as [n|u]; destruct Ha as (Hs & Hf & Hl); simpl in *; rewrite Hs.
  - destruct counts, err as [e|]; simpl; rewrite ?Hs, ?Hf; simpl;
      repeat case_on; simplify_eq; do 3 eexists; split_and!; try done; simpl; breflect;
      split_and?; try done; lia.
  - rewrite Hf. destruct (time_Before now1 u) eqn:E; simpl.
    { do 3 eexists; split_and!; try done. }
    assert ((threshold b <=? failures b + 1) = true) as Hle by (apply Z.leb_le; lia).
    destruct counts, err as [e|]; simpl; rewrite ?Hle; simpl;
      do 3 eexists; split_and!; try done; simpl; split_and?; try done; lia.
Qed.

(** C29 Callers that take turns cannot tell the breaker from the abstract one: over any
    sequence of calls, the error each call returns and the operations that actually ran
    are the ones the abstract breaker predicts (closed until [threshold] consecutive
    counted failures, then closed to callers until the reset timeout, then one probe). *)
Theorem breaker_refines_spec thr reset o cs ran :
  run (NewCircuitBreaker thr reset o) ran cs =
  predicted ran cs
    (spec_run (threshold (NewCircuitBreaker thr reset o))
              (resetTimeout (NewCircuitBreaker thr reset o)) (SClosed 0) cs).
Proof.
  assert (abstracts (NewCircuitBreaker thr reset o) (SClosed 0) /\
          1 <= threshold (NewCircuitBreaker thr reset o)) as [Ha Ht].
  { unfold NewCircuitBreaker. simpl. case_on; breflect; split_and!; lia || done. }
  revert ran Ha Ht. generalize (SClosed 0). generalize (NewCircuitBreaker thr reset o).
  induction cs as [|c cs IH]; intros b s ran Ha Ht; [done|]. simpl.
  destruct (execute_simulates b s c ran Ha Ht) as (b' & s' & ns & Hex & Hs & Ha' & Ht' & Hr').
  rewrite Hex. destruct (spec_call _ _ _ _ _ _) as [[f|] s1] eqn:E; simpl in *; subst s1.
  all: rewrite <- Ht', <- Hr'; f_equal; apply IH; try done; lia.
Qed.

(** C30 Under any interleaving of concurrent callers, a closed breaker has fewer counted
    failures than its threshold; while it is not closed every further caller is turned
    away until the reset timeout, and a half-open breaker admits nobody beyond the probe
    that opened it; a failing completion always leaves a non-closed breaker open. *)
Theorem concurrent_breaker_safe thr reset o b n :
  rtc step (NewCircuitBreaker thr reset o, 0%nat) (b, n) ->
  (state b = CircuitStateClosed -> failures b < threshold b) /\
  (state b = CircuitStateOpen -> forall now, now < openUntil b -> fst (fst (allow b now)) = false) /\
  (state b = CircuitStateHalfOpen -> forall now, allow b now = (false, b, [])) /\
  (state b <> CircuitStateClosed -> forall e now,
     state (fst (complete b (Some e) now)) = CircuitStateOpen /\
     openUntil (fst (complete b (Some e) now)) = now + resetTimeout b).
Proof.
  intros H. apply steps_inv in H; [|apply new_inv]. destruct H as (? & ? & Hc & Ho). simpl in *.
  split_and!; [done| | |].
  - intros Hs now Hn. unfold allow. rewrite Hs. apply Z.ltb_lt in Hn.
    unfold time_Before. by rewrite Hn.
  - intros Hs now. unfold allow. by rewrite Hs.
  - intros Hs e now. specialize (Ho Hs). unfold complete.
    assert ((threshold b <=? failures b + 1) = true) as -> by (apply Z.leb_le; lia).
    by case_decide.
Qed.

Definition tripped : CircuitBreaker := mkBreaker 1 1 15 10 CircuitStateOpen false.

Lemma concurrent_breaker_safe_witness :
  rtc step (NewCircuitBreaker 1 10 false, 0%nat) (tripped, 1%nat) /\
  fst (fst (allow tripped 7)) = false.
Proof.
  assert (rtc step (NewCircuitBreaker 1 10 false, 0%nat) (tripped, 1%nat)) as Hr.
  { eapply rtc_l; [by eapply (step_admit _ _ 3)|]. eapply rtc_l; [by eapply (step_admit _ _ 4)|].
    eapply rtc_l; [by eapply (step_complete _ _ (Some (Text "refused")) 5)|]. constructor. }
  split; [exact Hr|].
  by apply (concurrent_breaker_safe 1 10 false tripped 1%nat Hr).
Defined.

End Breaker.
