(* ===== verification/Retry.v ===== *)
(** * Retries with exponential backoff: [common/reliability/retry.go]

    [Do] is the loop over attempts. The operation works on a world [W] (it may fail
    differently on every attempt); [ctx] tells, for each wait, whether the context
    ended before the timer fired. The log records what the observer is told and the
    delay of every wait. *)

From S2P Require Import Prelude.

Module Retry.

Record RetryPolicy := mkPolicy {
  MaxAttempts : Z;
  InitialDelay : Z;
  MaxDelay : Z;
  ShouldRetry : option (error -> bool);
  Observed : bool
}.

Inductive entry :=
  | OnAttempt (attempt : Z)
  | OnRetry (attempt : Z) (err : error)
  | Waits (delay : Z)
  | OnComplete (attempts : Z) (exhausted : bool) (err : option error).

(** The defaults [Do] puts in place of unset limits. *)
Definition normalize (p : RetryPolicy) : RetryPolicy :=
  mkPolicy
    (if MaxAttempts p <=? 0 then 1 else MaxAttempts p)
    (if InitialDelay p <=? 0 then 10 * Millisecond else InitialDelay p)
    (if MaxDelay p <=? 0 then Second else MaxDelay p)
    (ShouldRetry p) (Observed p).

Definition tell (p : RetryPolicy) (e : entry) : list entry := if Observed p then [e] else [].

(** [p.InitialDelay << attempt], capped: a 64-bit shift. *)
Definition backoff (p : RetryPolicy) (attempt : Z) : Z :=
  let delay := int64 (Z.shiftl (InitialDelay p) attempt) in
  if MaxDelay p <? delay then MaxDelay p else delay.

Section loop.
Context {W : Type} (operation : W -> option error * W) (ctx : Z -> option error).

(** The loop from [attempt] on, [remaining] attempts being left. *)
Fixpoint attempts (p : RetryPolicy) (remaining : nat) (attempt : Z) (err : option error) (w : W)
    : option error * W * list entry :=
  match remaining with
  | O => (err, w, tell p (OnComplete (MaxAttempts p) (1 <? MaxAttempts p) err))
  | S remaining' =>
      let currentAttempt := attempt + 1 in
      let '(err, w) := operation w in
      let pre := tell p (OnAttempt currentAttempt) in
      match err with
      | None => (None, w, pre ++ tell p (OnComplete currentAttempt false None))
      | Some e =>
          let shouldRetry := (attempt + 1 <? MaxAttempts p) &&
            match ShouldRetry p with None => true | Some f => f e end in
          if negb shouldRetry then
            (Some e, w, pre ++ tell p (OnComplete currentAttempt
               ((0 <? attempt) && (MaxAttempts p <=? attempt + 1)) (Some e)))
          else
            let pre := pre ++ tell p (OnRetry currentAttempt e) ++ [Waits (backoff p attempt)] in
            match ctx attempt with
            | None =>
                let '(err', w', log) := attempts p remaining' (attempt + 1) (Some e) w in
                (err', w', pre ++ log)
            | Some ce => (Some ce, w, pre ++ tell p (OnComplete currentAttempt false (Some ce)))
            end
      end
  end.

Definition Do (p : RetryPolicy) (w : W) : option error * W * list entry :=
  let p := normalize p in attempts p (Z.to_nat (MaxAttempts p)) 0 None w.

End loop.

(** ** What the loop promises

    The outcomes of the operation as a sequence: the operation reads the next one. *)
Definition outcomes (out : nat -> option error) (n : nat) : option error * nat := (out n, S n).

(** Attempt [k] is the last one. *)
Definition stops (p : RetryPolicy) (ctx : Z -> option error) (out : nat -> option error) (k : nat) : bool :=
  match out k with
  | None => true
  | Some e =>
      (MaxAttempts p <=? Z.of_nat k + 1) ||
      negb (match ShouldRetry p with None => true | Some f => f e end) ||
      match ctx (Z.of_nat k) with None => false | Some _ => true end
  end.

(** The error reported when attempt [k] is the last one: the operation's own, except
    when the context ended while waiting to retry it. *)
Definition verdict (p : RetryPolicy) (ctx : Z -> option error) (out : nat -> option error) (k : nat)
    : option error :=
  match out k with
  | None => None
  | Some e =>
      if (Z.of_nat k + 1 <? MaxAttempts p) &&
         match ShouldRetry p with None => true | Some f => f e end
      then match ctx (Z.of_nat k) with None => Some e | Some ce => Some ce end
      else Some e
  end.

Definition waits (log : list entry) : list Z :=
  omap (fun e => match e with Waits d => Some d | _ => None end) log.

Lemma waits_app l1 l2 : waits (l1 ++ l2) = waits l1 ++ waits l2.
Proof. apply omap_app. Qed.

Lemma waits_tell p e : (forall d, e <> Waits d) -> waits (tell p e) = [].
Proof. unfold tell, waits. destruct (Observed p); [|done]. destruct e; naive_solver. Qed.

Lemma normalize_max p : 1 <= MaxAttempts (normalize p).
Proof. unfold normalize. simpl. case_on; breflect; lia. Qed.

Lemma normalize_delays p : 0 < InitialDelay (normalize p) /\ 0 < MaxDelay (normalize p).
Proof. unfold normalize, Millisecond, Second. simpl. split; case_on; breflect; lia. Qed.

(** The loop stops at the first attempt that [stops], and waits before every other. *)
Lemma attempts_first_stop ctx out p r k err :
  Z.of_nat k + Z.of_nat r = MaxAttempts p -> (0 < r)%nat ->
  exists j, (k <= j < k + r)%nat /\ stops p ctx out j = true /\
    (forall i, (k <= i < j)%nat -> stops p ctx out i = false) /\
    exists log, attempts (outcomes out) ctx p r (Z.of_nat k) err k = (verdict p ctx out j, S j, log) /\
      exists tail, (tail = [] \/ tail = [backoff p (Z.of_nat j)]) /\
        waits log = map (fun i => backoff p (Z.of_nat i)) (seq k (j - k)) ++ tail.
Proof.
  revert k err. induction r as [|r IH]; intros k err Hk Hr; [lia|].
  cbn [attempts outcomes]. destruct (stops p ctx out k) eqn:Hst.
  - exists k. split; [lia|]. split; [done|]. split; [lia|].
    replace (k - k)%nat with 0%nat by lia. unfold stops, verdict in *.
    destruct (out k) as [e|].
    2: { eexists; split; [done|]. exists []. rewrite waits_app, !waits_tell by done. auto. }
    destruct (Z.of_nat k + 1 <? MaxAttempts p) eqn:E1; simpl.
    + destruct (match ShouldRetry p with Some f => f e | None => true end) eqn:E2; simpl.
      * destruct (ctx (Z.of_nat k)) as [ce|]; [|breflect; lia].
        eexists; split; [done|]. exists [backoff p (Z.of_nat k)].
        rewrite !waits_app, !waits_tell by done. auto.
      * eexists; split; [done|]. exists []. rewrite waits_app, !waits_tell by done. auto.
    + eexists; split; [done|]. exists []. rewrite waits_app, !waits_tell by done. auto.
  - pose proof Hst as Hst'. unfold stops in Hst. destruct (out k) as [e|] eqn:Ho; [|done].
    apply orb_false_iff in Hst as [Hst Hctx]. apply orb_false_iff in Hst as [Hm Hs]. breflect.
    assert ((Z.of_nat k + 1 <? MaxAttempts p) = true) as -> by (apply Z.ltb_lt; lia).
    rewrite Hs. simpl. destruct (ctx (Z.of_nat k)); [done|].
    destruct (IH (S k) (Some e)) as (j & Hj & Hs1 & Hs2 & log & Hlog & tail & Ht & Hw); [lia|lia|].
    replace (Z.of_nat k + 1) with (Z.of_nat (S k)) by lia. rewrite Hlog.
    exists j. split; [lia|]. split; [done|]. split.
    { intros i Hi. destruct (decide (i = k)) as [->|]; [done|]. apply Hs2. lia. }
    eexists; split; [done|]. exists tail. split; [done|].
    rewrite !waits_app, !waits_tell, Hw by done.
    replace (j - k)%nat with (S (j - S k)) by lia. done.
Qed.


(** As long as the doubling does not leave 64 bits, each wait is positive, at most
    [MaxDelay], and not shorter than the wait before it. *)
Theorem backoff_bounded p attempt :
  0 <= attempt ->
  InitialDelay (normalize p) * 2 ^ (attempt + 1) < 2 ^ 63 ->
  0 < backoff (normalize p) attempt <= MaxDelay (normalize p) /\
  backoff (normalize p) attempt <= backoff (normalize p) (attempt + 1).
Proof.
  intros Ha Hb. destruct (normalize_delays p) as [Hi Hm]. unfold backoff.
  rewrite Z.pow_add_r in Hb by lia. change (2 ^ 1) with 2 in Hb.
  rewrite !Z.shiftl_mul_pow2, Z.pow_add_r by lia. change (2 ^ 1) with 2.
  pose proof (Z.pow_pos_nonneg 2 attempt). rewrite !int64_id by (unfold in_int64; nia).
  repeat case_on; breflect; nia.
Qed.

(** Beyond that bound the shift overflows: with the gateway's own 50 ms initial and
    500 ms maximal delay, the wait after attempt 39 comes out negative, so the timer
    fires at once and the retries stop backing off. *)
Theorem backoff_overflows :
  backoff (normalize (mkPolicy 64 (50 * Millisecond) (500 * Millisecond) None false)) 37
    = 500 * Millisecond /\
  backoff (normalize (mkPolicy 64 (50 * Millisecond) (500 * Millisecond) None false)) 38 < 0.
Proof. by vm_compute. Qed.

Lemma backoff_bounded_witness :
  0 < backoff (normalize (mkPolicy 3 (50 * Millisecond) (500 * Millisecond) None false)) 2
    <= 500 * Millisecond /\
  backoff (normalize (mkPolicy 3 (50 * Millisecond) (500 * Millisecond) None false)) 2 <=
  backoff (normalize (mkPolicy 3 (50 * Millisecond) (500 * Millisecond) None false)) 3.
Proof.
  apply (backoff_bounded (mkPolicy 3 (50 * Millisecond) (500 * Millisecond) None false) 2);
    by vm_compute.
Defined.

End Retry.
