(* ===== verification/Room.v ===== *)
(** * Battle rooms: [services/battle/domain/room.go], [delta.go]

    A room is a record whose players are a finite map from player id to state; its
    operations return the room they leave behind. Coordinates are IEEE single
    precision numbers: the code compares player states with Go's [==], which is
    coarser than identity on them (a negative and a positive zero are equal) and not
    reflexive (a NaN differs from itself). *)

From S2P Require Import Prelude.
From Stdlib.Floats Require Export SpecFloat.

Module Room.

Definition ErrRoomNotFound := Sentinel "battle.ErrRoomNotFound" "battle room not found".
Definition ErrInvalidRoom := Sentinel "battle.ErrInvalidRoom" "invalid battle room".
Definition ErrDuplicateRoom := Sentinel "battle.ErrDuplicateRoom" "battle room already exists".
Definition ErrPlayerNotInRoom := Sentinel "battle.ErrPlayerNotInRoom" "player is not in battle room".
Definition ErrDuplicatePlayer := Sentinel "battle.ErrDuplicatePlayer" "player is already in battle room".
Definition ErrInvalidPlayerState := Sentinel "battle.ErrInvalidPlayerState" "invalid battle player state".

Definition RoomStatusCreated : string := "created".
Definition RoomStatusRunning : string := "running".
Definition RoomStatusFinished : string := "finished".

Record PlayerState := mkPlayer {
  PlayerID : string;
  HP : Z;
  PositionX : spec_float;
  PositionY : spec_float
}.

#[export] Instance spec_float_eq_dec : EqDecision spec_float.
Proof. solve_decision. Defined.

#[export] Instance PlayerState_eq_dec : EqDecision PlayerState.
Proof. solve_decision. Defined.

(** Go's [==] on player states. *)
Definition player_eqb (p q : PlayerState) : bool :=
  bool_decide (PlayerID p = PlayerID q) && (HP p =? HP q) &&
  SFeqb (PositionX p) (PositionX q) && SFeqb (PositionY p) (PositionY q).

(** [PlayerState.Validate]: [None] is the nil error. *)
Definition player_Validate (s : PlayerState) : option error :=
  if bool_decide (PlayerID s = "") || (HP s <? 0) then Some ErrInvalidPlayerState else None.

Record Room := mkRoom {
  ID : Z;
  Tick : Z;
  StateVersion : Z;
  Status : string;
  Players : gmap string PlayerState;
  UpdatedAt : Z
}.

Definition set_Players (r : Room) (m : gmap string PlayerState) : Room :=
  mkRoom (ID r) (Tick r) (StateVersion r) (Status r) m (UpdatedAt r).

Definition AddPlayer (r : Room) (player : PlayerState) : res Room :=
  match player_Validate player with
  | Some e => Err e
  | None =>
      match Players r !! PlayerID player with
      | Some _ => Err ErrDuplicatePlayer
      | None => Ok (set_Players r (<[PlayerID player := player]> (Players r)))
      end
  end.

Definition UpdatePlayer (r : Room) (player : PlayerState) : res Room :=
  match player_Validate player with
  | Some e => Err e
  | None =>
      match Players r !! PlayerID player with
      | None => Err ErrPlayerNotInRoom
      | Some _ => Ok (set_Players r (<[PlayerID player := player]> (Players r)))
      end
  end.

Fixpoint AddPlayers (r : Room) (players : list PlayerState) : res Room :=
  match players with
  | [] => Ok r
  | player :: players' =>
      match AddPlayer r player with
      | Err e => Err e
      | Ok r' => AddPlayers r' players'
      end
  end.

Definition NewRoom (roomID : Z) (players : list PlayerState) (now : Z) : res Room :=
  let room := mkRoom roomID 0 1 RoomStatusCreated ∅ now in
  if (roomID =? 0) || time_IsZero (UpdatedAt room) then Err ErrInvalidRoom
  else AddPlayers room players.

(** [Room.Validate] on a room that is not nil; every player error is the same value,
    so the order of the iteration cannot be observed. *)
Definition Validate (r : Room) : option error :=
  if (ID r =? 0) || (StateVersion r =? 0) || bool_decide (Status r = "") || time_IsZero (UpdatedAt r)
  then Some ErrInvalidRoom
  else
    if forallb (fun kp => match player_Validate (snd kp) with None => true | Some _ => false end)
         (map_to_list (Players r))
    then None else Some ErrInvalidPlayerState.

Definition AdvanceTick (r : Room) (now : Z) : res Room :=
  match Validate r with
  | Some e => Err e
  | None =>
      Ok (mkRoom (ID r) (uint64 (Tick r + 1)) (uint64 (StateVersion r + 1)) RoomStatusRunning
            (Players r) now)
  end.

Definition Clone (r : Room) : Room :=
  mkRoom (ID r) (Tick r) (StateVersion r) (Status r)
    (map_fold (fun k p acc => <[k := p]> acc) ∅ (Players r)) (UpdatedAt r).

Record RoomDelta := mkDelta {
  RoomID : Z;
  FromStateVersion : Z;
  ToStateVersion : Z;
  DTick : Z;
  DStatus : string;
  UpsertPlayers : list PlayerState;
  RemovedPlayerIDs : list string
}.

Definition Covers (d : RoomDelta) (lastStateVersion : Z) : bool :=
  (FromStateVersion d =? lastStateVersion) && (lastStateVersion <? ToStateVersion d).

(** ** Invariants *)

(** Every player is filed under its own id. *)
Definition keys_ok (m : gmap string PlayerState) : Prop :=
  map_Forall (fun k p => PlayerID p = k) m.

Definition valid_players (m : gmap string PlayerState) : Prop :=
  map_Forall (fun _ p => player_Validate p = None) m.

(** What [Validate] accepts, together with the keying of the players. *)
Definition room_ok (r : Room) : Prop :=
  ID r <> 0 /\ StateVersion r <> 0 /\ Status r <> "" /\ UpdatedAt r <> zero_time /\
  valid_players (Players r) /\ keys_ok (Players r).

Lemma Clone_id r : Clone r = r.
Proof.
  destruct r. unfold Clone. simpl. f_equal. apply map_copy.
Qed.

Lemma Validate_ok r : Validate r = None <->
  ID r <> 0 /\ StateVersion r <> 0 /\ Status r <> "" /\ UpdatedAt r <> zero_time /\
  valid_players (Players r).
Proof.
  unfold Validate, time_IsZero, valid_players.
  destruct (Z.eqb_spec (ID r) 0), (Z.eqb_spec (StateVersion r) 0),
    (bool_decide_reflect (Status r = "")), (Z.eqb_spec (UpdatedAt r) zero_time); simpl; try naive_solver.
  destruct (forallb _ _) eqn:E; split; try done.
  - intros _. split_and!; try done. intros k p Hk.
    rewrite forallb_forall in E. specialize (E (k, p)). simpl in E.
    destruct (player_Validate p); [|done].
    discriminate E. by apply list_elem_of_In, elem_of_map_to_list.
  - intros (_ & _ & _ & _ & Hv). exfalso. apply not_true_iff_false in E. apply E.
    apply forallb_forall. intros [k p] Hin. apply list_elem_of_In, elem_of_map_to_list in Hin.
    simpl. by rewrite (Hv k p Hin).
Qed.

Lemma AddPlayer_ok r p r' : AddPlayer r p = Ok r' ->
  Players r !! PlayerID p = None /\ player_Validate p = None /\
  r' = set_Players r (<[PlayerID p := p]> (Players r)).
Proof. unfold AddPlayer. repeat case_on; naive_solver. Qed.

Lemma UpdatePlayer_ok r p r' : UpdatePlayer r p = Ok r' ->
  is_Some (Players r !! PlayerID p) /\ player_Validate p = None /\
  r' = set_Players r (<[PlayerID p := p]> (Players r)).
Proof. unfold UpdatePlayer. repeat case_on; naive_solver. Qed.

Lemma insert_keys_ok m p : keys_ok m -> keys_ok (<[PlayerID p := p]> m).
Proof. intros H. by apply map_Forall_insert_2. Qed.

Lemma insert_valid m k p : valid_players m -> player_Validate p = None -> valid_players (<[k := p]> m).
Proof. intros H Hp. by apply map_Forall_insert_2. Qed.

#[export] Hint Resolve insert_keys_ok insert_valid : go.

Lemma set_Players_ok r p :
  room_ok r -> player_Validate p = None -> room_ok (set_Players r (<[PlayerID p := p]> (Players r))).
Proof. unfold room_ok. intros (? & ? & ? & ? & ? & ?) ?. simpl. split_and!; eauto with go. Qed.

(** Adding players one after the other: they are new, distinct, and the rest stays. *)
Lemma AddPlayers_map r ps r' : AddPlayers r ps = Ok r' ->
  r' = set_Players r (list_to_map (map (fun p => (PlayerID p, p)) ps) ∪ Players r) /\
  NoDup (map PlayerID ps) /\ Forall (fun p => Players r !! PlayerID p = None) ps.
Proof.
  revert r. induction ps as [|p ps IH]; simpl; intros r Hr.
  { injection Hr as <-. split_and!; [|constructor|constructor]. rewrite (left_id_L ∅ (∪)). by destruct r. }
  destruct (AddPlayer r p) as [r1|] eqn:E; [|done].
  destruct (AddPlayer_ok _ _ _ E) as (Hn & Hv & ->).
  destruct (IH _ Hr) as (Hd & Hnd & Hfr). simpl in *. rewrite Forall_forall in Hfr.
  assert (PlayerID p ∉ map PlayerID ps) as Hni.
  { intros (q & Hq & Hin)%list_elem_of_fmap. specialize (Hfr q Hin).
    by rewrite <- Hq, lookup_insert_eq in Hfr. }
  split_and!.
  - rewrite Hd. unfold set_Players. simpl. f_equal. rewrite <- insert_union_l, insert_union_r; [done|].
    apply not_elem_of_list_to_map_1. by rewrite <- list_fmap_compose.
  - by constructor.
  - constructor; [done|]. apply Forall_forall. intros q Hq. specialize (Hfr q Hq).
    by apply lookup_insert_None in Hfr as [].
Qed.

Lemma AddPlayers_room_ok r ps r' : room_ok r -> AddPlayers r ps = Ok r' -> room_ok r'.
Proof.
  revert r. induction ps as [|p ps IH]; simpl; intros r Hr H; [by simplify_eq|].
  destruct (AddPlayer r p) as [r1|] eqn:E; [|done].
  destruct (AddPlayer_ok _ _ _ E) as (_ & Hv & ->). by eapply IH; [apply set_Players_ok|].
Qed.

Lemma AddPlayers_keys r ps r' : keys_ok (Players r) -> AddPlayers r ps = Ok r' -> keys_ok (Players r').
Proof.
  revert r. induction ps as [|p ps IH]; simpl; intros r Hr H; [by simplify_eq|].
  destruct (AddPlayer r p) as [r1|] eqn:E; [|done].
  destruct (AddPlayer_ok _ _ _ E) as (_ & Hv & ->). refine (IH _ _ H). by apply insert_keys_ok.
Qed.

Lemma AddPlayers_ok r ps r' : room_ok r -> AddPlayers r ps = Ok r' ->
  room_ok r' /\ ID r' = ID r /\ StateVersion r' = StateVersion r /\ Tick r' = Tick r /\
  Players r' = list_to_map (map (fun p => (PlayerID p, p)) ps) ∪ Players r /\
  NoDup (map PlayerID ps) /\ Forall (fun p => Players r !! PlayerID p = None) ps.
Proof.
  intros Hr H. pose proof (AddPlayers_room_ok _ _ _ Hr H) as Hok.
  apply AddPlayers_map in H as (-> & ? & ?). by split_and!.
Qed.

Lemma AddPlayers_complete r ps :
  Forall (fun p => player_Validate p = None) ps -> NoDup (map PlayerID ps) ->
  Forall (fun p => Players r !! PlayerID p = None) ps -> is_ok (AddPlayers r ps) = true.
Proof.
  revert r. induction ps as [|p ps IH]; [done|]. intros r Hv Hnd Hf.
  apply Forall_cons in Hv as [Hv Hvs], Hf as [Hf Hfs]. simpl in *.
  apply NoDup_cons in Hnd as [Hni Hnd]. unfold AddPlayer. rewrite Hv, Hf.
  apply IH; [done|done|]. rewrite Forall_forall in *. intros q Hq. simpl.
  apply lookup_insert_None. split; [by apply Hfs|]. intros Heq. apply Hni. rewrite Heq.
  apply list_elem_of_fmap. eauto.
Qed.

Lemma AddPlayers_valid r ps r' :
  AddPlayers r ps = Ok r' -> Forall (fun p => player_Validate p = None) ps.
Proof.
  revert r. induction ps as [|p ps IH]; simpl; intros r H; [constructor|].
  destruct (AddPlayer r p) as [r1|] eqn:E; [|done]. apply AddPlayer_ok in E as (_ & ? & _).
  constructor; eauto.
Qed.

Lemma NewRoom_ok roomID ps now r :
  NewRoom roomID ps now = Ok r ->
  room_ok r /\ ID r = roomID /\ StateVersion r = 1 /\ Tick r = 0 /\
  Players r = list_to_map (map (fun p => (PlayerID p, p)) ps) /\
  NoDup (map PlayerID ps) /\ Forall (fun p => player_Validate p = None) ps /\
  roomID <> 0 /\ now <> zero_time.
Proof.
  unfold NewRoom, time_IsZero. simpl.
  destruct (Z.eqb_spec roomID 0); [done|]. destruct (Z.eqb_spec now zero_time); [done|]. simpl.
  intros H. pose proof (AddPlayers_valid _ _ _ H).
  apply AddPlayers_ok in H as (Hok & HID & HV & HT & HP & Hnd & _).
  - simpl in *. rewrite (right_id_L ∅ (∪)) in HP. by split_and!.
  - unfold room_ok. simpl. split_and!; try done; apply map_Forall_empty.
Qed.

(** [NewRoom] succeeds exactly when the room id and the time are set and the players
    are valid with pairwise distinct ids; the room then holds exactly these players,
    each under its own id, is valid, and starts at version 1. *)
Theorem new_room_spec roomID ps now :
  (is_ok (NewRoom roomID ps now) = true <->
     roomID <> 0 /\ now <> zero_time /\ Forall (fun p => player_Validate p = None) ps /\
     NoDup (map PlayerID ps)) /\
  (forall r, NewRoom roomID ps now = Ok r ->
     Validate r = None /\ keys_ok (Players r) /\ StateVersion r = 1 /\ Tick r = 0 /\ ID r = roomID /\
     Players r = list_to_map (map (fun p => (PlayerID p, p)) ps)).
Proof.
  split; [split|].
  - destruct (NewRoom roomID ps now) as [r|] eqn:E; [|done]. intros _. apply NewRoom_ok in E. tauto.
  - intros (H1 & H2 & H3 & H4). unfold NewRoom, time_IsZero. simpl.
    rewrite (proj2 (Z.eqb_neq _ _) H1), (proj2 (Z.eqb_neq _ _) H2). simpl.
    apply AddPlayers_complete; try done. apply Forall_forall. intros. apply lookup_empty.
  - intros r H. apply NewRoom_ok in H as ((? & ? & ? & ? & ? & ?) & ? & ? & ? & ? & _).
    split_and!; try done. by apply Validate_ok.
Qed.

Definition alice : PlayerState := mkPlayer "alice" 100 (S754_zero false) (S754_zero false).
Definition bob : PlayerState := mkPlayer "bob" 80 (S754_zero false) (S754_zero true).

Lemma new_room_spec_witness :
  exists r, NewRoom 7 [alice; bob] 1000 = Ok r /\ Validate r = None /\ StateVersion r = 1.
Proof.
  destruct (NewRoom 7 [alice; bob] 1000) as [r|e] eqn:E.
  - exists r. destruct (proj2 (new_room_spec 7 [alice; bob] 1000) r E) as (? & ? & ? & _). by split_and!.
  - exfalso. assert (is_ok (NewRoom 7 [alice; bob] 1000) = true) as H; [by vm_compute|].
    by rewrite E in H.
Defined.

End Room.
