(* ===== verification/RoomManager.v ===== *)
(** * The authoritative room manager: [services/battle/components/room_manager.go]

    The manager keeps the live rooms and, per room, the recent deltas from which a
    reconnecting client catches up. Each exported operation is one critical section.
    The snapshot repository is used through the interface below; its MongoDB
    implementation is discharged against it in [RoomSnapshots]. *)

From S2P Require Import Prelude Room.
Import Room.

Module RoomManager.

(** ** The interface [repository.RoomSnapshotRepository]

    [stored s] is what the repository in state [s] would hand back for each room. A
    room comes back as [persisted] made it: databases round the time stamp. *)
Class SnapshotRepository (S : Type) := {
  Save : Room -> S -> option error * S;
  FindByPlayerID : string -> prog S Room;
  stored : S -> gmap Z Room;
  persisted : Room -> Room;
  (** the store is in order, and can represent the time stamp *)
  ready : S -> Prop;
  time_ok : Z -> Prop
}.

Class SnapshotRepositoryLaws (S : Type) `{SnapshotRepository S} := {
  persisted_same r :
    ID (persisted r) = ID r /\ Tick (persisted r) = Tick r /\
    StateVersion (persisted r) = StateVersion r /\ Status (persisted r) = Status r /\
    Players (persisted r) = Players r;
  save_ok r s s' : ready s -> keys_ok (Players r) -> time_ok (UpdatedAt r) -> Save r s = (None, s') ->
    stored s' = <[ID r := persisted r]> (stored s) /\ ready s';
  save_err r s e s' : Save r s = (Some e, s') -> stored s' = stored s /\ (ready s -> ready s');
  find_ok p s r s' : ready s -> FindByPlayerID p s = (Ok r, s') ->
    stored s !! ID r = Some r /\ is_Some (Players r !! p) /\ keys_ok (Players r);
  find_pure p s r s' : FindByPlayerID p s = (r, s') -> stored s' = stored s /\ (ready s -> ready s')
}.

Record Manager := mkManager {
  rooms : gmap Z Room;
  deltas : gmap Z (list RoomDelta);
  deltaSize : nat;
  has_snapshots : bool
}.

Definition NewRoomManager (snapshots : bool) : Manager := mkManager ∅ ∅ 1024 snapshots.

Definition set_room (m : Manager) (id : Z) (r : Room) : Manager :=
  mkManager (<[id := r]> (rooms m)) (deltas m) (deltaSize m) (has_snapshots m).
Definition set_deltas (m : Manager) (id : Z) (ds : list RoomDelta) : Manager :=
  mkManager (rooms m) (<[id := ds]> (deltas m)) (deltaSize m) (has_snapshots m).

Definition room_deltas (m : Manager) (id : Z) : list RoomDelta := default [] (deltas m !! id).

Inductive RestoreMode := RestoreModeFull | RestoreModeDelta | RestoreModeNoop.

Record RestoreResult := mkRestore {
  RRoom : Room;
  Mode : RestoreMode;
  BaseStateVersion : Z;
  Delta : option RoomDelta
}.

Section manager.
Context `{!MapRange string PlayerState, !MapRange string unit, !MapRange Z Room}.
Context {S : Type} `{SnapshotRepository S}.

Definition ErrNoRepository : error := Text "battle room snapshot repository is not configured".

Definition saveLocked (m : Manager) (room : Room) (s : S) : option error * S :=
  if has_snapshots m then Save (Clone room) s else (Some ErrNoRepository, s).

Definition Create (m : Manager) (room : option Room) (s : S) : option error * Manager * S :=
  match room with
  | None => (Some ErrInvalidRoom, m, s)
  | Some room =>
      match Validate room with
      | Some e => (Some e, m, s)
      | None =>
          match rooms m !! ID room with
          | Some _ => (Some ErrDuplicateRoom, m, s)
          | None =>
              match saveLocked m room s with
              | (Some e, s') => (Some e, m, s')
              | (None, s') => (None, set_deltas (set_room m (ID room) (Clone room)) (ID room) [], s')
              end
          end
      end
  end.

(** The delta of one tick: the iteration order of the two player maps is [range]. *)
Definition room_delta (previous current : Room) : RoomDelta :=
  mkDelta (ID current) (StateVersion previous) (StateVersion current) (Tick current) (Status current)
    (omap (fun kp : string * PlayerState =>
             match Players previous !! kp.1 with
             | Some old => if negb (player_eqb old kp.2) then Some kp.2 else None
             | None => Some kp.2
             end) (range (Players current)))
    (omap (fun kp : string * PlayerState =>
             match Players current !! kp.1 with Some _ => None | None => Some kp.1 end)
       (range (Players previous))).

Definition recordDeltaLocked (m : Manager) (previous current : Room) : Manager :=
  let ds := room_deltas m (ID current) ++ [room_delta previous current] in
  let ds := if (deltaSize m <? length ds)%nat then drop (length ds - deltaSize m) ds else ds in
  set_deltas m (ID current) ds.

(** [mutate] works on the live room in place: what it did remains when it fails. *)
Definition Mutate (m : Manager) (roomID : Z) (mutate : option (Room -> option error * Room))
    (now : Z) (s : S) : option error * Manager * S :=
  match mutate with
  | None => (Some ErrInvalidRoom, m, s)
  | Some mutate =>
      if roomID =? 0 then (Some ErrInvalidRoom, m, s)
      else match rooms m !! roomID with
      | None => (Some ErrRoomNotFound, m, s)
      | Some room =>
          let previous := Clone room in
          match mutate room with
          | (Some e, room1) => (Some e, set_room m roomID room1, s)
          | (None, room1) =>
              match AdvanceTick room1 now with
              | Err e => (Some e, set_room m roomID previous, s)
              | Ok room2 =>
                  match saveLocked m room2 s with
                  | (Some e, s') => (Some e, set_room m roomID previous, s')
                  | (None, s') =>
                      (None, recordDeltaLocked (set_room m roomID room2) previous room2, s')
                  end
              end
          end
      end
  end.

Definition RestoreByPlayerID (m : Manager) (playerID : string) (s : S) : res Room * Manager * S :=
  if bool_decide (playerID = "") then (Err ErrPlayerNotInRoom, m, s)
  else match list_find (fun ir : Z * Room => is_Some (Players ir.2 !! playerID)) (range (rooms m)) with
  | Some (_, (_, room)) => (Ok (Clone room), m, s)
  | None =>
      if negb (has_snapshots m) then (Err ErrRoomNotFound, m, s)
      else match FindByPlayerID playerID s with
      | (Err e, s') => (Err e, m, s')
      | (Ok room, s') => (Ok room, set_room m (ID room) (Clone room), s')
      end
  end.

(** The accumulators of [composeDeltas]. *)
Record acc := mkAcc {
  a_players : gmap string PlayerState;
  a_removed : gmap string unit;
  a_tick : Z;
  a_status : string;
  a_next : Z
}.

Definition acc_upsert (ps : gmap string PlayerState * gmap string unit) (player : PlayerState) :=
  (<[PlayerID player := player]> ps.1, delete (PlayerID player) ps.2).
Definition acc_remove (ps : gmap string PlayerState * gmap string unit) (id : string) :=
  (delete id ps.1, <[id := tt]> ps.2).

Definition acc_delta (a : acc) (d : RoomDelta) : acc :=
  let ps := foldl acc_upsert (a_players a, a_removed a) (UpsertPlayers d) in
  let ps := foldl acc_remove ps (RemovedPlayerIDs d) in
  mkAcc ps.1 ps.2 (DTick d) (DStatus d) (ToStateVersion d).

(** The loop over the deltas, with its [continue] and its [break]. *)
Fixpoint compose_loop (ds : list RoomDelta) (toVersion : Z) (a : acc) : acc :=
  match ds with
  | [] => a
  | d :: ds' =>
      if negb (FromStateVersion d =? a_next a) || (toVersion <? ToStateVersion d)
      then compose_loop ds' toVersion a
      else
        let a' := acc_delta a d in
        if a_next a' =? toVersion then a' else compose_loop ds' toVersion a'
  end.

Definition composeDeltas (roomID : Z) (ds : list RoomDelta) (fromVersion toVersion : Z) : option RoomDelta :=
  if (toVersion <=? fromVersion) || bool_decide (ds = []) then None
  else
    let a := compose_loop ds toVersion (mkAcc ∅ ∅ 0 "" fromVersion) in
    if negb (a_next a =? toVersion) then None
    else Some (mkDelta roomID fromVersion toVersion (a_tick a) (a_status a)
                 (range (a_players a)).*2 (range (a_removed a)).*1).

Definition RestoreByPlayerIDSince (m : Manager) (playerID : string) (lastStateVersion : Z)
    (allowIncremental : bool) (s : S) : res RestoreResult * Manager * S :=
  match RestoreByPlayerID m playerID s with
  | (Err e, m', s') => (Err e, m', s')
  | (Ok room, m', s') =>
      (Ok (if lastStateVersion =? StateVersion room then
             mkRestore room RestoreModeNoop lastStateVersion None
           else
             match (if allowIncremental && (lastStateVersion <? StateVersion room)
                    then composeDeltas (ID room) (room_deltas m' (ID room)) lastStateVersion (StateVersion room)
                    else None) with
             | Some delta => mkRestore room RestoreModeDelta lastStateVersion (Some delta)
             | None => mkRestore room RestoreModeFull 0 None
             end), m', s')
  end.

(** ** What a client does with a delta *)

Definition upsert (m : gmap string PlayerState) (player : PlayerState) := <[PlayerID player := player]> m.
Definition remove (m : gmap string PlayerState) (id : string) := delete id m.

Definition apply_delta (d : RoomDelta) (m : gmap string PlayerState) : gmap string PlayerState :=
  foldl remove (foldl upsert m (UpsertPlayers d)) (RemovedPlayerIDs d).

End manager.

(** ** Player states up to the sign of zero

    The manager leaves out of a delta the players that Go's [==] finds unchanged, so a
    client's copy agrees with the room up to the sign of zero coordinates. *)

Definition unsigned (x : spec_float) : spec_float :=
  match x with S754_zero _ => S754_zero false | _ => x end.

#[export] Instance player_equiv : Equiv PlayerState := fun p q =>
  PlayerID p = PlayerID q /\ HP p = HP q /\
  unsigned (PositionX p) = unsigned (PositionX q) /\ unsigned (PositionY p) = unsigned (PositionY q).

#[export] Instance player_equivalence : Equivalence (≡@{PlayerState}).
Proof. unfold equiv, player_equiv. split; red; naive_solver congruence. Qed.

Lemma SFeqb_unsigned x y : SFeqb x y = true -> unsigned x = unsigned y.
Proof.
  unfold SFeqb. destruct x as [s1|s1| |s1 m1 e1], y as [s2|s2| |s2 m2 e2]; simpl; try done.
  all: try (by destruct s1, s2). all: try (by destruct s1). all: try (by destruct s2).
  destruct s1, s2; try done; destruct (Z.compare_spec e1 e2) as [->|?|?]; try done;
    destruct (Pos.compare_cont Eq m1 m2) eqn:E; try done;
    by apply Pos.compare_eq in E as ->.
Qed.

Lemma player_eqb_equiv p q : player_eqb p q = true -> p ≡ q.
Proof.
  unfold player_eqb, equiv, player_equiv. intros ?. breflect.
  split_and!; try done; by apply SFeqb_unsigned.
Qed.

Section delta_facts.
Context `{!MapRange string PlayerState, !MapRange string unit, !MapRange Z Room}.
Implicit Types m : gmap string PlayerState.

Lemma upserts_notin l m k : k ∉ map PlayerID l -> foldl upsert m l !! k = m !! k.
Proof.
  revert m. induction l as [|p l IH]; intros m Hk; [done|]. simpl in *.
  rewrite IH by set_solver. unfold upsert. apply lookup_insert_ne. set_solver.
Qed.

Lemma upserts_in l m p :
  NoDup (map PlayerID l) -> p ∈ l -> foldl upsert m l !! PlayerID p = Some p.
Proof.
  revert m. induction l as [|q l IH]; intros m Hnd Hp; [by apply not_elem_of_nil in Hp|].
  simpl in *. apply NoDup_cons in Hnd as [Hni Hnd].
  apply elem_of_cons in Hp as [->|Hp]; [|by apply IH].
  rewrite upserts_notin by done. apply lookup_insert_eq.
Qed.

Lemma removes_in l m k : k ∈ l -> foldl remove m l !! k = None.
Proof.
  revert m. induction l as [|i l IH]; intros m Hk; [by apply not_elem_of_nil in Hk|]. simpl.
  destruct (decide (k ∈ l)) as [|Hn]; [by apply IH|].
  assert (k = i) as -> by set_solver. clear -Hn. 
  assert (remove m i !! i = None) as H by apply lookup_delete_eq. revert H.
  generalize (remove m i). induction l as [|j l IH]; simpl; intros m' H; [done|].
  apply IH; [set_solver|]. unfold remove. rewrite lookup_delete_ne by set_solver. done.
Qed.

Lemma removes_notin l m k : k ∉ l -> foldl remove m l !! k = m !! k.
Proof.
  revert m. induction l as [|i l IH]; intros m Hk; [done|]. simpl.
  rewrite IH by set_solver. unfold remove. apply lookup_delete_ne. set_solver.
Qed.

#[export] Instance apply_delta_proper d : Proper ((≡) ==> (≡)) (apply_delta d).
Proof.
  unfold apply_delta. generalize (UpsertPlayers d), (RemovedPlayerIDs d). intros us rs m1 m2 Hm.
  assert (foldl upsert m1 us ≡ foldl upsert m2 us) as Hu.
  { revert m1 m2 Hm. induction us as [|u us IH]; intros m1 m2 Hm; [done|]. simpl. apply IH.
    unfold upsert. by rewrite Hm. }
  revert Hu. generalize (foldl upsert m1 us), (foldl upsert m2 us). clear.
  induction rs as [|r rs IH]; intros m1 m2 Hm; [done|]. simpl. apply IH. unfold remove. by rewrite Hm.
Qed.

(** The players a tick leaves out of its delta are the unchanged ones. *)
Lemma room_delta_upserts previous current p :
  keys_ok (Players current) ->
  p ∈ UpsertPlayers (room_delta previous current) <->
  Players current !! PlayerID p = Some p /\
  (forall old, Players previous !! PlayerID p = Some old -> player_eqb old p = false).
Proof.
  intros Hk. simpl. rewrite list_elem_of_omap. split.
  - intros ([k q] & Hin%elem_of_range & Hq). simpl in Hq. pose proof (Hk _ _ Hin) as Hid. simpl in Hid.
    destruct (Players previous !! k) as [old|] eqn:Eo.
    + destruct (player_eqb old q) eqn:Eq; simpl in Hq; [done|]. simplify_eq. naive_solver.
    + simplify_eq. naive_solver.
  - intros [Hc Hold]. exists (PlayerID p, p). split; [by apply elem_of_range|]. simpl.
    destruct (Players previous !! PlayerID p) as [old|] eqn:Eo; [|done]. by rewrite Hold.
Qed.

Lemma room_delta_upsert_ids previous current :
  keys_ok (Players current) -> NoDup (map PlayerID (UpsertPlayers (room_delta previous current))).
Proof.
  intros Hk. simpl. pose proof (NoDup_range_fst (Players current)) as Hnd.
  assert (forall kp, kp ∈ range (Players current) -> PlayerID kp.2 = kp.1) as Hkey.
  { intros [k p] Hin%elem_of_range. by apply Hk. }
  revert Hnd Hkey. generalize (range (Players current)) as l.
  induction l as [|[k p] l IH]; intros Hnd Hkey; [constructor|]. cbn in Hnd.
  apply NoDup_cons in Hnd as [Hni Hnd].
  assert (PlayerID p = k) as Hp by apply (Hkey (k, p)), list_elem_of_here.
  assert (forall kp, kp ∈ l -> PlayerID kp.2 = kp.1) as Hkey' by set_solver.
  specialize (IH Hnd Hkey'). cbn.
  match goal with |- NoDup (map _ (match ?o with _ => _ end)) => destruct o as [q|] eqn:Eo end; [|done].
  assert (q = p) as -> by (repeat case_on; congruence). cbn. constructor; [|done].
  intros (q & Hq & Hin)%list_elem_of_fmap. apply list_elem_of_omap in Hin as ([k' q'] & Hin & Ho).
  apply Hni. apply list_elem_of_fmap. exists (k', q'). split; [|done]. simpl in *.
  pose proof (Hkey' _ Hin) as Hid. simpl in Hid. repeat case_on; simplify_eq; congruence.
Qed.

Lemma room_delta_removed previous current k :
  k ∈ RemovedPlayerIDs (room_delta previous current) <->
  is_Some (Players previous !! k) /\ Players current !! k = None.
Proof.
  simpl. rewrite list_elem_of_omap. split.
  - intros ([k' q] & Hin%elem_of_range & Hq). simpl in Hq.
    destruct (Players current !! k') eqn:E; simplify_eq. eauto.
  - intros [[p Hp] Hc]. exists (k, p). split; [by apply elem_of_range|]. simpl. by rewrite Hc.
Qed.

(** Applying a tick's delta to the players before it gives the players after it. *)
Lemma room_delta_correct previous current :
  keys_ok (Players current) ->
  apply_delta (room_delta previous current) (Players previous) ≡ Players current.
Proof.
  intros Hk k. unfold apply_delta.
  destruct (Players current !! k) as [p|] eqn:Ec.
  - pose proof (Hk _ _ Ec) as Hid. simpl in Hid.
    rewrite removes_notin by (rewrite room_delta_removed; rewrite Ec; by intros [? ?]).
    destruct (decide (p ∈ UpsertPlayers (room_delta previous current))) as [Hu|Hu].
    + rewrite <- Hid. by rewrite upserts_in by auto using room_delta_upsert_ids.
    + rewrite upserts_notin.
      * rewrite room_delta_upserts in Hu by done. subst k.
        destruct (Players previous !! PlayerID p) as [old|] eqn:Eo; [|naive_solver].
        constructor. apply player_eqb_equiv. apply not_false_iff_true. naive_solver.
      * intros (q & Hq & Hin)%list_elem_of_fmap. apply Hu.
        apply room_delta_upserts in Hin as Hin'; [|done]. destruct Hin' as [Hc _].
        subst k. rewrite <- Hq, Ec in Hc. by simplify_eq.
  - destruct (decide (k ∈ RemovedPlayerIDs (room_delta previous current))) as [Hr|Hr].
    { by rewrite removes_in. }
    rewrite removes_notin by done. rewrite upserts_notin.
    + rewrite room_delta_removed in Hr. destruct (Players previous !! k) eqn:E; [|done]. naive_solver.
    + intros (q & Hq & Hin)%list_elem_of_fmap. apply room_delta_upserts in Hin; [|done]. naive_solver.
Qed.

(** ** Composition

    [overlay ps m] is [m] with the accumulated upserts and removals applied. *)
Definition overlay (ps : gmap string PlayerState * gmap string unit) m : gmap string PlayerState :=
  ps.1 ∪ filter (fun kv => ps.2 !! kv.1 = None) m.

Lemma lookup_overlay ps m k :
  overlay ps m !! k =
    match ps.1 !! k with
    | Some p => Some p
    | None => match ps.2 !! k with Some _ => None | None => m !! k end
    end.
Proof.
  unfold overlay. rewrite lookup_union, map_lookup_filter.
  destruct (ps.1 !! k), (m !! k), (ps.2 !! k) eqn:E; simpl; try done.
  all: try (rewrite option_guard_False by (simpl; congruence); done).
  all: rewrite option_guard_True by done; done.
Qed.

Lemma overlay_upsert ps m p : overlay (acc_upsert ps p) m = upsert (overlay ps m) p.
Proof.
  apply map_eq. intros k. unfold upsert, acc_upsert. rewrite lookup_overlay. simpl.
  destruct (decide (PlayerID p = k)) as [<-|]; [by rewrite !lookup_insert_eq|].
  by rewrite !lookup_insert_ne, lookup_delete_ne, lookup_overlay by done.
Qed.

Lemma overlay_remove ps m i : overlay (acc_remove ps i) m = remove (overlay ps m) i.
Proof.
  apply map_eq. intros k. unfold remove, acc_remove. rewrite lookup_overlay. simpl.
  destruct (decide (i = k)) as [<-|]; [by rewrite !lookup_delete_eq, lookup_insert_eq|].
  by rewrite !lookup_delete_ne, lookup_insert_ne, lookup_overlay by done.
Qed.

Definition acc_sets (a : acc) := (a_players a, a_removed a).

(** The accumulators keep players under their ids and never hold a removed player. *)
Definition acc_ok (ps : gmap string PlayerState * gmap string unit) : Prop :=
  keys_ok ps.1 /\ forall k, is_Some (ps.1 !! k) -> ps.2 !! k = None.

Lemma acc_upsert_ok ps p : acc_ok ps -> acc_ok (acc_upsert ps p).
Proof.
  intros [Hk Hd]. split; simpl; [by apply insert_keys_ok|]. intros k.
  destruct (decide (PlayerID p = k)) as [<-|]; [by rewrite lookup_delete_eq|].
  rewrite lookup_insert_ne, lookup_delete_ne by done. apply Hd.
Qed.

Lemma acc_remove_ok ps i : acc_ok ps -> acc_ok (acc_remove ps i).
Proof.
  intros [Hk Hd]. split; simpl; [by apply map_Forall_delete|]. intros k.
  destruct (decide (i = k)) as [<-|]; [by rewrite lookup_delete_eq; intros [? ?]|].
  rewrite lookup_insert_ne, lookup_delete_ne by done. apply Hd.
Qed.

Lemma acc_delta_spec a d m :
  overlay (acc_sets (acc_delta a d)) m = apply_delta d (overlay (acc_sets a) m) /\
  (acc_ok (acc_sets a) -> acc_ok (acc_sets (acc_delta a d))).
Proof.
  unfold acc_delta, acc_sets, apply_delta. simpl. rewrite <- !surjective_pairing.
  generalize (a_players a, a_removed a) as ps. intros ps.
  assert (forall us ps, overlay (foldl acc_upsert ps us) m = foldl upsert (overlay ps m) us /\
            (acc_ok ps -> acc_ok (foldl acc_upsert ps us))) as Hu.
  { clear. induction us as [|u us IH]; intros ps; [done|]. simpl.
    destruct (IH (acc_upsert ps u)) as [-> H2]. rewrite overlay_upsert. auto using acc_upsert_ok. }
  assert (forall rs ps, overlay (foldl acc_remove ps rs) m = foldl remove (overlay ps m) rs /\
            (acc_ok ps -> acc_ok (foldl acc_remove ps rs))) as Hr.
  { clear. induction rs as [|r rs IH]; intros ps; [done|]. simpl.
    destruct (IH (acc_remove ps r)) as [-> H2]. rewrite overlay_remove. auto using acc_remove_ok. }
  destruct (Hu (UpsertPlayers d) ps) as [E1 O1].
  destruct (Hr (RemovedPlayerIDs d) (foldl acc_upsert ps (UpsertPlayers d))) as [E2 O2].
  rewrite E2, E1. auto.
Qed.

(** The delta built from the accumulators does what they record. *)
Lemma composed_apply ps m roomID from to tick status :
  acc_ok ps ->
  apply_delta (mkDelta roomID from to tick status (range ps.1).*2 (range ps.2).*1) m = overlay ps m.
Proof.
  intros [Hk Hd]. apply map_eq. intros k. unfold apply_delta. simpl. rewrite lookup_overlay.
  assert (map PlayerID (range ps.1).*2 = (range ps.1).*1) as Hids.
  { rewrite <- list_fmap_compose. apply list_fmap_ext. intros i [k' p] Hin. simpl.
    apply list_elem_of_lookup_2, elem_of_range in Hin. by apply Hk. }
  assert (forall k, k ∈ (range ps.2).*1 <-> is_Some (ps.2 !! k)) as Hrem.
  { intros k'. rewrite list_elem_of_fmap. split.
    - intros ([k2 []] & -> & Hin%elem_of_range). eauto.
    - intros [[] Hin]. exists (k', tt). by rewrite elem_of_range. }
  assert (k ∉ map PlayerID (range ps.1).*2 <-> ps.1 !! k = None) as Hup.
  { rewrite Hids, list_elem_of_fmap. rewrite eq_None_not_Some. apply not_iff_compat. split.
    - intros ([k2 p] & -> & Hin%elem_of_range). eauto.
    - intros [p Hin]. exists (k, p). by rewrite elem_of_range. }
  destruct (ps.1 !! k) as [p|] eqn:Ep.
  - rewrite removes_notin by (rewrite Hrem, Hd by eauto; by intros [? ?]).
    rewrite <- (Hk _ _ Ep) at 1. apply upserts_in.
    + rewrite Hids. apply NoDup_range_fst.
    + apply list_elem_of_fmap. exists (k, p). by rewrite elem_of_range.
  - destruct (ps.2 !! k) eqn:Er.
    + apply removes_in. rewrite Hrem, Er. eauto.
    + rewrite removes_notin by (rewrite Hrem, Er; by intros [? ?]).
      apply upserts_notin. by apply Hup.
Qed.

End delta_facts.

(** ** Histories

    [hist !! (room, v)] is the players of the room when it reached version [v]: what a
    client that was last told version [v] holds. *)
Abbreviation history := (gmap (Z * Z) (gmap string PlayerState)).

Section histories.
Context `{!MapRange string PlayerState, !MapRange string unit, !MapRange Z Room}.

Definition record (hist : history) (r : Room) : history :=
  <[(ID r, StateVersion r) := Players r]> hist.

(** [ds] are the consecutive deltas of the room from version [v] to version [v']. *)
Inductive follows (hist : history) (rid : Z) : Z -> list RoomDelta -> Z -> Prop :=
  | follows_nil v : follows hist rid v [] v
  | follows_cons v d ds v' before after :
      FromStateVersion d = v -> ToStateVersion d = v + 1 ->
      hist !! (rid, v) = Some before -> hist !! (rid, v + 1) = Some after ->
      apply_delta d before ≡ after ->
      follows hist rid (v + 1) ds v' -> follows hist rid v (d :: ds) v'.

Lemma follows_length hist rid v ds v' : follows hist rid v ds v' -> v' = v + Z.of_nat (length ds).
Proof. induction 1; simpl; lia. Qed.

Lemma follows_mono hist hist' rid v ds v' :
  (forall w m, hist !! (rid, w) = Some m -> hist' !! (rid, w) = Some m) ->
  follows hist rid v ds v' -> follows hist' rid v ds v'.
Proof. intros Hsub. induction 1; econstructor; eauto. Qed.

Lemma follows_snoc hist rid v ds v' d before after :
  follows hist rid v ds v' ->
  FromStateVersion d = v' -> ToStateVersion d = v' + 1 ->
  hist !! (rid, v') = Some before -> hist !! (rid, v' + 1) = Some after ->
  apply_delta d before ≡ after -> follows hist rid v (ds ++ [d]) (v' + 1).
Proof. induction 1; simpl; intros; econstructor; eauto; constructor. Qed.

Lemma follows_drop hist rid v ds v' n :
  (n <= length ds)%nat -> follows hist rid v ds v' ->
  follows hist rid (v + Z.of_nat n) (drop n ds) v'.
Proof.
  intros Hn Hf. revert n Hn. induction Hf as [v|v d ds v' b a ? ? ? ? ? Hf IH]; intros n Hn.
  - destruct n; simpl in *; [|lia]. rewrite Z.add_0_r. constructor.
  - destruct n as [|n]; simpl in *.
    + rewrite Z.add_0_r. econstructor; eauto.
    + replace (v + Z.of_nat (Datatypes.S n)) with (v + 1 + Z.of_nat n) by lia. apply IH. lia.
Qed.

(** The composition loop skips the deltas before its version, then follows the rest. *)
Lemma compose_loop_skips hist rid v ds v' w to a :
  follows hist rid v ds v' -> v' <= w -> a_next a = w -> forall ds2,
  compose_loop (ds ++ ds2) to a = compose_loop ds2 to a.
Proof.
  intros Hf Hw Ha ds2. induction Hf as [|v d ds v' b a' H1 H2 ? ? ? Hf IH]; [done|]. simpl.
  pose proof (follows_length _ _ _ _ _ Hf).
  assert ((FromStateVersion d =? a_next a) = false) as -> by (apply Z.eqb_neq; lia).
  simpl. by apply IH.
Qed.

Lemma compose_loop_follows hist rid v ds v' a base now :
  follows hist rid v ds v' -> v < v' -> a_next a = v ->
  acc_ok (acc_sets a) ->
  hist !! (rid, v) = Some now -> overlay (acc_sets a) base ≡ now ->
  exists after, hist !! (rid, v') = Some after /\
    let a' := compose_loop ds v' a in
    a_next a' = v' /\ acc_ok (acc_sets a') /\ overlay (acc_sets a') base ≡ after.
Proof.
  intros Hf. revert a now. induction Hf as [v|v d ds v' b1 a1 H1 H2 Hb Ha Hd Hf IH];
    intros a now Hlt Hn Hok Hnow Hov; [lia|].
  pose proof (follows_length _ _ _ _ _ Hf) as Hlen.
  assert (b1 = now) as -> by congruence. simpl. rewrite Hn, H1, Z.eqb_refl. simpl.
  assert ((v' <? ToStateVersion d) = false) as -> by (apply Z.ltb_ge; lia).
  destruct (acc_delta_spec a d base) as [Hd1 Hd2].
  assert (overlay (acc_sets (acc_delta a d)) base ≡ a1) as Hov' by (by rewrite Hd1, Hov).
  cbn [a_next acc_delta]. destruct (Z.eqb_spec (ToStateVersion d) v') as [He|Hne].
  - exists a1. rewrite <- He, H2. split; [done|]. cbn [a_next acc_delta]. auto.
  - apply IH with (now := a1); try done; [lia|auto].
Qed.

Lemma compose_loop_stuck hist rid v ds v' w to a :
  follows hist rid v ds v' -> w < v -> a_next a = w -> compose_loop ds to a = a.
Proof.
  intros Hf. revert a. induction Hf as [|v d ds v' b a1 H1 H2 ? ? ? Hf IH]; intros a Hw Ha; [done|]. simpl.
  assert ((FromStateVersion d =? a_next a) = false) as -> by (apply Z.eqb_neq; lia).
  simpl. apply IH; [lia|done].
Qed.

(** [composeDeltas] answers exactly for the versions the deltas still cover, and its
    answer brings a client at that version to the current one. *)
Lemma composeDeltas_spec hist rid v ds v' w :
  follows hist rid v ds v' -> 
  (is_Some (composeDeltas rid ds w v') <-> v <= w < v') /\
  forall D base, composeDeltas rid ds w v' = Some D -> hist !! (rid, w) = Some base ->
    exists after, hist !! (rid, v') = Some after /\ apply_delta D base ≡ after /\
      FromStateVersion D = w /\ ToStateVersion D = v' /\ RoomID D = rid.
Proof.
  intros Hf. pose proof (follows_length _ _ _ _ _ Hf) as Hlen. unfold composeDeltas.
  destruct (Z.leb_spec v' w) as [Hle|Hlt]; simpl.
  { split; [split; [by intros [? ?]|lia]|done]. }
  destruct (bool_decide_reflect (ds = [])) as [->|Hne]; simpl.
  { simpl in Hlen. split; [split; [by intros [? ?]|lia]|done]. }
  set (a0 := mkAcc ∅ ∅ 0 "" w).
  destruct (decide (v <= w)) as [Hvw|Hvw].
  2: { rewrite (compose_loop_stuck _ _ _ _ _ w _ a0 Hf) by (done || lia). simpl.
       assert ((w =? v') = false) as -> by (apply Z.eqb_neq; lia). simpl.
       split; [split; [by intros [? ?]|lia]|done]. }
  assert (exists ds1 ds2, ds = ds1 ++ ds2 /\ follows hist rid v ds1 w /\ follows hist rid w ds2 v')
    as (ds1 & ds2 & -> & Hf1 & Hf2).
  { exists (take (Z.to_nat (w - v)) ds), (drop (Z.to_nat (w - v)) ds).
    rewrite take_drop. split; [done|]. split.
    - clear a0 Hne. revert w Hlt Hvw. induction Hf as [v|v d ds v' ? ? ? ? ? ? ? Hf IH]; intros w Hlt Hvw.
      { simpl in Hlen. lia. }
      destruct (decide (w = v)) as [->|]; [rewrite Z.sub_diag; constructor|].
      replace (Z.to_nat (w - v)) with (Datatypes.S (Z.to_nat (w - (v + 1)))) by lia. simpl in *.
      econstructor; eauto. apply IH; lia.
    - replace w with (v + Z.of_nat (Z.to_nat (w - v))) at 1 by lia.
      apply follows_drop; [lia|done]. }
  rewrite (compose_loop_skips _ _ _ _ _ w _ a0 Hf1) by (done || lia).
  assert (acc_ok (acc_sets a0)) as Hok0.
  { split; simpl; [apply map_Forall_empty|]. intros k. by rewrite lookup_empty; intros [? ?]. }
  assert (exists base, hist !! (rid, w) = Some base) as [base0 Hb0].
  { destruct Hf2; [lia|eauto]. }
  destruct (compose_loop_follows _ _ _ _ _ a0 base0 base0 Hf2 Hlt eq_refl Hok0 Hb0)
    as (after & Haft & Hnext & Hok & Hov).
  { intros k. rewrite lookup_overlay. simpl. by rewrite !lookup_empty. }
  rewrite Hnext, Z.eqb_refl. simpl. split; [split; [lia|eauto]|].
  intros D base HD Hbase. assert (base0 = base) as -> by congruence. injection HD as <-.
  exists after. split; [done|]. split; [|done].
  by rewrite (composed_apply (acc_sets (compose_loop ds2 v' a0))) by done.
Qed.

End histories.

(** ** Runs of the manager *)

(** A mutation as the battle code writes them: it leaves the room alone when it fails,
    and never touches the room's identity and version, which are the manager's. *)
Definition well_behaved (f : Room -> option error * Room) : Prop :=
  forall r,
    match f r with
    | (Some _, r') => r' = r
    | (None, r') => ID r' = ID r /\ StateVersion r' = StateVersion r /\
                    (keys_ok (Players r) -> keys_ok (Players r'))
    end.

Section runs.
Context `{!MapRange string PlayerState, !MapRange string unit, !MapRange Z Room}.
Context {S : Type} `{SnapshotRepositoryLaws S}.

(** The manager, the repository and the history after any sequence of operations of a
    server that started with no live rooms. *)
Inductive reach : Manager -> S -> history -> Prop :=
  | reach_start s : ready s -> reach (NewRoomManager true) s ∅
  | reach_create m s hist room err m' s' :
      reach m s hist -> keys_ok (Players room) -> time_ok (UpdatedAt room) ->
      Create m (Some room) s = (err, m', s') ->
      reach m' s' (match err with None => record hist room | Some _ => hist end)
  | reach_mutate m s hist rid f now err m' s' :
      reach m s hist -> well_behaved f -> time_ok now ->
      (forall r, rooms m !! rid = Some r -> 0 <= StateVersion r < 2 ^ 64 - 1) ->
      Mutate m rid (Some f) now s = (err, m', s') ->
      reach m' s' (match err, rooms m' !! rid with
                   | None, Some r => record hist r
                   | _, _ => hist
                   end)
  | reach_restore m s hist player r m' s' :
      reach m s hist -> RestoreByPlayerID m player s = (r, m', s') ->
      reach m' s' (match r with
                  | Ok room => match rooms m !! ID room with Some _ => hist | None => record hist room end
                  | Err _ => hist
                  end).

(** A live room, its snapshot, its deltas and the history agree. *)
Definition live_ok (m : Manager) (s : S) (hist : history) (rid : Z) (r : Room) : Prop :=
  ID r = rid /\ keys_ok (Players r) /\
  (exists r0, stored s !! rid = Some r0 /\ Players r0 = Players r /\ StateVersion r0 = StateVersion r) /\
  hist !! (rid, StateVersion r) = Some (Players r) /\
  (forall w p, hist !! (rid, w) = Some p -> w <= StateVersion r) /\
  (exists v, follows hist rid v (room_deltas m rid) (StateVersion r)).

Definition inv (m : Manager) (s : S) (hist : history) : Prop :=
  has_snapshots m = true /\ (0 < deltaSize m)%nat /\
  (forall rid r, rooms m !! rid = Some r -> live_ok m s hist rid r) /\
  (forall rid, rooms m !! rid = None -> room_deltas m rid = [] /\ forall w, hist !! (rid, w) = None).

Lemma record_other hist r rid w : rid <> ID r -> record hist r !! (rid, w) = hist !! (rid, w).
Proof. intros. unfold record. apply lookup_insert_ne. congruence. Qed.

Lemma record_fresh hist r w p :
  hist !! (ID r, StateVersion r) = None ->
  hist !! (ID r, w) = Some p -> record hist r !! (ID r, w) = Some p.
Proof.
  intros Hn Hp. unfold record. rewrite lookup_insert_ne; [done|]. congruence.
Qed.

(** Operations on one room leave what is known about the others in place. *)
Lemma live_ok_frame m m' s s' hist hist' rid r :
  room_deltas m' rid = room_deltas m rid -> stored s' !! rid = stored s !! rid ->
  (forall w, hist' !! (rid, w) = hist !! (rid, w)) ->
  live_ok m s hist rid r -> live_ok m' s' hist' rid r.
Proof.
  unfold live_ok. intros Hd Hs Hh (? & ? & (r0 & ? & ? & ?) & ? & Hle & v & Hf).
  split_and!; try done.
  - exists r0. by rewrite Hs.
  - by rewrite Hh.
  - intros w p. rewrite Hh. apply Hle.
  - exists v. rewrite Hd. eapply follows_mono; [|done]. intros w p. by rewrite Hh.
Qed.

Lemma room_deltas_set_other m r rid rid' ds :
  rid <> rid' -> room_deltas (set_deltas (set_room m rid' r) rid' ds) rid = room_deltas m rid.
Proof. intros. unfold room_deltas. simpl. by rewrite lookup_insert_ne. Qed.

Lemma room_deltas_set m r rid ds : room_deltas (set_deltas (set_room m rid r) rid ds) rid = ds.
Proof. unfold room_deltas. simpl. by rewrite lookup_insert_eq. Qed.

(** A room newly brought to life, with no deltas. *)
Lemma fresh_inv m m' s s' hist room :
  inv m s hist -> rooms m !! ID room = None -> keys_ok (Players room) ->
  rooms m' = <[ID room := room]> (rooms m) ->
  (forall rid, room_deltas m' rid = room_deltas m rid) ->
  has_snapshots m' = true -> (0 < deltaSize m')%nat ->
  (forall rid, rid <> ID room -> stored s' !! rid = stored s !! rid) ->
  (exists r0, stored s' !! ID room = Some r0 /\ Players r0 = Players room /\ StateVersion r0 = StateVersion room) ->
  inv m' s' (record hist room).
Proof.
  intros (_ & _ & Hlive & Hdead) Hnone Hk Hrooms Hds Hsnap Hsz Hst Hst0.
  destruct (Hdead _ Hnone) as [Hd0 Hh0]. split_and!; [done|done| |].
  - intros rid r. rewrite Hrooms. destruct (decide (rid = ID room)) as [->|Hne].
    + rewrite lookup_insert_eq. intros [= <-]. unfold live_ok. split_and!; try done.
      * unfold record. by rewrite lookup_insert_eq.
      * intros w p. unfold record. rewrite lookup_insert. case_decide; [|by rewrite Hh0]. simplify_eq. lia.
      * exists (StateVersion room). rewrite Hds, Hd0. constructor.
    + rewrite lookup_insert_ne by done. intros Hr. apply (live_ok_frame m _ s _ hist); auto.
      intros w. by apply record_other.
  - intros rid. rewrite Hrooms, lookup_insert_None. intros [Hr Hne]. destruct (Hdead _ Hr) as [Hd Hh].
    rewrite Hds. split; [done|]. intros w. rewrite record_other by done. apply Hh.
Qed.

Lemma create_inv m s hist room err m' s' :
  ready s -> inv m s hist -> keys_ok (Players room) -> time_ok (UpdatedAt room) ->
  Create m (Some room) s = (err, m', s') ->
  ready s' /\ inv m' s' (match err with None => record hist room | Some _ => hist end).
Proof.
  intros Hrd Hi Hk Ht Hc. pose proof Hi as (Hsn & Hsz & Hlive & Hdead). unfold Create, saveLocked in Hc.
  rewrite Hsn, Clone_id in Hc.
  destruct (Validate room); [by simplify_eq|]. destruct (rooms m !! ID room) eqn:Er; [by simplify_eq|].
  destruct (Save room s) as [[e|] s1] eqn:Es; injection Hc as <- <- <-.
  - apply save_err in Es as [Es Hrd']. split; [by apply Hrd'|]. split_and!; try done. intros rid r Hr.
    apply (live_ok_frame m _ s _ hist); [done| |done|by apply Hlive]. by rewrite Es.
  - apply save_ok in Es as [Es Hrd']; [|done..]. split; [done|]. eapply fresh_inv; try done.
    + intros rid. destruct (decide (rid = ID room)) as [->|].
      * rewrite room_deltas_set. by destruct (Hdead _ Er) as [-> _].
      * by rewrite room_deltas_set_other.
    + intros rid ?. by rewrite Es, lookup_insert_ne.
    + exists (persisted room). rewrite Es, lookup_insert_eq.
      destruct (persisted_same room) as (? & ? & ? & ? & ?). done.
Qed.

Lemma AdvanceTick_ok r now r' : AdvanceTick r now = Ok r' ->
  ID r' = ID r /\ StateVersion r' = uint64 (StateVersion r + 1) /\ Players r' = Players r /\ UpdatedAt r' = now.
Proof. unfold AdvanceTick. case_on; [done|]. by intros [= <-]. Qed.

(** The deltas after one more tick, trimmed to the configured number. *)
Lemma recordDelta_follows m hist rid v prev cur :
  rid = ID cur -> (0 < deltaSize m)%nat ->
  follows hist rid v (room_deltas m rid) (StateVersion prev) ->
  StateVersion cur = StateVersion prev + 1 ->
  hist !! (rid, StateVersion prev) = Some (Players prev) ->
  hist !! (rid, StateVersion cur) = Some (Players cur) ->
  keys_ok (Players cur) ->
  exists v', follows hist rid v' (room_deltas (recordDeltaLocked m prev cur) rid) (StateVersion cur).
Proof.
  intros -> Hsz Hf Hv Hp Hc Hk. unfold recordDeltaLocked, room_deltas at 1. simpl.
  rewrite lookup_insert_eq. simpl.
  assert (follows hist (ID cur) v (room_deltas m (ID cur) ++ [room_delta prev cur]) (StateVersion cur)) as Hf'.
  { rewrite Hv. eapply (follows_snoc _ _ _ _ _ _ (Players prev) (Players cur));
      [exact Hf|done|exact Hv|exact Hp|by rewrite <- Hv|by apply room_delta_correct]. }
  case_on; [|eauto]. eexists. apply follows_drop; [lia|done].
Qed.

Lemma inv_stored m s s' hist : stored s' = stored s -> inv m s hist -> inv m s' hist.
Proof.
  intros Hs (? & ? & Hlive & ?). split_and!; try done. intros rid r Hr.
  apply (live_ok_frame m _ s _ hist); auto. by rewrite Hs.
Qed.

(** One more tick of a room, saved: its delta is recorded and the others stay as they are. *)
Lemma tick_inv m s s1 hist rid room room2 :
  inv m s hist -> rooms m !! rid = Some room -> ID room2 = rid -> StateVersion room2 = StateVersion room + 1 ->
  keys_ok (Players room2) -> stored s1 = <[rid := persisted room2]> (stored s) ->
  inv (recordDeltaLocked (set_room m rid room2) room room2) s1 (record hist room2).
Proof.
  intros (Hsn & Hsz & Hlive & Hdead) Er HID2 Hv Hk2 Es. destruct (Hlive _ _ Er) as (HID & Hk & Hst & Hh & Hle & v & Hf).
  assert (rooms (recordDeltaLocked (set_room m rid room2) room room2) = <[rid := room2]> (rooms m))
    as Hrooms by done.
  assert (hist !! (rid, StateVersion room2) = None) as Hfresh.
  { destruct (hist !! (rid, StateVersion room2)) eqn:E; [|done]. apply Hle in E. lia. }
  assert (forall rid', rid' <> rid ->
    room_deltas (recordDeltaLocked (set_room m rid room2) room room2) rid' = room_deltas m rid') as Hother.
  { intros rid' Hne. unfold recordDeltaLocked, room_deltas at 1. simpl.
    by rewrite HID2, lookup_insert_ne. }
  split_and!; [done|done| |].
  - intros rid' r. rewrite Hrooms. destruct (decide (rid' = rid)) as [->|Hne].
    + rewrite lookup_insert_eq. intros [= <-]. unfold live_ok. split_and!; [done|done| | | |].
      * exists (persisted room2). rewrite Es, lookup_insert_eq.
        destruct (persisted_same room2) as (? & ? & ? & ? & ?). done.
      * unfold record. by rewrite HID2, lookup_insert_eq.
      * intros w p. unfold record. rewrite HID2, lookup_insert. case_decide; [simplify_eq; lia|].
        intros Hp. apply Hle in Hp. lia.
      * apply (recordDelta_follows _ _ _ v); try done; [| |unfold record; by rewrite HID2, lookup_insert_eq].
        -- eapply follows_mono; [|done]. intros w p. rewrite <- HID2. apply record_fresh.
           by rewrite HID2.
        -- rewrite <- HID2. apply record_fresh; by rewrite HID2.
    + rewrite lookup_insert_ne by done. intros Hr.
      apply (live_ok_frame m _ s _ hist); [by apply Hother| | |by apply Hlive].
      * by rewrite Es, lookup_insert_ne.
      * intros w. apply record_other. congruence.
  - intros rid'. rewrite Hrooms, lookup_insert_None. intros [Hr Hne]. destruct (Hdead _ Hr) as [Hd Hh'].
    rewrite Hother by done. split; [done|]. intros w. rewrite record_other by congruence. apply Hh'.
Qed.

Lemma mutate_inv m s hist rid f now err m' s' :
  ready s -> inv m s hist -> well_behaved f -> time_ok now ->
  (forall r, rooms m !! rid = Some r -> 0 <= StateVersion r < 2 ^ 64 - 1) ->
  Mutate m rid (Some f) now s = (err, m', s') ->
  ready s' /\ inv m' s' (match err, rooms m' !! rid with None, Some r => record hist r | _, _ => hist end).
Proof.
  intros Hrd Hi Hwb Ht Hb Hm. pose proof Hi as (Hsn & Hsz & Hlive & Hdead). unfold Mutate in Hm.
  destruct (rid =? 0); [by simplify_eq|].
  destruct (rooms m !! rid) as [room|] eqn:Er; [|by simplify_eq].
  assert (set_room m rid room = m) as Hsame by (destruct m; unfold set_room; simpl in *; by rewrite insert_id).
  specialize (Hb _ eq_refl). destruct (Hlive _ _ Er) as (HID & Hk & _).
  specialize (Hwb room). rewrite Clone_id in Hm.
  destruct (f room) as [[e|] room1]; [subst room1; rewrite Hsame in Hm; by simplify_eq|].
  destruct Hwb as (Hw1 & Hw2 & Hw3).
  destruct (AdvanceTick room1 now) as [room2|e] eqn:Ea; [|rewrite Hsame in Hm; by simplify_eq].
  apply AdvanceTick_ok in Ea as (Ha1 & Ha2 & Ha3 & Ha4).
  rewrite uint64_id in Ha2 by (unfold in_uint64; lia).
  assert (ID room2 = rid) as HID2 by congruence.
  unfold saveLocked in Hm. rewrite Hsn, Clone_id in Hm.
  destruct (Save room2 s) as [[e|] s1] eqn:Es.
  { rewrite Hsame in Hm. injection Hm as <- <- <-. apply save_err in Es as [Es Hrd']. split; [by apply Hrd'|].
    by apply (inv_stored _ s). }
  injection Hm as <- <- <-.
  apply save_ok in Es as [Es Hrd']; [|done|rewrite Ha3; auto|by rewrite Ha4]. split; [done|]. rewrite HID2 in Es.
  simpl rooms. rewrite lookup_insert_eq. apply (tick_inv _ s); try done; [lia|rewrite Ha3; auto].
Qed.

(** What [RestoreByPlayerID] finds, and where. *)
Lemma RestoreByPlayerID_ok m s hist player room m' s' :
  ready s -> inv m s hist -> RestoreByPlayerID m player s = (Ok room, m', s') ->
  stored s' = stored s /\ is_Some (Players room !! player) /\
  ((m' = m /\ rooms m !! ID room = Some room) \/
   (rooms m !! ID room = None /\ m' = set_room m (ID room) room /\ stored s !! ID room = Some room /\
    keys_ok (Players room))).
Proof.
  intros Hrd (Hsn & _ & Hlive & _) Hr. unfold RestoreByPlayerID in Hr.
  destruct (bool_decide _); [done|]. rewrite Hsn in Hr. simpl in Hr.
  destruct (list_find _ _) as [[i [rid r]]|] eqn:El.
  - rewrite Clone_id in Hr. simplify_eq.
    apply list_find_Some in El as (El & Hp & _). split; [done|]. split; [done|]. left.
    apply list_elem_of_lookup_2, elem_of_range in El.
    destruct (Hlive _ _ El) as (-> & _). done.
  - destruct (FindByPlayerID player s) as [[r|e] s1] eqn:Ef; [|done]. rewrite Clone_id in Hr. simplify_eq.
    destruct (find_ok _ _ _ _ Hrd Ef) as (Hst & Hp & Hk). split; [by apply find_pure in Ef as [? _]|].
    split; [done|]. right. split_and!; try done.
    destruct (rooms m !! ID room) as [live|] eqn:Er; [|done]. exfalso.
    destruct (Hlive _ _ Er) as (_ & _ & (r0 & Hr0 & HP & _) & _).
    apply list_find_None in El. rewrite Forall_forall in El.
    apply (El (ID room, live)); [by apply elem_of_range|]. simpl. rewrite Hst in Hr0. simplify_eq.
    by rewrite <- HP.
Qed.

Lemma restore_inv m s hist player r m' s' :
  ready s -> inv m s hist -> RestoreByPlayerID m player s = (r, m', s') ->
  inv m' s' (match r with
             | Ok room => match rooms m !! ID room with Some _ => hist | None => record hist room end
             | Err _ => hist
             end).
Proof.
  intros Hrd Hi Hr. destruct r as [room|e].
  - destruct (RestoreByPlayerID_ok _ _ _ _ _ _ _ Hrd Hi Hr) as (Hs & _ & [[-> ->]|(Hn & -> & Hst & Hk)]);
      apply (inv_stored _ s); try done.
    rewrite Hn. pose proof Hi as (? & ? & _). eapply fresh_inv; try done. by exists room.
  - unfold RestoreByPlayerID in Hr.
    destruct (bool_decide _); [by simplify_eq|]. destruct (list_find _ _) as [[? [? ?]]|]; [by simplify_eq|].
    destruct (negb _); [by simplify_eq|]. destruct (FindByPlayerID player s) as [[?|?] s1] eqn:Ef; [done|].
    injection Hr as <- <- <-. apply (inv_stored _ s); [by apply find_pure in Ef as [? _]|done].
Qed.

Lemma restore_ready m player s r m' s' :
  ready s -> RestoreByPlayerID m player s = (r, m', s') -> ready s'.
Proof.
  intros Hrd. unfold RestoreByPlayerID. destruct (bool_decide _); [by intros [= _ _ <-]|].
  destruct (list_find _ _) as [[? [? ?]]|]; [by intros [= _ _ <-]|]. destruct (negb _); [by intros [= _ _ <-]|].
  destruct (FindByPlayerID player s) as [rf s1] eqn:Ef. apply find_pure in Ef as [_ Hx].
  destruct rf; intros [= _ _ <-]; by apply Hx.
Qed.

Lemma reach_inv m s hist : reach m s hist -> ready s /\ inv m s hist.
Proof.
  induction 1 as [s Hrd|m s hist room err m' s' _ [Hrd Hi] Hk Ht Hc|m s hist rid f now err m' s' _ [Hrd Hi] Hwb Ht Hb Hm
    |m s hist player r m' s' _ [Hrd Hi] Hr].
  - split; [done|]. split_and!; simpl; try done; lia.
  - by eapply create_inv.
  - by eapply mutate_inv.
  - split; [by eapply restore_ready|by eapply restore_inv].
Qed.

(** A restore, seen from the history: the room it returns is live afterwards, and its
    deltas follow the history. *)
Lemma restore_follows m s hist player room m' s' :
  ready s -> inv m s hist -> RestoreByPlayerID m player s = (Ok room, m', s') ->
  exists hist' v, (forall w p, hist !! (ID room, w) = Some p -> hist' !! (ID room, w) = Some p) /\
    follows hist' (ID room) v (room_deltas m' (ID room)) (StateVersion room) /\
    hist' !! (ID room, StateVersion room) = Some (Players room).
Proof.
  intros Hrd Hi Hr. pose proof (restore_inv _ _ _ _ _ _ _ Hrd Hi Hr) as Hi'. simpl in Hi'.
  destruct (RestoreByPlayerID_ok _ _ _ _ _ _ _ Hrd Hi Hr) as (_ & _ & [[-> Hl]|(Hn & -> & _)]).
  - destruct Hi' as (_ & _ & Hlive & _). rewrite Hl in Hlive.
    destruct (Hlive _ _ Hl) as (_ & _ & _ & Hh & _ & v & Hf). exists hist, v. auto.
  - rewrite Hn in Hi'. destruct Hi' as (_ & _ & Hlive & _).
    destruct (Hlive (ID room) room) as (_ & _ & _ & Hh & _ & v & Hf); [by simpl; rewrite lookup_insert_eq|].
    exists (record hist room), v. split_and!; try done. intros w p Hp. exfalso.
    destruct Hi as (_ & _ & _ & Hdead). destruct (Hdead _ Hn) as [_ Hd]. by rewrite Hd in Hp.
Qed.

(** What a delta does for the client that gets it. *)
Lemma restored_delta m s hist player last allow result m' s' base :
  reach m s hist ->
  RestoreByPlayerIDSince m player last allow s = (Ok result, m', s') ->
  Mode result = RestoreModeDelta ->
  hist !! (ID (RRoom result), last) = Some base ->
  exists D, Delta result = Some D /\ apply_delta D base ≡ Players (RRoom result) /\
    BaseStateVersion result = last /\ FromStateVersion D = last /\
    ToStateVersion D = StateVersion (RRoom result) /\ RoomID D = ID (RRoom result).
Proof.
  intros Hr Hres Hmode Hbase. apply reach_inv in Hr as [Hrd Hr]. unfold RestoreByPlayerIDSince in Hres.
  destruct (RestoreByPlayerID m player s) as [[[room|e] m1] s1] eqn:Er; [|done].
  destruct (restore_follows _ _ _ _ _ _ _ Hrd Hr Er) as (hist' & v & Hsub & Hf & Hcur).
  destruct (last =? StateVersion room); [by simplify_eq|].
  destruct (allow && (last <? StateVersion room)); [|by simplify_eq].
  destruct (composeDeltas _ _ _ _) as [D|] eqn:Ec; [|by simplify_eq].
  injection Hres as <- <- <-. simpl in *. exists D.
  destruct (proj2 (composeDeltas_spec _ _ _ _ _ last Hf) D base Ec (Hsub _ _ Hbase))
    as (after & Ha & HD & ? & ? & ?).
  rewrite Hcur in Ha. simplify_eq. by split_and!.
Qed.


(** Which answer a restore gives: nothing for a client that is up to date, a delta
    exactly when the client allows it and its version is one of those the kept deltas
    reach back to, the full room otherwise. *)
Theorem restore_mode_spec m s hist player last allow result m' s' :
  reach m s hist ->
  RestoreByPlayerIDSince m player last allow s = (Ok result, m', s') ->
  let current := StateVersion (RRoom result) in
  let kept := Z.of_nat (length (room_deltas m' (ID (RRoom result)))) in
  (Mode result = RestoreModeNoop <-> last = current) /\
  (Mode result = RestoreModeDelta <-> allow = true /\ current - kept <= last < current) /\
  is_Some (Players (RRoom result) !! player).
Proof.
  intros Hr Hres. apply reach_inv in Hr as [Hrd Hr]. unfold RestoreByPlayerIDSince in Hres.
  destruct (RestoreByPlayerID m player s) as [[[room|e] m1] s1] eqn:Er; [|done].
  destruct (restore_follows _ _ _ _ _ _ _ Hrd Hr Er) as (hist' & v & _ & Hf & _).
  destruct (RestoreByPlayerID_ok _ _ _ _ _ _ _ Hrd Hr Er) as (_ & Hp & _).
  pose proof (follows_length _ _ _ _ _ Hf) as Hlen.
  pose proof (proj1 (composeDeltas_spec _ _ _ _ _ last Hf)) as Hc.
  injection Hres as <- <- <-.
  destruct (Z.eqb_spec last (StateVersion room)); simpl.
  { split_and!; [naive_solver | | done]. split; [done|lia]. }
  destruct allow; simpl.
  2: { split_and!; [naive_solver|naive_solver|done]. }
  destruct (Z.ltb_spec last (StateVersion room)).
  - destruct (composeDeltas _ _ _ _) as [D|] eqn:Ec; simpl; split_and!; try done.
    + split; [|done]. intros _. split; [done|]. assert (v <= last < StateVersion room); [naive_solver|lia].
    + split; [done|]. intros [_ ?]. assert (is_Some (@None RoomDelta)) as [? ?]; [apply Hc; lia|done].
  - simpl. split_and!; try done. split; [done|lia].
Qed.

(** Memory and repository agree: every live room is stored with the same players and
    version, so a restarted server resumes from the state the clients were last told. *)
Theorem live_rooms_are_stored m s hist rid r :
  reach m s hist -> rooms m !! rid = Some r ->
  exists r0, stored s !! rid = Some r0 /\ Players r0 = Players r /\ StateVersion r0 = StateVersion r /\
    hist !! (rid, StateVersion r) = Some (Players r).
Proof.
  intros Hr Hl. apply reach_inv in Hr as [_ Hr]. destruct Hr as (_ & _ & Hlive & _).
  destruct (Hlive _ _ Hl) as (_ & _ & (r0 & ? & ? & ?) & ? & _). by exists r0.
Qed.


End runs.

(** ** The mutations the battle code makes, and a repository in memory *)

Definition update_player (p : PlayerState) (r : Room) : option error * Room :=
  match UpdatePlayer r p with Ok r' => (None, r') | Err e => (Some e, r) end.

Lemma update_player_well_behaved p : well_behaved (update_player p).
Proof.
  intros r. unfold update_player. destruct (UpdatePlayer r p) as [r'|] eqn:E; [|done].
  apply UpdatePlayer_ok in E as (_ & _ & ->). simpl. auto using insert_keys_ok.
Qed.

Definition memory_find (player : string) (s : gmap Z Room) : res Room :=
  match list_find (fun ir : Z * Room =>
          is_Some (Players ir.2 !! player) /\ keys_ok (Players ir.2) /\ ID ir.2 = ir.1) (map_to_list s) with
  | Some (_, (_, r)) => Ok r
  | None => Err ErrRoomNotFound
  end.

#[export] Instance memory_repository : SnapshotRepository (gmap Z Room) := {|
  Save r s := (None, <[ID r := r]> s);
  FindByPlayerID player s := (memory_find player s, s);
  stored s := s;
  persisted r := r;
  ready _ := True;
  time_ok _ := True
|}.

#[export] Instance memory_repository_laws : SnapshotRepositoryLaws (gmap Z Room).
Proof.
  split; simpl; try naive_solver.
  intros p s r s' _ [= Hf <-]. unfold memory_find in Hf.
  destruct (list_find _ _) as [[i [rid r1]]|] eqn:El; [|done]. injection Hf as <-.
  apply list_find_Some in El as (El & (Hp & Hk & Hid) & _).
  apply list_elem_of_lookup_2, elem_of_map_to_list in El. simpl in *. subst. done.
Qed.

Section witnesses.
#[local] Existing Instance canonical_range.

Definition duel : Room := mkRoom 7 0 1 RoomStatusCreated {["alice" := alice; "bob" := bob]} 1000.
Definition hurt : PlayerState := mkPlayer "alice" 40 (S754_zero false) (S754_zero false).

Definition created : Manager := (Create (NewRoomManager true) (Some duel) (∅ : gmap Z Room)).1.2.
Definition hit : Manager :=
  (Mutate created 7 (Some (update_player hurt)) 2000 ({[7 := duel]} : gmap Z Room)).1.2.
Definition hurt_duel : Room := mkRoom 7 1 2 RoomStatusRunning {["alice" := hurt; "bob" := bob]} 2000.

Lemma duel_keys : keys_ok (Players duel).
Proof. apply map_Forall_insert_2; [done|]. by apply map_Forall_singleton. Qed.

Lemma hit_reachable :
  reach hit ({[7 := hurt_duel]} : gmap Z Room) (record (record ∅ duel) hurt_duel).
Proof.
  assert (reach created ({[7 := duel]} : gmap Z Room) (record ∅ duel)) as H1.
  { eapply (reach_create (NewRoomManager true) ∅ ∅ duel None); [by apply reach_start|apply duel_keys|done|].
    by vm_compute. }
  pose proof (reach_mutate created _ _ 7 (update_player hurt) 2000 None hit {[7 := hurt_duel]} H1
    (update_player_well_behaved hurt) I) as H2.
  assert (rooms hit !! 7 = Some hurt_duel) as Hh by by vm_compute. rewrite Hh in H2. apply H2.
  - intros r Hr. assert (Some r = Some duel) as [= ->] by (rewrite <- Hr; by vm_compute). simpl. lia.
  - by vm_compute.
Qed.

Definition catch_up : RestoreResult :=
  mkRestore hurt_duel RestoreModeDelta 1 (Some (mkDelta 7 1 2 1 RoomStatusRunning [hurt] [])).


Lemma restore_mode_spec_witness : Mode catch_up = RestoreModeDelta.
Proof.
  apply (restore_mode_spec hit {[7 := hurt_duel]} _ "alice" 1 true catch_up hit
    {[7 := hurt_duel]} hit_reachable); [by vm_compute|]. split; [done|]. by vm_compute.
Defined.

Lemma live_rooms_are_stored_witness :
  exists r0, ({[7 := hurt_duel]} : gmap Z Room) !! 7 = Some r0 /\ Players r0 = Players hurt_duel.
Proof.
  destruct (live_rooms_are_stored hit {[7 := hurt_duel]} _ 7 hurt_duel hit_reachable)
    as (r0 & H1 & H2 & _); [by vm_compute|]. by exists r0.
Defined.

Definition stranger : PlayerState := mkPlayer "carol" 10 (S754_zero false) (S754_zero false).


(** A mutation that fails half way: it has moved a player before it finds its error. *)
Definition half_done (r : Room) : option error * Room :=
  match UpdatePlayer r hurt with
  | Ok r1 => (Some ErrPlayerNotInRoom, r1)
  | Err e => (Some e, r)
  end.

(** [Mutate] restores the previous room when the tick or the snapshot fails, but not
    when the mutation itself fails: what a failing mutation already did stays in the live
    room under the old version, differs from the stored room, and is missing from the
    delta of the next successful mutation, so a client that catches up by that delta
    keeps the old player. *)
Theorem failing_mutation_leaks :
  let '(err, m1, s1) := Mutate created 7 (Some half_done) 2000 ({[7 := duel]} : gmap Z Room) in
  let '(err2, m2, s2) := Mutate m1 7 (Some (update_player bob)) 3000 s1 in
  err = Some ErrPlayerNotInRoom /\ err2 = None /\
  (StateVersion <$> rooms m1 !! 7) = Some 1 /\
  (rooms m1 !! 7 ≫= fun r => Players r !! "alice") = Some hurt /\
  (s1 !! 7 ≫= fun r => Players r !! "alice") = Some alice /\
  match RestoreByPlayerIDSince m2 "alice" 1 true s2 with
  | (Ok result, _, _) =>
      Mode result = RestoreModeDelta /\
      match Delta result with
      | Some D => apply_delta D (Players duel) !! "alice" = Some alice
      | None => False
      end /\
      Players (RRoom result) !! "alice" = Some hurt
  | _ => False
  end.
Proof. by vm_compute. Qed.

End witnesses.

End RoomManager.
