(* ===== verification/Mongo.v ===== *)
(** * MongoDB as the repositories use it, and the unit of work
      ([common/mongodb/transaction.go])

    The database and its driver are not part of the repository: they appear here as
    the operations of a type class, with the documented behaviour the code relies on
    as the class's laws. Three facts of a shared database are kept:
    - other clients work on it at the same time: a call sees the database after some
      of their steps (the relation [env]), except inside a transaction;
    - a write that reports a failure may have been applied all the same, unless the
      failure is a duplicate key;
    - a transaction whose commit reports a failure may have been committed.
    The unit of work of [transaction.go] is translated on top of the driver's sessions.
    The last part is a database in memory with a schedule of foreign steps, on which
    examples are run. *)

From S2P Require Import Prelude.

Module Mongo.

Definition ErrNoDocuments := Sentinel "mongo.ErrNoDocuments" "mongo: no documents in result".

(** The errors of the driver never are (nor wrap) the errors of the program. *)
Definition driver_error (e : error) : Prop :=
  forall v m, errors_Is e (Sentinel v m) = true -> String.prefix "mongo." v = true.

(** The sentinels of the program are not the driver's. *)
Lemma driver_not_program e v m : driver_error e -> String.prefix "mongo." v = false ->
  errors_Is e (Sentinel v m) = false.
Proof. intros Hd Hv. destruct (errors_Is e _) eqn:E; [|done]. apply Hd in E. congruence. Qed.

(** The context a call receives: an ordinary one or that of a running transaction. *)
Inductive context := Background | Transaction.

(** What is stored of a document: BSON dates have a resolution of one millisecond. *)
Class BsonDates := {
  bson_time : Z -> Z;
  bson_time_near t : bson_time t <= t < bson_time t + Millisecond;
  bson_time_exact t : t mod Millisecond = 0 -> bson_time t = t;
  bson_time_mono t u : t <= u -> bson_time t <= bson_time u
}.
Class Bson (Doc : Type) := bson : Doc -> Doc.

(** The dates of BSON in the drivers: whole milliseconds. *)
Definition millis (t : Z) : Z := time_of_UnixMilli (time_UnixMilli t).

Lemma millis_near t : millis t <= t < millis t + Millisecond.
Proof.
  unfold millis, time_of_UnixMilli, time_UnixMilli, Millisecond.
  pose proof (Z.mod_pos_bound t (10 ^ 6)). pose proof (Z.div_mod t (10 ^ 6)). lia.
Qed.

Lemma millis_exact t : t mod Millisecond = 0 -> millis t = t.
Proof.
  unfold millis, time_of_UnixMilli, time_UnixMilli, Millisecond. pose proof (Z.div_mod t (10 ^ 6)). lia.
Qed.

Lemma millis_mono t u : t <= u -> millis t <= millis u.
Proof.
  unfold millis, time_of_UnixMilli, time_UnixMilli, Millisecond. intros ?.
  apply Z.mul_le_mono_nonneg_r; [lia|]. apply Z.div_le_mono; lia.
Qed.

#[export] Instance bson_millis : BsonDates := {|
  bson_time := millis;
  bson_time_near := millis_near;
  bson_time_exact := millis_exact;
  bson_time_mono := millis_mono
|}.

(** ** Collections *)

(** The part [get] of a database [V] that a collection holds, as an unordered list of
    documents, and the clash of two documents under the collection's unique indexes. *)
Record collection_of (V Doc : Type) := {
  get : V -> list Doc;
  put : list Doc -> V -> V;
  conflict : Doc -> Doc -> bool
}.
Arguments get {V Doc} c v.
Arguments put {V Doc} c l v.
Arguments conflict {V Doc} c d d'.

Section posts.
Context {V Doc : Type} (env : V -> V -> Prop) (C : collection_of V Doc).
Implicit Types (v : V) (d : Doc) (f : Doc -> bool) (l : list Doc).

(** The database as the call finds it. *)
Definition at_point (c : context) (v v' : V) : Prop :=
  match c with Background => env v v' | Transaction => v' = v end.

Definition clashes d v : Prop := exists d', d' ∈ get C v /\ conflict C d d' = true.

Definition none f v : Prop := forall d, d ∈ get C v -> f d = false.

(** The effect of [InsertOne], of an update of the one document found, and of [ReplaceOne] with upsert. *)
Definition inserted d v v' : Prop := ~ clashes d v /\ v' = put C (get C v ++ [d]) v.
Definition updated f (u : Doc -> option Doc) d' v v' : Prop :=
  exists l1 d l2, get C v = l1 ++ d :: l2 /\ f d = true /\ u d = Some d' /\ v' = put C (l1 ++ d' :: l2) v.
Definition replaced f d' v v' : Prop :=
  updated f (fun _ => Some d') d' v v' \/ (none f v /\ inserted d' v v').
Definition removed f v v' : Prop :=
  exists l1 d l2, get C v = l1 ++ d :: l2 /\ f d = true /\ v' = put C (l1 ++ l2) v.

(** A call found the database as [v1] and left it as [v']: on success it had the effect
    [done], on a failure that effect or none. *)
Definition write_post {A} (c : context) v (r : res A) v' (done : A -> V -> Prop) (v1 : V) : Prop :=
  at_point c v v1 /\
  match r with
  | Ok a => done a v'
  | Err e => driver_error e /\ (v' = v1 \/ exists a, done a v')
  end.

Definition find_post (c : context) f v (r : res Doc) v' : Prop :=
  at_point c v v' /\
  match r with
  | Ok d => d ∈ get C v' /\ f d = true
  | Err e => driver_error e /\ (errors_Is e ErrNoDocuments = true -> none f v')
  end.

End posts.

(** The driver's operations on a collection, for a client whose state [S] shows the
    database [view s]. A filter is the predicate it expresses; an update is a partial
    function: the server refuses some, such as an increment that overflows. *)
Class Collection (S : Type) {V Doc : Type} (C : collection_of V Doc) := {
  InsertOne : context -> Doc -> prog S unit;
  FindOne : context -> (Doc -> bool) -> prog S Doc;
  FindLatest : context -> (Doc -> bool) -> (Doc -> Z) -> prog S Doc;
  FindOneAndUpdate : context -> (Doc -> bool) -> (Doc -> option Doc) -> prog S Doc;
  UpdateOne : context -> (Doc -> bool) -> (Doc -> option Doc) -> prog S Z;
  ReplaceOne : context -> (Doc -> bool) -> Doc -> prog S unit;
  DeleteOne : context -> (Doc -> bool) -> prog S Z;
  DeleteMany : context -> (Doc -> bool) -> prog S Z
}.

Class Database (S V : Type) := {
  view : S -> V;
  env : V -> V -> Prop;
  IsDuplicateKeyError : error -> bool;
  env_preorder : PreOrder env
}.
#[export] Existing Instance env_preorder.

Class CollectionLaws (S : Type) {V Doc : Type} `{Database S V} `{Bson Doc}
    (C : collection_of V Doc) `{!Collection S C} := {
  insert_spec c d s r s' : InsertOne c d s = (r, s') ->
    exists v1, write_post env c (view s) r (view s') (fun _ => inserted C (bson d) v1) v1 /\
      (forall e, r = Err e -> IsDuplicateKeyError e = true -> clashes C (bson d) v1 /\ view s' = v1);
  find_spec c f s r s' : FindOne c f s = (r, s') -> find_post env C c f (view s) r (view s');
  find_latest_spec c f key s r s' : FindLatest c f key s = (r, s') ->
    find_post env C c f (view s) r (view s') /\
    (forall d d', r = Ok d -> d' ∈ get C (view s') -> f d' = true -> key d' <= key d);
  find_update_spec c f u s r s' : FindOneAndUpdate c f u s = (r, s') ->
    exists v1, write_post env c (view s) r (view s') (fun d' => updated C f u d' v1) v1 /\
      (forall e, r = Err e -> errors_Is e ErrNoDocuments = true -> none C f v1 /\ view s' = v1);
  update_spec c f u s r s' : UpdateOne c f u s = (r, s') ->
    exists v1, write_post env c (view s) r (view s')
      (fun n v' => (n = 0 /\ none C f v1 /\ v' = v1) \/ (n = 1 /\ exists d', updated C f u d' v1 v')) v1;
  replace_spec c f d s r s' : ReplaceOne c f d s = (r, s') ->
    exists v1, write_post env c (view s) r (view s') (fun _ => replaced C f (bson d) v1) v1;
  delete_spec c f s r s' : DeleteOne c f s = (r, s') ->
    exists v1, write_post env c (view s) r (view s')
      (fun n v' => (n = 0 /\ none C f v1 /\ v' = v1) \/ (n = 1 /\ removed C f v1 v')) v1;
  delete_many_spec c f s r s' : DeleteMany c f s = (r, s') ->
    exists v1, write_post env c (view s) r (view s')
      (fun n v' => n = Z.of_nat (length (filter (fun d => f d = true) (get C v1))) /\
                   v' = put C (filter (fun d => f d = false) (get C v1)) v1) v1
}.

(** ** Transactions: [common/mongodb/transaction.go] *)

Definition ErrMongoClientRequired := Sentinel "mongodb.ErrMongoClientRequired" "mongo client is required".
Definition ErrTransactionFuncNil := Sentinel "mongodb.ErrTransactionFuncNil" "transaction function is required".

Section unit_of_work.
Context {S : Type}.

(** What a transaction runs; it receives the transaction's context. *)
Definition txn_body : Type := context -> prog S unit.

Record TransactionSession := mkSession {
  WithTransaction : txn_body -> prog S unit;
  EndSession : S -> S
}.
Record SessionFactory := mkFactory { Start : prog S TransactionSession }.
Record MongoUnitOfWork := mkUnitOfWork { sessions : option SessionFactory }.

(** [Execute]: a nil receiver or function is [None]; [EndSession] is deferred. *)
Definition Execute (u : option MongoUnitOfWork) (fn : option txn_body) : prog S unit := fun s =>
  match (u ≫= sessions), fn with
  | None, _ => (Err ErrMongoClientRequired, s)
  | Some _, None => (Err ErrTransactionFuncNil, s)
  | Some factory, Some fn =>
      match Start factory s with
      | (Err e, s1) => (Err e, s1)
      | (Ok session, s1) =>
          let '(r, s2) := WithTransaction session fn s1 in
          (r, EndSession session s2)
      end
  end.

(** The driver's client and sessions. *)
Class Driver := {
  Client : Type;
  Session : Type;
  StartSession : Client -> prog S (option Session);
  session_WithTransaction : Session -> txn_body -> prog S unit;
  session_EndSession : Session -> S -> S
}.

Context `{Driver}.

Definition session_of (session : option Session) : TransactionSession :=
  mkSession
    (fun fn s => match session with
                 | None => (Err ErrMongoClientRequired, s)
                 | Some session => session_WithTransaction session fn s
                 end)
    (fun s => match session with None => s | Some session => session_EndSession session s end).

Definition newMongoSessionFactory (client : option Client) : SessionFactory :=
  mkFactory (fun s =>
    match client with
    | None => (Err ErrMongoClientRequired, s)
    | Some client =>
        match StartSession client s with
        | (Err e, s1) => (Err e, s1)
        | (Ok session, s1) => (Ok (session_of session), s1)
        end
    end).

Definition NewMongoUnitOfWork (client : option Client) : MongoUnitOfWork :=
  mkUnitOfWork (Some (newMongoSessionFactory client)).

End unit_of_work.
Arguments txn_body S : clear implicits.
Arguments TransactionSession S : clear implicits.
Arguments SessionFactory S : clear implicits.
Arguments MongoUnitOfWork S : clear implicits.
Arguments Driver S : clear implicits.

(** A transaction that found the database as [view s0]: it runs its body, without
    interference, from there, and leaves its effect whole or not at all. *)
Definition txn_post {S V} `{Database S V} (fn : txn_body S) (s : S) (r : res unit) (s' : S) : Prop :=
  exists s0 s1, env (view s) (view s0) /\
    match r with
    | Ok _ => fn Transaction s0 = (Ok tt, s1) /\ env (view s1) (view s')
    | Err e =>
        (fn Transaction s0 = (Err e, s1) /\ env (view s0) (view s')) \/
        ((driver_error e \/ e = ErrMongoClientRequired) /\
         (env (view s0) (view s') \/ (fn Transaction s0 = (Ok tt, s1) /\ env (view s1) (view s'))))
    end.

Class DriverLaws (S V : Type) `{Database S V} `{!Driver S} := {
  start_spec cl s r s' : StartSession cl s = (r, s') ->
    env (view s) (view s') /\ match r with Ok _ => True | Err e => driver_error e end;
  end_spec x s : env (view s) (view (session_EndSession x s));
  transaction_spec x fn s r s' : session_WithTransaction x fn s = (r, s') -> txn_post fn s r s'
}.

Section execute.
Context {S V : Type} `{DriverLaws S V}.

Lemma txn_post_env_l fn s s1 r s' : env (view s) (view s1) -> txn_post fn s1 r s' -> txn_post fn s r s'.
Proof.
  intros He (s0 & s2 & He0 & Hr). exists s0, s2. split; [by etrans|done].
Qed.

Lemma txn_post_env_r fn s r s1 s' : env (view s1) (view s') -> txn_post fn s r s1 -> txn_post fn s r s'.
Proof.
  intros He (s0 & s2 & He0 & Hr). exists s0, s2. split; [done|].
  assert (forall v, env v (view s1) -> env v (view s')) as Ht by (intros v ?; by etrans).
  destruct r as [[]|e]; naive_solver.
Qed.

(** What the repositories get from the unit of work the modules build. *)
Lemma Execute_spec (client : option Client) fn s r s' :
  Execute (Some (NewMongoUnitOfWork client)) (Some fn) s = (r, s') -> txn_post fn s r s'.
Proof.
  assert (forall s e s', env (view s) (view s') -> driver_error e \/ e = ErrMongoClientRequired ->
            txn_post fn s (Err e) s') as Herr.
  { intros t e t' ??. exists t, t. split; [done|]. eauto. }
  unfold Execute. simpl. destruct client as [cl|]; simpl.
  2:{ intros [= <- <-]. apply Herr; [done|eauto]. }
  destruct (StartSession cl s) as [[x|e] s1] eqn:Es; apply start_spec in Es as [Henv Hd].
  2:{ intros [= <- <-]. apply Herr; eauto. }
  simpl. destruct x as [x|]; simpl.
  2:{ intros [= <- <-]. apply Herr; eauto. }
  destruct (session_WithTransaction x fn s1) as [r2 s2] eqn:Et.
  intros [= <- <-]. apply transaction_spec in Et.
  eapply txn_post_env_l, txn_post_env_r; [done|apply end_spec|done].
Qed.

End execute.

(** ** A database in memory

    Before each call outside a transaction it lets the next foreign step of its schedule
    happen; nothing in it fails but what the laws say must. *)

Section memory.
Context {V : Type} (envr : V -> V -> Prop) `{!PreOrder envr}.

Record foreign := mkForeign { act : V -> V; act_ok : forall v, envr v (act v) }.
Record mem := mkMem { mem_db : V; schedule : list foreign }.

Definition ErrDuplicateKey := Text "E11000 duplicate key error".
Definition ErrRefused := Text "the server refused the update".

#[export] Instance mem_database : Database mem V := {|
  view := mem_db;
  env := envr;
  IsDuplicateKeyError e := bool_decide (e = ErrDuplicateKey);
  env_preorder := _
|}.

(** The database a call finds. *)
Definition tick (c : context) (s : mem) : mem :=
  match c, schedule s with
  | Background, a :: rest => mkMem (act a (mem_db s)) rest
  | _, _ => s
  end.
Definition with_db (s : mem) (v : V) : mem := mkMem v (schedule s).

Lemma tick_point c s : at_point envr c (mem_db s) (mem_db (tick c s)).
Proof. destruct c, s as [v [|a l]]; simpl; try done. apply a. Qed.

Context {Doc : Type} `{Bson Doc} (C : collection_of V Doc).

Definition mem_find (f : Doc -> bool) (l : list Doc) : option (nat * Doc) :=
  list_find (fun d => f d = true) l.

Fixpoint mem_latest (f : Doc -> bool) (key : Doc -> Z) (l : list Doc) : option Doc :=
  match l with
  | [] => None
  | d :: l =>
      match mem_latest f key l with
      | Some d' => Some (if f d && (key d' <? key d) then d else d')
      | None => if f d then Some d else None
      end
  end.

Definition mem_insert (d : Doc) (s : mem) : res unit * mem :=
  if existsb (conflict C d) (get C (mem_db s)) then (Err ErrDuplicateKey, s)
  else (Ok tt, with_db s (put C (get C (mem_db s) ++ [d]) (mem_db s))).

(** Replaces the first document that satisfies the filter. *)
Definition mem_update (f : Doc -> bool) (u : Doc -> option Doc) (s : mem) : res (option Doc) * mem :=
  match mem_find f (get C (mem_db s)) with
  | None => (Ok None, s)
  | Some (i, d) =>
      match u d with
      | None => (Err ErrRefused, s)
      | Some d' => (Ok (Some d'), with_db s (put C (<[i := d']> (get C (mem_db s))) (mem_db s)))
      end
  end.

#[export] Instance mem_collection : Collection mem C := {|
  InsertOne c d s := mem_insert (bson d) (tick c s);
  FindOne c f s :=
    let s := tick c s in
    (match mem_find f (get C (mem_db s)) with Some (_, d) => Ok d | None => Err ErrNoDocuments end, s);
  FindLatest c f key s :=
    let s := tick c s in
    (match mem_latest f key (get C (mem_db s)) with Some d => Ok d | None => Err ErrNoDocuments end, s);
  FindOneAndUpdate c f u s :=
    match mem_update f u (tick c s) with
    | (Ok (Some d), s') => (Ok d, s')
    | (Ok None, s') => (Err ErrNoDocuments, s')
    | (Err e, s') => (Err e, s')
    end;
  UpdateOne c f u s :=
    match mem_update f u (tick c s) with
    | (Ok (Some _), s') => (Ok 1, s')
    | (Ok None, s') => (Ok 0, s')
    | (Err e, s') => (Err e, s')
    end;
  ReplaceOne c f d s :=
    match mem_update f (fun _ => Some (bson d)) (tick c s) with
    | (Ok (Some _), s') => (Ok tt, s')
    | (Ok None, s') => mem_insert (bson d) s'
    | (Err e, s') => (Err e, s')
    end;
  DeleteOne c f s :=
    let s := tick c s in
    match mem_find f (get C (mem_db s)) with
    | None => (Ok 0, s)
    | Some (i, _) => (Ok 1, with_db s (put C (delete i (get C (mem_db s))) (mem_db s)))
    end;
  DeleteMany c f s :=
    let s := tick c s in
    let l := get C (mem_db s) in
    (Ok (Z.of_nat (length (filter (fun d => f d = true) l))),
     with_db s (put C (filter (fun d => f d = false) l) (mem_db s)))
|}.

Lemma no_documents_driver : driver_error ErrNoDocuments.
Proof. unfold driver_error. simpl. intros v m ?. breflect. by subst. Qed.
Lemma text_driver msg : driver_error (Text msg).
Proof. by intros v m. Qed.
Hint Resolve no_documents_driver text_driver : core.

Lemma mem_failed {A} c s e (post : A -> V -> Prop) : driver_error e ->
  write_post envr c (mem_db s) (Err e) (mem_db (tick c s)) post (mem_db (tick c s)).
Proof. intros ?. split; [apply tick_point|]. split; [done|]. by left. Qed.
Hint Resolve mem_failed : core.

Lemma mem_find_none f v : mem_find f (get C v) = None -> none C f v.
Proof.
  unfold mem_find. rewrite list_find_None, Forall_forall. intros Hn d Hd.
  specialize (Hn d Hd). by destruct (f d).
Qed.

Lemma mem_find_some f l i d :
  mem_find f l = Some (i, d) -> d ∈ l /\ f d = true /\ l = take i l ++ d :: drop (S i) l.
Proof.
  unfold mem_find. rewrite list_find_Some. intros (Hi & Hf & _).
  split_and!; [by eapply list_elem_of_lookup_2|done|by rewrite take_drop_middle].
Qed.

Lemma mem_latest_spec f key l :
  match mem_latest f key l with
  | Some d => d ∈ l /\ f d = true /\ forall d', d' ∈ l -> f d' = true -> key d' <= key d
  | None => forall d, d ∈ l -> f d = false
  end.
Proof.
  induction l as [|d l IH]; [intros d Hd; by apply not_elem_of_nil in Hd|]. simpl.
  destruct (mem_latest f key l) as [m|].
  - destruct IH as (Hm & Hf & Hle). destruct (f d) eqn:Ed, (key m <? key d) eqn:Ek; simpl; breflect.
    all: split_and!; [set_solver|done|].
    all: intros d' [->|Hd']%elem_of_cons Hf'; try congruence; try lia.
    all: specialize (Hle _ Hd' Hf'); lia.
  - destruct (f d) eqn:Ed.
    + split_and!; [set_solver|done|]. intros d' [->|Hd']%elem_of_cons Hf'; [lia|].
      rewrite IH in Hf' by done. congruence.
    + intros d' [->|Hd']%elem_of_cons; auto.
Qed.

Lemma mem_insert_spec d s r s' : mem_insert d s = (r, s') ->
  match r with
  | Ok _ => inserted C d (mem_db s) (mem_db s')
  | Err e => e = ErrDuplicateKey /\ clashes C d (mem_db s) /\ s' = s
  end.
Proof.
  unfold mem_insert. destruct (existsb _ _) eqn:E; intros [= <- <-].
  - apply existsb_exists in E as (d' & Hin%list_elem_of_In & Hc). split_and!; [done|by exists d'|done].
  - split; [|done]. intros (d' & Hin%list_elem_of_In & Hc).
    assert (existsb (conflict C d) (get C (mem_db s)) = true); [|congruence].
    apply existsb_exists. eauto.
Qed.

Lemma mem_update_spec f u s r s' : mem_update f u s = (r, s') ->
  match r with
  | Ok (Some d) => updated C f u d (mem_db s) (mem_db s')
  | Ok None => none C f (mem_db s) /\ s' = s
  | Err e => e = ErrRefused /\ s' = s
  end.
Proof.
  unfold mem_update. destruct (mem_find f _) as [[i d]|] eqn:Ef.
  2:{ intros [= <- <-]. split; [by apply mem_find_none|done]. }
  apply mem_find_some in Ef as (Hin & Hf & Hl). destruct (u d) as [d'|] eqn:Eu; intros [= <- <-]; [|done].
  eexists _, d, _. split_and!; [exact Hl|done|done|]. simpl. f_equal.
  rewrite insert_take_drop; [done|]. apply (f_equal length) in Hl. rewrite length_app in Hl. simpl in Hl.
  rewrite length_take in Hl. destruct (decide (i < length (get C (mem_db s)))%nat); [done|].
  rewrite length_drop in Hl. lia.
Qed.

#[export] Instance mem_collection_laws : CollectionLaws mem C.
Proof.
  split; simpl; intros c.
  - intros d s r s' Hr. exists (mem_db (tick c s)). apply mem_insert_spec in Hr.
    destruct r as [[]|e]; [by split; [split; [apply tick_point|]|]|].
    destruct Hr as (-> & Hc & ->). split; [by apply mem_failed|]. by intros e [= <-] _.
  - intros f s r s' [= <- <-]. split; [apply tick_point|].
    destruct (mem_find f _) as [[i d]|] eqn:Ef.
    + by apply mem_find_some in Ef as (? & ? & _).
    + split; [done|]. intros _. by apply mem_find_none.
  - intros f key s r s' [= <- <-].
    pose proof (mem_latest_spec f key (get C (mem_db (tick c s)))) as Hl.
    destruct (mem_latest f key _) as [d|].
    + destruct Hl as (? & ? & Hle). split; [split; [apply tick_point|done]|]. naive_solver.
    + split; [split; [apply tick_point|]|done]. split; [done|]. by intros _.
  - intros f u s r s' Hr. exists (mem_db (tick c s)). pose proof (tick_point c s).
    destruct (mem_update f u (tick c s)) as [[[d|]|e] s1] eqn:Eu; apply mem_update_spec in Eu;
      injection Hr as <- <-.
    + by split.
    + destruct Eu as [? ->]. split; [by apply mem_failed|]. by intros e [= <-] _.
    + destruct Eu as [-> ->]. split; [by apply mem_failed|]. by intros e [= <-].
  - intros f u s r s' Hr. exists (mem_db (tick c s)). pose proof (tick_point c s).
    destruct (mem_update f u (tick c s)) as [[[d|]|e] s1] eqn:Eu; apply mem_update_spec in Eu;
      injection Hr as <- <-.
    + split; [done|]. right. eauto.
    + destruct Eu as [? ->]. split; [done|]. by left.
    + destruct Eu as [-> ->]. by apply mem_failed.
  - intros f d s r s' Hr. exists (mem_db (tick c s)). pose proof (tick_point c s).
    destruct (mem_update f _ (tick c s)) as [[[d'|]|e] s1] eqn:Eu; apply mem_update_spec in Eu.
    + injection Hr as <- <-. split; [done|]. left. destruct Eu as (l1 & d0 & l2 & ? & ? & [= <-] & ?).
      by exists l1, d0, l2.
    + destruct Eu as [? ->]. apply mem_insert_spec in Hr. destruct r as [[]|e]; [split; [done|]; right; auto|].
      destruct Hr as (-> & Hc & ->). by apply mem_failed.
    + destruct Eu as [-> ->]. injection Hr as <- <-. by apply mem_failed.
  - intros f s r s' Hr. exists (mem_db (tick c s)). pose proof (tick_point c s).
    destruct (mem_find f _) as [[i d]|] eqn:Ef; injection Hr as <- <-.
    + apply mem_find_some in Ef as (? & ? & Hl). split; [done|]. right. split; [done|].
      exists (take i (get C (mem_db (tick c s)))), d, (drop (S i) (get C (mem_db (tick c s)))).
      split_and!; [done|done|]. simpl. by rewrite delete_take_drop.
    + split; [done|]. left. split_and!; [done|by apply mem_find_none|done].
  - intros f s r s' [= <- <-]. exists (mem_db (tick c s)). pose proof (tick_point c s). by repeat split.
Qed.

(** Its transactions run their function once and never fail to commit. *)
#[export] Instance mem_driver : Driver mem := {|
  Client := unit;
  Session := unit;
  StartSession _ s := (Ok (Some tt), tick Background s);
  session_WithTransaction _ fn s :=
    match fn Transaction s with
    | (Ok _, s1) => (Ok tt, s1)
    | (Err e, s1) => (Err e, s)
    end;
  session_EndSession _ s := s
|}.

#[export] Instance mem_driver_laws : DriverLaws mem V.
Proof.
  split; simpl.
  - intros _ s r s' [= <- <-]. split; [apply (tick_point Background)|done].
  - done.
  - intros _ fn s r s' Hr. exists s. destruct (fn Transaction s) as [[[]|e] s1] eqn:Ef; injection Hr as <- <-.
    + by exists s1.
    + exists s1. split; [done|]. by left.
Qed.

End memory.

End Mongo.
