(* ===== verification/Proto.v ===== *)
(** * Internal messages: the types of [proto/src/internal] the services exchange

    The generated code is not verified: a message is the record of its fields, an
    enumeration (open in proto3) is its number, and the codec of the protobuf library is
    the type class below. *)

From S2P Require Import Prelude.

Module Proto.

(** [proto.Marshal] and [proto.Unmarshal] on messages of type [A]. *)
Class ProtoMessage (A : Type) := {
  Marshal : A -> res string;
  Unmarshal : string -> res A
}.
Class ProtoLaws (A : Type) `{ProtoMessage A} := {
  unmarshal_marshal a b : Marshal a = Ok b -> Unmarshal b = Ok a
}.

Definition SERVICE_TYPE_UNSPECIFIED : Z := 0.
Definition SERVICE_TYPE_GATEWAY : Z := 1.
Definition SERVICE_TYPE_LOBBY : Z := 2.
Definition SERVICE_TYPE_USERCENTER : Z := 3.
Definition SERVICE_TYPE_BATTLE : Z := 4.

Definition KIND_UNSPECIFIED : Z := 0.
Definition KIND_HELLO : Z := 1.
Definition KIND_REQUEST : Z := 2.
Definition KIND_RESPONSE : Z := 3.
Definition KIND_EVENT : Z := 4.
Definition KIND_ERROR : Z := 5.

Record InternalEnvelope := mkEnvelope {
  Kind : Z;
  RequestId : Z;
  SourceService : Z;
  TargetService : Z;
  MessageId : Z;
  EPlayerId : string;
  RoomId : Z;
  Payload : string;
  ErrorCode : Z;
  ErrorMessage : string
}.

#[export] Instance InternalEnvelope_eq_dec : EqDecision InternalEnvelope.
Proof. solve_decision. Defined.

(** [streaming.MessageResult] *)
Record MessageResult (A : Type) := mkResult { MessageID : Z; Message : A }.
Arguments mkResult {A} _ _.
Arguments MessageID {A} _.
Arguments Message {A} _.

(** ** Restoring a player's state *)

Definition SERVICE_STATUS_REQUEST : Z := 1.
Definition SERVICE_STATUS_RESPONSE : Z := 101.
Definition RESTORE_PLAYER_STATE_REQUEST : Z := 2001.
Definition RESTORE_PLAYER_STATE_RESPONSE : Z := 2101.
Definition SESSION_LIFECYCLE_EVENT : Z := 2201.

Definition RESTORE_MODE_FULL : Z := 0.
Definition RESTORE_MODE_DELTA : Z := 1.
Definition RESTORE_MODE_NOOP : Z := 2.

Definition STATE_PAYLOAD_TYPE_UNSPECIFIED : Z := 0.
Definition STATE_PAYLOAD_TYPE_LOBBY_SNAPSHOT : Z := 1.
Definition STATE_PAYLOAD_TYPE_BATTLE_SNAPSHOT : Z := 2.
Definition STATE_PAYLOAD_TYPE_BATTLE_DELTA : Z := 3.

Record RestorePlayerStateRequest := mkRestoreRequest {
  rq_PlayerId : string;
  rq_SessionId : string;
  rq_LastStateVersion : Z;
  rq_AllowIncremental : bool
}.

Record RestorePlayerStateResponse := mkRestoreResponse {
  rp_ServiceType : Z;
  rp_PlayerId : string;
  rp_StateVersion : Z;
  rp_Snapshot : string;
  rp_Available : bool;
  rp_Mode : Z;
  rp_BaseStateVersion : Z;
  rp_PayloadType : Z;
  rp_SchemaVersion : Z
}.

#[export] Instance RestorePlayerStateRequest_eq_dec : EqDecision RestorePlayerStateRequest.
Proof. solve_decision. Defined.
#[export] Instance RestorePlayerStateResponse_eq_dec : EqDecision RestorePlayerStateResponse.
Proof. solve_decision. Defined.

(** A codec of a single message, for the closed examples. *)
Definition single_codec {A} `{EqDecision A} (a0 : A) : ProtoMessage A := {|
  Marshal a := if decide (a = a0) then Ok "message" else Err (Text "unknown message");
  Unmarshal b := if decide (b = "message") then Ok a0 else Err (Text "proto: cannot parse")
|}.

Lemma single_codec_laws {A} `{EqDecision A} (a0 : A) : @ProtoLaws A (single_codec a0).
Proof.
  split. simpl. intros a b. destruct (decide (a = a0)) as [->|]; [|done]. by intros [= <-].
Qed.

End Proto.
