(* ===== verification/LobbyStore.v ===== *)
(** * The lobby's records and repositories: [services/lobby/domain],
      [services/lobby/repository/mongo]

    A database of the lobby is its four collections. The repositories translate between
    the domain's records and the documents; their theorems are stated on the [view] of
    the database. *)

From S2P Require Import Prelude Mongo.
Import Mongo.

Module LobbyStore.

(** ** Domain *)

Definition ErrPlayerNotFound := Sentinel "lobby.ErrPlayerNotFound" "player not found".
Definition ErrAssetNotFound := Sentinel "lobby.ErrAssetNotFound" "player assets not found".
Definition ErrInvalidPlayer := Sentinel "lobby.ErrInvalidPlayer" "invalid player".
Definition ErrInvalidSettlement := Sentinel "lobby.ErrInvalidSettlement" "invalid settlement".
Definition ErrSettlementNotFound := Sentinel "lobby.ErrSettlementNotFound" "settlement not found".
Definition ErrSettlementApplied := Sentinel "lobby.ErrSettlementApplied" "settlement already applied".
Definition ErrSettlementConflict := Sentinel "lobby.ErrSettlementConflict" "settlement id conflict".
Definition ErrInsufficientCurrency := Sentinel "lobby.ErrInsufficientCurrency" "insufficient currency".

Record Player := mkPlayer {
  ID : string;
  AccountID : string;
  Nickname : string;
  Avatar : string;
  Region : string;
  IsDefault : bool;
  ProfileVersion : Z;
  CreatedAt : Z;
  UpdatedAt : Z
}.

Definition player_Validate (p : Player) : option error :=
  if bool_decide (ID p = "") || bool_decide (AccountID p = "") || bool_decide (Nickname p = "") ||
     bool_decide (Region p = "") || time_IsZero (CreatedAt p) || time_IsZero (UpdatedAt p)
  then Some ErrInvalidPlayer else None.

Record Assets := mkAssets {
  APlayerID : string;
  Currency : gmap string Z;
  AssetVersion : Z;
  AUpdatedAt : Z
}.

(** A missing key of a Go map reads as zero. *)
Definition Balance (a : Assets) (assetType : string) : Z := default 0 (Currency a !! assetType).

Record Settlement := mkSettlement {
  SID : string;
  SPlayerID : string;
  AssetType : string;
  Delta : Z;
  Reason : string;
  Source : string;
  SCreatedAt : Z
}.

Definition settlement_Validate (s : Settlement) : option error :=
  if bool_decide (SID s = "") || bool_decide (SPlayerID s = "") || bool_decide (AssetType s = "") ||
     (Delta s =? 0) || bool_decide (Reason s = "") || bool_decide (Source s = "") || time_IsZero (SCreatedAt s)
  then Some ErrInvalidSettlement else None.

Record Snapshot := mkSnapshot {
  SnPlayer : Player;
  SnAssets : Assets;
  SchemaVersion : Z;
  SnCreatedAt : Z
}.

Definition StateVersion (s : Snapshot) : Z :=
  if AssetVersion (SnAssets s) <=? ProfileVersion (SnPlayer s)
  then ProfileVersion (SnPlayer s) else AssetVersion (SnAssets s).

(** ** Documents *)

Record playerDocument := mkPlayerDoc {
  pd_PlayerID : string;
  pd_AccountID : string;
  pd_Nickname : string;
  pd_Avatar : string;
  pd_Region : string;
  pd_IsDefault : bool;
  pd_ProfileVersion : Z;
  pd_CreatedAt : Z;
  pd_UpdatedAt : Z
}.

Record assetsDocument := mkAssetsDoc {
  ad_PlayerID : string;
  ad_Currency : gmap string Z;
  ad_AssetVersion : Z;
  ad_UpdatedAt : Z
}.

Record ledgerDocument := mkLedgerDoc {
  ld_SettlementID : string;
  ld_PlayerID : string;
  ld_AssetType : string;
  ld_Delta : Z;
  ld_Reason : string;
  ld_Source : string;
  ld_CreatedAt : Z
}.

Record snapshotDocument := mkSnapshotDoc {
  sd_PlayerID : string;
  sd_AccountID : string;
  sd_Nickname : string;
  sd_Region : string;
  sd_ProfileVersion : Z;
  sd_AssetVersion : Z;
  sd_Currency : gmap string Z;
  sd_SchemaVersion : Z;
  sd_CreatedAt : Z
}.

(** ** Mapper: [mapper.go] *)

Definition cloneCurrency (currency : gmap string Z) : gmap string Z :=
  map_fold (fun assetType balance cloned => <[assetType := balance]> cloned) ∅ currency.

Lemma cloneCurrency_eq m : cloneCurrency m = m.
Proof. apply map_copy. Qed.

Definition playerDocumentFromDomain (p : Player) : res playerDocument :=
  match player_Validate p with
  | Some e => Err e
  | None => Ok (mkPlayerDoc (ID p) (AccountID p) (Nickname p) (Avatar p) (Region p) (IsDefault p)
                  (ProfileVersion p) (CreatedAt p) (UpdatedAt p))
  end.

Definition playerDomainFromDocument (d : playerDocument) : Player :=
  mkPlayer (pd_PlayerID d) (pd_AccountID d) (pd_Nickname d) (pd_Avatar d) (pd_Region d) (pd_IsDefault d)
    (pd_ProfileVersion d) (pd_CreatedAt d) (pd_UpdatedAt d).

Definition assetsDocumentFromDomain (a : Assets) : assetsDocument :=
  mkAssetsDoc (APlayerID a) (cloneCurrency (Currency a)) (AssetVersion a) (AUpdatedAt a).

Definition assetsDomainFromDocument (d : assetsDocument) : Assets :=
  mkAssets (ad_PlayerID d) (cloneCurrency (ad_Currency d)) (ad_AssetVersion d) (ad_UpdatedAt d).

Definition ledgerDocumentFromDomain (s : Settlement) : res ledgerDocument :=
  match settlement_Validate s with
  | Some e => Err e
  | None => Ok (mkLedgerDoc (SID s) (SPlayerID s) (AssetType s) (Delta s) (Reason s) (Source s) (SCreatedAt s))
  end.

Definition settlementDomainFromDocument (d : ledgerDocument) : Settlement :=
  mkSettlement (ld_SettlementID d) (ld_PlayerID d) (ld_AssetType d) (ld_Delta d) (ld_Reason d) (ld_Source d)
    (ld_CreatedAt d).

Definition snapshotDocumentFromDomain (s : Snapshot) : snapshotDocument :=
  mkSnapshotDoc (ID (SnPlayer s)) (AccountID (SnPlayer s)) (Nickname (SnPlayer s)) (Region (SnPlayer s))
    (ProfileVersion (SnPlayer s)) (AssetVersion (SnAssets s)) (cloneCurrency (Currency (SnAssets s)))
    (SchemaVersion s) (SnCreatedAt s).

(** The fields the document does not have keep their zero values. *)
Definition snapshotDomainFromDocument (d : snapshotDocument) : Snapshot :=
  mkSnapshot
    (mkPlayer (sd_PlayerID d) (sd_AccountID d) (sd_Nickname d) "" (sd_Region d) false (sd_ProfileVersion d)
       zero_time zero_time)
    (mkAssets (sd_PlayerID d) (cloneCurrency (sd_Currency d)) (sd_AssetVersion d) zero_time)
    (sd_SchemaVersion d) (sd_CreatedAt d).

(** ** The database: what the indexes of [indexes.go] make unique *)

Record lobby_db := mkDb {
  players : list playerDocument;
  assets : list assetsDocument;
  ledger : list ledgerDocument;
  snapshots : list snapshotDocument
}.

Definition players_collection : collection_of lobby_db playerDocument := {|
  get := players;
  put l v := mkDb l (assets v) (ledger v) (snapshots v);
  conflict d d' :=
    bool_decide (pd_PlayerID d = pd_PlayerID d') ||
    (bool_decide (pd_AccountID d = pd_AccountID d') && pd_IsDefault d && pd_IsDefault d')
|}.
Definition assets_collection : collection_of lobby_db assetsDocument := {|
  get := assets;
  put l v := mkDb (players v) l (ledger v) (snapshots v);
  conflict d d' := bool_decide (ad_PlayerID d = ad_PlayerID d')
|}.
Definition ledger_collection : collection_of lobby_db ledgerDocument := {|
  get := ledger;
  put l v := mkDb (players v) (assets v) l (snapshots v);
  conflict d d' := bool_decide (ld_SettlementID d = ld_SettlementID d')
|}.
Definition snapshots_collection : collection_of lobby_db snapshotDocument := {|
  get := snapshots;
  put l v := mkDb (players v) (assets v) (ledger v) l;
  conflict d d' := bool_decide (sd_PlayerID d = sd_PlayerID d')
|}.

Section dates.
Context `{BsonDates}.

#[export] Instance player_bson : Bson playerDocument := fun d =>
  mkPlayerDoc (pd_PlayerID d) (pd_AccountID d) (pd_Nickname d) (pd_Avatar d) (pd_Region d) (pd_IsDefault d)
    (pd_ProfileVersion d) (bson_time (pd_CreatedAt d)) (bson_time (pd_UpdatedAt d)).
#[export] Instance assets_bson : Bson assetsDocument := fun d =>
  mkAssetsDoc (ad_PlayerID d) (ad_Currency d) (ad_AssetVersion d) (bson_time (ad_UpdatedAt d)).
#[export] Instance ledger_bson : Bson ledgerDocument := fun d =>
  mkLedgerDoc (ld_SettlementID d) (ld_PlayerID d) (ld_AssetType d) (ld_Delta d) (ld_Reason d) (ld_Source d)
    (bson_time (ld_CreatedAt d)).
#[export] Instance snapshot_bson : Bson snapshotDocument := fun d =>
  mkSnapshotDoc (sd_PlayerID d) (sd_AccountID d) (sd_Nickname d) (sd_Region d) (sd_ProfileVersion d)
    (sd_AssetVersion d) (sd_Currency d) (sd_SchemaVersion d) (bson_time (sd_CreatedAt d)).

End dates.

(** ** Repositories *)

Section repositories.
Context {S : Type} `{Database S lobby_db} `{BsonDates}.
Context `{!Collection S players_collection, !Collection S assets_collection,
          !Collection S ledger_collection, !Collection S snapshots_collection}.

Definition PlayerRepository_Create (c : context) (player : Player) : prog S unit := fun s =>
  match playerDocumentFromDomain player with
  | Err e => (Err e, s)
  | Ok document =>
      match InsertOne (C := players_collection) c document s with
      | (Err e, s') =>
          if IsDuplicateKeyError e then (Err (Wrapf "create player: duplicate key" e), s') else (Err e, s')
      | (Ok _, s') => (Ok tt, s')
      end
  end.

Definition PlayerRepository_find (c : context) (filter : playerDocument -> bool) : prog S Player := fun s =>
  match FindOne (C := players_collection) c filter s with
  | (Err e, s') => (Err (if errors_Is e ErrNoDocuments then ErrPlayerNotFound else e), s')
  | (Ok document, s') => (Ok (playerDomainFromDocument document), s')
  end.

Definition FindDefaultByAccountID (c : context) (accountID : string) : prog S Player :=
  PlayerRepository_find c (fun d => bool_decide (pd_AccountID d = accountID) && eqb (pd_IsDefault d) true).

Definition PlayerRepository_FindByID (c : context) (playerID : string) : prog S Player :=
  PlayerRepository_find c (fun d => bool_decide (pd_PlayerID d = playerID)).

Definition AssetRepository_Create (c : context) (a : Assets) : prog S unit :=
  InsertOne (C := assets_collection) c (assetsDocumentFromDomain a).

Definition AssetRepository_FindByPlayerID (c : context) (playerID : string) : prog S Assets := fun s =>
  match FindOne (C := assets_collection) c (fun d => bool_decide (ad_PlayerID d = playerID)) s with
  | (Err e, s') => (Err (if errors_Is e ErrNoDocuments then ErrAssetNotFound else e), s')
  | (Ok document, s') => (Ok (assetsDomainFromDocument document), s')
  end.

(** A name that, after ["currency."], addresses an entry of the currency map: a dot
    would address a nested document, which does not decode into the map, and names that
    start with a dollar sign are refused. *)
Definition plain_name (assetType : string) : bool :=
  forallb (fun b => negb (b =? 46) && negb (b =? 0)) (string_bytes assetType) &&
  negb (String.prefix "$" assetType) && negb (bool_decide (assetType = "")).

(** [$inc] refuses an increment that overflows a 64-bit integer, and creates a missing field. *)
Definition inc (x d : Z) : option Z :=
  if (- 2 ^ 63 <=? x + d) && (x + d <? 2 ^ 63) then Some (x + d) else None.

(** The filter of [ApplyDelta]; [- delta] is computed in 64 bits. *)
Definition delta_filter (playerID assetType : string) (delta : Z) (d : assetsDocument) : bool :=
  bool_decide (ad_PlayerID d = playerID) &&
  (if delta <? 0 then
     plain_name assetType &&
     match ad_Currency d !! assetType with Some balance => int64 (- delta) <=? balance | None => false end
   else true).

Definition delta_update (assetType : string) (delta now : Z) (d : assetsDocument) : option assetsDocument :=
  if plain_name assetType then
    balance ← inc (default 0 (ad_Currency d !! assetType)) delta;
    version ← inc (ad_AssetVersion d) 1;
    Some (mkAssetsDoc (ad_PlayerID d) (<[assetType := balance]> (ad_Currency d)) version (bson_time now))
  else None.

Definition ApplyDelta (c : context) (playerID assetType : string) (delta now : Z) : prog S Assets := fun s =>
  if delta =? 0 then AssetRepository_FindByPlayerID c playerID s
  else
    match FindOneAndUpdate (C := assets_collection) c (delta_filter playerID assetType delta)
            (delta_update assetType delta now) s with
    | (Err e, s') =>
        (Err (if errors_Is e ErrNoDocuments then ErrInsufficientCurrency
              else Wrapf "apply asset delta" e), s')
    | (Ok document, s') => (Ok (assetsDomainFromDocument document), s')
    end.

Definition LedgerRepository_Create (c : context) (settlement : Settlement) : prog S unit := fun s =>
  match ledgerDocumentFromDomain settlement with
  | Err e => (Err e, s)
  | Ok document =>
      match InsertOne (C := ledger_collection) c document s with
      | (Err e, s') =>
          if IsDuplicateKeyError e then (Err (Wrapf "create settlement" ErrSettlementApplied), s') else (Err e, s')
      | (Ok _, s') => (Ok tt, s')
      end
  end.

Definition FindBySettlementID (c : context) (id : string) : prog S Settlement := fun s =>
  match FindOne (C := ledger_collection) c (fun d => bool_decide (ld_SettlementID d = id)) s with
  | (Err e, s') => (Err (if errors_Is e ErrNoDocuments then ErrSettlementNotFound else e), s')
  | (Ok document, s') => (Ok (settlementDomainFromDocument document), s')
  end.

Definition SnapshotRepository_FindByPlayerID (c : context) (playerID : string) : prog S Snapshot := fun s =>
  match FindOne (C := snapshots_collection) c (fun d => bool_decide (sd_PlayerID d = playerID)) s with
  | (Err e, s') => (Err (if errors_Is e ErrNoDocuments then ErrPlayerNotFound else e), s')
  | (Ok document, s') => (Ok (snapshotDomainFromDocument document), s')
  end.

Definition SnapshotRepository_Save (c : context) (snapshot : Snapshot) : prog S unit :=
  ReplaceOne (C := snapshots_collection) c
    (fun d => bool_decide (sd_PlayerID d = ID (SnPlayer snapshot))) (snapshotDocumentFromDomain snapshot).

End repositories.

(** ** The steps of the lobby's database

    What lobby processes do to the database, one committed effect at a time. *)

Section steps.
Context `{BsonDates}.
Implicit Types (v : lobby_db) (st : Settlement).

Definition ledger_entry st : ledgerDocument :=
  bson (mkLedgerDoc (SID st) (SPlayerID st) (AssetType st) (Delta st) (Reason st) (Source st) (SCreatedAt st)).

Definition snapshot_of (pid : string) (d : snapshotDocument) : bool := bool_decide (sd_PlayerID d = pid).

(** A settlement: its ledger entry, its delta on the player's assets, and the snapshot of
    the two, together. *)
Definition commit_settlement st v v' : Prop :=
  exists v1 v2 now a p d,
    settlement_Validate st = None /\
    inserted ledger_collection (ledger_entry st) v v1 /\
    updated assets_collection (delta_filter (SPlayerID st) (AssetType st) (Delta st))
      (delta_update (AssetType st) (Delta st) now) a v1 v2 /\
    p ∈ players v /\ pd_PlayerID p = SPlayerID st /\
    sd_PlayerID d = SPlayerID st /\ sd_ProfileVersion d = pd_ProfileVersion p /\
    sd_AssetVersion d = ad_AssetVersion a /\ sd_Currency d = ad_Currency a /\
    replaced snapshots_collection (snapshot_of (SPlayerID st)) d v2 v'.

(** A new player of an account, with empty assets. *)
Definition create_player (p : playerDocument) v v' : Prop :=
  exists v1 v2 a d,
    pd_IsDefault p = true /\ ad_PlayerID a = pd_PlayerID p /\
    (forall t, default 0 (ad_Currency a !! t) = 0) /\ ad_AssetVersion a = 1 /\ sd_PlayerID d = pd_PlayerID p /\
    inserted players_collection p v v1 /\ inserted assets_collection a v1 v2 /\
    replaced snapshots_collection (snapshot_of (pd_PlayerID p)) d v2 v'.

Definition save_snapshot v v' : Prop :=
  exists d, replaced snapshots_collection (snapshot_of (sd_PlayerID d)) d v v'.

Inductive lobby_step : lobby_db -> lobby_db -> Prop :=
  | step_settle st v v' : in_int64 (Delta st) -> commit_settlement st v v' -> lobby_step v v'
  | step_create p v v' : create_player p v v' -> lobby_step v v'
  | step_save v v' : save_snapshot v v' -> lobby_step v v'.

(** ** The accounting invariant *)

Definition is_entry (pid t : string) (e : ledgerDocument) : bool :=
  bool_decide (ld_PlayerID e = pid) && bool_decide (ld_AssetType e = t).

Fixpoint ledger_sum (pid t : string) (l : list ledgerDocument) : Z :=
  match l with
  | [] => 0
  | e :: l => (if is_entry pid t e then ld_Delta e else 0) + ledger_sum pid t l
  end.

Fixpoint ledger_count (pid : string) (l : list ledgerDocument) : Z :=
  match l with
  | [] => 0
  | e :: l => (if bool_decide (ld_PlayerID e = pid) then 1 else 0) + ledger_count pid l
  end.

Record accounts_ok v : Prop := {
  assets_unique : NoDup (ad_PlayerID <$> assets v);
  ledger_unique : NoDup (ld_SettlementID <$> ledger v);
  players_unique p q : p ∈ players v -> q ∈ players v -> pd_IsDefault p = true -> pd_IsDefault q = true ->
    pd_AccountID p = pd_AccountID q -> p = q;
  ledger_backed e : e ∈ ledger v -> exists a, a ∈ assets v /\ ad_PlayerID a = ld_PlayerID e;
  (** every balance is the sum of the player's ledger, every version counts it *)
  balances a t : a ∈ assets v -> default 0 (ad_Currency a !! t) = ledger_sum (ad_PlayerID a) t (ledger v);
  versions a : a ∈ assets v -> ad_AssetVersion a = 1 + ledger_count (ad_PlayerID a) (ledger v);
  (** no balance is negative, as long as the smallest 64-bit integer was never a delta *)
  solvent a t : a ∈ assets v -> (forall e, e ∈ ledger v -> ld_Delta e <> - 2 ^ 63) ->
    0 <= default 0 (ad_Currency a !! t)
}.

Definition empty_db : lobby_db := mkDb [] [] [] [].

Lemma empty_accounts_ok : accounts_ok empty_db.
Proof. split; simpl; try constructor; intros; by match goal with H : _ ∈ [] |- _ => apply not_elem_of_nil in H end. Qed.

Lemma ledger_sum_app pid t l l' : ledger_sum pid t (l ++ l') = ledger_sum pid t l + ledger_sum pid t l'.
Proof. induction l as [|e l IH]; simpl; [done|]. rewrite IH. lia. Qed.

Lemma ledger_count_app pid l l' : ledger_count pid (l ++ l') = ledger_count pid l + ledger_count pid l'.
Proof. induction l as [|e l IH]; simpl; [done|]. rewrite IH. lia. Qed.

Lemma ledger_fresh pid l : (forall e, e ∈ l -> ld_PlayerID e <> pid) ->
  ledger_count pid l = 0 /\ forall t, ledger_sum pid t l = 0.
Proof.
  induction l as [|e l IH]; intros Hf; [done|]. simpl. unfold is_entry.
  destruct IH as [IHc IHs]; [set_solver|]. rewrite bool_decide_false by (apply Hf; set_solver).
  rewrite IHc. split; [done|]. intros t. simpl. by rewrite IHs.
Qed.

Lemma replaced_snapshots f d v v' : replaced snapshots_collection f d v v' ->
  players v' = players v /\ assets v' = assets v /\ ledger v' = ledger v /\
  d ∈ snapshots v'.
Proof.
  intros [(l1 & d0 & l2 & _ & _ & _ & ->)|(_ & _ & ->)]; simpl; split_and!; try done; set_solver.
Qed.

(** The invariant says nothing of the snapshots. *)
Lemma accounts_ok_ext v v' : players v' = players v -> assets v' = assets v -> ledger v' = ledger v ->
  accounts_ok v -> accounts_ok v'.
Proof. intros Hp Ha Hl [?? ?? ???]. split; rewrite ?Hp, ?Ha, ?Hl; done. Qed.

(** The effect of a settlement on the player's assets. *)
Lemma delta_update_spec t delta now a a' : delta_update t delta now a = Some a' ->
  ad_PlayerID a' = ad_PlayerID a /\ ad_AssetVersion a' = ad_AssetVersion a + 1 /\
  forall t', default 0 (ad_Currency a' !! t') =
        default 0 (ad_Currency a !! t') + (if bool_decide (t' = t) then delta else 0).
Proof.
  unfold delta_update, inc. destruct (plain_name t); [|done]. intros Hu.
  repeat (case_match; simpl in Hu; try done). injection Hu as <-. simpl. split_and!; [done|done|].
  intros t'. case_bool_decide as Ht; [subst t'; by rewrite lookup_insert_eq|].
  rewrite lookup_insert_ne by done. lia.
Qed.

Lemma delta_filter_solvent pid t delta a :
  delta_filter pid t delta a = true -> in_int64 delta -> delta <> - 2 ^ 63 ->
  0 <= default 0 (ad_Currency a !! t) -> 0 <= default 0 (ad_Currency a !! t) + delta.
Proof.
  unfold delta_filter, in_int64. intros Hf Hr Hm H0. breflect.
  destruct (delta <? 0) eqn:Ed; breflect; [|lia].
  destruct (ad_Currency a !! t) as [b|] eqn:Eb; [|done]. simpl in *. breflect.
  rewrite int64_id in * by (unfold in_int64; lia). lia.
Qed.

Lemma delta_filter_owner pid t delta a : delta_filter pid t delta a = true -> ad_PlayerID a = pid.
Proof. unfold delta_filter. intros. by breflect. Qed.

Lemma ledger_unique_id v d e : accounts_ok v -> d ∈ ledger v -> e ∈ ledger v ->
  ld_SettlementID d = ld_SettlementID e -> d = e.
Proof. intros Hok. apply NoDup_fmap_inj, Hok. Qed.

Lemma credit_accounts_ok v l1 a l2 a' e :
  accounts_ok v -> assets v = l1 ++ a :: l2 ->
  ~ clashes ledger_collection e v -> ld_PlayerID e = ad_PlayerID a ->
  ad_PlayerID a' = ad_PlayerID a -> ad_AssetVersion a' = ad_AssetVersion a + 1 ->
  (forall t, default 0 (ad_Currency a' !! t) =
        default 0 (ad_Currency a !! t) + (if bool_decide (t = ld_AssetType e) then ld_Delta e else 0)) ->
  (ld_Delta e <> - 2 ^ 63 -> 0 <= default 0 (ad_Currency a !! ld_AssetType e) ->
   0 <= default 0 (ad_Currency a !! ld_AssetType e) + ld_Delta e) ->
  accounts_ok (mkDb (players v) (l1 ++ a' :: l2) (ledger v ++ [e]) (snapshots v)).
Proof.
  intros Hok Hl Hcl Hown Hid Hver Hbal Hsolv.
  assert (a ∈ assets v) as Ha by (rewrite Hl; set_solver).
  assert (forall b, b ∈ l1 ++ a' :: l2 -> b = a' \/ (b ∈ assets v /\ ad_PlayerID b <> ad_PlayerID a)) as Hb.
  { intros b Hb. pose proof (assets_unique v Hok) as Hnd. rewrite Hl in Hnd |- *.
    rewrite fmap_app, fmap_cons in Hnd. apply NoDup_app in Hnd as (_ & Hx & [Hy _]%NoDup_cons).
    apply elem_of_app in Hb as [Hb|[->|Hb]%elem_of_cons]; [right|by left|right].
    - split; [set_solver|]. intros E. apply (Hx (ad_PlayerID b)); [|rewrite E; set_solver].
      apply list_elem_of_fmap. eauto.
    - split; [set_solver|]. intros E. apply Hy. apply list_elem_of_fmap. eauto. }
  split; simpl.
  - pose proof (assets_unique v Hok) as Hnd. rewrite Hl in Hnd.
    rewrite fmap_app, fmap_cons in *. by rewrite Hid.
  - rewrite fmap_app. apply NoDup_app. split_and!; [apply Hok| |apply NoDup_singleton].
    intros x (e' & -> & He')%list_elem_of_fmap [E|?%not_elem_of_nil]%elem_of_cons; [|done].
    apply Hcl. exists e'. split; [done|]. simpl. by rewrite bool_decide_true.
  - apply Hok.
  - intros e' [He'|[->|?%not_elem_of_nil]%elem_of_cons]%elem_of_app; [|by exists a'; split; [set_solver|congruence]|done].
    destruct (ledger_backed v Hok e' He') as (b & Hin & E). rewrite Hl in Hin.
    apply (elem_of_middle _ _ a') in Hin as [->|Hin]; [exists a'; split; [set_solver|congruence]|eauto].
  - intros b t [->|[Hin Hne]]%Hb; rewrite ledger_sum_app; simpl; unfold is_entry.
    + rewrite Hbal, Hid, (balances v Hok a t Ha), (bool_decide_true (ld_PlayerID e = _)) by done. simpl.
      destruct (decide (t = ld_AssetType e)); [rewrite !bool_decide_true by done|rewrite !bool_decide_false by done]; lia.
    + rewrite (balances v Hok b t Hin), bool_decide_false by congruence. simpl. lia.
  - intros b [->|[Hin Hne]]%Hb; rewrite ledger_count_app; simpl.
    + rewrite Hver, Hid, (versions v Hok a Ha), bool_decide_true by done. lia.
    + rewrite (versions v Hok b Hin), bool_decide_false by congruence. lia.
  - intros b t [->|[Hin Hne]]%Hb Hmin; [|apply (solvent v Hok); [done|set_solver]].
    assert (0 <= default 0 (ad_Currency a !! t)) by (apply (solvent v Hok); [done|set_solver]).
    rewrite Hbal. case_bool_decide as Et; [subst t|lia].
    apply Hsolv; [|done]. apply Hmin. set_solver.
Qed.

Lemma settle_accounts_ok st v v' :
  in_int64 (Delta st) -> commit_settlement st v v' -> accounts_ok v -> accounts_ok v'.
Proof.
  intros Hr (v1 & v2 & now & a' & p & d & _ & [Hcl ->] & (l1 & a & l2 & Hl & Hf & Hu & ->) & _ & _ & _ & _ & _ & _ & Hs) Hok.
  simpl in Hl. apply replaced_snapshots in Hs as (Ep & Ea & El & _).
  apply delta_update_spec in Hu as (Hid & Hver & Hbal).
  pose proof (delta_filter_owner _ _ _ _ Hf) as Hown.
  eapply (accounts_ok_ext (mkDb (players v) (l1 ++ a' :: l2) (ledger v ++ [ledger_entry st]) (snapshots v)));
    [done..|].
  eapply credit_accounts_ok; eauto. simpl. intros. by eapply delta_filter_solvent.
Qed.

Lemma create_accounts_ok p v v' : create_player p v v' -> accounts_ok v -> accounts_ok v'.
Proof.
  intros (v1 & v2 & a & d & Hdef & Hid & Hz & Hv & _ & [Hcp ->] & [Hca ->] & Hs) Hok.
  apply replaced_snapshots in Hs as (Ep & Ea & El & _). simpl in *.
  assert (forall b, b ∈ assets v -> ad_PlayerID b <> ad_PlayerID a) as Hfresh.
  { intros b Hb E. apply Hca. exists b. split; [done|]. simpl. by rewrite bool_decide_true. }
  assert (forall e, e ∈ ledger v -> ld_PlayerID e <> ad_PlayerID a) as Hnone.
  { intros e He E. destruct (ledger_backed v Hok e He) as (b & Hb & Eb). apply (Hfresh b Hb). congruence. }
  destruct (ledger_fresh _ _ Hnone) as [Hc0 Hs0].
  assert (forall q, q ∈ players v -> pd_IsDefault q = true -> pd_AccountID p <> pd_AccountID q) as Hacc.
  { intros q Hq Hqd E. apply Hcp. exists q. split; [done|]. simpl.
    rewrite Hdef, Hqd, (bool_decide_true (pd_AccountID p = _)) by done. apply orb_true_r. }
  split; rewrite ?Ep, ?Ea, ?El; simpl.
  - rewrite fmap_app. apply NoDup_app. split_and!; [apply Hok| |apply NoDup_singleton].
    intros x (b & -> & Hb)%list_elem_of_fmap [E|?%not_elem_of_nil]%elem_of_cons; [|done]. by apply (Hfresh b).
  - apply Hok.
  - intros p1 p2 [Hp1|[->|?%not_elem_of_nil]%elem_of_cons]%elem_of_app
      [Hp2|[->|?%not_elem_of_nil]%elem_of_cons]%elem_of_app D1 D2 E; try done.
    + by apply (players_unique v Hok).
    + by destruct (Hacc p1 Hp1 D1).
    + by destruct (Hacc p2 Hp2 D2).
  - intros e He. destruct (ledger_backed v Hok e He) as (b & Hb & Eb). exists b. set_solver.
  - intros b t [Hb|[->|?%not_elem_of_nil]%elem_of_cons]%elem_of_app; [by apply (balances v Hok)| |done].
    by rewrite Hz, Hs0.
  - intros b [Hb|[->|?%not_elem_of_nil]%elem_of_cons]%elem_of_app; [by apply (versions v Hok)| |done].
    by rewrite Hv, Hc0.
  - intros b t [Hb|[->|?%not_elem_of_nil]%elem_of_cons]%elem_of_app Hm; [by apply (solvent v Hok)| |done].
    by rewrite Hz.
Qed.

Lemma step_accounts_ok v v' : lobby_step v v' -> accounts_ok v -> accounts_ok v'.
Proof.
  intros [st ?? Hr Hc|p ?? Hc|?? [d Hd]].
  - by eapply settle_accounts_ok.
  - by eapply create_accounts_ok.
  - apply replaced_snapshots in Hd as (? & ? & ? & _). by apply accounts_ok_ext.
Qed.

Lemma steps_accounts_ok v v' : rtc lobby_step v v' -> accounts_ok v -> accounts_ok v'.
Proof. induction 1; [done|]. eauto using step_accounts_ok. Qed.

(** Nothing leaves the ledger or the players. *)
Lemma steps_grow v v' : rtc lobby_step v v' ->
  (forall e, e ∈ ledger v -> e ∈ ledger v') /\ (forall p, p ∈ players v -> p ∈ players v').
Proof.
  induction 1 as [|v1 v2 v3 Hs _ [IHl IHp]]; [done|].
  assert ((forall e, e ∈ ledger v1 -> e ∈ ledger v2) /\ (forall p, p ∈ players v1 -> p ∈ players v2)) as [Hl Hp].
  { destruct Hs as [st ?? Hr Hc|p ?? Hc|?? [d Hd]].
    - destruct Hc as (? & ? & ? & ? & ? & ? & ? & [_ ->] & (? & ? & ? & _ & _ & _ & ->) & _ & _ & _ & _ & _ & _ & Hs).
      apply replaced_snapshots in Hs as (-> & _ & -> & _). set_solver.
    - destruct Hc as (? & ? & ? & ? & _ & _ & _ & _ & _ & [_ ->] & [_ ->] & Hs).
      apply replaced_snapshots in Hs as (-> & _ & -> & _). set_solver.
    - by apply replaced_snapshots in Hd as (-> & _ & -> & _). }
  split; eauto.
Qed.

End steps.

End LobbyStore.
