(* ===== verification/Lobby.v ===== *)
(** * The lobby's player component: [services/lobby/components]

    The three message handlers over the repositories of [LobbyStore]. The clock, the
    random identifiers and the decoded request are arguments; the other clients of the
    lobby's database are lobby processes running the same handlers, so that the
    interference [env] of the database is made of the steps [lobby_step] below. *)

From S2P Require Import Prelude Mongo Proto LobbyStore.
Import Mongo Proto LobbyStore.

Module Lobby.

Definition ENSURE_PLAYER_RESPONSE : Z := 3101.
Definition SETTLEMENT_RESPONSE : Z := 3102.

Record EnsurePlayerRequest := mkEnsureRequest { rq_AccountId : string }.
Record EnsurePlayerResponse := mkEnsureResponse {
  rp_AccountId : string;
  rp_EPlayerId : string;
  rp_Created : bool
}.
Record SettlementRequest := mkSettlementRequest {
  rq_SettlementId : string;
  rq_SPlayerId : string;
  rq_AssetType : string;
  rq_Delta : Z;
  rq_Reason : string;
  rq_Source : string
}.
Record SettlementResponse := mkSettlementResponse {
  rp_SettlementId : string;
  rp_SPlayerId : string;
  rp_AssetType : string;
  rp_Balance : Z;
  rp_AssetVersion : Z;
  rp_Replayed : bool
}.
Record LobbyStateSnapshot := mkStateSnapshot {
  ls_PlayerId : string;
  ls_AccountId : string;
  ls_Nickname : string;
  ls_Region : string;
  ls_ProfileVersion : Z;
  ls_AssetVersion : Z;
  ls_Currency : gmap string Z
}.

#[export] Instance EnsurePlayerRequest_eq_dec : EqDecision EnsurePlayerRequest.
Proof. solve_decision. Defined.
#[export] Instance SettlementRequest_eq_dec : EqDecision SettlementRequest.
Proof. solve_decision. Defined.
#[export] Instance LobbyStateSnapshot_eq_dec : EqDecision LobbyStateSnapshot.
Proof. solve_decision. Defined.

Definition StateSchemaVersion : Z := 1.

(** [MarshalStateSnapshot], up to the encoding of the message. *)
Definition StateSnapshot (snapshot : Snapshot) : LobbyStateSnapshot :=
  mkStateSnapshot (ID (SnPlayer snapshot)) (AccountID (SnPlayer snapshot)) (Nickname (SnPlayer snapshot))
    (Region (SnPlayer snapshot)) (ProfileVersion (SnPlayer snapshot)) (AssetVersion (SnAssets snapshot))
    (Currency (SnAssets snapshot)).

Definition MarshalStateSnapshot `{ProtoMessage LobbyStateSnapshot} (snapshot : Snapshot) : res string :=
  Marshal (StateSnapshot snapshot).

(** The interface [PlayerLinker] *)
Class PlayerLinker (S : Type) := LinkPlayer : string -> string -> prog S unit.

Section component.
Context {S : Type} `{Database S lobby_db} `{BsonDates}.
Context `{!Collection S players_collection, !Collection S assets_collection,
          !Collection S ledger_collection, !Collection S snapshots_collection}.
Context `{ProtoMessage EnsurePlayerRequest, ProtoMessage SettlementRequest,
          ProtoMessage RestorePlayerStateRequest, ProtoMessage LobbyStateSnapshot}.

(** The component: its unit of work (an interface, [None] when nil) and its linker. *)
Record PlayerComponent := mkComponent {
  unitOfWork : option (option (MongoUnitOfWork S));
  linker : option (PlayerLinker S)
}.

(** [if c.unitOfWork != nil { err = c.unitOfWork.Execute(ctx, f) } else { err = f(ctx) }] *)
Definition run_unit (c : PlayerComponent) (f : txn_body S) : prog S unit :=
  match unitOfWork c with
  | Some u => Execute u (Some f)
  | None => f Background
  end.

Definition ErrAccountRequired := Text "account_id is required".
Definition ErrNoLinker := Text "usercenter client is not configured".
Definition ErrPlayerRequired := Text "player_id is required".

Definition candidate (playerID accountID : string) (now : Z) : Player :=
  mkPlayer playerID accountID "Player" "" "global" true 1 now now.
Definition initialAssets (playerID : string) (now : Z) : Assets :=
  mkAssets playerID {["gold" := 0; "diamond" := 0]} 1 now.

(** The closure [create] of [ensurePlayer]. *)
Definition create (player : Player) (a : Assets) (now : Z) : txn_body S := fun ctx =>
  (_ <- PlayerRepository_Create ctx player ;;
   _ <- AssetRepository_Create ctx a ;;
   SnapshotRepository_Save ctx (mkSnapshot player a 1 now))%go.

(** [newUUID] is what [idgen.NewUUID] returns. *)
Definition ensurePlayer (c : PlayerComponent) (payload : string) (newUUID : res string) (now : Z) :
    prog S (MessageResult EnsurePlayerResponse) := fun s =>
  match Unmarshal payload with
  | Err _ => (Err ErrAccountRequired, s)
  | Ok request =>
      if bool_decide (TrimSpace (rq_AccountId request) = "") then (Err ErrAccountRequired, s)
      else
        let accountID := TrimSpace (rq_AccountId request) in
        let finish (r : res (Player * bool)) : prog S (MessageResult EnsurePlayerResponse) := fun s =>
          match r with
          | Err e => (Err (Wrapf "ensure player" e), s)
          | Ok (player, created) =>
              match linker c with
              | None => (Err ErrNoLinker, s)
              | Some linker =>
                  match linker accountID (ID player) s with
                  | (Err e, s') => (Err (Wrapf "link player" e), s')
                  | (Ok _, s') =>
                      (Ok (mkResult ENSURE_PLAYER_RESPONSE
                             (mkEnsureResponse accountID (ID player) created)), s')
                  end
              end
          end in
        match FindDefaultByAccountID Background accountID s with
        | (Ok player, s1) => finish (Ok (player, false)) s1
        | (Err e, s1) =>
            if errors_Is e ErrPlayerNotFound then
              match newUUID with
              | Err idErr => (Err idErr, s1)
              | Ok playerID =>
                  let player := candidate playerID accountID now in
                  match run_unit c (create player (initialAssets playerID now) now) s1 with
                  | (Ok _, s2) => finish (Ok (player, true)) s2
                  | (Err _, s2) =>
                      match FindDefaultByAccountID Background accountID s2 with
                      | (Ok player, s3) => finish (Ok (player, false)) s3
                      | (Err e, s3) => finish (Err e) s3
                      end
                  end
              end
            else finish (Err e) s1
        end
  end.

Definition settlementResult (settlement : Settlement) (replayed : bool) :
    prog S (MessageResult SettlementResponse) := fun s =>
  match AssetRepository_FindByPlayerID Background (SPlayerID settlement) s with
  | (Err e, s') => (Err e, s')
  | (Ok a, s') =>
      (Ok (mkResult SETTLEMENT_RESPONSE
             (mkSettlementResponse (SID settlement) (SPlayerID settlement) (AssetType settlement)
                (Balance a (AssetType settlement)) (AssetVersion a) replayed)), s')
  end.

Definition replaySettlement (settlementID : string) : prog S (MessageResult SettlementResponse) := fun s =>
  match FindBySettlementID Background settlementID s with
  | (Err e, s') => (Err (Wrapf "load replayed settlement" e), s')
  | (Ok settlement, s') => settlementResult settlement true s'
  end.

(** The closure [execute] of [settlement]; [applied] is the clock of [ApplyDelta], [saved]
    that of the snapshot. *)
Definition execute (settlement : Settlement) (applied saved : Z) : txn_body S := fun ctx =>
  (_ <- LedgerRepository_Create ctx settlement ;;
   a <- ApplyDelta ctx (SPlayerID settlement) (AssetType settlement) (Delta settlement) applied ;;
   player <- PlayerRepository_FindByID ctx (SPlayerID settlement) ;;
   SnapshotRepository_Save ctx (mkSnapshot player a 1 saved))%go.

Definition request_settlement (request : SettlementRequest) (now : Z) : Settlement :=
  mkSettlement (rq_SettlementId request) (rq_SPlayerId request) (rq_AssetType request) (rq_Delta request)
    (rq_Reason request) (rq_Source request) now.

Definition same_settlement (existing settlement : Settlement) : bool :=
  bool_decide (SPlayerID existing = SPlayerID settlement) &&
  bool_decide (AssetType existing = AssetType settlement) &&
  (Delta existing =? Delta settlement) &&
  bool_decide (Reason existing = Reason settlement) && bool_decide (Source existing = Source settlement).

Definition settlement (c : PlayerComponent) (payload : string) (now applied saved : Z) :
    prog S (MessageResult SettlementResponse) := fun s =>
  match Unmarshal payload with
  | Err _ => (Err ErrInvalidSettlement, s)
  | Ok request =>
      if bool_decide (rq_SettlementId request = "") || bool_decide (rq_SPlayerId request = "") ||
         bool_decide (rq_AssetType request = "") || (rq_Delta request =? 0) ||
         bool_decide (rq_Reason request = "") || bool_decide (rq_Source request = "")
      then (Err ErrInvalidSettlement, s)
      else
        let settlement := request_settlement request now in
        match FindBySettlementID Background (SID settlement) s with
        | (Ok existing, s1) =>
            if same_settlement existing settlement then settlementResult existing true s1
            else (Err ErrSettlementConflict, s1)
        | (Err e, s1) =>
            if negb (errors_Is e ErrSettlementNotFound) then (Err e, s1)
            else
              match run_unit c (execute settlement applied saved) s1 with
              | (Err e, s2) =>
                  if errors_Is e ErrSettlementApplied then replaySettlement (SID settlement) s2
                  else (Err e, s2)
              | (Ok _, s2) => settlementResult settlement false s2
              end
        end
  end.

Definition lobbyStatePayloadType (mode : Z) : Z :=
  if mode =? RESTORE_MODE_NOOP then STATE_PAYLOAD_TYPE_UNSPECIFIED else STATE_PAYLOAD_TYPE_LOBBY_SNAPSHOT.

(** The answer to a restore request, from the snapshot found or rebuilt. *)
Definition restore_result (request : RestorePlayerStateRequest) (snapshot : Snapshot) :
    res (MessageResult RestorePlayerStateResponse) :=
  let stateVersion := StateVersion snapshot in
  let respond mode base payload :=
    Ok (mkResult RESTORE_PLAYER_STATE_RESPONSE
          (mkRestoreResponse SERVICE_TYPE_LOBBY (rq_PlayerId request) stateVersion payload true mode base
             (lobbyStatePayloadType mode) StateSchemaVersion)) in
  if rq_LastStateVersion request =? stateVersion
  then respond RESTORE_MODE_NOOP (rq_LastStateVersion request) ""
  else match MarshalStateSnapshot snapshot with
       | Err e => Err e
       | Ok payload => respond RESTORE_MODE_FULL 0 payload
       end.

(** The failure of the [Save] is dropped. *)
Definition restore (payload : string) (now : Z) : prog S (MessageResult RestorePlayerStateResponse) := fun s =>
  match Unmarshal payload with
  | Err _ => (Err ErrPlayerRequired, s)
  | Ok request =>
      if bool_decide (rq_PlayerId request = "") then (Err ErrPlayerRequired, s)
      else
        match SnapshotRepository_FindByPlayerID Background (rq_PlayerId request) s with
        | (Ok snapshot, s1) => (restore_result request snapshot, s1)
        | (Err e, s1) =>
            if errors_Is e ErrPlayerNotFound then
              match PlayerRepository_FindByID Background (rq_PlayerId request) s1 with
              | (Err playerErr, s2) => (Err playerErr, s2)
              | (Ok player, s2) =>
                  match AssetRepository_FindByPlayerID Background (rq_PlayerId request) s2 with
                  | (Err assetErr, s3) => (Err assetErr, s3)
                  | (Ok a, s3) =>
                      let snapshot := mkSnapshot player a 1 now in
                      let '(_, s4) := SnapshotRepository_Save Background snapshot s3 in
                      (restore_result request snapshot, s4)
                  end
              end
            else (Err e, s1)
        end
  end.

End component.

(** ** Correctness of the handlers

    The component as [NewModule] builds it: a unit of work over the driver's client; the
    other clients of the database take lobby steps; a settlement's delta is a 64-bit
    integer on the wire. *)

Section correctness.
Context {S : Type} `{Database S lobby_db} `{BsonDates}.
Context `{!Collection S players_collection, !Collection S assets_collection,
          !Collection S ledger_collection, !Collection S snapshots_collection}.
Context `{!CollectionLaws S players_collection, !CollectionLaws S assets_collection,
          !CollectionLaws S ledger_collection, !CollectionLaws S snapshots_collection}.
Context `{!Driver S, !DriverLaws S lobby_db}.
Context `{ProtoMessage EnsurePlayerRequest, ProtoMessage SettlementRequest,
          ProtoMessage RestorePlayerStateRequest, ProtoMessage LobbyStateSnapshot}.
Context (env_lobby : forall v v' : lobby_db, env v v' -> rtc lobby_step v v').
Context (client : option Client) (link : PlayerLinker S).
Context (link_env : forall account player s r s', link account player s = (r, s') -> env (view s) (view s')).

Definition component : PlayerComponent (S := S) :=
  mkComponent (Some (Some (NewMongoUnitOfWork client))) (Some link).

Lemma FindBySettlementID_spec c id s r s' : FindBySettlementID c id s = (r, s') ->
  at_point env c (view s) (view s') /\
  match r with
  | Ok st => exists e, e ∈ ledger (view s') /\ ld_SettlementID e = id /\ st = settlementDomainFromDocument e
  | Err e => errors_Is e ErrSettlementNotFound = true ->
             forall d, d ∈ ledger (view s') -> ld_SettlementID d <> id
  end.
Proof.
  unfold FindBySettlementID. destruct (FindOne _ _ s) as [[e|e] s1] eqn:E;
    apply find_spec in E as [Hp Hr]; intros [= <- <-]; split; try done.
  - destruct Hr as [Hin Hf]. breflect. eauto.
  - destruct Hr as [Hd Hn]. destruct (errors_Is e ErrNoDocuments) eqn:En.
    + intros _ d Hin Hid. specialize (Hn eq_refl d Hin). by apply bool_decide_eq_false in Hn.
    + unfold ErrSettlementNotFound. by rewrite driver_not_program.
Qed.

Lemma settlementResult_spec st b s r s' : settlementResult st b s = (r, s') ->
  env (view s) (view s') /\
  forall m, r = Ok m -> exists a, a ∈ assets (view s') /\ ad_PlayerID a = SPlayerID st /\
    Message m = mkSettlementResponse (SID st) (SPlayerID st) (AssetType st)
                  (default 0 (ad_Currency a !! AssetType st)) (ad_AssetVersion a) b.
Proof.
  unfold settlementResult, AssetRepository_FindByPlayerID.
  destruct (FindOne _ _ s) as [[a|e] s1] eqn:E; apply find_spec in E as [Hp Hr]; simpl in Hp.
  - destruct Hr as [Hin Hf]. breflect. intros [= <- <-]. split; [done|]. intros m [= <-].
    exists a. split_and!; [done|done|]. simpl. unfold Balance, assetsDomainFromDocument. simpl.
    by rewrite cloneCurrency_eq.
  - intros [= <- <-]. split; [done|]. by intros m [=].
Qed.

Lemma execute_commits st applied saved s0 s1 :
  execute st applied saved Transaction s0 = (Ok tt, s1) -> commit_settlement st (view s0) (view s1).
Proof.
  unfold execute. intros ([] & sa & Hc & (a & sb & Ha & (p & sc & Hp & Hs)%bind_ok)%bind_ok)%bind_ok.
  unfold LedgerRepository_Create, ledgerDocumentFromDomain in Hc.
  destruct (settlement_Validate st) eqn:Hv; [done|].
  destruct (InsertOne _ _ s0) as [[[]|e] s2] eqn:Ei; [|by destruct (IsDuplicateKeyError e)].
  injection Hc as ->. apply insert_spec in Ei as (v1 & [-> Hi] & _).
  unfold ApplyDelta in Ha. destruct (Delta st =? 0) eqn:Hd.
  { exfalso. unfold settlement_Validate in Hv. rewrite Hd, !orb_true_r in Hv. done. }
  destruct (FindOneAndUpdate _ _ _ sa) as [[d|e] s2] eqn:Eu; [|done].
  injection Ha as <- <-. apply find_update_spec in Eu as (v2 & [-> Hu] & _).
  unfold PlayerRepository_FindByID, PlayerRepository_find in Hp.
  destruct (FindOne _ _ s2) as [[pd|e] s3] eqn:Ef; [|done].
  injection Hp as <- <-. apply find_spec in Ef as [E3 [Hin Hpid]]. simpl in E3.
  apply replace_spec in Hs as (v3 & [-> Hs]). rewrite E3 in Hs.
  breflect. rewrite E3 in Hin.
  assert (players (view s2) = players (view s0)) as Eplayers.
  { destruct Hu as (? & ? & ? & _ & _ & _ & ->). simpl. destruct Hi as [_ ->]. done. }
  exists (view sa), (view s2), applied, d, pd,
    (bson (snapshotDocumentFromDomain
             (mkSnapshot (playerDomainFromDocument pd) (assetsDomainFromDocument d) 1 saved))).
  split_and!; [done|exact Hi|exact Hu| |done| | | | |].
  - by rewrite <- Eplayers.
  - done.
  - done.
  - done.
  - simpl. by rewrite !cloneCurrency_eq.
  - cbn [SnPlayer playerDomainFromDocument ID] in Hs. rewrite Hpid in Hs. exact Hs.
Qed.

Lemma execute_applied st applied saved s0 e s1 :
  execute st applied saved Transaction s0 = (Err e, s1) -> errors_Is e ErrSettlementApplied = true ->
  exists d, d ∈ ledger (view s0) /\ ld_SettlementID d = SID st.
Proof.
  assert (forall e, driver_error e -> errors_Is e ErrSettlementApplied = true -> False) as Hdrv.
  { intros e' Hd Hx. unfold ErrSettlementApplied in Hx. by rewrite driver_not_program in Hx. }
  assert (forall e (b : bool) v m, driver_error e -> v <> "lobby.ErrSettlementApplied" ->
            errors_Is (if b then Sentinel v m else e) ErrSettlementApplied = true -> False) as Hmap.
  { intros e' [] v m Hd Hv; [|by apply Hdrv]. simpl. by rewrite bool_decide_false. }
  unfold execute. intros [Hc|([] & sa & _ & [Ha|(a & sb & _ & [Hp|(p & sc & _ & Hs)]%bind_err)]%bind_err)]%bind_err He.
  - unfold LedgerRepository_Create, ledgerDocumentFromDomain, settlement_Validate in Hc.
    destruct (_ || _); [injection Hc as <- _; done|].
    destruct (InsertOne _ _ s0) as [[[]|e'] s2] eqn:Ei; [done|].
    apply insert_spec in Ei as (v1 & [-> [Hd _]] & Hdup).
    destruct (IsDuplicateKeyError e') eqn:Edup; [|injection Hc as <- _; by destruct (Hdrv _ Hd)].
    destruct (Hdup _ eq_refl Edup) as [(d & Hin & Hcf) _]. exists d. split; [done|]. simpl in Hcf. by breflect.
  - exfalso. unfold ApplyDelta, AssetRepository_FindByPlayerID in Ha. destruct (Delta st =? 0).
    + destruct (FindOne _ _ sa) as [[d|e'] s2] eqn:Ef; [done|]. apply find_spec in Ef as [_ [Hd _]].
      injection Ha as <- _. by eapply Hmap in He.
    + destruct (FindOneAndUpdate _ _ _ sa) as [[d|e'] s2] eqn:Ef; [done|].
      apply find_update_spec in Ef as (v1 & [_ [Hd _]] & _). injection Ha as <- _.
      destruct (errors_Is e' ErrNoDocuments); [done|]. by apply Hdrv in He.
  - exfalso. unfold PlayerRepository_FindByID, PlayerRepository_find in Hp.
    destruct (FindOne _ _ sb) as [[d|e'] s2] eqn:Ef; [done|]. apply find_spec in Ef as [_ [Hd _]].
    injection Hp as <- _. by eapply Hmap in He.
  - exfalso. apply replace_spec in Hs as (v1 & [_ [Hd _]]). by apply Hdrv in He.
Qed.

Lemma run_unit_spec f s r s' : run_unit component f s = (r, s') -> txn_post f s r s'.
Proof. apply Execute_spec. Qed.

Lemma replaySettlement_spec id s r s' : replaySettlement id s = (r, s') ->
  env (view s) (view s') /\
  forall m, r = Ok m -> exists d a, d ∈ ledger (view s') /\ ld_SettlementID d = id /\
    a ∈ assets (view s') /\ ad_PlayerID a = ld_PlayerID d /\
    Message m = mkSettlementResponse id (ld_PlayerID d) (ld_AssetType d)
                  (default 0 (ad_Currency a !! ld_AssetType d)) (ad_AssetVersion a) true.
Proof.
  unfold replaySettlement. destruct (FindBySettlementID _ _ s) as [[st|e] s1] eqn:E;
    apply FindBySettlementID_spec in E as [Henv Hr]; simpl in Henv.
  2:{ intros [= <- <-]. by split. }
  destruct Hr as (d & Hd & Hid & ->). intros Hs. apply settlementResult_spec in Hs as [Henv2 Hs].
  split; [by etrans|]. intros m ->. destruct (Hs m eq_refl) as (a & Ha & Hpid & Hm).
  exists d, a. simpl in *. subst id. split_and!; try done.
  by apply (steps_grow _ _ (env_lobby _ _ Henv2)).
Qed.

(** What the settlement's transaction did. *)
Lemma settle_txn st applied saved s r s' :
  txn_post (execute st applied saved) s r s' ->
  match r with
  | Ok _ => exists v1 v2, env (view s) v1 /\ commit_settlement st v1 v2 /\ env v2 (view s')
  | Err e => env (view s) (view s') \/
      (errors_Is e ErrSettlementApplied = false /\
       exists v1 v2, env (view s) v1 /\ commit_settlement st v1 v2 /\ env v2 (view s'))
  end.
Proof.
  intros (s0 & s1 & He & Hr). destruct r as [[]|e].
  - destruct Hr as [Hx Hv]. apply execute_commits in Hx. eauto.
  - destruct Hr as [[_ Hv]|[Hd [Hv|[Hx Hv]]]]; [left; by etrans|left; by etrans|].
    right. apply execute_commits in Hx. split; [|eauto].
    destruct Hd as [Hd| ->]; [|done]. unfold ErrSettlementApplied. by apply driver_not_program.
Qed.

(** How a call of [settlement] ends: rejected before the database, found in the ledger,
    or through its transaction. *)
Definition settlement_outcome (request : SettlementRequest) (now : Z) (s : S)
    (r : res (MessageResult SettlementResponse)) (s' : S) : Prop :=
  let st := request_settlement request now in
  match r with
  | Err _ => env (view s) (view s') \/
      exists v1 v2, env (view s) v1 /\ commit_settlement st v1 v2 /\ env v2 (view s')
  | Ok m => exists d a, d ∈ ledger (view s') /\ ld_SettlementID d = rq_SettlementId request /\
      a ∈ assets (view s') /\ ad_PlayerID a = ld_PlayerID d /\
      Message m = mkSettlementResponse (ld_SettlementID d) (ld_PlayerID d) (ld_AssetType d)
                    (default 0 (ad_Currency a !! ld_AssetType d)) (ad_AssetVersion a)
                    (rp_Replayed (Message m)) /\
      if rp_Replayed (Message m) then env (view s) (view s')
      else d = ledger_entry st /\
           exists v1 v2, env (view s) v1 /\ commit_settlement st v1 v2 /\ env v2 (view s')
  end.

Lemma commit_entry st v v' : commit_settlement st v v' -> ledger_entry st ∈ ledger v'.
Proof.
  intros (? & ? & ? & ? & ? & ? & _ & [_ ->] & (? & ? & ? & _ & _ & _ & ->) & _ & _ & _ & _ & _ & _ & Hs).
  apply replaced_snapshots in Hs as (_ & _ & -> & _). simpl. set_solver.
Qed.

Lemma settlement_spec payload request now applied saved s r s' :
  Unmarshal payload = Ok request ->
  settlement component payload now applied saved s = (r, s') -> settlement_outcome request now s r s'.
Proof.
  intros Hreq. unfold settlement. rewrite Hreq. destruct (_ || _) eqn:Evalid; [by intros [= <- <-]; left|].
  simpl. destruct (FindBySettlementID _ _ s) as [[st|e] s1] eqn:Ef;
    apply FindBySettlementID_spec in Ef as [Henv Hf]; simpl in Henv.
  - destruct Hf as (d & Hd & Hid & ->). destruct (same_settlement _ _); [|by intros [= <- <-]; left].
    intros Hs. apply settlementResult_spec in Hs as [Henv2 Hs].
    destruct r as [m|e]; [|left; by etrans]. destruct (Hs m eq_refl) as (a & Ha & Hpid & Hm). simpl in *.
    exists d, a. rewrite Hm. split_and!; simpl; try done; [|by etrans].
    by apply (steps_grow _ _ (env_lobby _ _ Henv2)).
  - destruct (errors_Is e ErrSettlementNotFound) eqn:Enf; simpl; [|by intros [= <- <-]; left].
    destruct (run_unit _ _ s1) as [[[]|e2] s2] eqn:Eu; apply run_unit_spec, settle_txn in Eu.
    + destruct Eu as (v1 & v2 & He1 & Hc & He2). intros Hs. apply settlementResult_spec in Hs as [Henv2 Hs].
      assert (exists v1 v2, env (view s) v1 /\ commit_settlement (request_settlement request now) v1 v2 /\
                env v2 (view s')) as Hown by (exists v1, v2; split_and!; [by etrans|done|by etrans]).
      destruct r as [m|e']; [|by right]. destruct (Hs m eq_refl) as (a & Ha & Hpid & Hm).
      exists (ledger_entry (request_settlement request now)), a. rewrite Hm. split_and!; try done.
      apply (steps_grow v2); [|by eapply commit_entry]. apply env_lobby. by etrans.
    + destruct (errors_Is e2 ErrSettlementApplied) eqn:Ea.
      * destruct Eu as [Henv2|[? _]]; [|done]. intros Hs. apply replaySettlement_spec in Hs as [Henv3 Hs].
        destruct r as [m|e']; [|left; etrans; [done|by etrans]].
        destruct (Hs m eq_refl) as (d & a & Hd & Hid & Ha & Hpid & Hm). exists d, a. rewrite Hm.
        split_and!; try done; simpl; [by rewrite Hid|]. etrans; [done|by etrans].
      * intros [= <- <-]. destruct Eu as [Henv2|(_ & v1 & v2 & He1 & Hc & He2)]; [left; by etrans|].
        right. exists v1, v2. split_and!; [by etrans|done|done].
Qed.

Lemma FindDefault_spec c account s r s' : FindDefaultByAccountID c account s = (r, s') ->
  at_point env c (view s) (view s') /\
  forall p, r = Ok p -> exists d, d ∈ players (view s') /\ pd_AccountID d = account /\ pd_IsDefault d = true /\
    p = playerDomainFromDocument d.
Proof.
  unfold FindDefaultByAccountID, PlayerRepository_find.
  destruct (FindOne _ _ s) as [[d|e] s1] eqn:E; apply find_spec in E as [Hp Hr]; intros [= <- <-]; split; try done.
  destruct Hr as [Hin Hf]. breflect. intros p [= <-]. exists d. split_and!; try done. by destruct (pd_IsDefault d).
Qed.

Lemma create_commits id account now s0 s1 :
  create (candidate id account now) (initialAssets id now) now Transaction s0 = (Ok tt, s1) ->
  create_player (bson (mkPlayerDoc id account "Player" "" "global" true 1 now now)) (view s0) (view s1).
Proof.
  unfold create. intros ([] & sa & Hc & ([] & sb & Ha & Hs)%bind_ok)%bind_ok.
  unfold PlayerRepository_Create, playerDocumentFromDomain in Hc.
  destruct (player_Validate _); [done|].
  destruct (InsertOne _ _ s0) as [[[]|e] s2] eqn:Ei; [|by destruct (IsDuplicateKeyError e)].
  injection Hc as ->. apply insert_spec in Ei as (v1 & [-> Hi] & _).
  apply insert_spec in Ha as (v2 & [-> Ha] & _). apply replace_spec in Hs as (v3 & [-> Hs]).
  eexists (view sa), (view sb), _, _. split_and!; [done|..|exact Hi|exact Ha|exact Hs]; try done.
  intros t. simpl. rewrite cloneCurrency_eq.
  destruct (decide (t = "gold")) as [->|]; [done|]. rewrite lookup_insert_ne by done.
  destruct (decide (t = "diamond")) as [->|]; [done|]. by rewrite lookup_singleton_ne by done.
Qed.

Lemma env_steps v v' : env v v' -> rtc lobby_step v v'.
Proof. apply env_lobby. Qed.

Lemma committed_steps st v v1 v2 v' :
  in_int64 (Delta st) -> env v v1 -> commit_settlement st v1 v2 -> env v2 v' -> rtc lobby_step v v'.
Proof.
  intros Hr Hv1 Hc Hv2. etrans; [by apply env_lobby|]. eapply rtc_l; [by eapply step_settle|]. by apply env_lobby.
Qed.

(** What creating the player did, whatever it reported. *)
Lemma create_txn id account now s r s' :
  txn_post (create (candidate id account now) (initialAssets id now) now) s r s' ->
  rtc lobby_step (view s) (view s') /\
  (r = Ok tt -> exists d, d ∈ players (view s') /\ pd_AccountID d = account /\ pd_IsDefault d = true /\
                     pd_PlayerID d = id).
Proof.
  intros (s0 & s1 & He & Hr).
  assert (forall s1, create (candidate id account now) (initialAssets id now) now Transaction s0 = (Ok tt, s1) ->
            env (view s1) (view s') -> rtc lobby_step (view s) (view s') /\
            exists d, d ∈ players (view s') /\ pd_AccountID d = account /\ pd_IsDefault d = true /\ pd_PlayerID d = id) as Hok.
  { intros s2 Hc Henv. apply create_commits in Hc. split.
    - etrans; [by apply env_lobby|]. eapply rtc_l; [by eapply step_create|]. by apply env_lobby.
    - exists (bson (mkPlayerDoc id account "Player" "" "global" true 1 now now)).
      split; [|done]. apply (steps_grow _ _ (env_lobby _ _ Henv)).
      destruct Hc as (? & ? & ? & ? & _ & _ & _ & _ & _ & [_ ->] & [_ ->] & Hs).
      apply replaced_snapshots in Hs as (-> & _). simpl. set_solver. }
  destruct r as [[]|e].
  - destruct Hr as [Hc Henv]. naive_solver.
  - split; [|done]. destruct Hr as [[_ Hv]|[_ [Hv|[Hc Hv]]]].
    + etrans; by apply env_lobby.
    + etrans; by apply env_lobby.
    + by eapply Hok.
Qed.

Lemma ensurePlayer_spec payload request newUUID now s r s' :
  Unmarshal payload = Ok request ->
  ensurePlayer component payload newUUID now s = (r, s') ->
  rtc lobby_step (view s) (view s') /\
  forall m, r = Ok m -> exists d, d ∈ players (view s') /\
    pd_AccountID d = TrimSpace (rq_AccountId request) /\ pd_IsDefault d = true /\
    rp_AccountId (Message m) = pd_AccountID d /\ rp_EPlayerId (Message m) = pd_PlayerID d.
Proof.
  intros Hreq. unfold ensurePlayer. rewrite Hreq. case_bool_decide; [by intros [= <- <-]|].
  set (account := TrimSpace (rq_AccountId request)). cbv zeta.
  assert (forall p created sx, (exists d, d ∈ players (view sx) /\ pd_AccountID d = account /\
            pd_IsDefault d = true /\ pd_PlayerID d = ID p) ->
            rtc lobby_step (view s) (view sx) ->
            match link account (ID p) sx with
            | (Ok _, s') => (Ok (mkResult ENSURE_PLAYER_RESPONSE (mkEnsureResponse account (ID p) created)), s')
            | (Err e, s') => (Err (Wrapf "link player" e), s')
            end = (r, s') ->
            rtc lobby_step (view s) (view s') /\
            forall m, r = Ok m -> exists d, d ∈ players (view s') /\ pd_AccountID d = account /\ pd_IsDefault d = true /\
              rp_AccountId (Message m) = pd_AccountID d /\ rp_EPlayerId (Message m) = pd_PlayerID d) as Hlink.
  { intros p created sx (d & Hd & Hacc & Hdef & Hid) Hsteps Hl.
    destruct (link account (ID p) sx) as [[[]|e] sy] eqn:El; apply link_env, env_lobby in El;
      injection Hl as <- <-; (split; [by etrans|]); intros m [= <-].
    exists d. split; [by apply (steps_grow _ _ El)|done]. }
  destruct (FindDefaultByAccountID _ _ s) as [[p|e] s1] eqn:Ef; apply FindDefault_spec in Ef as [Henv Hf];
    simpl in Henv; apply env_lobby in Henv.
  { apply Hlink; [|done]. destruct (Hf p eq_refl) as (d & ? & ? & ? & ->). by exists d. }
  destruct (errors_Is e ErrPlayerNotFound); [|by intros [= <- <-]].
  destruct newUUID as [id|]; [|by intros [= <- <-]].
  destruct (run_unit _ _ s1) as [[[]|e2] s2] eqn:Eu; apply run_unit_spec, create_txn in Eu as [Hst Hc].
  { apply Hlink; [|by etrans]. by apply Hc. }
  destruct (FindDefaultByAccountID _ _ s2) as [[p|e3] s3] eqn:Ef3; apply FindDefault_spec in Ef3 as [Henv3 Hf3];
    simpl in Henv3; apply env_lobby in Henv3.
  - apply Hlink; [|etrans; [done|by etrans]]. destruct (Hf3 p eq_refl) as (d & ? & ? & ? & ->). by exists d.
  - intros [= <- <-]. split; [etrans; [done|by etrans]|done].
Qed.

(** The snapshot a restore answers with, and where it comes from. *)
Lemma restore_found payload request now s r s' :
  Unmarshal payload = Ok request -> restore payload now s = (r, s') ->
  rtc lobby_step (view s) (view s') /\
  forall m, r = Ok m -> exists snapshot v, rtc lobby_step (view s) v /\ rtc lobby_step v (view s') /\
    restore_result request snapshot = Ok m /\ ID (SnPlayer snapshot) = rq_PlayerId request /\
    ((exists d, d ∈ snapshots v /\ snapshot = snapshotDomainFromDocument d) \/
     (exists p a, p ∈ players v /\ a ∈ assets v /\ ad_PlayerID a = rq_PlayerId request /\
             snapshot = mkSnapshot (playerDomainFromDocument p) (assetsDomainFromDocument a) 1 now)).
Proof.
  intros Hreq. unfold restore. rewrite Hreq. case_bool_decide; [by intros [= <- <-]|].
  unfold SnapshotRepository_FindByPlayerID.
  destruct (FindOne _ _ s) as [[d|e] s1] eqn:Ef; apply find_spec in Ef as [Henv Hf]; simpl in Henv;
    apply env_lobby in Henv.
  { destruct Hf as [Hd Hid]. breflect. intros [= <- <-]. split; [done|]. intros m Hm.
    exists (snapshotDomainFromDocument d), (view s1). split_and!; try done. left. eauto. }
  destruct (errors_Is _ ErrPlayerNotFound); [|by intros [= <- <-]].
  unfold PlayerRepository_FindByID, PlayerRepository_find.
  destruct (FindOne _ _ s1) as [[p|e2] s2] eqn:Ep; apply find_spec in Ep as [Henv2 Hp]; simpl in Henv2;
    apply env_lobby in Henv2; [|intros [= <- <-]; split; [by etrans|done]].
  unfold AssetRepository_FindByPlayerID.
  destruct (FindOne _ _ s2) as [[a|e3] s3] eqn:Ea; apply find_spec in Ea as [Henv3 Ha]; simpl in Henv3;
    apply env_lobby in Henv3; [|intros [= <- <-]; split; [etrans; [done|by etrans]|done]].
  destruct Hp as [Hp Hpid], Ha as [Ha Haid]. breflect.
  destruct (SnapshotRepository_Save _ _ s3) as [r4 s4] eqn:Es. intros [= <- <-].
  apply replace_spec in Es as (v4 & [He4 Hr4]). simpl in He4. apply env_lobby in He4.
  assert (rtc lobby_step (view s3) (view s4)) as Hst.
  { etrans; [done|]. destruct r4 as [[]|e4]; [|destruct Hr4 as [_ [->|[_ Hr4]]]; [done|]].
    all: apply rtc_once, step_save.
    all: by exists (bson (snapshotDocumentFromDomain
                         (mkSnapshot (playerDomainFromDocument p) (assetsDomainFromDocument a) 1 now))). }
  split; [do 3 (etrans; [done|]); done|]. intros m Hm.
  exists (mkSnapshot (playerDomainFromDocument p) (assetsDomainFromDocument a) 1 now), (view s3).
  split_and!; [do 2 (etrans; [done|]); done|done|done|done|]. right. exists p, a. split_and!; try done.
  by apply (steps_grow _ _ Henv3).
Qed.

(** A settlement id is never reused for something else. When the ledger already holds
    an entry with the request's id, the call changes nothing, and it answers only if the
    entry agrees with the request in player, asset type, delta, reason and source; the
    answer is then marked as a replay. *)
Theorem recorded_settlement_is_replayed payload request now applied saved s r s' e :
  accounts_ok (view s) -> Unmarshal payload = Ok request ->
  e ∈ ledger (view s) -> ld_SettlementID e = rq_SettlementId request ->
  settlement component payload now applied saved s = (r, s') ->
  env (view s) (view s') /\
  forall m, r = Ok m -> rp_Replayed (Message m) = true /\
    ld_PlayerID e = rq_SPlayerId request /\ ld_AssetType e = rq_AssetType request /\
    ld_Delta e = rq_Delta request /\ ld_Reason e = rq_Reason request /\ ld_Source e = rq_Source request.
Proof.
  intros Hok Hreq He Hid. unfold settlement. rewrite Hreq. destruct (_ || _); [by intros [= <- <-]|].
  simpl. destruct (FindBySettlementID _ _ s) as [[st|err] s1] eqn:Ef;
    apply FindBySettlementID_spec in Ef as [Henv Hf]; simpl in Henv;
    pose proof (env_lobby _ _ Henv) as Hsteps; pose proof (proj1 (steps_grow _ _ Hsteps) e He) as He1.
  - destruct Hf as (d & Hd & Hdid & ->).
    assert (d = e) as ->.
    { apply (steps_accounts_ok _ _ Hsteps) in Hok. apply (ledger_unique_id (view s1)); [done..|congruence]. }
    destruct (same_settlement _ _) eqn:Esame; [|by intros [= <- <-]].
    unfold same_settlement in Esame. simpl in Esame. breflect.
    intros Hs. apply settlementResult_spec in Hs as [Henv2 Hs]. split; [by etrans|]. intros m ->.
    destruct (Hs m eq_refl) as (a & _ & _ & ->). by split_and!.
  - destruct (errors_Is err ErrSettlementNotFound) eqn:Enf; simpl; [|by intros [= <- <-]].
    by destruct (Hf eq_refl e He1).
Qed.

(** C16 An account has one default player, whatever the races between the lobby processes
    that create it: any two answers for the same account (up to surrounding white space),
    with anything happening in between, name the same player. *)
Theorem ensure_player_stable payload request newUUID now s m s1
    payload' request' newUUID' now' s2 m' s3 :
  accounts_ok (view s) -> Unmarshal payload = Ok request -> Unmarshal payload' = Ok request' ->
  TrimSpace (rq_AccountId request) = TrimSpace (rq_AccountId request') ->
  ensurePlayer component payload newUUID now s = (Ok m, s1) ->
  rtc lobby_step (view s1) (view s2) ->
  ensurePlayer component payload' newUUID' now' s2 = (Ok m', s3) ->
  rp_EPlayerId (Message m) = rp_EPlayerId (Message m') /\
  rp_AccountId (Message m) = rp_AccountId (Message m').
Proof.
  intros Hok Hreq Hreq' Hacc Hfst Hmid Hsnd.
  apply (ensurePlayer_spec _ _ _ _ _ _ _ Hreq) in Hfst as [Hst1 Hfst].
  destruct (Hfst m eq_refl) as (d & Hd & Hda & Hdd & Hma & Hmp).
  apply (ensurePlayer_spec _ _ _ _ _ _ _ Hreq') in Hsnd as [Hst2 Hsnd].
  destruct (Hsnd m' eq_refl) as (d' & Hd' & Hda' & Hdd' & Hma' & Hmp').
  assert (rtc lobby_step (view s1) (view s3)) as Hst by by etrans.
  assert (accounts_ok (view s3)) as Hok3 by (eapply steps_accounts_ok; [|done]; by etrans).
  assert (d = d') as ->; [|split; congruence].
  apply (players_unique _ Hok3); try done; [|congruence]. by apply (steps_grow _ _ Hst).
Qed.

(** The state of a player that a database holds, as its snapshot or as its player and assets. *)
Definition stored_state (v : lobby_db) (pid : string) (state : LobbyStateSnapshot) : Prop :=
  ls_PlayerId state = pid /\
  ((exists d, d ∈ snapshots v /\
      state = mkStateSnapshot (sd_PlayerID d) (sd_AccountID d) (sd_Nickname d) (sd_Region d)
                (sd_ProfileVersion d) (sd_AssetVersion d) (sd_Currency d)) \/
   (exists p a, p ∈ players v /\ a ∈ assets v /\ ad_PlayerID a = pid /\
      state = mkStateSnapshot (pd_PlayerID p) (pd_AccountID p) (pd_Nickname p) (pd_Region p)
                (pd_ProfileVersion p) (ad_AssetVersion a) (ad_Currency a))).

(** What a restore answers is what the database held for the player at some moment of
    the call: its version is the larger of the profile's and the assets' versions; a client
    that has that version gets an empty answer marked as such, any other client the full
    state, which decodes to what was stored. *)
Theorem restore_answers_stored_state `{!ProtoLaws LobbyStateSnapshot} payload request now s m s' :
  Unmarshal payload = Ok request -> restore payload now s = (Ok m, s') ->
  exists v state, rtc lobby_step (view s) v /\ rtc lobby_step v (view s') /\
    stored_state v (rq_PlayerId request) state /\ rp_PlayerId (Message m) = rq_PlayerId request /\
    rp_Available (Message m) = true /\
    rp_StateVersion (Message m) = Z.max (ls_ProfileVersion state) (ls_AssetVersion state) /\
    if rq_LastStateVersion request =? rp_StateVersion (Message m) then
      rp_Mode (Message m) = RESTORE_MODE_NOOP /\ rp_Snapshot (Message m) = "" /\
      rp_PayloadType (Message m) = STATE_PAYLOAD_TYPE_UNSPECIFIED
    else
      rp_Mode (Message m) = RESTORE_MODE_FULL /\ Unmarshal (rp_Snapshot (Message m)) = Ok state /\
      rp_PayloadType (Message m) = STATE_PAYLOAD_TYPE_LOBBY_SNAPSHOT.
Proof.
  intros Hreq Hr. apply (restore_found _ _ _ _ _ _ Hreq) in Hr as [_ Hm].
  destruct (Hm m eq_refl) as (sn & v & Hv1 & Hv2 & Hres & Hpid & Hsrc).
  exists v, (StateSnapshot sn). split_and!; [done|done|..].
  - split; [done|]. destruct Hsrc as [(d & Hd & ->)|(p & a & Hp & Ha & Haid & ->)]; [left|right].
    + exists d. split; [done|]. unfold StateSnapshot. simpl. by rewrite cloneCurrency_eq.
    + exists p, a. split_and!; try done. unfold StateSnapshot. simpl. by rewrite cloneCurrency_eq.
  - unfold restore_result, MarshalStateSnapshot in Hres.
    repeat case_match; simplify_eq; done.
  - unfold restore_result, MarshalStateSnapshot in Hres.
    repeat case_match; simplify_eq; done.
  - assert (rp_StateVersion (Message m) = StateVersion sn) as ->.
    { unfold restore_result in Hres. repeat case_match; simplify_eq; done. }
    unfold StateVersion. simpl. destruct (_ <=? _) eqn:E; breflect; lia.
  - unfold restore_result, MarshalStateSnapshot in Hres.
    destruct (rq_LastStateVersion request =? StateVersion sn) eqn:E.
    + injection Hres as <-. simpl. by rewrite E.
    + destruct (Marshal (StateSnapshot sn)) as [b|] eqn:Em; [|done]. injection Hres as <-. simpl. rewrite E.
      split_and!; try done. by apply unmarshal_marshal.
Qed.

Context (wire_delta : forall b request, Unmarshal b = Ok request -> in_int64 (rq_Delta request)).

Lemma settlement_steps payload now applied saved s :
  rtc lobby_step (view s) (view (settlement component payload now applied saved s).2).
Proof.
  destruct (Unmarshal (A := SettlementRequest) payload) as [request|e] eqn:Hreq;
    [|by unfold settlement; rewrite Hreq].
  destruct (settlement _ _ _ _ _ s) as [r s'] eqn:E. apply (settlement_spec _ _ _ _ _ _ _ _ Hreq) in E.
  assert (in_int64 (Delta (request_settlement request now))) as Hr by by apply (wire_delta payload).
  destruct r as [m|e]; simpl in E.
  - destruct E as (d & a & _ & _ & _ & _ & _ & E). destruct (rp_Replayed _); [by apply env_lobby|].
    destruct E as (_ & v1 & v2 & ? & ? & ?). by eapply committed_steps.
  - destruct E as [E|(v1 & v2 & ? & ? & ?)]; [by apply env_lobby|by eapply committed_steps].
Qed.

(** C1 The accounts stay right whatever the handlers do and however they fail. From a
    database whose balances are the sums of the ledger, whose versions count it and whose
    settlement ids are unique, each of the three handlers leaves such a database: when it
    succeeds, when it is refused, when a write or a commit reports a failure that was in
    fact applied, and while other lobby processes work on the same collections. *)
Theorem handlers_keep_accounts payload newUUID now applied saved s :
  accounts_ok (view s) ->
  accounts_ok (view (settlement component payload now applied saved s).2) /\
  accounts_ok (view (ensurePlayer component payload newUUID now s).2) /\
  accounts_ok (view (restore payload now s).2).
Proof.
  intros Hok. split_and!.
  - eapply steps_accounts_ok; [apply settlement_steps|done].
  - destruct (Unmarshal (A := EnsurePlayerRequest) payload) as [request|e] eqn:Hreq; [|by unfold ensurePlayer; rewrite Hreq].
    destruct (ensurePlayer _ _ _ _ s) as [r s'] eqn:E. apply (ensurePlayer_spec _ _ _ _ _ _ _ Hreq) in E as [E _].
    by eapply steps_accounts_ok.
  - destruct (Unmarshal (A := RestorePlayerStateRequest) payload) as [request|e] eqn:Hreq; [|by unfold restore; rewrite Hreq].
    destruct (restore _ _ s) as [r s'] eqn:E. apply (restore_found _ _ _ _ _ _ Hreq) in E as [E _].
    by eapply steps_accounts_ok.
Qed.

(** C2 A settlement is applied exactly once. A call that answers has a ledger entry with
    its settlement id to show for it, and the answer describes that entry and reports the
    sum of the player's ledger as the balance. If the answer is not a replay, the entry is
    the request's own and the call itself committed it, in one step with the credit of the
    player's assets; if it is a replay, the call changed nothing (what the database went
    through meanwhile was done by others). *)
Theorem settlement_exactly_once payload request now applied saved s m s' :
  accounts_ok (view s) -> Unmarshal payload = Ok request ->
  settlement component payload now applied saved s = (Ok m, s') ->
  let st := request_settlement request now in
  exists d, d ∈ ledger (view s') /\ ld_SettlementID d = rq_SettlementId request /\
    rp_SettlementId (Message m) = ld_SettlementID d /\ rp_SPlayerId (Message m) = ld_PlayerID d /\
    rp_AssetType (Message m) = ld_AssetType d /\
    rp_Balance (Message m) = ledger_sum (ld_PlayerID d) (ld_AssetType d) (ledger (view s')) /\
    if rp_Replayed (Message m) then env (view s) (view s')
    else d = ledger_entry st /\
         exists v1 v2, rtc lobby_step (view s) v1 /\ commit_settlement st v1 v2 /\ rtc lobby_step v2 (view s').
Proof.
  intros Hok Hreq Hs st. pose proof Hs as Hout. apply (settlement_spec _ _ _ _ _ _ _ _ Hreq) in Hout.
  destruct Hout as (d & a & Hd & Hid & Ha & Hpid & Hm & Hown).
  pose proof (settlement_steps payload now applied saved s) as Hsteps. rewrite Hs in Hsteps. simpl in Hsteps.
  pose proof (balances _ (steps_accounts_ok _ _ Hsteps Hok) a (ld_AssetType d) Ha) as Hbal.
  exists d. destruct (rp_Replayed (Message m)); rewrite Hm; simpl; split_and!; try done; try congruence.
  - destruct Hown as [-> _]. done.
  - destruct Hown as (_ & v1 & v2 & ? & ? & ?). exists v1, v2. split_and!; [by apply env_lobby|done|by apply env_lobby].
Qed.

End correctness.

(** ** Runs on a database in memory *)

Section runs.

Notation lobby_mem := (mem (rtc lobby_step)).

Definition gold (id : string) (delta : Z) : SettlementRequest :=
  mkSettlementRequest id "p1" "gold" delta "victory" "battle".

#[local] Instance ensure_codec : ProtoMessage EnsurePlayerRequest := single_codec (mkEnsureRequest " acc ").
#[local] Instance restore_codec : ProtoMessage RestorePlayerStateRequest :=
  single_codec (mkRestoreRequest "p1" "session" 1 false).

Definition state_codec : ProtoMessage LobbyStateSnapshot :=
  single_codec (mkStateSnapshot "p1" "acc" "Player" "global" 1 2 {["gold" := 5; "diamond" := 0]}).
#[local] Existing Instance state_codec.
#[local] Instance state_codec_laws : ProtoLaws LobbyStateSnapshot.
Proof. apply single_codec_laws. Qed.

Definition mem_client : option (Client (S := lobby_mem)) := Some tt.
Definition no_link : PlayerLinker lobby_mem := fun _ _ s => (Ok tt, s).
Definition lobby : PlayerComponent (S := lobby_mem) := component mem_client no_link.

(** A settlement of [delta] gold on a database in memory. *)
Definition settle (request : SettlementRequest) (s : lobby_mem) : res (MessageResult SettlementResponse) * lobby_mem :=
  let _ := single_codec request in settlement lobby "message" (5 * Second) (6 * Second) (7 * Second) s.

Definition new_lobby : lobby_mem := mkMem _ empty_db [].
Definition with_player : lobby_mem := (ensurePlayer lobby "message" (Ok "p1") (2 * Second) new_lobby).2.

Lemma lobby_env : forall v v' : lobby_db, env (S := lobby_mem) v v' -> rtc lobby_step v v'.
Proof. done. Qed.
Lemma no_link_env account player (s : lobby_mem) r s' :
  no_link account player s = (r, s') -> env (S := lobby_mem) (view s) (view s').
Proof. by intros [= _ <-]. Qed.

Lemma with_player_ok : accounts_ok (view with_player).
Proof.
  destruct (ensurePlayer lobby "message" (Ok "p1") (2 * Second) new_lobby) as [r s'] eqn:E.
  unfold with_player. rewrite E.
  eapply (ensurePlayer_spec lobby_env mem_client no_link no_link_env) in E as [E _]; [|done].
  eapply steps_accounts_ok; [exact E|]. apply empty_accounts_ok.
Qed.

Definition paid : lobby_mem := (settle (gold "s1" 5) with_player).2.

Lemma gold_wire id delta : in_int64 delta ->
  forall b request, Unmarshal (ProtoMessage := single_codec (gold id delta)) b = Ok request ->
  in_int64 (rq_Delta request).
Proof. intros ? b request. simpl. destruct (decide _); [|done]. by intros [= <-]. Qed.

Lemma paid_answer : (settle (gold "s1" 5) with_player).1 =
  Ok (mkResult SETTLEMENT_RESPONSE (mkSettlementResponse "s1" "p1" "gold" 5 2 false)).
Proof. vm_compute. reflexivity. Qed.

Lemma handlers_keep_accounts_witness : accounts_ok (view paid).
Proof.
  pose (codec := single_codec (gold "s1" 5)).
  exact (proj1 (handlers_keep_accounts lobby_env mem_client no_link no_link_env
    (gold_wire "s1" 5 ltac:(unfold in_int64; lia))
    "message" (Ok "p1") (5 * Second) (6 * Second) (7 * Second) with_player with_player_ok)).
Defined.

Lemma settle_steps id delta (s : lobby_mem) : in_int64 delta ->
  rtc lobby_step (mem_db _ s) (mem_db _ (settle (gold id delta) s).2).
Proof.
  intros Hr. pose (codec := single_codec (gold id delta)).
  exact (settlement_steps lobby_env mem_client no_link no_link_env (gold_wire id delta Hr)
    "message" (5 * Second) (6 * Second) (7 * Second) s).
Qed.

Lemma paid_ok : accounts_ok (view paid).
Proof. eapply steps_accounts_ok; [apply settle_steps; unfold in_int64; lia|apply with_player_ok]. Qed.

Lemma paid_run : settle (gold "s1" 5) with_player =
  (Ok (mkResult SETTLEMENT_RESPONSE (mkSettlementResponse "s1" "p1" "gold" 5 2 false)), paid).
Proof. by rewrite <- paid_answer, <- surjective_pairing. Qed.

Lemma created_run : ensurePlayer lobby "message" (Ok "p1") (2 * Second) new_lobby =
  (Ok (mkResult ENSURE_PLAYER_RESPONSE (mkEnsureResponse "acc" "p1" true)), with_player).
Proof.
  assert ((ensurePlayer lobby "message" (Ok "p1") (2 * Second) new_lobby).1 =
    Ok (mkResult ENSURE_PLAYER_RESPONSE (mkEnsureResponse "acc" "p1" true))) as <- by (vm_compute; reflexivity).
  by rewrite <- surjective_pairing.
Qed.

(** The first settlement of five gold is answered by its own commit. *)
Lemma settlement_exactly_once_witness :
  exists d, d ∈ ledger (view paid) /\ ledger_sum "p1" "gold" (ledger (view paid)) = 5 /\
    d = ledger_entry (request_settlement (gold "s1" 5) (5 * Second)).
Proof.
  pose (codec := single_codec (gold "s1" 5)).
  destruct (settlement_exactly_once lobby_env mem_client no_link no_link_env
    (gold_wire "s1" 5 ltac:(unfold in_int64; lia)) "message" (gold "s1" 5) (5 * Second) (6 * Second) (7 * Second)
    with_player (mkResult SETTLEMENT_RESPONSE (mkSettlementResponse "s1" "p1" "gold" 5 2 false)) paid
    with_player_ok eq_refl paid_run)
    as (d & Hd & _ & _ & _ & _ & _ & He & _).
  exists d. split_and!; [exact Hd|vm_compute; reflexivity|exact He].
Defined.

(** The same settlement once more, and another one under its id. *)
Lemma recorded_settlement_is_replayed_witness :
  (settle (gold "s1" 5) paid).1 =
    Ok (mkResult SETTLEMENT_RESPONSE (mkSettlementResponse "s1" "p1" "gold" 5 2 true)) /\
  (settle (gold "s1" 6) paid).1 = Err ErrSettlementConflict /\
  rtc lobby_step (view paid) (view (settle (gold "s1" 6) paid).2).
Proof.
  split_and!; [vm_compute; reflexivity|vm_compute; reflexivity|].
  pose (codec := single_codec (gold "s1" 6)).
  exact (proj1 (recorded_settlement_is_replayed lobby_env mem_client no_link
    "message" (gold "s1" 6) (5 * Second) (6 * Second) (7 * Second) paid
    (settle (gold "s1" 6) paid).1 (settle (gold "s1" 6) paid).2
    (ledger_entry (request_settlement (gold "s1" 5) (5 * Second))) paid_ok eq_refl
    ltac:(vm_compute; left) eq_refl (surjective_pairing _))).
Defined.

Lemma ensure_player_stable_witness :
  (ensurePlayer lobby "message" (Ok "p1") (2 * Second) new_lobby).1 =
    Ok (mkResult ENSURE_PLAYER_RESPONSE (mkEnsureResponse "acc" "p1" true)) /\
  forall m, (ensurePlayer lobby "message" (Ok "p2") (3 * Second) with_player).1 = Ok m ->
    rp_EPlayerId (Message m) = "p1".
Proof.
  split; [vm_compute; reflexivity|]. intros m Hm.
  destruct (ensurePlayer lobby "message" (Ok "p2") (3 * Second) with_player) as [r s3] eqn:E.
  simpl in Hm. subst r.
  exact (eq_sym (proj1 (ensure_player_stable lobby_env mem_client no_link no_link_env
    "message" (mkEnsureRequest " acc ") (Ok "p1") (2 * Second) new_lobby
    (mkResult ENSURE_PLAYER_RESPONSE (mkEnsureResponse "acc" "p1" true)) with_player
    "message" (mkEnsureRequest " acc ") (Ok "p2") (3 * Second) with_player m s3
    empty_accounts_ok eq_refl eq_refl eq_refl created_run (rtc_refl _ _) E))).
Defined.

Definition restored : MessageResult RestorePlayerStateResponse :=
  mkResult RESTORE_PLAYER_STATE_RESPONSE
    (mkRestoreResponse SERVICE_TYPE_LOBBY "p1" 2 "message" true RESTORE_MODE_FULL 0
       STATE_PAYLOAD_TYPE_LOBBY_SNAPSHOT 1).

Lemma restored_run : restore "message" (8 * Second) paid = (Ok restored, (restore "message" (8 * Second) paid).2).
Proof.
  assert ((restore "message" (8 * Second) paid).1 = Ok restored) as <- by (vm_compute; reflexivity).
  apply surjective_pairing.
Qed.

Lemma restore_decodes : Unmarshal "message" = Ok (mkRestoreRequest "p1" "session" 1 false).
Proof. vm_compute. reflexivity. Qed.

(** The player's state after the settlement, sent to a client that has version 1. *)
Lemma restore_answers_stored_state_witness : exists v state,
  stored_state v "p1" state /\ 2 = Z.max (ls_ProfileVersion state) (ls_AssetVersion state) /\
  Unmarshal "message" = Ok state.
Proof.
  destruct (restore_answers_stored_state lobby_env "message" (mkRestoreRequest "p1" "session" 1 false)
    (8 * Second) paid restored _ restore_decodes restored_run) as (v & state & _ & _ & Hst & _ & _ & Hv & _ & Hp & _).
  exists v, state. split_and!; [exact Hst|exact Hv|exact Hp].
Defined.

(** ** Where the handlers fall short *)

(** A step of another process, which settles [delta] gold under the id [id]. *)
Definition other_settles (id : string) (delta : Z) (Hr : in_int64 delta) : foreign (rtc lobby_step) :=
  mkForeign _ (fun v => mem_db _ (settle (gold id delta) (mkMem _ v [])).2)
    (fun v => settle_steps id delta (mkMem _ v []) Hr).
Definition other_idles : foreign (rtc lobby_step) := mkForeign _ (fun v => v) (fun v => rtc_refl _ v).

Lemma small_delta : in_int64 7.
Proof. unfold in_int64. lia. Qed.

(** The guard against overdrafts does not see the smallest 64-bit integer: its negation
    is itself, so a settlement of minus two to the sixty-third on five gold is accepted and
    leaves a negative balance. *)
Theorem smallest_delta_overdraws :
  (settle (gold "s2" (- 2 ^ 63)) paid).1 =
    Ok (mkResult SETTLEMENT_RESPONSE (mkSettlementResponse "s2" "p1" "gold" (5 - 2 ^ 63) 3 false)) /\
  (settle (gold "s2" (- 6)) paid).1 = Err ErrInsufficientCurrency.
Proof. split; vm_compute; reflexivity. Qed.

(** A settlement whose id is taken by a different one between its look-up and its
    transaction is answered as a replay, although the request does not match the entry:
    the caller asked for a thousand gold, is told that its settlement was applied before,
    and the player has seven. Looked up a moment later, the same request is a conflict. *)
Theorem racing_conflict_is_answered :
  let raced := mkMem _ (view with_player) [other_idles; other_settles "s2" 7 small_delta] in
  (settle (gold "s2" 1000) raced).1 =
    Ok (mkResult SETTLEMENT_RESPONSE (mkSettlementResponse "s2" "p1" "gold" 7 2 true)) /\
  (settle (gold "s2" 1000) (settle (gold "s2" 1000) raced).2).1 = Err ErrSettlementConflict.
Proof. split; vm_compute; reflexivity. Qed.

(** A restore that rebuilds a missing snapshot can overwrite a newer one: when a
    settlement commits between the reads and the save, the stored snapshot afterwards has
    asset version 1 while the assets are at version 2. *)
Theorem restore_overwrites_newer_snapshot :
  let v := view with_player in
  let raced := mkMem _ (mkDb (players v) (assets v) (ledger v) [])
                 [other_idles; other_idles; other_idles; other_settles "s2" 7 small_delta] in
  let v' := mem_db _ (restore "message" (8 * Second) raced).2 in
  (sd_AssetVersion <$> snapshots v') = [1] /\ (ad_AssetVersion <$> assets v') = [2].
Proof. split; vm_compute; reflexivity. Qed.

End runs.

End Lobby.
