(* ===== verification/Session.v ===== *)
(** * Gateway sessions and their stores: [services/gateway/session/session.go], [redis_store.go]

    A session record lives in a store: a map guarded by a mutex, or Redis. Both offer
    single-key operations, a compare-and-swap and the account claims. What they promise
    to the session manager is the class [StoreLaws], proved here of both. Redis itself is
    a parameter: a key space with atomic commands and scripts, whose calls may fail with
    or without having had their effect. *)

From S2P Require Import Prelude.

Module Session.

Definition ErrNotFound := Sentinel "session.ErrNotFound" "session not found".
Definition ErrInvalidToken := Sentinel "session.ErrInvalidToken" "invalid resume token".
Definition ErrSessionExpiry := Sentinel "session.ErrSessionExpiry" "session expired".
Definition ErrSessionConflict := Sentinel "session.ErrSessionConflict" "session was changed concurrently".

(** [State] *)
Inductive State := StateAuthenticated | StateActive | StateReconnecting | StateExpired.

#[export] Instance State_eq_dec : EqDecision State.
Proof. solve_decision. Defined.

Record Record := mkRecord {
  SessionID : string;
  AccountID : string;
  PlayerID : string;
  GatewayInstanceID : string;
  ConnectionID : string;
  ConnectionEpoch : Z;
  RState : State;
  ResumeTokenHash : string;
  ExpireAt : Z
}.

#[export] Instance Record_eq_dec : EqDecision Record.
Proof. solve_decision. Defined.

(** [Record{AccountID: accountID, ConnectionID: connectionID}]; the zero value is
    [blank "" ""]. The state of such a record is never read. *)
Definition blank (accountID connectionID : string) : Record :=
  mkRecord "" accountID "" "" connectionID 0 StateAuthenticated "" zero_time.

Definition set_ConnectionID (r : Record) (c : string) : Record :=
  mkRecord (SessionID r) (AccountID r) (PlayerID r) (GatewayInstanceID r) c (ConnectionEpoch r)
    (RState r) (ResumeTokenHash r) (ExpireAt r).
Definition set_State (r : Record) (st : State) : Record :=
  mkRecord (SessionID r) (AccountID r) (PlayerID r) (GatewayInstanceID r) (ConnectionID r) (ConnectionEpoch r)
    st (ResumeTokenHash r) (ExpireAt r).

(** ** The interfaces [Store], [CompareAndSwapStore], [AccountSessionStore]

    The last two are optional: the manager asks for them by a type assertion. [clock] is
    what [time.Now] returns inside the call. *)
Record AccountSessionStore (S : Type) := mkAccountStore {
  ClaimAccount : Z -> string -> Record -> prog S (Record * bool);
  ReleaseAccount : string -> string -> prog S unit
}.
Arguments mkAccountStore {S}.
Arguments ClaimAccount {S}.
Arguments ReleaseAccount {S}.

Record Store (S : Type) := mkStore {
  Create : Z -> Record -> prog S unit;
  Get : string -> prog S Record;
  Save : Z -> Record -> prog S unit;
  Delete : string -> prog S unit;
  CompareAndSwap : option (Z -> Record -> Record -> prog S bool);
  AccountStore : option (AccountSessionStore S)
}.
Arguments mkStore {S}.
Arguments Create {S}.
Arguments Get {S}.
Arguments Save {S}.
Arguments Delete {S}.
Arguments CompareAndSwap {S}.
Arguments AccountStore {S}.

(** ** [MemoryStore] *)

Notation MemoryStore := (gmap string Record).

Section memory.
Context `{!MapRange string Record}.

Definition mem_Create (r : Record) : prog MemoryStore unit := fun s =>
  match s !! SessionID r with
  | Some _ => (Err (Text ("session " +:+ SessionID r +:+ " already exists")), s)
  | None => (Ok tt, <[SessionID r := r]> s)
  end.

(** The first record of the iteration that belongs to the account in another session and
    is connected. *)
Definition mem_ClaimAccount (accountID : string) (record : Record) : prog MemoryStore (Record * bool) := fun s =>
  let previous :=
    match list_find (fun kr : string * Record =>
            SessionID kr.2 <> SessionID record /\ AccountID kr.2 = accountID /\ ConnectionID kr.2 <> "") (range s) with
    | Some (_, (_, candidate)) => candidate
    | None => blank "" ""
    end in
  (Ok (previous, negb (bool_decide (ConnectionID previous = ""))), s).

Definition mem_ReleaseAccount (accountID connectionID : string) : prog MemoryStore unit := fun s =>
  (Ok tt, foldl (fun s (kr : string * Record) =>
                   if bool_decide (AccountID kr.2 = accountID) && bool_decide (ConnectionID kr.2 = connectionID)
                   then <[kr.1 := set_ConnectionID kr.2 ""]> s else s) s (range s)).

Definition mem_Get (id : string) : prog MemoryStore Record := fun s =>
  match s !! id with
  | None => (Err ErrNotFound, s)
  | Some r => (Ok r, s)
  end.

Definition mem_Save (r : Record) : prog MemoryStore unit := fun s =>
  match s !! SessionID r with
  | None => (Err ErrNotFound, s)
  | Some _ => (Ok tt, <[SessionID r := r]> s)
  end.

Definition mem_CompareAndSwap (expected updated : Record) : prog MemoryStore bool := fun s =>
  match s !! SessionID expected with
  | None => (Err ErrNotFound, s)
  | Some current =>
      if bool_decide (current = expected) then (Ok true, <[SessionID updated := updated]> s)
      else (Ok false, s)
  end.

Definition mem_Delete (id : string) : prog MemoryStore unit := fun s => (Ok tt, delete id s).

Definition memory_store : Store MemoryStore :=
  mkStore (fun _ => mem_Create) mem_Get (fun _ => mem_Save) mem_Delete (Some (fun _ => mem_CompareAndSwap))
    (Some (mkAccountStore (fun _ => mem_ClaimAccount) mem_ReleaseAccount)).

End memory.

(** ** Redis *)

(** The errors of the client library never are the errors of the program. *)
Definition redis_error (e : error) : Prop :=
  forall v m, errors_Is e (Sentinel v m) = true -> String.prefix "redis." v = true.
Definition redis_Nil := Sentinel "redis.Nil" "redis: nil".

(** [encoding/json] on session records, and [cjson.decode(..).connection_id] of the server's Lua. *)
Class SessionJson := {
  json_Marshal : Record -> res string;
  json_Unmarshal : string -> res Record;
  cjson_connection_id : string -> string;
  json_roundtrip r d : json_Marshal r = Ok d -> json_Unmarshal d = Ok r;
  cjson_reads r d : json_Marshal r = Ok d -> cjson_connection_id d = ConnectionID r;
  json_nonempty r d : json_Marshal r = Ok d -> d <> ""
}.

Class Redis (S : Type) := {
  keyspace : S -> gmap string string;
  SetNX : string -> string -> Z -> prog S bool;
  SetXX : string -> string -> Z -> prog S bool;
  redis_Get : string -> prog S string;
  Del : string -> prog S unit;
  (** a script: what it does to the key space, in one step *)
  script_Run : forall {A}, (gmap string string -> A * gmap string string) -> prog S A
}.

(** A call that has the effect [f] on the key space when it succeeds, and may have had it
    when it fails. *)
Definition call_post {A} (k : gmap string string) (r : res A) (k' : gmap string string)
    (f : gmap string string -> A * gmap string string) : Prop :=
  match r with
  | Ok a => f k = (a, k')
  | Err e => redis_error e /\ (k' = k \/ k' = (f k).2)
  end.

Class RedisLaws (S : Type) `{Redis S} := {
  setnx_spec key v ttl s r s' : SetNX key v ttl s = (r, s') ->
    call_post (keyspace s) r (keyspace s') (fun k =>
      match k !! key with Some _ => (false, k) | None => (true, <[key := v]> k) end);
  setxx_spec key v ttl s r s' : SetXX key v ttl s = (r, s') ->
    call_post (keyspace s) r (keyspace s') (fun k =>
      match k !! key with Some _ => (true, <[key := v]> k) | None => (false, k) end);
  redis_get_spec key s r s' : redis_Get key s = (r, s') ->
    keyspace s' = keyspace s /\
    match r with
    | Ok v => keyspace s !! key = Some v
    | Err e => redis_error e /\ (errors_Is e redis_Nil = true -> keyspace s !! key = None)
    end;
  del_spec key s r s' : Del key s = (r, s') ->
    call_post (keyspace s) r (keyspace s') (fun k => (tt, delete key k));
  script_spec {A} (f : gmap string string -> A * gmap string string) s r s' : script_Run f s = (r, s') ->
    call_post (keyspace s) r (keyspace s') f
}.

Section redis.
Context {S : Type} `{Redis S} `{SessionJson}.

Record RedisStore := mkRedisStore { prefix : string }.

Definition compareAndSwapScript (key expected updated : string) (k : gmap string string) : bool * gmap string string :=
  match k !! key with
  | None => (false, k)
  | Some current => if bool_decide (current = expected) then (true, <[key := updated]> k) else (false, k)
  end.

Definition claimAccountScript (key data : string) (k : gmap string string) : string * gmap string string :=
  (default "" (k !! key), <[key := data]> k).

Definition releaseAccountScript (key connectionID : string) (k : gmap string string) : Z * gmap string string :=
  match k !! key with
  | None => (1, k)
  | Some current =>
      if bool_decide (cjson_connection_id current = connectionID) then (1, delete key k) else (0, k)
  end.

Definition key (st : RedisStore) (id : string) : string := prefix st +:+ id.
Definition accountKey (st : RedisStore) (accountID : string) : string := prefix st +:+ "account:" +:+ accountID.

Definition redis_Create (st : RedisStore) (clock : Z) (record : Record) : prog S unit := fun s =>
  match json_Marshal record with
  | Err e => (Err e, s)
  | Ok data =>
      let ttl := ExpireAt record - clock in
      if ttl <=? 0 then (Err ErrSessionExpiry, s)
      else match SetNX (key st (SessionID record)) data ttl s with
           | (Err e, s') => (Err e, s')
           | (Ok ok, s') => if negb ok then (Err (Text "session already exists"), s') else (Ok tt, s')
           end
  end.

Definition redis_ClaimAccount (st : RedisStore) (clock : Z) (accountID : string) (record : Record) :
    prog S (Record * bool) := fun s =>
  match json_Marshal record with
  | Err e => (Err e, s)
  | Ok data =>
      let ttl := ExpireAt record - clock in
      if ttl <=? 0 then (Err ErrSessionExpiry, s)
      else match script_Run (claimAccountScript (accountKey st accountID) data) s with
           | (Err e, s') => (Err e, s')
           | (Ok previousData, s') =>
               if bool_decide (previousData = "") then (Ok (blank "" "", false), s')
               else match json_Unmarshal previousData with
                    | Err e => (Err e, s')
                    | Ok previous => (Ok (previous, true), s')
                    end
           end
  end.

Definition redis_ReleaseAccount (st : RedisStore) (accountID connectionID : string) : prog S unit := fun s =>
  match script_Run (releaseAccountScript (accountKey st accountID) connectionID) s with
  | (Err e, s') => (Err e, s')
  | (Ok _, s') => (Ok tt, s')
  end.

Definition RedisStore_Get (st : RedisStore) (id : string) : prog S Record := fun s =>
  match redis_Get (key st id) s with
  | (Err e, s') => (Err (if errors_Is e redis_Nil then ErrNotFound else e), s')
  | (Ok data, s') => (json_Unmarshal data, s')
  end.

Definition redis_Save (st : RedisStore) (clock : Z) (record : Record) : prog S unit := fun s =>
  match json_Marshal record with
  | Err e => (Err e, s)
  | Ok data =>
      let ttl := ExpireAt record - clock in
      if ttl <=? 0 then (Err ErrSessionExpiry, s)
      else match SetXX (key st (SessionID record)) data ttl s with
           | (Err e, s') => (Err e, s')
           | (Ok ok, s') => if negb ok then (Err ErrNotFound, s') else (Ok tt, s')
           end
  end.

Definition redis_CompareAndSwap (st : RedisStore) (clock : Z) (expected updated : Record) : prog S bool := fun s =>
  match json_Marshal expected, json_Marshal updated with
  | Err e, _ => (Err e, s)
  | _, Err e => (Err e, s)
  | Ok expectedData, Ok updatedData =>
      let ttl := ExpireAt updated - clock in
      if ttl <=? 0 then (Err ErrSessionExpiry, s)
      else script_Run (compareAndSwapScript (key st (SessionID updated)) expectedData updatedData) s
  end.

Definition redis_Delete (st : RedisStore) (id : string) : prog S unit := Del (key st id).

Definition redis_store (st : RedisStore) : Store S :=
  mkStore (redis_Create st) (RedisStore_Get st) (redis_Save st) (redis_Delete st)
    (Some (redis_CompareAndSwap st))
    (Some (mkAccountStore (redis_ClaimAccount st) (redis_ReleaseAccount st))).

End redis.

(** ** What a store promises

    [session s id] is the record stored under [id]; the promises are made for the ids
    [sid_ok], which the generated ones satisfy. A failed write may have been done. *)
Class StoreView (S : Type) := {
  session : S -> string -> option Record;
  sid_ok : string -> Prop
}.

Section promises.
Context {S : Type} `{StoreView S}.

Definition same (s s' : S) : Prop := forall id, sid_ok id -> session s' id = session s id.
Definition upd (s s' : S) (sid : string) (x : option Record) : Prop :=
  session s' sid = x /\ forall id, sid_ok id -> id <> sid -> session s' id = session s id.

Class StoreLaws (st : Store S) := {
  create_spec clock r s res s' : sid_ok (SessionID r) -> Create st clock r s = (res, s') ->
    let new := session s (SessionID r) = None /\ upd s s' (SessionID r) (Some r) in
    match res with Ok _ => new | Err _ => same s s' \/ new end;
  get_spec id s res s' : sid_ok id -> Get st id s = (res, s') ->
    same s s' /\
    match res with
    | Ok r => session s id = Some r
    | Err e => errors_Is e ErrNotFound = true -> session s id = None
    end;
  save_spec clock r s res s' : sid_ok (SessionID r) -> Save st clock r s = (res, s') ->
    match res with
    | Ok _ => upd s s' (SessionID r) (Some r)
    | Err _ => same s s' \/ upd s s' (SessionID r) (Some r)
    end;
  delete_spec id s res s' : sid_ok id -> Delete st id s = (res, s') ->
    match res with Ok _ => upd s s' id None | Err _ => same s s' \/ upd s s' id None end;
  cas_spec cas clock e u s res s' : CompareAndSwap st = Some cas -> sid_ok (SessionID u) ->
    SessionID e = SessionID u -> cas clock e u s = (res, s') ->
    let swapped := session s (SessionID u) = Some e /\ upd s s' (SessionID u) (Some u) in
    match res with Ok true => swapped | Ok false => same s s' | Err _ => same s s' \/ swapped end;
  claim_spec a clock account r s res s' : AccountStore st = Some a ->
    ClaimAccount a clock account r s = (res, s') -> same s s';
  release_spec a account connection s res s' id : AccountStore st = Some a -> sid_ok id ->
    ReleaseAccount a account connection s = (res, s') ->
    session s' id = session s id \/
    exists r, session s id = Some r /\ AccountID r = account /\ ConnectionID r = connection /\
      session s' id = Some (set_ConnectionID r "")
}.

End promises.

(** ** The memory store keeps the promises *)

Section memory_laws.
Context `{!MapRange string Record}.

#[export] Instance memory_view : StoreView MemoryStore := {|
  session s id := s !! id;
  sid_ok _ := True
|}.

Lemma upd_insert (s : MemoryStore) sid r : upd s (<[sid := r]> s) sid (Some r).
Proof. split; [apply lookup_insert_eq|]. intros id _ Hid. simpl. by rewrite lookup_insert_ne. Qed.

Lemma upd_delete (s : MemoryStore) sid : upd s (delete sid s) sid None.
Proof. split; [apply lookup_delete_eq|]. intros id _ Hid. simpl. by rewrite lookup_delete_ne. Qed.

Lemma release_lookup account connection (l : list (string * Record)) (s : MemoryStore) id :
  NoDup l.*1 -> (forall k r, (k, r) ∈ l -> s !! k = Some r) ->
  let s' := foldl (fun s kr => if bool_decide (AccountID kr.2 = account) && bool_decide (ConnectionID kr.2 = connection)
                               then <[kr.1 := set_ConnectionID kr.2 ""]> s else s) s l in
  s' !! id = s !! id \/
  exists r, s !! id = Some r /\ AccountID r = account /\ ConnectionID r = connection /\
    s' !! id = Some (set_ConnectionID r "").
Proof.
  cbv zeta. revert s.
  induction l as [|[k r] l IH]; intros s Hnd Hl; [by left|]. cbn in Hnd.
  apply NoDup_cons in Hnd as [Hk Hnd]. cbn [foldl fst snd].
  assert (s !! k = Some r) as Hkr by apply Hl, list_elem_of_here.
  destruct (_ && _) eqn:E.
  - breflect. destruct (IH (<[k := set_ConnectionID r ""]> s) Hnd) as [Hi|(r' & Hr' & Ha & Hc & Hi)].
    { intros k' r' Hin. rewrite lookup_insert_ne; [by apply Hl, list_elem_of_further|].
      intros ->. apply Hk. apply list_elem_of_fmap. by exists (k', r'). }
    + rewrite Hi. destruct (decide (k = id)) as [->|]; [|left; by rewrite lookup_insert_ne].
      right. exists r. by rewrite lookup_insert_eq.
    + destruct (decide (k = id)) as [->|]; [|rewrite lookup_insert_ne in Hr' by done; right; by exists r'].
      rewrite lookup_insert_eq in Hr'. injection Hr' as <-. right. exists r. by rewrite Hi.
  - apply IH; [done|]. intros k' r' Hin. by apply Hl, list_elem_of_further.
Qed.

#[export] Instance memory_laws : StoreLaws memory_store.
Proof.
  split; simpl.
  - intros _ r s res s' _. unfold mem_Create. destruct (s !! SessionID r) eqn:E; intros [= <- <-].
    + by left.
    + split; [done|apply upd_insert].
  - intros id s res s' _. unfold mem_Get. by destruct (s !! id) eqn:E; intros [= <- <-].
  - intros _ r s res s' _. unfold mem_Save. destruct (s !! SessionID r) eqn:E; intros [= <- <-].
    + apply upd_insert.
    + by left.
  - intros id s res s' _ [= <- <-]. apply upd_delete.
  - intros cas _ e u s res s' [= <-] _ Hid. unfold mem_CompareAndSwap. rewrite Hid.
    destruct (s !! SessionID u) eqn:E; [|by intros [= <- <-]; left].
    case_bool_decide; intros [= <- <-]; [|done]. subst. split; [done|apply upd_insert].
  - by intros a _ account r s res s' [= <-] [= _ <-].
  - intros a account connection s res s' id [= <-] _ [= _ <-]. apply release_lookup.
    + apply NoDup_range_fst.
    + intros k r. apply elem_of_range.
Qed.

End memory_laws.

(** ** The Redis store keeps the promises, for ids that are not account keys *)

Section redis_laws.
Context {S : Type} `{RedisLaws S} `{SessionJson} (st : RedisStore).

Definition decoded (d : string) : option Record :=
  match json_Unmarshal d with Ok r => Some r | Err _ => None end.

#[export] Instance redis_view : StoreView S := {|
  session s id := keyspace s !! key st id ≫= decoded;
  sid_ok id := String.prefix "account:" id = false
|}.

Lemma prefix_app p x : String.prefix p (p +:+ x) = true.
Proof. induction p as [|a p IH]; simpl; [by destruct x|]. by destruct (Ascii.ascii_dec a a). Qed.

Lemma key_inj id id' : key st id = key st id' -> id = id'.
Proof. apply (inj (String.append _)). Qed.

Lemma key_account id account : sid_ok id -> key st id <> accountKey st account.
Proof.
  intros Hok E. apply (inj (String.append _)) in E. subst id.
  change (String.prefix "account:" ("account:" +:+ account) = false) in Hok.
  pose proof (prefix_app "account:" account). congruence.
Qed.

Lemma redis_upd s s' id d : keyspace s' = <[key st id := d]> (keyspace s) -> upd s s' id (decoded d).
Proof.
  intros Hk. split; simpl; rewrite Hk; [by rewrite lookup_insert_eq|]. intros id' _ Hne.
  rewrite lookup_insert_ne; [done|]. by intros ?%key_inj.
Qed.

Lemma session_key s id d : keyspace s !! key st id = d -> session s id = d ≫= decoded.
Proof. by intros <-. Qed.

Lemma redis_same s s' : keyspace s' = keyspace s -> same s s'.
Proof. intros Hk id _. simpl. by rewrite Hk. Qed.

Lemma decoded_marshal r d : json_Marshal r = Ok d -> decoded d = Some r.
Proof. unfold decoded. by intros ->%json_roundtrip. Qed.

Lemma redis_same_account s s' account (x : option string) :
  keyspace s' = partial_alter (fun _ => x) (accountKey st account) (keyspace s) -> same s s'.
Proof.
  intros Hk id Hid. simpl. rewrite Hk, lookup_partial_alter_ne; [done|]. apply not_eq_sym. by apply key_account.
Qed.

Lemma redis_create_law :
  forall clock r s res s', sid_ok (SessionID r) -> redis_Create st clock r s = (res, s') ->
  let new := session s (SessionID r) = None /\ upd s s' (SessionID r) (Some r) in
  match res with Ok _ => new | Err _ => same s s' \/ new end.
Proof.
  cbv zeta. intros clock r s res s' _. unfold redis_Create.
  destruct (json_Marshal r) as [d|] eqn:Em; [|by intros [= <- <-]; left].
  destruct (_ <=? 0); [by intros [= <- <-]; left|].
  assert (forall k', keyspace s !! key st (SessionID r) = None -> keyspace k' = <[key st (SessionID r) := d]> (keyspace s) ->
    session s (SessionID r) = None /\ upd s k' (SessionID r) (Some r)) as Hnew.
  { intros k' Hn Hk. split; [by rewrite (session_key _ _ _ Hn)|]. rewrite <- (decoded_marshal r d Em). by apply redis_upd. }
  destruct (SetNX _ _ _ s) as [[ok|e] s1] eqn:E; apply setnx_spec in E; simpl in E;
    destruct (keyspace s !! key st (SessionID r)) eqn:Ek.
  + injection E as <- Hk. intros [= <- <-]. left. by apply redis_same.
  + injection E as <- Hk. intros [= <- <-]. by apply Hnew.
  + intros [= <- <-]. left. apply redis_same. by destruct E as [_ [E|E]]; rewrite E.
  + intros [= <- <-]. destruct E as [_ [Hk|Hk]]; [left; by apply redis_same|right; by apply Hnew].
Qed.

Lemma redis_save_law :
  forall clock r s res s', sid_ok (SessionID r) -> redis_Save st clock r s = (res, s') ->
  match res with
  | Ok _ => upd s s' (SessionID r) (Some r)
  | Err _ => same s s' \/ upd s s' (SessionID r) (Some r)
  end.
Proof.
  intros clock r s res s' _. unfold redis_Save.
  destruct (json_Marshal r) as [d|] eqn:Em; [|by intros [= <- <-]; left].
  destruct (_ <=? 0); [by intros [= <- <-]; left|]. rewrite <- (decoded_marshal r d Em).
  destruct (SetXX _ _ _ s) as [[ok|e] s1] eqn:E; apply setxx_spec in E; simpl in E;
    destruct (keyspace s !! key st (SessionID r)) eqn:Ek.
  + injection E as <- Hk. intros [= <- <-]. by apply redis_upd.
  + injection E as <- Hk. intros [= <- <-]. left. by apply redis_same.
  + intros [= <- <-]. destruct E as [_ [Hk|Hk]]; [left; by apply redis_same|right; by apply redis_upd].
  + intros [= <- <-]. left. apply redis_same. by destruct E as [_ [E|E]]; rewrite E.
Qed.

Lemma redis_cas_law :
  forall clock e u s res s', sid_ok (SessionID u) -> SessionID e = SessionID u ->
  redis_CompareAndSwap st clock e u s = (res, s') ->
  let swapped := session s (SessionID u) = Some e /\ upd s s' (SessionID u) (Some u) in
  match res with Ok true => swapped | Ok false => same s s' | Err _ => same s s' \/ swapped end.
Proof.
  cbv zeta. intros clock e u s res s' _ Hid. unfold redis_CompareAndSwap.
  destruct (json_Marshal e) as [de|] eqn:Ee; [|by intros [= <- <-]; left].
  destruct (json_Marshal u) as [du|] eqn:Eu; [|by intros [= <- <-]; left].
  destruct (_ <=? 0); [by intros [= <- <-]; left|]. intros E. apply script_spec in E.
  unfold call_post, compareAndSwapScript in E. rewrite <- (decoded_marshal e de Ee), <- (decoded_marshal u du Eu).
  destruct (keyspace s !! key st (SessionID u)) as [cur|] eqn:Ek; [case_bool_decide as Hc|]; simpl in E.
  + subst cur. destruct res as [[]|x]; [..|destruct E as [_ [Hk|Hk]]].
    * injection E as E. split; [by rewrite (session_key _ _ _ Ek)|]. by apply redis_upd.
    * done.
    * left. by apply redis_same.
    * right. split; [by rewrite (session_key _ _ _ Ek)|]. by apply redis_upd.
  + destruct res as [[]|x]; [done|injection E as E; by apply redis_same|].
    left. apply redis_same. by destruct E as [_ [E|E]]; rewrite E.
  + destruct res as [[]|x]; [done|injection E as E; by apply redis_same|].
    left. apply redis_same. by destruct E as [_ [E|E]]; rewrite E.
Qed.

Lemma redis_release_law :
  forall account connection s res s', redis_ReleaseAccount st account connection s = (res, s') -> same s s'.
Proof.
  intros account connection s res s'. unfold redis_ReleaseAccount. intros E.
  destruct (script_Run _ s) as [r s1] eqn:Er; apply script_spec in Er. unfold call_post, releaseAccountScript in Er.
  assert (s1 = s') as -> by (by destruct r; injection E as _ E).
  destruct (keyspace s !! accountKey st account) eqn:Ek; [case_bool_decide|]; simpl in Er.
  + destruct r; [injection Er as _ Er; by eapply redis_same_account|].
    destruct Er as [_ [Hk|Hk]]; [by apply redis_same|by eapply redis_same_account].
  + destruct r; [injection Er as _ Er; by apply redis_same|]. apply redis_same. by destruct Er as [_ [Er|Er]]; rewrite Er.
  + destruct r; [injection Er as _ Er; by apply redis_same|]. apply redis_same. by destruct Er as [_ [Er|Er]]; rewrite Er.
Qed.

#[export] Instance redis_laws : StoreLaws (redis_store st).
Proof.
  split; cbn [Create Get Save Delete CompareAndSwap AccountStore redis_store].
  - exact redis_create_law.
  - intros id s res s' _. unfold RedisStore_Get.
    destruct (redis_Get _ s) as [[d|e] s1] eqn:E; apply redis_get_spec in E as [Hk Hr].
    + intros [= <- <-]. split; [by apply redis_same|]. rewrite (session_key _ _ _ Hr). simpl. unfold decoded.
      by destruct (json_Unmarshal d).
    + intros [= <- <-]. split; [by apply redis_same|]. destruct Hr as [He Hn].
      destruct (errors_Is e redis_Nil) eqn:En; [by rewrite (session_key _ _ _ (Hn eq_refl))|]. intros Hx. by apply He in Hx.
  - exact redis_save_law.
  - intros id s res s' _ E. apply del_spec in E. unfold call_post in E. simpl in E.
    assert (keyspace s' = delete (key st id) (keyspace s) -> upd s s' id None) as Hd.
    { intros Hk. split; simpl; rewrite Hk; [by rewrite lookup_delete_eq|]. intros id' _ Hne.
      rewrite lookup_delete_ne; [done|]. by intros ?%key_inj. }
    destruct res as [[]|e]; [injection E as E; by apply Hd|].
    destruct E as [_ [Hk|Hk]]; [left; by apply redis_same|right; by apply Hd].
  - intros cas clock e u s res s' [= <-]. apply redis_cas_law.
  - intros a clock account r s res s' [= <-]. simpl. unfold redis_ClaimAccount.
    destruct (json_Marshal r) as [d|]; [|by intros [= <- <-]].
    destruct (_ <=? 0); [by intros [= <- <-]|].
    destruct (script_Run _ s) as [[pd|e] s1] eqn:E; apply script_spec in E; unfold call_post, claimAccountScript in E; simpl in E.
    + injection E as _ E. assert (same s s1) by by eapply redis_same_account.
      case_bool_decide; [by intros [= _ <-]|]. by destruct (json_Unmarshal pd); intros [= _ <-].
    + intros [= _ <-]. destruct E as [_ [Hk|Hk]]; [by apply redis_same|by eapply redis_same_account].
  - intros a account connection s res s' id [= <-] Hid Hr. left. by eapply redis_release_law.
Qed.

End redis_laws.

End Session.
