(* ===== verification/SessionManager.v ===== *)
(** * The session manager: [services/gateway/session/session.go], [type Manager]

    The manager is proved against the promises of a store ([Session.StoreLaws]), not
    against one store. Random identifiers, the hash function and clock readings are
    arguments. An operation returns its result, the manager's maps, what it asked for
    (calls of the preempt handler, lifecycle events, expiry timers) in order, and the
    store. The operations that read a record and write it later are split at that point
    ([Resume_got], [disconnect_got], [expire_got] are the rest of the function once [Get]
    has returned), so that other calls can come in between. *)

From S2P Require Import Prelude Session.
From stdpp Require Import pretty.
Import Session.
Open Scope Z_scope.

Module SessionManager.

Inductive LifecycleType :=
  LifecycleConnected | LifecycleDisconnected | LifecycleResumed | LifecycleExpired | LifecyclePreempted.

#[export] Instance LifecycleType_eq_dec : EqDecision LifecycleType.
Proof. solve_decision. Defined.

Definition lifecycle_string (t : LifecycleType) : string :=
  match t with
  | LifecycleConnected => "connected"
  | LifecycleDisconnected => "disconnected"
  | LifecycleResumed => "resumed"
  | LifecycleExpired => "expired"
  | LifecyclePreempted => "preempted"
  end.

Record LifecycleEvent := mkEvent {
  EventID : string;
  Type_ : LifecycleType;
  ESessionID : string;
  EAccountID : string;
  EPlayerID : string;
  EConnectionID : string;
  EConnectionEpoch : Z;
  EGatewayInstanceID : string;
  OccurredAt : Z
}.

Record Manager := mkManager {
  gatewayID : string;
  sessionTTL : Z;
  reconnectGrace : Z;
  connections : gmap string string;
  accountConnections : gmap string string;
  preempt : bool;
  lifecycle : bool
}.

Definition NewManager (gatewayID : string) (sessionTTL reconnectGrace : Z) : Manager :=
  mkManager gatewayID sessionTTL reconnectGrace ∅ ∅ false false.

Definition SetPreemptHandler (m : Manager) (handler : bool) : Manager :=
  mkManager (gatewayID m) (sessionTTL m) (reconnectGrace m) (connections m) (accountConnections m) handler (lifecycle m).
Definition SetLifecycleHandler (m : Manager) (handler : bool) : Manager :=
  mkManager (gatewayID m) (sessionTTL m) (reconnectGrace m) (connections m) (accountConnections m) (preempt m) handler.

Definition set_maps (m : Manager) (c a : gmap string string) : Manager :=
  mkManager (gatewayID m) (sessionTTL m) (reconnectGrace m) c a (preempt m) (lifecycle m).

(** What an operation asks for. *)
Inductive output :=
  | Preempt (r : Record)
  | Lifecycle (e : LifecycleEvent)
  | Expiry (disconnected : Record) (expiresAt : Z).

Definition event (t : LifecycleType) (r : Record) (now : Z) : LifecycleEvent :=
  mkEvent (SessionID r +:+ ":" +:+ pretty (ConnectionEpoch r) +:+ ":" +:+ lifecycle_string t)
    t (SessionID r) (AccountID r) (PlayerID r) (ConnectionID r) (ConnectionEpoch r) (GatewayInstanceID r) now.

Definition emitLifecycle (m : Manager) (t : LifecycleType) (r : Record) (now : Z) : list output :=
  if lifecycle m then [Lifecycle (event t r now)] else [].

Record Created := mkCreated { CRecord : Record; ResumeToken : string }.

Section manager.
Context `{!MapRange string string}.
Context (hash : string -> string).
Context {S : Type} (st : Store S).

(** [if accountStore, ok := m.store.(AccountSessionStore); ok { .. }] *)
Definition claim (clock : Z) (account : string) (r : Record) : prog S (Record * bool) :=
  match AccountStore st with
  | Some a => ClaimAccount a clock account r
  | None => ret (blank "" "", false)
  end.
Definition release (account connection : string) : prog S unit :=
  match AccountStore st with
  | Some a => ReleaseAccount a account connection
  | None => ret tt
  end.

Definition saveVersionResult (clock : Z) (expected updated : Record) : prog S bool := fun s =>
  match CompareAndSwap st with
  | Some cas => cas clock expected updated s
  | None => match Save st clock updated s with
            | (Err e, s') => (Err e, s')
            | (Ok _, s') => (Ok true, s')
            end
  end.

(** The flag of the compare-and-swap is dropped. *)
Definition saveVersion (clock : Z) (expected updated : Record) : prog S unit := fun s =>
  match saveVersionResult clock expected updated s with
  | (Err e, s') => (Err e, s')
  | (Ok _, s') => (Ok tt, s')
  end.

(** The end of [Create] and [Resume]: the previous connection of the account is told. *)
Definition tell_previous (m : Manager) (previousRecord : Record) (previous : bool) (connectionID : string) (now : Z) :
    list output :=
  if previous && negb (bool_decide (ConnectionID previousRecord = "")) &&
     negb (bool_decide (ConnectionID previousRecord = connectionID))
  then (if preempt m then [Preempt previousRecord] else []) ++ emitLifecycle m LifecyclePreempted previousRecord now
  else [].

Definition new_record (m : Manager) (sid token accountID connectionID playerID : string) (now : Z) : Record :=
  mkRecord sid accountID playerID (gatewayID m) connectionID 1 StateAuthenticated (hash token) (time_Add now (sessionTTL m)).

Definition Create (m : Manager) (accountID connectionID : string) (now : Z) (playerIDs : list string)
    (randomSid randomToken : res string) (clock : Z) (s : S) : res Created * Manager * list output * S :=
  match randomSid, randomToken with
  | Err e, _ => (Err e, m, [], s)
  | _, Err e => (Err e, m, [], s)
  | Ok sid, Ok token =>
      let r := new_record m sid token accountID connectionID (default "" (head playerIDs)) now in
      match Session.Create st clock r s with
      | (Err e, s1) => (Err e, m, [], s1)
      | (Ok _, s1) =>
          match claim clock accountID r s1 with
          | (Err e, s2) => (Err e, m, [], s2)
          | (Ok (previousRecord, previous), s2) =>
              let '(previousRecord, previous) :=
                if previous then (previousRecord, previous)
                else let previousID := default "" (accountConnections m !! accountID) in
                     (blank accountID previousID, negb (bool_decide (previousID = ""))) in
              let m' := set_maps m (<[connectionID := sid]> (connections m))
                                   (<[accountID := connectionID]> (accountConnections m)) in
              (Ok (mkCreated r token), m',
               tell_previous m previousRecord previous connectionID now ++ emitLifecycle m LifecycleConnected r now, s2)
          end
      end
  end.

(** The loop of [disconnect] over the connections of the session. *)
Definition forget_connections (m : Manager) (sessionID accountID : string) : Manager :=
  foldl (fun m (cs : string * string) =>
           if bool_decide (cs.2 = sessionID)
           then set_maps m (delete cs.1 (connections m))
                  (if bool_decide (default "" (accountConnections m !! accountID) = cs.1)
                   then delete accountID (accountConnections m) else accountConnections m)
           else m) m (range (connections m)).

Definition reconnecting (m : Manager) (r : Record) (now : Z) : Record :=
  mkRecord (SessionID r) (AccountID r) (PlayerID r) (GatewayInstanceID r) "" (ConnectionEpoch r)
    StateReconnecting (ResumeTokenHash r) (time_Add now (reconnectGrace m)).

(** The record is not the one the caller means: another connection, or another epoch. *)
Definition stale (r : Record) (connectionID : string) (epochs : list Z) : bool :=
  (negb (bool_decide (connectionID = "")) && negb (bool_decide (ConnectionID r = connectionID))) ||
  match epochs with e :: _ => negb (e =? 0) && negb (ConnectionEpoch r =? e) | [] => false end.

(** [disconnect] once [Get] has returned [r]; [epochs] is the optional epoch. *)
Definition disconnect_got (m : Manager) (r : Record) (sessionID connectionID : string) (now : Z) (epochs : list Z)
    (clock : Z) (s : S) : res unit * Manager * list output * S :=
  if stale r connectionID epochs then (Ok tt, m, [], s)
  else
    match saveVersion clock r (reconnecting m r now) s with
    | (Err e, s1) => (Err e, m, [], s1)
    | (Ok _, s1) =>
        match release (AccountID r) (ConnectionID r) s1 with
        | (Err e, s2) => (Err e, m, [], s2)
        | (Ok _, s2) =>
            (Ok tt, forget_connections m sessionID (AccountID r),
             emitLifecycle m LifecycleDisconnected r now ++ [Expiry r (time_Add now (reconnectGrace m))], s2)
        end
    end.

Definition disconnect (m : Manager) (sessionID connectionID : string) (now : Z) (epochs : list Z) (clock : Z) (s : S) :
    res unit * Manager * list output * S :=
  match Get st sessionID s with
  | (Err e, s1) => (Err e, m, [], s1)
  | (Ok r, s1) => disconnect_got m r sessionID connectionID now epochs clock s1
  end.

Definition Disconnect (m : Manager) (sessionID : string) (now clock : Z) (s : S) :=
  disconnect m sessionID "" now [] clock s.
Definition DisconnectConnection (m : Manager) (sessionID connectionID : string) (now : Z) (epochs : list Z) (clock : Z) (s : S) :=
  disconnect m sessionID connectionID now epochs clock s.

Definition resumed (m : Manager) (r : Record) (connectionID nextToken : string) (now : Z) : Record :=
  mkRecord (SessionID r) (AccountID r) (PlayerID r) (gatewayID m) connectionID (uint64 (ConnectionEpoch r + 1))
    StateAuthenticated (hash nextToken) (time_Add now (sessionTTL m)).

(** [Resume] once [Get] has returned [r]. *)
Definition Resume_got (m : Manager) (r : Record) (sessionID token connectionID : string) (now : Z)
    (randomToken : res string) (clock : Z) (s : S) : res Created * Manager * list output * S :=
  if negb (time_Before now (ExpireAt r)) then
    let '(_, s1) := saveVersion clock r (set_State r StateExpired) s in
    (Err ErrSessionExpiry, m, [], s1)
  else if negb (bool_decide (hash token = ResumeTokenHash r)) then (Err ErrInvalidToken, m, [], s)
  else
    match randomToken with
    | Err e => (Err e, m, [], s)
    | Ok nextToken =>
        let r' := resumed m r connectionID nextToken now in
        match saveVersionResult clock r r' s with
        | (Err e, s1) => (Err e, m, [], s1)
        | (Ok false, s1) => (Err ErrSessionConflict, m, [], s1)
        | (Ok true, s1) =>
            match claim clock (AccountID r') r' s1 with
            | (Err e, s2) => (Err e, m, [], s2)
            | (Ok (previousRecord, previous), s2) =>
                let '(previousRecord, previous) :=
                  if previous then (previousRecord, previous)
                  else let previousID := default "" (accountConnections m !! AccountID r') in
                       let previous := negb (bool_decide (previousID = "")) && negb (bool_decide (previousID = connectionID)) in
                       (if previous then blank (AccountID r') previousID else previousRecord, previous) in
                let m' := set_maps m (<[connectionID := sessionID]> (connections m))
                                     (<[AccountID r' := connectionID]> (accountConnections m)) in
                (Ok (mkCreated r' nextToken), m',
                 tell_previous m previousRecord previous connectionID now ++ emitLifecycle m LifecycleResumed r' now, s2)
            end
        end
    end.

Definition Resume (m : Manager) (sessionID token connectionID : string) (now : Z) (randomToken : res string)
    (clock : Z) (s : S) : res Created * Manager * list output * S :=
  match Get st sessionID s with
  | (Err e, s1) => (Err e, m, [], s1)
  | (Ok r, s1) => Resume_got m r sessionID token connectionID now randomToken clock s1
  end.

(** [expire] once [Get] has returned. *)
Definition expire_got (m : Manager) (disconnected : Record) (got : res Record) (now : Z) (s : S) : list output * S :=
  match got with
  | Err e =>
      if errors_Is e ErrNotFound
      then (emitLifecycle m LifecycleExpired (set_State disconnected StateExpired) now, s) else ([], s)
  | Ok record =>
      if negb (bool_decide (RState record = StateReconnecting)) ||
         negb (ConnectionEpoch record =? ConnectionEpoch disconnected) || time_Before now (ExpireAt record)
      then ([], s)
      else
        match Delete st (SessionID disconnected) s with
        | (Err _, s1) => ([], s1)
        | (Ok _, s1) =>
            let '(_, s2) := release (AccountID record) "" s1 in
            (emitLifecycle m LifecycleExpired (set_State record StateExpired) now, s2)
        end
  end.

Definition expire (m : Manager) (disconnected : Record) (now : Z) (s : S) : list output * S :=
  let '(got, s1) := Get st (SessionID disconnected) s in expire_got m disconnected got now s1.

(** Preempt notices never name the connection that caused them. *)
Lemma tell_previous_other m pr p conn now r : Preempt r ∈ tell_previous m pr p conn now -> ConnectionID r <> conn.
Proof.
  unfold tell_previous, emitLifecycle. destruct (_ && _) eqn:E; [|intros Hx; by apply not_elem_of_nil in Hx].
  breflect. destruct (preempt m), (lifecycle m); set_solver.
Qed.

Lemma notices_other m pr p conn now t x r :
  Preempt r ∈ tell_previous m pr p conn now ++ emitLifecycle m t x now -> ConnectionID r <> conn.
Proof.
  intros [?|Hin]%elem_of_app; [by eapply tell_previous_other|].
  unfold emitLifecycle in Hin. destruct (lifecycle m); set_solver.
Qed.

Lemma Create_notices m account conn now players sid tok clock s res m' out s' :
  Create m account conn now players sid tok clock s = (res, m', out, s') ->
  forall r, Preempt r ∈ out -> ConnectionID r <> conn.
Proof.
  unfold Create. intros E r. repeat case_match; simplify_eq;
    first [by intros Hx%not_elem_of_nil | apply notices_other].
Qed.

Lemma Resume_notices m sid token conn now rnd clock s res m' out s' :
  Resume m sid token conn now rnd clock s = (res, m', out, s') ->
  forall r, Preempt r ∈ out -> ConnectionID r <> conn.
Proof.
  unfold Resume, Resume_got. intros E r. repeat case_match; simplify_eq;
    first [by intros Hx%not_elem_of_nil | apply notices_other].
Qed.

End manager.

(** ** Correctness against any store that keeps its promises *)

Section correctness.
Context `{!MapRange string string}.
Context (hash : string -> string).
Context {S : Type} `{!StoreView S} (st : Store S) `{!StoreLaws st}.
Context (has_cas : is_Some (CompareAndSwap st)).

(** The session under [id], without its connection, which a release may clear. *)
Definition same_but_released (s s' : S) : Prop := forall id, sid_ok id ->
  session s' id = session s id \/
  exists r, session s id = Some r /\ session s' id = Some (set_ConnectionID r "").

Lemma same_trans (s1 s2 s3 : S) : same s1 s2 -> same s2 s3 -> same s1 s3.
Proof. intros Ha Hb id Hid. rewrite Hb by done. by apply Ha. Qed.

Lemma claim_same clock account r s res s' : claim st clock account r s = (res, s') -> same s s'.
Proof.
  unfold claim. destruct (AccountStore st) as [a|] eqn:E; [by apply claim_spec|]. by intros [= _ <-].
Qed.

Lemma release_but account connection s res s' : release st account connection s = (res, s') ->
  forall id, sid_ok id -> session s' id = session s id \/
    exists r, session s id = Some r /\ AccountID r = account /\ ConnectionID r = connection /\
      session s' id = Some (set_ConnectionID r "").
Proof.
  unfold release. destruct (AccountStore st) as [a|] eqn:E.
  - intros Hr id Hid. by eapply release_spec.
  - intros [= _ <-]. by left.
Qed.

Lemma save_cas clock e u s res s' : sid_ok (SessionID u) -> SessionID e = SessionID u ->
  saveVersionResult st clock e u s = (res, s') ->
  let swapped := session s (SessionID u) = Some e /\ upd s s' (SessionID u) (Some u) in
  match res with Ok true => swapped | Ok false => same s s' | Err _ => same s s' \/ swapped end.
Proof.
  intros Hok Hid. unfold saveVersionResult. destruct has_cas as [cas Hc]. rewrite Hc. by eapply cas_spec.
Qed.

(** What [Resume] did to the session, once [Get] returned [r]. *)
Lemma Resume_got_spec m r sid token conn now rnd clock s res m' out s' :
  sid_ok (SessionID r) ->
  Resume_got hash st m r sid token conn now rnd clock s = (res, m', out, s') ->
  match res with
  | Ok c =>
      exists next, rnd = Ok next /\ now < ExpireAt r /\ hash token = ResumeTokenHash r /\
        c = mkCreated (resumed hash m r conn next now) next /\
        session s (SessionID r) = Some r /\ upd s s' (SessionID r) (Some (CRecord c))
  | Err _ => m' = m /\ out = [] /\
      (same s s' \/
       session s (SessionID r) = Some r /\
       ((ExpireAt r <= now /\ upd s s' (SessionID r) (Some (set_State r StateExpired))) \/
        (now < ExpireAt r /\ hash token = ResumeTokenHash r /\
         exists next, rnd = Ok next /\ upd s s' (SessionID r) (Some (resumed hash m r conn next now)))))
  end.
Proof.
  intros Hok. unfold Resume_got, time_Before. destruct (now <? ExpireAt r) eqn:Et; simpl; breflect.
  - case_bool_decide as Hh; simpl; [|intros [= <- <- <- <-]; split_and!; [done|done|by left]].
    destruct rnd as [next|e]; [|intros [= <- <- <- <-]; split_and!; [done|done|by left]].
    destruct (saveVersionResult _ _ _ _ s) as [rs s1] eqn:Es. apply save_cas in Es; [|done|done].
    destruct rs as [[]|e].
    + destruct Es as [Hs Hu]. destruct (claim _ _ _ _ s1) as [[[pr p]|e] s2] eqn:Ec; apply claim_same in Ec.
      * assert (upd s s2 (SessionID r) (Some (resumed hash m r conn next now))) as Hu2.
        { destruct Hu as [Hu1 Hu2]. split; [by rewrite Ec|]. intros id Hid Hne. rewrite Ec by done. by apply Hu2. }
        destruct p; intros [= <- <- <- <-]; by exists next.
      * intros [= <- <- <- <-]. split_and!; [done|done|]. right. split; [done|]. right. split_and!; [done|done|].
        exists next. split; [done|]. destruct Hu as [Hu1 Hu2]. split; [by rewrite Ec|].
        intros id Hid Hne. rewrite Ec by done. by apply Hu2.
    + intros [= <- <- <- <-]. split_and!; [done|done|by left].
    + intros [= <- <- <- <-]. split_and!; [done|done|].
      destruct Es as [Hs|[Hs Hu]]; [by left|]. right. split; [done|]. right. eauto 6.
  - destruct (saveVersion _ _ _ _ s) as [r1 s1] eqn:Es. intros [= <- <- <- <-]. split_and!; [done|done|].
    unfold saveVersion in Es. destruct (saveVersionResult _ _ _ _ s) as [rs s2] eqn:Ev.
    apply save_cas in Ev; [|done|done].
    assert (s2 = s1) as -> by (by destruct rs; injection Es as _ ->).
    destruct rs as [[]|e]; [destruct Ev as [? ?]; right; eauto|by left|destruct Ev as [?|[? ?]]; [by left|right; eauto]].
Qed.

(** What [disconnect] did to the sessions, once [Get] returned [r]: the session's own
    record at most is replaced, by [reconnecting m r now], and only if it was [r]; a
    release may clear the connection of records that had it. *)
Lemma disconnect_got_spec m r sid conn now epochs clock s res m' out s' :
  sid_ok (SessionID r) ->
  disconnect_got st m r sid conn now epochs clock s = (res, m', out, s') ->
  exists s1, (same s s1 \/ (session s (SessionID r) = Some r /\ upd s s1 (SessionID r) (Some (reconnecting m r now)))) /\
    same_but_released s1 s'.
Proof.
  intros Hok. assert (forall s, same_but_released s s) as Hrefl by (intros t id _; by left).
  unfold disconnect_got. destruct (stale _ _ _); [by intros [= <- <- <- <-]; exists s; split; [left|]|].
  unfold saveVersion. destruct (saveVersionResult _ _ _ _ s) as [rs s1] eqn:Es.
  apply save_cas in Es; [|done|done].
  assert (same s s1 \/ (session s (SessionID r) = Some r /\ upd s s1 (SessionID r) (Some (reconnecting m r now)))) as H1.
  { destruct rs as [[]|e]; [by right|by left|done]. }
  destruct rs as [b|e]; [|by intros [= <- <- <- <-]; exists s1].
  destruct (release st _ _ s1) as [rr s2] eqn:Er. pose proof (release_but _ _ _ _ _ Er) as Hr.
  assert (same_but_released s1 s2) as H2.
  { intros id Hid. destruct (Hr id Hid) as [?|(x & ? & _ & _ & ?)]; [by left|right; eauto]. }
  destruct rr; intros [= <- <- <- <-]; by exists s1.
Qed.

(** Every record is stored under its own id. *)
Definition keyed (s : S) : Prop := forall id r, sid_ok id -> session s id = Some r -> SessionID r = id.

(** What [Resume] does, in every case. It succeeds only on a session that is stored, has
    not expired and whose current token is presented; it then replaces exactly that record
    by one with the next epoch, the new connection and gateway and the hash of a fresh
    token, registers the connection, and announces the resumption last. When it fails it
    registers and announces nothing, and leaves all sessions alone, except that it may
    mark an expired session as such, or fail after its own replacement (then, too, the
    token was right). *)
Theorem resume_spec m sid token conn now rnd clock s res m' out s' :
  sid_ok sid -> keyed s ->
  Resume hash st m sid token conn now rnd clock s = (res, m', out, s') ->
  match res with
  | Ok c => exists r next,
      session s sid = Some r /\ now < ExpireAt r /\ hash token = ResumeTokenHash r /\
      c = mkCreated (resumed hash m r conn next now) next /\ upd s s' sid (Some (CRecord c)) /\
      connections m' = <[conn := sid]> (connections m) /\
      accountConnections m' = <[AccountID r := conn]> (accountConnections m) /\
      suffix (emitLifecycle m LifecycleResumed (CRecord c) now) out
  | Err _ => m' = m /\ out = [] /\
      (same s s' \/
       exists r, session s sid = Some r /\
         ((ExpireAt r <= now /\ upd s s' sid (Some (set_State r StateExpired))) \/
          (now < ExpireAt r /\ hash token = ResumeTokenHash r /\
           exists next, rnd = Ok next /\ upd s s' sid (Some (resumed hash m r conn next now)))))
  end.
Proof.
  intros Hok Hk. unfold Resume. destruct (Get st sid s) as [[r|e] s1] eqn:Eg;
    apply get_spec in Eg as [Hs1 Hr]; try done.
  2:{ intros [= <- <- <- <-]. split_and!; [done|done|by left]. }
  pose proof (Hk _ _ Hok Hr) as Hid. intros Hres.
  assert (forall x, upd s1 s' sid x -> upd s s' sid x) as Hupd.
  { intros x [? Ho]. split; [done|]. intros id Hi Hne. rewrite Ho by done. by apply Hs1. }
  pose proof (Resume_got_spec _ _ _ _ _ _ _ _ _ _ _ _ _ ltac:(by rewrite Hid) Hres) as Hspec. rewrite Hid in Hspec.
  destruct res as [c|e].
  - destruct Hspec as (next & -> & Hnow & Htok & -> & _ & Hu). exists r, next.
    split_and!; try done; [by apply Hupd|..].
    all: unfold Resume_got, time_Before in Hres; rewrite (proj2 (Z.ltb_lt now (ExpireAt r)) Hnow) in Hres;
      rewrite bool_decide_true in Hres by done; simpl in Hres;
      destruct (saveVersionResult _ _ _ _ s1) as [[[]|] s2]; try done;
      destruct (claim _ _ _ _ s2) as [[[pr []]|] s3]; try done; simplify_eq; simpl; try done.
    all: apply suffix_app_r; done.
  - destruct Hspec as (-> & -> & Hspec). split_and!; [done|done|].
    destruct Hspec as [Hs|(Hr1 & Hspec)]; [left; by eapply same_trans|]. right. exists r. split; [done|].
    destruct Hspec as [[? ?]|(? & ? & next & ? & ?)]; [left; auto|right; split_and!; eauto].
Qed.

(** ** Interleavings

    Any number of gateways work on one store. An operation first reads its record; the
    rest of it runs later, from whatever the store then holds. Records may also vanish
    (Redis drops them when their time is up). [log] are the resumptions that succeeded,
    by session and epoch of the record they replaced; [used] are the session ids ever
    generated. *)

Inductive thread :=
  | TResume (m : Manager) (r : Record) (sid token conn : string) (now : Z) (rnd : res string)
  | TDisconnect (m : Manager) (r : Record) (sid conn : string) (now : Z) (epochs : list Z)
  | TExpire (m : Manager) (d : Record) (got : res Record) (now : Z).

Record config := mkConfig {
  store : S;
  threads : list thread;
  log : list (string * Z);
  used : gset string
}.

Definition is_resumed (res : res Created) (r : Record) (l : list (string * Z)) : list (string * Z) :=
  if is_ok res then (SessionID r, ConnectionEpoch r) :: l else l.

Inductive step : config -> config -> Prop :=
  | step_create s T L U m account conn now players sid tok clock res m' out s' :
      sid_ok sid -> sid ∉ U ->
      Create hash st m account conn now players (Ok sid) tok clock s = (res, m', out, s') ->
      step (mkConfig s T L U) (mkConfig s' T L ({[sid]} ∪ U))
  | step_get_resume s T L U m sid token conn now rnd r s' :
      sid_ok sid -> Get st sid s = (Ok r, s') ->
      step (mkConfig s T L U) (mkConfig s' (TResume m r sid token conn now rnd :: T) L U)
  | step_get_disconnect s T L U m sid conn now epochs r s' :
      sid_ok sid -> Get st sid s = (Ok r, s') ->
      step (mkConfig s T L U) (mkConfig s' (TDisconnect m r sid conn now epochs :: T) L U)
  | step_get_expire s T L U m d now got s' :
      sid_ok (SessionID d) -> Get st (SessionID d) s = (got, s') ->
      step (mkConfig s T L U) (mkConfig s' (TExpire m d got now :: T) L U)
  | step_resume s T1 T2 L U m r sid token conn now rnd clock res m' out s' :
      ConnectionEpoch r + 1 < 2 ^ 64 -> 0 <= ConnectionEpoch r ->
      Resume_got hash st m r sid token conn now rnd clock s = (res, m', out, s') ->
      step (mkConfig s (T1 ++ TResume m r sid token conn now rnd :: T2) L U)
           (mkConfig s' (T1 ++ T2) (is_resumed res r L) U)
  | step_disconnect s T1 T2 L U m r sid conn now epochs clock res m' out s' :
      disconnect_got st m r sid conn now epochs clock s = (res, m', out, s') ->
      step (mkConfig s (T1 ++ TDisconnect m r sid conn now epochs :: T2) L U) (mkConfig s' (T1 ++ T2) L U)
  | step_expire s T1 T2 L U m d got now out s' :
      expire_got st m d got now s = (out, s') ->
      step (mkConfig s (T1 ++ TExpire m d got now :: T2) L U) (mkConfig s' (T1 ++ T2) L U)
  | step_evict s s' T L U sid :
      sid_ok sid -> upd s s' sid None -> step (mkConfig s T L U) (mkConfig s' T L U).

Definition thread_ok (t : thread) : Prop :=
  match t with
  | TResume _ r _ _ _ _ _ => sid_ok (SessionID r)
  | TDisconnect _ r _ _ _ _ => sid_ok (SessionID r)
  | TExpire _ d _ _ => sid_ok (SessionID d)
  end.

Record config_ok (c : config) : Prop := {
  ok_keyed : keyed (store c);
  ok_used id r : sid_ok id -> session (store c) id = Some r -> id ∈ used c;
  ok_threads : Forall thread_ok (threads c);
  ok_log id ep : (id, ep) ∈ log c -> sid_ok id /\ id ∈ used c /\
    forall r, session (store c) id = Some r -> ep < ConnectionEpoch r;
  ok_once : NoDup (log c)
}.

(** No session appears, none goes back to an earlier epoch. *)
Definition evolves (s s' : S) : Prop := forall id r', sid_ok id -> session s' id = Some r' ->
  exists r, session s id = Some r /\ SessionID r' = SessionID r /\ ConnectionEpoch r <= ConnectionEpoch r'.

Lemma evolves_trans s1 s2 s3 : evolves s1 s2 -> evolves s2 s3 -> evolves s1 s3.
Proof.
  intros Ha Hb id r3 Hid H3. destruct (Hb id r3 Hid H3) as (r2 & Hr2 & ? & ?).
  destruct (Ha id r2 Hid Hr2) as (r1 & ? & ? & ?). exists r1. split_and!; [done|congruence|lia].
Qed.

Lemma evolves_same s s' : same s s' -> evolves s s'.
Proof. intros Hs id r' Hid Hr. rewrite Hs in Hr by done. by exists r'. Qed.

Lemma evolves_released s s' : same_but_released s s' -> evolves s s'.
Proof.
  intros Hs id r' Hid Hr. destruct (Hs id Hid) as [E|(r & Er & E)]; [exists r'; split; [congruence|done]|].
  exists r. rewrite E in Hr. injection Hr as <-. split; [done|done].
Qed.

Lemma evolves_upd s s' sid r u : session s sid = Some r -> upd s s' sid (Some u) ->
  SessionID u = SessionID r -> ConnectionEpoch r <= ConnectionEpoch u -> evolves s s'.
Proof.
  intros Hr [Hu Ho] ?? id r' Hid Hr'. destruct (decide (id = sid)) as [->|Hne].
  - exists r. rewrite Hu in Hr'. by injection Hr' as <-.
  - rewrite Ho in Hr' by done. by exists r'.
Qed.

Lemma evolves_gone s s' sid : upd s s' sid None -> evolves s s'.
Proof.
  intros [Hu Ho] id r' Hid Hr'. destruct (decide (id = sid)) as [->|Hne]; [congruence|].
  rewrite Ho in Hr' by done. by exists r'.
Qed.

Lemma expire_evolves m d got now s out s' : sid_ok (SessionID d) ->
  expire_got st m d got now s = (out, s') -> evolves s s'.
Proof.
  intros Hok. unfold expire_got. destruct got as [r|e].
  2:{ destruct (errors_Is _ _); intros [= <- <-]; by apply evolves_same. }
  destruct (_ || _); [intros [= <- <-]; by apply evolves_same|].
  destruct (Delete st _ s) as [rd s1] eqn:Ed. apply delete_spec in Ed; [|done].
  destruct rd as [[]|e].
  - destruct (release st _ _ s1) as [rr s2] eqn:Er. intros [= <- <-].
    eapply evolves_trans; [by eapply evolves_gone|]. apply evolves_released. intros id Hid.
    destruct (release_but _ _ _ _ _ Er id Hid) as [?|(x & ? & _ & _ & ?)]; [by left|right; eauto].
  - intros [= <- <-]. destruct Ed as [?|?]; [by apply evolves_same|by eapply evolves_gone].
Qed.

Lemma disconnect_evolves m r sid conn now epochs clock s res m' out s' : sid_ok (SessionID r) ->
  disconnect_got st m r sid conn now epochs clock s = (res, m', out, s') -> evolves s s'.
Proof.
  intros Hok Hd. apply disconnect_got_spec in Hd as (s1 & Hs1 & Hrel); [|done].
  eapply evolves_trans; [|by apply evolves_released].
  destruct Hs1 as [?|[Hr Hu]]; [by apply evolves_same|]. by eapply evolves_upd.
Qed.

Lemma resumed_epoch m r conn next now : ConnectionEpoch r + 1 < 2 ^ 64 -> 0 <= ConnectionEpoch r ->
  ConnectionEpoch (resumed hash m r conn next now) = ConnectionEpoch r + 1.
Proof. intros. simpl. apply uint64_id. unfold in_uint64. lia. Qed.

Lemma resume_evolves m r sid token conn now rnd clock s res m' out s' :
  sid_ok (SessionID r) -> ConnectionEpoch r + 1 < 2 ^ 64 -> 0 <= ConnectionEpoch r ->
  Resume_got hash st m r sid token conn now rnd clock s = (res, m', out, s') ->
  evolves s s' /\
  (is_ok res = true -> session s (SessionID r) = Some r /\
     forall r', session s' (SessionID r) = Some r' -> ConnectionEpoch r < ConnectionEpoch r').
Proof.
  intros Hok Hmax Hmin Hr. apply Resume_got_spec in Hr; [|done]. destruct res as [c|e].
  - destruct Hr as (next & -> & _ & _ & -> & Hs & Hu). split.
    + eapply evolves_upd; [done..|]. simpl CRecord. rewrite resumed_epoch by done. lia.
    + intros _. split; [done|]. intros r' Hr'. destruct Hu as [Hu _]. rewrite Hu in Hr'. injection Hr' as <-.
      simpl CRecord. rewrite resumed_epoch by done. lia.
  - split; [|done]. destruct Hr as (_ & _ & [?|[Hs [[_ Hu]|(_ & _ & next & _ & Hu)]]]).
    + by apply evolves_same.
    + by eapply evolves_upd.
    + eapply evolves_upd; [done..|]. rewrite resumed_epoch by done. lia.
Qed.

Lemma evolves_ok s s' T T' L U :
  evolves s s' -> Forall thread_ok T' -> config_ok (mkConfig s T L U) -> config_ok (mkConfig s' T' L U).
Proof.
  intros Hev HT [Hk Hu _ Hl Ho]. split; simpl in *; try done.
  - intros id r' Hid Hr'. destruct (Hev id r' Hid Hr') as (r & Hr & E & _). rewrite E. by apply Hk.
  - intros id r' Hid Hr'. destruct (Hev id r' Hid Hr') as (r & Hr & _). eauto.
  - intros id ep Hin. destruct (Hl id ep Hin) as (Hid & ? & Hlt). split_and!; [done|done|].
    intros r' Hr'. destruct (Hev id r' Hid Hr') as (r & Hr & _ & ?). specialize (Hlt r Hr). lia.
Qed.

Lemma create_cases m account conn now players sid tok clock s res m' out s' :
  sid_ok sid -> Create hash st m account conn now players (Ok sid) tok clock s = (res, m', out, s') ->
  same s s' \/ exists r, SessionID r = sid /\ upd s s' sid (Some r).
Proof.
  intros Hsid Hc. unfold Create in Hc. destruct tok as [tok|e]; [|simplify_eq; by left].
  destruct (Session.Create _ _ _ s) as [rc s1] eqn:Ec. apply create_spec in Ec; [|done].
  simpl SessionID in Ec.
  assert (same s s1 \/ exists r, SessionID r = sid /\ upd s s1 sid (Some r)) as Hcase.
  { destruct rc as [[]|e]; [destruct Ec as [_ ?]; right; eexists; split; [|done]; done|].
    destruct Ec as [?|[_ ?]]; [by left|right; eexists; split; [|done]; done]. }
  destruct rc as [[]|e]; [|by simplify_eq].
  assert (same s1 s') as Hs.
  { destruct (claim _ _ _ _ s1) as [[[pr p]|e] s2] eqn:Ecl; apply claim_same in Ecl; destruct p || idtac; by simplify_eq. }
  destruct Hcase as [?|(r & ? & Hx & Hy)]; [left; by eapply same_trans|]. right. exists r. split; [done|].
  split; [by rewrite Hs|]. intros id Hid Hne. rewrite Hs by done. by apply Hy.
Qed.

Lemma create_ok m account conn now players sid tok clock s T L U res m' out s' :
  sid_ok sid -> sid ∉ U ->
  Create hash st m account conn now players (Ok sid) tok clock s = (res, m', out, s') ->
  config_ok (mkConfig s T L U) -> config_ok (mkConfig s' T L ({[sid]} ∪ U)).
Proof.
  intros Hsid Hfresh Hc [Hk Hu Ht Hl Ho]. simpl in *.
  pose proof (create_cases _ _ _ _ _ _ _ _ _ _ _ _ _ Hsid Hc) as Hcase.
  destruct Hcase as [Hs|(r & Hid & Hx & Hy)].
  { assert (config_ok (mkConfig s' T L U)) as [? Hu' ? Hl' ?].
    { eapply evolves_ok; [by apply evolves_same|done|]. by split. }
    split; simpl in *; try done; [intros; by apply elem_of_union_r, (Hu' _ r)|].
    intros id ep Hin. destruct (Hl' id ep Hin) as (? & ? & ?). split_and!; [done|set_solver|done]. }
  split; simpl; try done.
  - intros id r' Hidok Hr'. destruct (decide (id = sid)) as [->|Hne]; [congruence|]. rewrite Hy in Hr' by done. by apply Hk.
  - intros id r' Hidok Hr'. destruct (decide (id = sid)) as [->|Hne]; [set_solver|]. rewrite Hy in Hr' by done.
    apply elem_of_union_r. by eapply Hu.
  - intros id ep Hin. destruct (Hl id ep Hin) as (? & ? & Hlt). split_and!; [done|set_solver|].
    intros r' Hr'. rewrite Hy in Hr'; [by apply Hlt|done|]. intros ->. done.
Qed.

(** What a successful [Create] and a successful [Resume] leave in the store. *)
Lemma Create_done m account conn now players sid tok clock s c m' out s' :
  sid_ok sid -> Create hash st m account conn now players (Ok sid) tok clock s = (Ok c, m', out, s') ->
  exists token, tok = Ok token /\
    c = mkCreated (new_record hash m sid token account conn (default "" (head players)) now) token /\
    session s sid = None /\ upd s s' sid (Some (CRecord c)).
Proof.
  intros Hsid Hc. unfold Create in Hc. destruct tok as [token|e]; [|done]. exists token. split; [done|].
  destruct (Session.Create _ _ _ s) as [[[]|e] s1] eqn:Ec; apply create_spec in Ec; try done. simpl in Ec.
  destruct (claim _ _ _ _ s1) as [[[pr p]|e] s2] eqn:Ecl; apply claim_same in Ecl; [|done].
  destruct Ec as [Hnone [Hu Ho]]. destruct p; simplify_eq; simpl.
  all: split_and!; [done|done|]. all: split; [by rewrite Ecl|]. all: intros id Hid Hne; rewrite Ecl by done; by apply Ho.
Qed.

Lemma Resume_done m sid token conn now rnd clock s c m' out s' :
  sid_ok sid -> keyed s -> Resume hash st m sid token conn now rnd clock s = (Ok c, m', out, s') ->
  exists r next, rnd = Ok next /\ session s sid = Some r /\ now < ExpireAt r /\ hash token = ResumeTokenHash r /\
    c = mkCreated (resumed hash m r conn next now) next /\ SessionID r = sid /\ upd s s' sid (Some (CRecord c)).
Proof.
  intros Hok Hk. unfold Resume. destruct (Get st sid s) as [[r|e] s1] eqn:Eg; apply get_spec in Eg as [Hs1 Hr]; try done.
  pose proof (Hk _ _ Hok Hr) as Hid. intros Hres. apply Resume_got_spec in Hres; [|by rewrite Hid].
  destruct Hres as (next & -> & Hnow & Htok & -> & _ & [Hu Ho]). rewrite Hid in *. exists r, next.
  split_and!; try done. split; [done|]. intros id Hi Hne. rewrite Ho by done. by apply Hs1.
Qed.

Lemma step_ok c c' : step c c' -> config_ok c -> config_ok c'.
Proof.
  intros Hstep Hc. pose proof (ok_threads c Hc) as HT. pose proof (ok_keyed c Hc) as Hk.
  assert (forall s id r s', sid_ok id -> Get st id s = (Ok r, s') -> s = store c -> sid_ok (SessionID r) /\ evolves s s') as Hget.
  { intros s id r s' Hid Hg ->. apply get_spec in Hg as [Hs Hr]; [|done]. rewrite (Hk id r) by done.
    split; [done|]. by apply evolves_same. }
  destruct Hstep; simpl in HT.
  - by eapply create_ok.
  - destruct (Hget _ _ _ _ H H0 eq_refl). eapply evolves_ok; [done| |done]. by constructor.
  - destruct (Hget _ _ _ _ H H0 eq_refl). eapply evolves_ok; [done| |done]. by constructor.
  - apply get_spec in H0 as [Hs _]; [|done]. eapply evolves_ok; [by apply evolves_same| |done]. by constructor.
  - apply Forall_app in HT as [HT1 [Hr HT2]%Forall_cons].
    apply resume_evolves in H1 as [Hev Hres]; [|done..].
    assert (config_ok (mkConfig s' (T1 ++ T2) L U)) as Hc'.
    { eapply evolves_ok; [done| |done]. by apply Forall_app. }
    unfold is_resumed. destruct (is_ok res) eqn:Eok; [|done]. destruct (Hres eq_refl) as [Hs Hlt].
    destruct Hc as [_ Hu _ Hl _], Hc' as [? ? ? Hl' Ho']. simpl in *. split; simpl; try done.
    + intros id ep [E|Hin]%elem_of_cons; [|by apply Hl']. injection E as -> ->. split_and!; [done|by eapply Hu|done].
    + constructor; [|done]. intros Hin. destruct (Hl _ _ Hin) as (_ & _ & Hx). specialize (Hx _ Hs). lia.
  - apply Forall_app in HT as [HT1 [Hr HT2]%Forall_cons].
    eapply evolves_ok; [by eapply disconnect_evolves| |done]. by apply Forall_app.
  - apply Forall_app in HT as [HT1 [Hr HT2]%Forall_cons].
    eapply evolves_ok; [by eapply expire_evolves| |done]. by apply Forall_app.
  - eapply evolves_ok; [by eapply evolves_gone|done|done].
Qed.


(** ** Connections and epochs

    A successful [Create] or [Resume] is followed by [BindSession]: [bindings] are the
    connections with the session and the epoch they were bound to. *)
Notation bindings := (list (string * (string * Z))).

Inductive bind_step : config * bindings -> config * bindings -> Prop :=
  | b_create s T L U B m account conn now players sid tok clock c m' out s' :
      sid_ok sid -> sid ∉ U ->
      Create hash st m account conn now players (Ok sid) tok clock s = (Ok c, m', out, s') ->
      bind_step (mkConfig s T L U, B)
        (mkConfig s' T L ({[sid]} ∪ U), (conn, (SessionID (CRecord c), ConnectionEpoch (CRecord c))) :: B)
  | b_resume s T1 T2 L U B m r sid token conn now rnd clock c m' out s' :
      ConnectionEpoch r + 1 < 2 ^ 64 -> 0 <= ConnectionEpoch r ->
      Resume_got hash st m r sid token conn now rnd clock s = (Ok c, m', out, s') ->
      bind_step (mkConfig s (T1 ++ TResume m r sid token conn now rnd :: T2) L U, B)
        (mkConfig s' (T1 ++ T2) (is_resumed (Ok c) r L) U, (conn, (SessionID (CRecord c), ConnectionEpoch (CRecord c))) :: B)
  | b_other x x' B : step x x' -> bind_step (x, B) (x', B).

(** Known sessions do not go back to earlier epochs. *)
Lemma step_monotone c c' : step c c' -> config_ok c -> used c ⊆ used c' /\
  forall id r', sid_ok id -> id ∈ used c -> session (store c') id = Some r' ->
    exists r, session (store c) id = Some r /\ ConnectionEpoch r <= ConnectionEpoch r'.
Proof.
  intros Hstep Hc. pose proof (ok_threads c Hc) as HT. pose proof (ok_keyed c Hc) as Hk.
  assert (forall s s', evolves s s' -> forall id r', sid_ok id -> session s' id = Some r' ->
    exists r, session s id = Some r /\ ConnectionEpoch r <= ConnectionEpoch r') as Hev.
  { intros s s' Hx id r' Hid Hr'. destruct (Hx id r' Hid Hr') as (r & ? & _ & ?). eauto. }
  assert (forall s id res s', sid_ok id -> Get st id s = (res, s') -> evolves s s') as Hget.
  { intros s id res s' Hid Hg. apply get_spec in Hg as [Hs _]; [|done]. by apply evolves_same. }
  destruct Hstep as [s T L U m account conn now players sid tok clock res m' out s' Hsid Hfresh Hcr| | | | | | |];
    simpl in *; (split; [set_solver|]); intros id x Hid Hin Hx;
    try (apply Forall_app in HT as [_ [HT _]%Forall_cons]).
  - destruct (create_cases _ _ _ _ _ _ _ _ _ _ _ _ _ Hsid Hcr) as [Hs|(r & _ & _ & Ho)].
    + rewrite Hs in Hx by done. by exists x.
    + rewrite Ho in Hx; [by exists x|done|]. intros ->. done.
  - eapply Hev; [|done|done]. eapply Hget; [|eassumption]; done.
  - eapply Hev; [|done|done]. eapply Hget; [|eassumption]; done.
  - eapply Hev; [|done|done]. eapply Hget; [|eassumption]; done.
  - eapply Hev; [|done|done]. by eapply resume_evolves.
  - eapply Hev; [|done|done]. by eapply disconnect_evolves.
  - eapply Hev; [|done|done]. by eapply expire_evolves.
  - eapply Hev; [|done|done]. by eapply evolves_gone.
Qed.

Definition bind_ok (x : config * bindings) : Prop :=
  config_ok x.1 /\ NoDup x.2.*2 /\
  forall id ep, (id, ep) ∈ x.2.*2 -> sid_ok id /\ id ∈ used x.1 /\
    forall r, session (store x.1) id = Some r -> ep <= ConnectionEpoch r.

(** A step of the configuration that leaves the bindings, and one that adds a binding whose
    epoch is that of the stored record and above those of earlier bindings. *)
Lemma bind_ok_step c c' B : step c c' -> bind_ok (c, B) -> bind_ok (c', B).
Proof.
  intros Hs (Hc & Hnd & Hb). destruct (step_monotone c c' Hs Hc) as [Hu Hmono]. simpl in *.
  split_and!; [by eapply step_ok|done|]. intros id ep Hin. destruct (Hb id ep Hin) as (Hid & Hused & Hle).
  split_and!; [done|set_solver|]. intros r' Hr'. destruct (Hmono id r' Hid Hused Hr') as (r & Hr & ?).
  specialize (Hle r Hr). lia.
Qed.

Lemma bind_ok_add c B conn id ep : bind_ok (c, B) -> sid_ok id -> id ∈ used c ->
  (forall r, session (store c) id = Some r -> ConnectionEpoch r = ep) ->
  (forall e, (id, e) ∈ B.*2 -> e < ep) -> bind_ok (c, (conn, (id, ep)) :: B).
Proof.
  intros (Hc & Hnd & Hb) Hid Hused Hep Hlt. simpl in *. split_and!; [done| |].
  - apply NoDup_cons. split; [|done]. intros Hin. specialize (Hlt ep Hin). lia.
  - intros id' e [[= -> ->]|Hin]%elem_of_cons; [|by apply Hb]. split_and!; [done|done|]. intros r Hr. specialize (Hep r Hr). lia.
Qed.

Lemma bind_step_ok x y : bind_step x y -> bind_ok x -> bind_ok y.
Proof.
  intros Hs Hok. destruct Hs as [s T L U B m account conn now players sid tok clock c m' out s' Hsid Hfresh Hcr
    |s T1 T2 L U B m r sid token conn now rnd clock c m' out s' Hmax Hmin Hr|x x' B Hs]; [..|by eapply bind_ok_step].
  - pose proof (Create_done _ _ _ _ _ _ _ _ _ _ _ _ _ Hsid Hcr) as (tk & _ & -> & _ & Hu & _).
    assert (step (mkConfig s T L U) (mkConfig s' T L ({[sid]} ∪ U))) as Hst by by eapply step_create.
    apply bind_ok_add; [by eapply bind_ok_step|done|simpl; set_solver| |].
    + simpl. intros r Hr. rewrite Hu in Hr. by injection Hr as <-.
    + intros e Hin. destruct Hok as (_ & _ & Hb). destruct (Hb _ _ Hin) as (_ & Hx & _). done.
  - assert (step (mkConfig s (T1 ++ TResume m r sid token conn now rnd :: T2) L U)
              (mkConfig s' (T1 ++ T2) (is_resumed (Ok c) r L) U)) as Hst by by eapply step_resume.
    pose proof Hok as (Hc & _ & Hb). simpl in Hc, Hb. pose proof (ok_threads _ Hc) as HT. simpl in HT.
    apply Forall_app in HT as [_ [Hid _]%Forall_cons]. simpl in Hid.
    pose proof (Resume_got_spec _ _ _ _ _ _ _ _ _ _ _ _ _ Hid Hr) as (next & _ & _ & _ & -> & Hcur & Hu & _).
    simpl CRecord in *. simpl SessionID in *. rewrite resumed_epoch by done.
    apply bind_ok_add; [by eapply bind_ok_step|done|by eapply (ok_used _ Hc)| |].
    + simpl. intros x Hx. rewrite Hu in Hx. injection Hx as <-. by apply resumed_epoch.
    + intros e Hin. destruct (Hb _ _ Hin) as (_ & _ & Hle). specialize (Hle r Hcur). lia.
Qed.

(** C15 No two connections ever share a session and an epoch. However the logins, the
    resumptions, the disconnects and the expiries of any number of gateways interleave on
    one store, every binding of a connection to a session has an epoch of its own, and no
    binding is ahead of the epoch the store has for its session: so a preempt notice or a
    disconnect that names a session and an epoch means one connection. *)
Theorem one_connection_per_epoch s0 c B :
  (forall id, sid_ok id -> session s0 id = None) ->
  rtc bind_step (mkConfig s0 [] [] ∅, []) (c, B) ->
  NoDup B.*2 /\
  forall conn id ep r, (conn, (id, ep)) ∈ B -> session (store c) id = Some r -> ep <= ConnectionEpoch r.
Proof.
  intros Hempty Hrun.
  assert (bind_ok (mkConfig s0 [] [] ∅, [])) as Hinit.
  { split_and!; [|constructor|intros id ep Hx; by apply not_elem_of_nil in Hx].
    split; simpl; try constructor; try (intros id r Hid Hr; by rewrite Hempty in Hr);
      try (intros id ep Hx; by apply not_elem_of_nil in Hx).
    all: by apply not_elem_of_nil in H. }
  assert (bind_ok (c, B)) as (_ & Hnd & Hb).
  { clear -Hrun Hinit StoreLaws0 has_cas. induction Hrun; [done|]. eauto using bind_step_ok. }
  split; [done|]. intros conn id ep r Hin. apply Hb. apply list_elem_of_fmap. by exists (conn, (id, ep)).
Qed.

(** A disconnect that names a connection or an epoch that is no longer the session's
    changes no session, keeps the manager's maps and announces nothing: a connection that
    was replaced cannot take its successor down. *)
Theorem stale_disconnect_is_ignored m sid conn now epochs clock s r res m' out s' :
  sid_ok sid -> session s sid = Some r -> stale r conn epochs = true ->
  disconnect st m sid conn now epochs clock s = (res, m', out, s') ->
  m' = m /\ out = [] /\ same s s'.
Proof.
  intros Hok Hs Hstale. unfold disconnect. destruct (Get st sid s) as [[r1|e] s1] eqn:Eg;
    apply get_spec in Eg as [Hs1 Hr]; try done.
  - assert (r1 = r) as -> by congruence. unfold disconnect_got. rewrite Hstale. by intros [= <- <- <- <-].
  - by intros [= <- <- <- <-].
Qed.

(** An expiry timer removes a session only if the session is still the one that was
    disconnected: it is waiting for a reconnection, in the same epoch, and its time is up.
    In every other case no session changes. *)
Theorem expire_spec m d now s out s' :
  sid_ok (SessionID d) -> expire st m d now s = (out, s') ->
  (exists r, session s (SessionID d) = Some r /\ RState r = StateReconnecting /\
     ConnectionEpoch r = ConnectionEpoch d /\ ExpireAt r <= now) \/
  same s s'.
Proof.
  intros Hok. unfold expire. destruct (Get st (SessionID d) s) as [got s1] eqn:Eg.
  apply get_spec in Eg as [Hs1 Hr]; [|done]. unfold expire_got, time_Before.
  destruct got as [r|e]; [|destruct (errors_Is _ _); intros [= _ <-]; by right].
  destruct (_ || _) eqn:E; [intros [= _ <-]; by right|]. intros _. left. exists r.
  apply orb_false_iff in E as [[E1 E2]%orb_false_iff E3]. breflect. split_and!; try done.
Qed.

End correctness.

(** ** Runs on a memory store *)

Section runs.
#[local] Existing Instance canonical_range.

Definition sha (s : string) : string := "#" +:+ s.
Notation st := memory_store.

Definition gateway : Manager := SetLifecycleHandler (SetPreemptHandler (NewManager "gw" 1000 100) true) true.
Definition opened := Create sha st gateway "acc" "c1" 0 ["p1"] (Ok "sid") (Ok "t1") 0 ∅.
Definition m1 : Manager := opened.1.1.2.
Definition s1 : MemoryStore := opened.2.
Definition r1 : Record := new_record sha gateway "sid" "t1" "acc" "c1" "p1" 0.
Definition back := Resume sha st m1 "sid" "t1" "c2" 10 (Ok "t2") 10 s1.
Definition m2 : Manager := back.1.1.2.
Definition s2 : MemoryStore := back.2.
Definition r2 : Record := resumed sha m1 r1 "c2" "t2" 10.

Lemma memory_has_cas : is_Some (CompareAndSwap st).
Proof. by eexists. Qed.

Lemma any_sid id : sid_ok (S := MemoryStore) id.
Proof. exact I. Qed.

Lemma s1_lookup : s1 !! "sid" = Some r1.
Proof. vm_compute. reflexivity. Qed.
Lemma s1_keyed : keyed s1.
Proof.
  intros id r _ Hr. change (s1 !! id = Some r) in Hr.
  destruct (decide (id = "sid")) as [->|Hne]; [rewrite s1_lookup in Hr; injection Hr as <-; reflexivity|].
  assert (s1 = {["sid" := r1]}) as E by (vm_compute; reflexivity).
  rewrite E, lookup_singleton_ne in Hr by congruence. discriminate Hr.
Qed.

Lemma back_run : back = (Ok (mkCreated r2 "t2"), m2, back.1.2, s2).
Proof. vm_compute. reflexivity. Qed.

(** The client comes back with its token and becomes epoch 2. *)
Lemma resume_spec_witness : session s1 "sid" = Some r1 /\ session s2 "sid" = Some r2 /\ ConnectionEpoch r2 = 2.
Proof.
  destruct (resume_spec sha st memory_has_cas m1 "sid" "t1" "c2" 10 (Ok "t2") 10 s1 (Ok (mkCreated r2 "t2")) m2 back.1.2 s2
    (any_sid _) s1_keyed back_run) as (r & next & Hr & _ & _ & _ & [Hu _] & _).
  split_and!; [exact s1_lookup|exact Hu|vm_compute; reflexivity].
Defined.

(** Two resumptions that read the same record: the second one finds it changed. *)
Definition raced : config (S := MemoryStore) := mkConfig s2 [] [("sid", 1)] {["sid"]}.

Lemma raced_reached : rtc (step sha st) (mkConfig ∅ [] [] ∅) raced.
Proof.
  eapply rtc_l; [eapply (step_create _ _ _ _ _ _ gateway "acc" "c1" 0 ["p1"] "sid" (Ok "t1") 0); [done|set_solver|];
    vm_compute; reflexivity|].
  eapply rtc_l; [eapply (step_get_resume _ _ _ _ _ _ m1 "sid" "t1" "c3" 10 (Ok "t3")); [done|]; vm_compute; reflexivity|].
  eapply rtc_l; [eapply (step_get_resume _ _ _ _ _ _ m1 "sid" "t1" "c2" 10 (Ok "t2")); [done|]; vm_compute; reflexivity|].
  eapply rtc_l; [eapply (step_resume _ _ _ [] _ _ _ _ _ _ _ _ _ _ 10); [vm_compute; reflexivity|vm_compute; discriminate|];
    vm_compute; reflexivity|].
  eapply rtc_l; [eapply (step_resume _ _ _ [] _ _ _ _ _ _ _ _ _ _ 10); [vm_compute; reflexivity|vm_compute; discriminate|];
    vm_compute; reflexivity|].
  replace raced with (mkConfig (S := MemoryStore) s2 [] [("sid", 1)] ({["sid"]} ∪ ∅)); [vm_compute; apply rtc_refl|].
  unfold raced. f_equal.
Qed.


(** A login and a resumption: two bindings of one session. *)
Lemma one_connection_per_epoch_witness :
  NoDup [("sid", 2); ("sid", 1)] /\ ConnectionEpoch r2 = 2.
Proof.
  assert (rtc (bind_step sha st) (mkConfig ∅ [] [] ∅, [])
            (mkConfig s2 [] [("sid", 1)] ({["sid"]} ∪ ∅), [("c2", ("sid", 2)); ("c1", ("sid", 1))])) as Hrun.
  { eapply rtc_l; [eapply (b_create _ _ _ _ _ _ _ gateway "acc" "c1" 0 ["p1"] "sid" (Ok "t1") 0); [done|set_solver|];
      vm_compute; reflexivity|].
    eapply rtc_l; [apply b_other, (step_get_resume _ _ _ _ _ _ m1 "sid" "t1" "c2" 10 (Ok "t2")); [done|]; vm_compute; reflexivity|].
    eapply rtc_l; [eapply (b_resume _ _ _ [] _ _ _ _ _ _ _ _ _ _ _ 10); [vm_compute; reflexivity|vm_compute; discriminate|];
      vm_compute; reflexivity|].
    vm_compute. apply rtc_refl. }
  destruct (one_connection_per_epoch sha st memory_has_cas ∅ _ _ (fun id _ => lookup_empty id) Hrun) as [Hn _].
  split; [exact Hn|reflexivity].
Defined.

(** The first connection closes after the session moved to the second. *)
Definition late := disconnect st m2 "sid" "c1" 20 [1] 20 s2.

Lemma stale_disconnect_is_ignored_witness : late = (Ok tt, m2, [], s2) /\ same s2 late.2.
Proof.
  split; [vm_compute; reflexivity|].
  apply (stale_disconnect_is_ignored st m2 "sid" "c1" 20 [1] 20 s2 r2 (Ok tt) late.1.1.2 late.1.2 late.2 (any_sid _)).
  all: vm_compute; reflexivity.
Defined.

(** The second connection closes and nobody comes back. *)
Definition closed := disconnect st m2 "sid" "c2" 20 [2] 20 s2.

Lemma expire_spec_witness :
  (expire st m2 r2 150 closed.2).2 !! "sid" = None /\ same closed.2 (expire st m2 r2 110 closed.2).2.
Proof.
  split; [vm_compute; reflexivity|].
  destruct (expire_spec st m2 r2 110 closed.2 (expire st m2 r2 110 closed.2).1 (expire st m2 r2 110 closed.2).2
    (any_sid _) (surjective_pairing _)) as [(r & Hr & _ & _ & Hx)|Hs]; [|exact Hs].
  exfalso. vm_compute in Hr. injection Hr as <-. vm_compute in Hx. by apply Hx.
Defined.

(** ** Where the manager falls short *)

(** A disconnect that loses its compare-and-swap acts as if it had won: the session was
    resumed on a second connection after [Get], the stored record is untouched, yet the
    second connection is dropped from the maps, the session is announced as disconnected
    and an expiry timer is started. *)
Theorem lost_disconnect_is_announced :
  let '(res, m3, out, s3) := disconnect_got st m2 r1 "sid" "c1" 20 [1] 20 s2 in
  res = Ok tt /\ s3 = s2 /\ s2 !! "sid" = Some r2 /\ ConnectionID r2 = "c2" /\
  connections m2 !! "c2" = Some "sid" /\ connections m3 !! "c2" = None /\
  accountConnections m2 !! "acc" = Some "c2" /\ accountConnections m3 !! "acc" = None /\
  out = [Lifecycle (event LifecycleDisconnected r1 20); Expiry r1 120].
Proof. vm_compute. split_and!; reflexivity. Qed.

(** An expiry timer can delete a session that was just resumed: it reads the record at
    its expiry time, a resumption that started a moment before replaces it, and the timer
    then deletes what it finds under the id. The client was told that its session lives. *)
Theorem expiry_deletes_resumed_session :
  let waiting := reconnecting m2 r2 20 in
  let read := Get st "sid" closed.2 in
  let '(res, _, _, s4) := Resume_got sha st m2 waiting "sid" "t2" "c3" 119 (Ok "t3") 119 read.2 in
  let '(_, s5) := expire_got st m2 r2 read.1 120 s4 in
  read.1 = Ok waiting /\ is_ok res = true /\ is_Some (s4 !! "sid") /\ s5 !! "sid" = None.
Proof. vm_compute. split_and!; try reflexivity. by eexists. Qed.

End runs.

End SessionManager.
