(* ===== verification/Streaming.v ===== *)
(** * Streams between services: [common/streaming] (router, connection, server, client)

    A world [W] is what the handlers work on ([app]), the envelopes put on the wire of each
    connection, and the connections that were closed. [transport] is what the gRPC stream
    says to a send. A handler returns its reply's message id and, unless the message is
    nil, what [proto.Marshal] makes of it. *)

From S2P Require Import Prelude Proto.
Import Proto.

Module Streaming.

Definition ErrConnectionClosed := Sentinel "streaming.ErrConnectionClosed" "stream connection closed".
Definition ErrRequestTimeout := Sentinel "streaming.ErrRequestTimeout" "stream request timed out".

Record Peer := mkPeer {
  ServiceType : Z;
  InstanceID : string;
  Connection : Z
}.

Section router.
Context {A : Type}.

Record world := mkWorld {
  app : A;
  wire : list (Z * InternalEnvelope);
  closed : gset Z
}.

Definition put_wire (w : world) (conn : Z) (e : InternalEnvelope) : world :=
  mkWorld (app w) (wire w ++ [(conn, e)]) (closed w).
Definition set_app (w : world) (a : A) : world := mkWorld a (wire w) (closed w).

Definition reply : Type := Z * option (res string).
Definition handler : Type := InternalEnvelope -> prog A (option reply).

(** A handler that answers with messages of type [M]. *)
Definition MessageHandlerFunc {M} `{ProtoMessage M} (f : InternalEnvelope -> prog A (MessageResult M)) : handler :=
  fun e a => match f e a with
             | (Err err, a') => (Err err, a')
             | (Ok m, a') => (Ok (Some (MessageID m, Some (Marshal (Message m)))), a')
             end.

Context (transport : Z -> InternalEnvelope -> option error).

Definition Send (conn : Z) (e : InternalEnvelope) : prog world unit := fun w =>
  if bool_decide (conn ∈ closed w) then (Err ErrConnectionClosed, w)
  else match transport conn e with
       | Some err => (Err err, w)
       | None => (Ok tt, put_wire w conn e)
       end.

(** [Connection.Close] *)
Definition Close (conn : Z) (w : world) : world := mkWorld (app w) (wire w) ({[conn]} ∪ closed w).

Notation Router := (gmap Z (gmap Z handler)).
Definition NewRouter : Router := ∅.

Definition Register (r : Router) (service messageID : Z) (h : handler) : Router :=
  <[service := <[messageID := h]> (default ∅ (r !! service))]> r.

Definition lookup_handler (r : Router) (service messageID : Z) : option handler :=
  r !! service ≫= fun hs => hs !! messageID.

Definition error_envelope (requestID code : Z) (message : string) : InternalEnvelope :=
  mkEnvelope KIND_ERROR requestID 0 0 0 "" 0 "" code message.

Definition sendError (peer : Peer) (requestID code : Z) (message : string) : prog world unit :=
  Send (Connection peer) (error_envelope requestID code message).

Definition response_envelope (peer : Peer) (e : InternalEnvelope) (messageID : Z) (payload : string) : InternalEnvelope :=
  mkEnvelope KIND_RESPONSE (RequestId e) (TargetService e) (ServiceType peer) messageID "" 0 payload 0 "".

Definition dispatch (r : Router) (peer : Peer) (e : InternalEnvelope) (rep : bool) : prog world unit := fun w =>
  match lookup_handler r (TargetService e) (MessageId e) with
  | None =>
      if rep then sendError peer (RequestId e) 2 "target service or message handler is unavailable" w
      else (Ok tt, w)
  | Some h =>
      match h e (app w) with
      | (Err err, a) =>
          if rep then sendError peer (RequestId e) 3 (error_Error err) (set_app w a) else (Err err, set_app w a)
      | (Ok result, a) =>
          let w := set_app w a in
          match rep, result with
          | true, Some (messageID, Some marshalled) =>
              match marshalled with
              | Err err => (Err err, w)
              | Ok payload => Send (Connection peer) (response_envelope peer e messageID payload) w
              end
          | _, _ => (Ok tt, w)
          end
      end
  end.

Definition Handle (r : Router) (peer : Peer) (e : InternalEnvelope) : prog world unit := fun w =>
  if Kind e =? KIND_EVENT then dispatch r peer e false w
  else if negb (Kind e =? KIND_REQUEST) then sendError peer (RequestId e) 1 "unsupported envelope kind" w
  else dispatch r peer e true w.

(** ** The server side of a stream: [server.go] *)

Record Hello := mkHello { HServiceType : Z; HInstanceId : string }.
Context `{ProtoMessage Hello} (service_String : Z -> string).

Notation peers := (gmap string Peer).

Definition peerKey (serviceType : Z) (instanceID : string) : string :=
  service_String serviceType +:+ "/" +:+ instanceID.

Definition parseHello (e : InternalEnvelope) : res (Z * string) :=
  if negb (Kind e =? KIND_HELLO) then Err (Text "first stream message must be hello")
  else match Unmarshal (Payload e) with
       | Err _ => Err (Text "invalid hello payload")
       | Ok hello =>
           if (HServiceType hello =? SERVICE_TYPE_UNSPECIFIED) || bool_decide (HInstanceId hello = "")
           then Err (Text "hello service type and instance id are required")
           else Ok (HServiceType hello, HInstanceId hello)
       end.

(** The stream is opened: the peer is registered under its key. *)
Definition Connect_open (s : peers) (first : InternalEnvelope) (conn : Z) : res (Peer * peers) :=
  match parseHello first with
  | Err e => Err (Wrapf "Unauthenticated" e)
  | Ok (service, instance) =>
      let peer := mkPeer service instance conn in
      Ok (peer, <[peerKey service instance := peer]> s)
  end.

(** The deferred function: it closes the connection and deletes the peer's key. *)
Definition Connect_close (s : peers) (peer : Peer) (w : world) : peers * world :=
  (delete (peerKey (ServiceType peer) (InstanceID peer)) s, Close (Connection peer) w).

(** The loop of [Connect] over the messages the stream delivers; [recvErr] ends it. *)
Fixpoint receive (r : Router) (peer : Peer) (incoming : list InternalEnvelope) (recvErr : error) (w : world) : error * world :=
  match incoming with
  | [] => (recvErr, w)
  | e :: incoming =>
      if Kind e =? KIND_HELLO then (Text "hello is only valid as the first message", w)
      else match Handle r peer e w with
           | (Err err, w') => (err, w')
           | (Ok _, w') => receive r peer incoming recvErr w'
           end
  end.

Definition Connect (r : Router) (s : peers) (first : InternalEnvelope) (conn : Z) (incoming : list InternalEnvelope)
    (recvErr : error) (w : world) : error * peers * world :=
  match Connect_open s first conn with
  | Err e => (e, s, w)
  | Ok (peer, s1) =>
      let '(err, w1) := receive r peer incoming recvErr w in
      let '(s2, w2) := Connect_close s1 peer w1 in
      (err, s2, w2)
  end.

Definition lookup_Peer (s : peers) (serviceType : Z) (instanceID : string) : option Peer :=
  s !! peerKey serviceType instanceID.

(** ** What a request is answered with *)

(** The reply to a request, if there is one, as the handler's outcome dictates it. *)
Definition answer (r : Router) (peer : Peer) (e : InternalEnvelope) (a : A) : option InternalEnvelope :=
  if Kind e =? KIND_EVENT then None
  else if negb (Kind e =? KIND_REQUEST) then Some (error_envelope (RequestId e) 1 "unsupported envelope kind")
  else match lookup_handler r (TargetService e) (MessageId e) with
       | None => Some (error_envelope (RequestId e) 2 "target service or message handler is unavailable")
       | Some h =>
           match (h e a).1 with
           | Err err => Some (error_envelope (RequestId e) 3 (error_Error err))
           | Ok (Some (messageID, Some (Ok payload))) => Some (response_envelope peer e messageID payload)
           | Ok _ => None
           end
       end.

(** The handler that runs for an envelope and what it leaves behind. *)
Definition effect (r : Router) (e : InternalEnvelope) (a : A) : A :=
  if (Kind e =? KIND_EVENT) || (Kind e =? KIND_REQUEST) then
    match lookup_handler r (TargetService e) (MessageId e) with
    | Some h => (h e a).2
    | None => a
    end
  else a.

Lemma Handle_answer r peer e w :
  Connection peer ∉ closed w -> (forall x, transport (Connection peer) x = None) ->
  (Handle r peer e w).2 =
    mkWorld (effect r e (app w))
      (wire w ++ match answer r peer e (app w) with Some x => [(Connection peer, x)] | None => [] end) (closed w).
Proof.
  intros Hopen Htr.
  assert (forall x w', closed w' = closed w -> Send (Connection peer) x w' = (Ok tt, put_wire w' (Connection peer) x)) as Hs.
  { intros x w' Hc. unfold Send. rewrite Hc, bool_decide_false, Htr by done. done. }
  unfold Handle, effect, answer. destruct w as [a l cl].
  destruct (Kind e =? KIND_EVENT) eqn:Eev; simpl.
  - unfold dispatch. destruct (lookup_handler _ _ _) as [h|]; simpl; [|by rewrite app_nil_r].
    destruct (h e a) as [[?|?] a']; simpl; by rewrite app_nil_r.
  - destruct (Kind e =? KIND_REQUEST); simpl; [|unfold sendError; by rewrite Hs].
    unfold dispatch, sendError. destruct (lookup_handler _ _ _) as [h|]; simpl; [|by rewrite Hs].
    destruct (h e a) as [[[[i [[p|?]|]]|]|?] a']; simpl; rewrite ?Hs, ?app_nil_r by done; done.
Qed.

Lemma lookup_Register r service messageID h service' messageID' :
  lookup_handler (Register r service messageID h) service' messageID' =
    if bool_decide (service' = service /\ messageID' = messageID) then Some h
    else lookup_handler r service' messageID'.
Proof.
  unfold lookup_handler, Register. destruct (decide (service' = service)) as [->|Hne].
  - rewrite lookup_insert_eq. simpl. destruct (decide (messageID' = messageID)) as [->|Hm].
    + by rewrite lookup_insert_eq, bool_decide_true.
    + rewrite lookup_insert_ne, bool_decide_false by (done || by intros [_ ?]). by destruct (r !! service).
  - rewrite lookup_insert_ne, bool_decide_false by (done || by intros [? _]). done.
Qed.

(** A message after which the server ends the stream. *)
Definition ends (r : Router) (e : InternalEnvelope) (a : A) : bool :=
  match lookup_handler r (TargetService e) (MessageId e) with
  | None => false
  | Some h =>
      match (h e a).1 with
      | Err _ => Kind e =? KIND_EVENT
      | Ok (Some (_, Some (Err _))) => Kind e =? KIND_REQUEST
      | Ok _ => false
      end
  end.

(** The answers to a sequence of messages, and what the handlers leave behind. *)
Fixpoint answers (r : Router) (peer : Peer) (incoming : list InternalEnvelope) (a : A) : list InternalEnvelope * A :=
  match incoming with
  | [] => ([], a)
  | e :: incoming =>
      if Kind e =? KIND_HELLO then ([], a)
      else
        let now := match answer r peer e a with Some x => [x] | None => [] end in
        if ends r e a then (now, effect r e a)
        else let '(later, a') := answers r peer incoming (effect r e a) in (now ++ later, a')
  end.

Lemma Handle_ends r peer e w :
  Connection peer ∉ closed w -> (forall x, transport (Connection peer) x = None) ->
  is_ok (Handle r peer e w).1 = negb (ends r e (app w)).
Proof.
  intros Hopen Htr.
  assert (forall x w', closed w' = closed w -> Send (Connection peer) x w' = (Ok tt, put_wire w' (Connection peer) x)) as Hs.
  { intros x w' Hc. unfold Send. rewrite Hc, bool_decide_false, Htr by done. done. }
  unfold Handle, ends, dispatch, sendError. destruct w as [a l cl].
  destruct (Kind e =? KIND_EVENT) eqn:Eev; destruct (Kind e =? KIND_REQUEST) eqn:Erq; simpl;
    breflect; try (unfold KIND_EVENT, KIND_REQUEST in *; lia).
  all: destruct (lookup_handler _ _ _) as [h|]; simpl; [|by rewrite ?Hs].
  all: destruct (h e a) as [[[[i [[p|?]|]]|]|?] a']; simpl; rewrite ?Hs by done; done.
Qed.

Lemma receive_answers r peer incoming recvErr w :
  Connection peer ∉ closed w -> (forall x, transport (Connection peer) x = None) ->
  (receive r peer incoming recvErr w).2 =
    mkWorld (answers r peer incoming (app w)).2
      (wire w ++ (pair (Connection peer) <$> (answers r peer incoming (app w)).1)) (closed w).
Proof.
  intros Hopen Htr. revert w Hopen. induction incoming as [|e incoming IH]; intros w Hopen; simpl.
  { destruct w. simpl. by rewrite app_nil_r. }
  destruct (Kind e =? KIND_HELLO); [destruct w; simpl; by rewrite app_nil_r|].
  pose proof (Handle_answer r peer e w Hopen Htr) as Ha. pose proof (Handle_ends r peer e w Hopen Htr) as He.
  destruct (Handle r peer e w) as [res w']. simpl in Ha, He. subst w'.
  destruct (ends r e (app w)); destruct res as [[]|err]; try done; simpl.
  - by destruct (answer r peer e (app w)).
  - rewrite IH by done. simpl. destruct (answers r peer incoming _) as [later a']. simpl.
    rewrite <- app_assoc, fmap_app. by destruct (answer r peer e (app w)).
Qed.

(** A request that its handler answers, with a message or an error. *)
Definition replies (r : Router) (e : InternalEnvelope) : Prop :=
  forall h a, lookup_handler r (TargetService e) (MessageId e) = Some h ->
    match (h e a).1 with
    | Err _ => Kind e <> KIND_EVENT
    | Ok (Some (_, Some (Ok _))) => True
    | Ok _ => Kind e = KIND_EVENT
    end.

Definition expects_reply (e : InternalEnvelope) : bool := negb (Kind e =? KIND_EVENT).

Lemma answers_sublist r peer incoming a :
  RequestId <$> (answers r peer incoming a).1 `sublist_of` RequestId <$> List.filter expects_reply incoming.
Proof.
  revert a. induction incoming as [|e incoming IH]; intros a; simpl; [constructor|].
  assert (match answer r peer e a with
          | Some x => RequestId x = RequestId e /\ expects_reply e = true | None => True end) as Hx.
  { unfold answer, expects_reply. destruct (Kind e =? KIND_EVENT); simpl; [done|].
    repeat case_match; simplify_eq; done. }
  destruct (Kind e =? KIND_HELLO); [apply sublist_nil_l|].
  destruct (ends r e a); [|specialize (IH (effect r e a)); destruct (answers r peer incoming _) as [later a']];
    (destruct (answer r peer e a) as [x|]; [destruct Hx as [Hid ->]; simpl; rewrite Hid|]).
  - apply sublist_skip, sublist_nil_l.
  - apply sublist_nil_l.
  - by apply sublist_skip.
  - simpl. destruct (expects_reply e); [by apply sublist_cons|done].
Qed.

Lemma answers_complete r peer incoming a :
  Forall (fun e => replies r e /\ Kind e <> KIND_HELLO) incoming ->
  RequestId <$> (answers r peer incoming a).1 = RequestId <$> List.filter expects_reply incoming.
Proof.
  revert a. induction incoming as [|e incoming IH]; intros a HF; simpl; [done|].
  apply Forall_cons in HF as [[Hrep Hh] HF]. apply Z.eqb_neq in Hh. rewrite Hh.
  specialize (IH (effect r e a) HF). unfold replies in Hrep. unfold ends, answer, expects_reply in *.
  destruct (lookup_handler _ _ _) as [h|]; [specialize (Hrep h a eq_refl)|].
  - destruct (h e a) as [[[[i [[p|?]|]]|]|?] a']; simpl in *;
      destruct (Kind e =? KIND_EVENT) eqn:Ev; destruct (Kind e =? KIND_REQUEST) eqn:Er; breflect; try done;
      try (unfold KIND_EVENT, KIND_REQUEST in *; lia); simpl;
      destruct (answers r peer incoming _); simpl in *; first [exact IH|f_equal; exact IH].
  - destruct (Kind e =? KIND_EVENT); destruct (Kind e =? KIND_REQUEST); simpl;
      destruct (answers r peer incoming _); simpl in *; first [exact IH|f_equal; exact IH].
Qed.

(** Requests on a stream are answered in order and at most once: while its connection
    can be written to, the wire of the stream gets a sequence of envelopes whose request
    ids form a subsequence of those of the incoming requests (events get none), and no
    other wire gets any. If no handler leaves a request without a reply or fails on an
    event, every request is answered, whatever went wrong in its handler. *)
Theorem requests_answered_in_order r peer incoming recvErr w :
  Connection peer ∉ closed w -> (forall x, transport (Connection peer) x = None) ->
  exists out, wire (receive r peer incoming recvErr w).2 = wire w ++ (pair (Connection peer) <$> out) /\
    RequestId <$> out `sublist_of` RequestId <$> List.filter expects_reply incoming /\
    (Forall (fun e => replies r e /\ Kind e <> KIND_HELLO) incoming ->
     RequestId <$> out = RequestId <$> List.filter expects_reply incoming).
Proof.
  intros Hopen Htr. exists (answers r peer incoming (app w)).1.
  rewrite receive_answers by done. split_and!; [done|apply answers_sublist|apply answers_complete].
Qed.

End router.

(** ** The client side of a stream: [client.go]

    A request is registered under a fresh id, with a channel of one slot for its answer,
    before it is sent; the read loop puts answers into the slots. [trace] is what happened
    on the stream, oldest first. *)

Inductive happening :=
  | Sent (e : InternalEnvelope)
  | Received (e : InternalEnvelope)
  | Returned (id : Z) (e : InternalEnvelope).

Record Client := mkClient {
  requests : gmap Z (option InternalEnvelope);
  nextID : Z;
  done_ : bool;
  trace : list happening
}.

Definition set_requests (c : Client) (m : gmap Z (option InternalEnvelope)) : Client :=
  mkClient m (nextID c) (done_ c) (trace c).
Definition note (c : Client) (h : happening) : Client :=
  mkClient (requests c) (nextID c) (done_ c) (trace c ++ [h]).

(** [send]: [sent] is what the stream says. *)
Definition send (e : InternalEnvelope) (sent : option error) (c : Client) : option error * Client :=
  if done_ c then (Some ErrConnectionClosed, c)
  else match sent with Some err => (Some err, c) | None => (None, note c (Sent e)) end.

Definition with_id (e : InternalEnvelope) (id : Z) : InternalEnvelope :=
  mkEnvelope KIND_REQUEST id (SourceService e) (TargetService e) (MessageId e) (EPlayerId e) (RoomId e)
    (Payload e) (ErrorCode e) (ErrorMessage e).

(** [Request] up to its [select]; the registration is deferred to be removed. *)
Definition Request_begin (e : InternalEnvelope) (sent : option error) (c : Client) : res Z * Client :=
  let id := uint64 (nextID c + 1) in
  let c := mkClient (<[id := None]> (requests c)) id (done_ c) (trace c) in
  match send (with_id e id) sent c with
  | (Some err, c') => (Err err, set_requests c' (delete id (requests c')))
  | (None, c') => (Ok id, c')
  end.

(** The cases of the [select], each possible when its channel is ready. *)
Inductive wake := GotResponse | ContextDone | StreamDone.

Definition Request_end (id : Z) (why : wake) (c : Client) : option (res InternalEnvelope * Client) :=
  let leave c := set_requests c (delete id (requests c)) in
  match why with
  | GotResponse =>
      match requests c !! id with
      | Some (Some e) => Some (Ok e, leave (note c (Returned id e)))
      | _ => None
      end
  | ContextDone => Some (Err ErrRequestTimeout, leave c)
  | StreamDone => if done_ c then Some (Err ErrConnectionClosed, leave c) else None
  end.

Definition SendEvent (e : InternalEnvelope) (sent : option error) (c : Client) : option error * Client :=
  send (mkEnvelope KIND_EVENT (RequestId e) (SourceService e) (TargetService e) (MessageId e) (EPlayerId e)
          (RoomId e) (Payload e) (ErrorCode e) (ErrorMessage e)) sent c.

Definition Client_Close (c : Client) : Client := mkClient (requests c) (nextID c) true (trace c).

(** One turn of the read loop; [None] while a full slot blocks it. Other envelopes go to
    the event handler, which does not touch the client. *)
Definition readLoop_step (e : InternalEnvelope) (c : Client) : option Client :=
  let c := note c (Received e) in
  if (Kind e =? KIND_RESPONSE) || (Kind e =? KIND_ERROR) then
    match requests c !! RequestId e with
    | None => Some c
    | Some None => Some (set_requests c (<[RequestId e := Some e]> (requests c)))
    | Some (Some _) => None
    end
  else Some c.

Definition NewClient : Client := mkClient ∅ 0 false [].

(** The goroutines that use a client, in any order. *)
Inductive client_step : Client -> Client -> Prop :=
  | c_begin e sent c r c' :
      nextID c + 1 < 2 ^ 64 -> Request_begin e sent c = (r, c') -> client_step c c'
  | c_end id why c r c' : Request_end id why c = Some (r, c') -> client_step c c'
  | c_event e sent c r c' : SendEvent e sent c = (r, c') -> client_step c c'
  | c_read e c c' : readLoop_step e c = Some c' -> client_step c c'
  | c_close c : client_step c (Client_Close c).

(** [e] was received after the request [id] was sent. *)
Definition answered (t : list happening) (id : Z) (e : InternalEnvelope) : Prop :=
  RequestId e = id /\ (Kind e = KIND_RESPONSE \/ Kind e = KIND_ERROR) /\
  exists t1 q t2 t3, t = t1 ++ Sent q :: t2 ++ Received e :: t3 /\ RequestId q = id /\ Kind q = KIND_REQUEST.

Definition sent_id (t : list happening) (id : Z) : Prop :=
  exists t1 q t2, t = t1 ++ Sent q :: t2 /\ RequestId q = id /\ Kind q = KIND_REQUEST.

Record client_ok (c : Client) : Prop := {
  c_next : 0 <= nextID c < 2 ^ 64;
  c_ids id x : requests c !! id = Some x -> id <= nextID c /\ sent_id (trace c) id;
  c_slots id e : requests c !! id = Some (Some e) -> answered (trace c) id e /\ forall e', Returned id e' ∉ trace c;
  c_open id : requests c !! id = Some None -> forall e', Returned id e' ∉ trace c;
  c_past id e : Returned id e ∈ trace c -> id <= nextID c /\ answered (trace c) id e;
  c_once id e id' e' t1 t2 t3 : trace c = t1 ++ Returned id e :: t2 ++ Returned id' e' :: t3 -> id <> id'
}.

Lemma answered_app t t' id e : answered t id e -> answered (t ++ t') id e.
Proof.
  intros (? & ? & t1 & q & t2 & t3 & -> & ? & ?). split_and!; try done.
  exists t1, q, t2, (t3 ++ t'). split_and!; try done. by rewrite <- !app_assoc; simpl; rewrite <- app_assoc.
Qed.

Lemma sent_app t t' id : sent_id t id -> sent_id (t ++ t') id.
Proof. intros (t1 & q & t2 & -> & ? & ?). exists t1, q, (t2 ++ t'). split_and!; try done. by rewrite <- app_assoc. Qed.

Lemma sent_received t id e : sent_id t id -> RequestId e = id -> Kind e = KIND_RESPONSE \/ Kind e = KIND_ERROR ->
  answered (t ++ [Received e]) id e.
Proof.
  intros (t1 & q & t2 & -> & ? & ?) ? ?. split_and!; try done. exists t1, q, t2, []. by rewrite <- app_assoc.
Qed.

(** What a note that is not a return preserves. *)
Lemma client_note c h : (forall id e, h <> Returned id e) -> client_ok c -> client_ok (note c h).
Proof.
  intros Hh [Hn Hi Hs Ho Hp H1].
  assert (forall id e, Returned id e ∈ trace (note c h) -> Returned id e ∈ trace c) as Hin.
  { intros id e. simpl. rewrite elem_of_app, list_elem_of_singleton. intros [?|E]; [done|]. by destruct (Hh id e). }
  split; simpl; try done.
  - intros id x Hx. destruct (Hi id x Hx). split; [done|by apply sent_app].
  - intros id e Hx. destruct (Hs id e Hx) as [? Hr]. split; [by apply answered_app|].
    intros e' Hin'. by apply (Hr e'), Hin.
  - intros id Hx e' Hin'. by apply (Ho id Hx e'), Hin.
  - intros id e Hx. destruct (Hp id e (Hin _ _ Hx)). split; [done|by apply answered_app].
  - intros id e id' e' t1 t2 t3 E. destruct (decide (t3 = [])) as [->|Hne].
    + assert (h = Returned id' e') as Eh; [|by destruct (Hh id' e')].
      assert (trace c ++ [h] = (t1 ++ Returned id e :: t2) ++ [Returned id' e']) as E2.
      { rewrite E. by rewrite <- app_assoc. }
      by apply app_inj_tail in E2 as [_ ->].
    + destruct (exists_last Hne) as (t4 & h' & ->).
      apply (H1 id e id' e' t1 t2 t4).
      assert (trace c ++ [h] = (t1 ++ Returned id e :: t2 ++ Returned id' e' :: t4) ++ [h']) as E2.
      { rewrite E. rewrite <- !app_assoc. simpl. by rewrite <- app_assoc. }
      by apply app_inj_tail in E2 as [-> _].
Qed.

Lemma client_delete c id : client_ok c -> client_ok (set_requests c (delete id (requests c))).
Proof.
  intros [Hn Hi Hs Ho Hp H1]. split; simpl; try done.
  all: intros id'; destruct (decide (id = id')) as [->|Hne];
    rewrite ?lookup_delete_eq, ?lookup_delete_ne by done; try done; eauto.
Qed.

Lemma client_bump c id : nextID c <= id < 2 ^ 64 -> client_ok c ->
  client_ok (mkClient (requests c) id (done_ c) (trace c)).
Proof.
  intros Hid [Hn Hi Hs Ho Hp H1]. split; simpl; try done; [lia|..].
  - intros id' x Hx. destruct (Hi id' x Hx). split; [lia|done].
  - intros id' e Hx. destruct (Hp id' e Hx). split; [lia|done].
Qed.

Lemma client_register c id : nextID c = id -> sent_id (trace c) id -> (forall e, Returned id e ∉ trace c) ->
  client_ok c -> client_ok (set_requests c (<[id := None]> (requests c))).
Proof.
  intros Hid Hsent Hret [Hn Hi Hs Ho Hp H1]. split; simpl; try done.
  all: intros id'; destruct (decide (id = id')) as [->|Hne];
    rewrite ?lookup_insert_eq, ?lookup_insert_ne by done; try done; eauto.
  intros x _. split; [lia|done].
Qed.

Lemma Request_begin_ok e sent c r c' : nextID c + 1 < 2 ^ 64 ->
  Request_begin e sent c = (r, c') -> client_ok c -> client_ok c'.
Proof.
  intros Hmax Hb Hc. pose proof (c_next c Hc) as Hn. unfold Request_begin in Hb.
  assert (uint64 (nextID c + 1) = nextID c + 1) as Hid by (apply uint64_id; unfold in_uint64; lia).
  rewrite Hid in Hb. set (id := nextID c + 1) in *.
  assert (requests c !! id = None) as Hfresh.
  { destruct (requests c !! id) eqn:E; [|done]. destruct (c_ids c Hc id _ E). subst id. lia. }
  assert (client_ok (mkClient (requests c) id (done_ c) (trace c))) as Hc1 by (apply client_bump; [subst id; lia|done]).
  unfold send in Hb. simpl in Hb. destruct (done_ c); [|destruct sent].
  - injection Hb as <- <-. unfold set_requests. simpl. by rewrite delete_insert_id.
  - injection Hb as <- <-. unfold set_requests. simpl. by rewrite delete_insert_id.
  - injection Hb as <- <-. apply (client_note _ (Sent (with_id e id))) in Hc1; [|done].
    apply (client_register _ id) in Hc1; [done|done| |].
    + exists (trace c), (with_id e id), []. done.
    + simpl. intros e' [Hin|E%list_elem_of_singleton]%elem_of_app; [|done].
      destruct (c_past c Hc id e' Hin). subst id. lia.
Qed.

Lemma client_return c id e : requests c !! id = Some (Some e) -> client_ok c ->
  client_ok (set_requests (note c (Returned id e)) (delete id (requests c))).
Proof.
  intros Hslot Hc. destruct (c_slots c Hc id e Hslot) as [Hans Hnone]. destruct (c_ids c Hc id _ Hslot) as [Hle _].
  destruct Hc as [Hn Hi Hs Ho Hp H1].
  assert (forall id' e', id' <> id -> Returned id' e' ∉ trace c -> Returned id' e' ∉ trace c ++ [Returned id e]) as Hother.
  { intros id' e' Hne Hni [?|E%list_elem_of_singleton]%elem_of_app; [done|]. congruence. }
  split; simpl; try done.
  - intros id' x. destruct (decide (id = id')) as [->|Hne]; [by rewrite lookup_delete_eq|].
    rewrite lookup_delete_ne by done. intros Hx. destruct (Hi id' x Hx). split; [done|by apply sent_app].
  - intros id' e'. destruct (decide (id = id')) as [->|Hne]; [by rewrite lookup_delete_eq|].
    rewrite lookup_delete_ne by done. intros Hx. destruct (Hs id' e' Hx) as [? Hr].
    split; [by apply answered_app|]. eauto.
  - intros id'. destruct (decide (id = id')) as [->|Hne]; [by rewrite lookup_delete_eq|].
    rewrite lookup_delete_ne by done. intros Hx e'. eauto.
  - intros id' e' [Hin|E%list_elem_of_singleton]%elem_of_app.
    + destruct (Hp id' e' Hin). split; [done|by apply answered_app].
    + injection E as -> ->. split; [done|by apply answered_app].
  - intros id1 e1 id2 e2 t1 t2 t3 E. destruct (decide (t3 = [])) as [->|Hne].
    + assert (trace c ++ [Returned id e] = (t1 ++ Returned id1 e1 :: t2) ++ [Returned id2 e2]) as E2.
      { rewrite E. by rewrite <- app_assoc. }
      apply app_inj_tail in E2 as [E2 [= -> ->]]. intros ->. apply (Hnone e1). rewrite E2. set_solver.
    + destruct (exists_last Hne) as (t4 & h' & ->). apply (H1 id1 e1 id2 e2 t1 t2 t4).
      assert (trace c ++ [Returned id e] = (t1 ++ Returned id1 e1 :: t2 ++ Returned id2 e2 :: t4) ++ [h']) as E2.
      { rewrite E. rewrite <- !app_assoc. simpl. by rewrite <- app_assoc. }
      by apply app_inj_tail in E2 as [-> _].
Qed.

Lemma read_ok e c c' : readLoop_step e c = Some c' -> client_ok c -> client_ok c'.
Proof.
  intros Hr Hc. assert (client_ok (note c (Received e))) as Hc1 by by apply client_note.
  unfold readLoop_step in Hr. destruct (_ || _) eqn:Ek; [|by injection Hr as <-]. simpl in Hr.
  destruct (requests c !! RequestId e) as [[?|]|] eqn:Eq; [done| |by injection Hr as <-].
  injection Hr as <-. destruct (c_ids c Hc _ _ Eq) as [Hle Hsent]. pose proof (c_open c Hc _ Eq) as Hnone.
  assert (answered (trace c ++ [Received e]) (RequestId e) e) as Hans.
  { apply sent_received; [done|done|]. apply orb_true_iff in Ek as [?|?]; breflect; auto. }
  destruct Hc1 as [Hn Hi Hs Ho Hp H1]. simpl in *. split; simpl; try done.
  - intros id x. destruct (decide (RequestId e = id)) as [<-|Hne].
    + intros _. split; [done|by apply sent_app].
    + rewrite lookup_insert_ne by done. apply Hi.
  - intros id x. destruct (decide (RequestId e = id)) as [<-|Hne].
    + rewrite lookup_insert_eq. intros [= <-]. split; [done|].
      intros e' [?|E%list_elem_of_singleton]%elem_of_app; [by apply (Hnone e')|done].
    + rewrite lookup_insert_ne by done. apply Hs.
  - intros id. destruct (decide (RequestId e = id)) as [<-|Hne]; [by rewrite lookup_insert_eq|].
    rewrite lookup_insert_ne by done. apply Ho.
Qed.

Lemma client_step_ok c c' : client_step c c' -> client_ok c -> client_ok c'.
Proof.
  intros [e sent c0 r c1 Hm Hb|id why c0 r c1 He|e sent c0 r c1 He|e c0 c1 Hr|c0] Hc.
  - by eapply Request_begin_ok.
  - unfold Request_end in He. destruct why.
    + destruct (requests c0 !! id) as [[e|]|] eqn:Es; try done. injection He as <- <-. by apply client_return.
    + injection He as <- <-. by apply client_delete.
    + destruct (done_ c0); [|done]. injection He as <- <-. by apply client_delete.
  - unfold SendEvent, send in He. destruct (done_ c0); [by injection He as <- <-|].
    destruct sent; injection He as <- <-; [done|]. by apply client_note.
  - by eapply read_ok.
  - destruct Hc. by split.
Qed.


(** ** Runs *)

Section runs.

Definition echo : handler (A := unit) := fun e a => (Ok (Some (MessageId e + 100, Some (Ok (Payload e)))), a).
Definition refuse : handler (A := unit) := fun e a => (Err (Text "no"), a).
Definition routes : gmap Z (gmap Z (handler (A := unit))) :=
  Register (Register NewRouter SERVICE_TYPE_LOBBY 1 echo) SERVICE_TYPE_LOBBY 2 refuse.
Definition ask (id messageID : Z) : InternalEnvelope :=
  mkEnvelope KIND_REQUEST id SERVICE_TYPE_GATEWAY SERVICE_TYPE_LOBBY messageID "" 0 "hi" 0 "".
Definition lossless (_ : Z) (_ : InternalEnvelope) : option error := None.
Definition gw : Peer := mkPeer SERVICE_TYPE_GATEWAY "gw-1" 7.
Definition idle : world (A := unit) := mkWorld tt [] ∅.

Lemma snd_pairs {B C} (c : C) (l : list B) : (pair c <$> l).*2 = l.
Proof. induction l as [|b l IH]; [done|]. simpl. by f_equal. Qed.

Lemma gw_open : Connection gw ∉ closed idle.
Proof. set_solver. Qed.

(** A request, a request that fails, and one nobody handles: three answers. *)
Lemma requests_answered_in_order_witness : exists out,
  wire (receive lossless routes gw [ask 1 1; ask 2 2; ask 3 9] ErrConnectionClosed idle).2 = pair 7 <$> out /\
  RequestId <$> out = [1; 2; 3] /\ Kind <$> out = [KIND_RESPONSE; KIND_ERROR; KIND_ERROR].
Proof.
  destruct (requests_answered_in_order lossless routes gw [ask 1 1; ask 2 2; ask 3 9] ErrConnectionClosed idle
    gw_open (fun _ => eq_refl)) as (out & Hw & _ & Hall).
  exists out. split; [exact Hw|]. split.
  - rewrite Hall; [vm_compute; reflexivity|].
    repeat (apply Forall_cons; split; [split; [intros h a Hh|discriminate]|]); [| | |constructor].
    + change (Some echo = Some h) in Hh. injection Hh as <-. exact I.
    + change (Some refuse = Some h) in Hh. injection Hh as <-. discriminate.
    + change (None = Some h) in Hh. discriminate Hh.
  - rewrite <- (snd_pairs 7 out). change (pair 7 <$> out) with (wire idle ++ (pair (Connection gw) <$> out)).
    rewrite <- Hw. vm_compute. reflexivity.
Defined.

Definition answer_1 : InternalEnvelope := mkEnvelope KIND_RESPONSE 1 2 1 101 "" 0 "hi" 0 "".
Definition served_client : Client :=
  mkClient ∅ 1 false [Sent (with_id (ask 0 1) 1); Received answer_1; Returned 1 answer_1].

Lemma served_reached : rtc client_step NewClient served_client.
Proof.
  eapply rtc_l; [eapply (c_begin (ask 0 1) None); [vm_compute; reflexivity|vm_compute; reflexivity]|].
  eapply rtc_l; [eapply (c_read answer_1); vm_compute; reflexivity|].
  eapply rtc_l; [eapply (c_end 1 GotResponse); vm_compute; reflexivity|]. apply rtc_refl.
Qed.


(** ** Where the server falls short *)

#[local] Instance hello_codec : ProtoMessage Hello := {|
  Marshal _ := Ok "hello";
  Unmarshal _ := Ok (mkHello SERVICE_TYPE_GATEWAY "gw-1")
|}.
Definition hello : InternalEnvelope := mkEnvelope KIND_HELLO 0 SERVICE_TYPE_GATEWAY 0 0 "" 0 "hello" 0 "".
Definition names (_ : Z) : string := "SERVICE_TYPE_GATEWAY".

(** A peer that reconnects before its old stream has ended disappears from the server:
    the end of the old stream deletes the peer by its key, although the entry now belongs
    to the new stream, whose connection is open. *)
Theorem old_stream_hides_new_one : exists old new s1 s2,
  Connect_open names ∅ hello 1 = Ok (old, s1) /\ Connect_open names s1 hello 2 = Ok (new, s2) /\
  lookup_Peer names s2 SERVICE_TYPE_GATEWAY "gw-1" = Some new /\
  lookup_Peer names (Connect_close names s2 old idle).1 SERVICE_TYPE_GATEWAY "gw-1" = None /\
  Connection new ∉ closed (Connect_close names s2 old idle).2.
Proof.
  eexists _, _, _, _. split_and!; [vm_compute; reflexivity|vm_compute; reflexivity|vm_compute; reflexivity|vm_compute; reflexivity|].
  simpl. set_solver.
Qed.

End runs.

End Streaming.
