(* ===== verification/Lifecycle.v ===== *)
(** * Session lifecycle events: [services/gateway/session_lifecycle_publisher.go],
      [services/common/session_lifecycle.go]

    The gateway queues the events of its session manager and delivers them to the lobby
    and the battle service, retrying each delivery; a service accepts an event once and
    never goes back to an earlier connection epoch of a session. *)

From S2P Require Import Prelude Proto Retry Session SessionManager Streaming.
Import Proto Retry SessionManager.

Module Lifecycle.

Definition TYPE_UNSPECIFIED : Z := 0.
Definition TYPE_CONNECTED : Z := 1.
Definition TYPE_DISCONNECTED : Z := 2.
Definition TYPE_RESUMED : Z := 3.
Definition TYPE_EXPIRED : Z := 4.
Definition TYPE_PREEMPTED : Z := 5.

Record SessionLifecycleEvent := mkPb {
  pb_EventId : string;
  pb_Type : Z;
  pb_SessionId : string;
  pb_AccountId : string;
  pb_PlayerId : string;
  pb_ConnectionId : string;
  pb_ConnectionEpoch : Z;
  pb_GatewayInstanceId : string;
  pb_OccurredAtUnixMillis : Z
}.

#[export] Instance SessionLifecycleEvent_eq_dec : EqDecision SessionLifecycleEvent.
Proof. solve_decision. Defined.

(** ** The publisher *)

Definition lifecycleTypeProto (t : LifecycleType) : Z :=
  match t with
  | LifecycleConnected => TYPE_CONNECTED
  | LifecycleDisconnected => TYPE_DISCONNECTED
  | LifecycleResumed => TYPE_RESUMED
  | LifecycleExpired => TYPE_EXPIRED
  | LifecyclePreempted => TYPE_PREEMPTED
  end.

Definition event_proto (e : LifecycleEvent) : SessionLifecycleEvent :=
  mkPb (EventID e) (lifecycleTypeProto (Type_ e)) (ESessionID e) (EAccountID e) (EPlayerID e) (EConnectionID e)
    (EConnectionEpoch e) (EGatewayInstanceID e) (time_UnixMilli (OccurredAt e)).

(** What the publisher tells the metrics and the log. *)
Inductive report :=
  | Dropped (e : LifecycleEvent)
  | Failed (target : string) (e : LifecycleEvent)
  | Delivered (target : string) (e : LifecycleEvent).

Definition queue_size : nat := 256.

Record publisher (W : Type) := mkPublisher {
  retry : RetryPolicy;
  queue : list LifecycleEvent;
  cancelled : bool;
  reports : list report;
  world : W
}.
Arguments mkPublisher {W}.
Arguments retry {W}.
Arguments queue {W}.
Arguments cancelled {W}.
Arguments reports {W}.
Arguments world {W}.

Section publisher.
Context {W : Type} `{ProtoMessage SessionLifecycleEvent}.
(** [p.client(target)] and the client's [SendEvent], on the world [W]. *)
Context (client_SendEvent : string -> InternalEnvelope -> W -> option (option error) * W).
(** The context of the publisher ends while a delivery waits to be retried. *)
Context (ctx : Z -> option error).

Definition set_queue (p : publisher W) (q : list LifecycleEvent) : publisher W :=
  mkPublisher (retry p) q (cancelled p) (reports p) (world p).
Definition say (p : publisher W) (r : report) : publisher W :=
  mkPublisher (retry p) (queue p) (cancelled p) (reports p ++ [r]) (world p).

(** [select] takes a ready case at random: with the context done and room in the queue,
    [coin] says which. *)
Definition Publish (p : publisher W) (e : LifecycleEvent) (coin : bool) : publisher W :=
  let room := (length (queue p) <? queue_size)%nat in
  if cancelled p && (coin || negb room) then p
  else if room then set_queue p (queue p ++ [e]) else say p (Dropped e).

Definition targets : list (string * Z) := [("lobby", SERVICE_TYPE_LOBBY); ("battle", SERVICE_TYPE_BATTLE)].

(** The function that is retried. *)
Definition delivery (name : string) (serviceType : Z) (payload : string) (w : W) : option error * W :=
  match client_SendEvent name
          (mkEnvelope 0 0 0 serviceType SESSION_LIFECYCLE_EVENT "" 0 payload 0 "") w with
  | (None, w') => (Some (Text (name +:+ " lifecycle client unavailable")), w')
  | (Some sent, w') => (sent, w')
  end.

Definition deliver (p : publisher W) (e : LifecycleEvent) : publisher W :=
  match Marshal (event_proto e) with
  | Err _ => p
  | Ok payload =>
      foldl (fun p (target : string * Z) =>
               match Do (delivery target.1 target.2 payload) ctx (retry p) (world p) with
               | (Some _, w, _) => say (mkPublisher (retry p) (queue p) (cancelled p) (reports p) w) (Failed target.1 e)
               | (None, w, _) => say (mkPublisher (retry p) (queue p) (cancelled p) (reports p) w) (Delivered target.1 e)
               end) p targets
  end.

(** One turn of [run] that takes an event; [None] when there is none. *)
Definition run_step (p : publisher W) : option (publisher W) :=
  match queue p with
  | [] => None
  | e :: q => Some (deliver (set_queue p q) e)
  end.

Definition Close (p : publisher W) : publisher W :=
  mkPublisher (retry p) (queue p) true (reports p) (world p).

End publisher.

(** ** The consumer *)

Record SessionLifecycleConsumer := mkConsumer {
  latestEpoch : gmap string Z;
  eventIDs : gset string
}.

Definition NewSessionLifecycleConsumer : SessionLifecycleConsumer := mkConsumer ∅ ∅.

Definition LatestEpoch (c : SessionLifecycleConsumer) (sessionID : string) : Z :=
  default 0 (latestEpoch c !! sessionID).

Definition Accept (c : SessionLifecycleConsumer) (e : SessionLifecycleEvent) : bool * SessionLifecycleConsumer :=
  if bool_decide (pb_EventId e ∈ eventIDs c) then (false, c)
  else if pb_ConnectionEpoch e <? LatestEpoch c (pb_SessionId e) then (false, c)
  else
    (true,
     mkConsumer
       (if LatestEpoch c (pb_SessionId e) <? pb_ConnectionEpoch e
        then <[pb_SessionId e := pb_ConnectionEpoch e]> (latestEpoch c) else latestEpoch c)
       ({[pb_EventId e]} ∪ eventIDs c)).

(** [handle] never replies; the flag tells whether the event was accepted. *)
Definition handle `{ProtoMessage SessionLifecycleEvent} (c : SessionLifecycleConsumer) (envelope : InternalEnvelope) :
    option error * bool * SessionLifecycleConsumer :=
  match Unmarshal (Payload envelope) with
  | Err e => (Some e, false, c)
  | Ok e =>
      if bool_decide (pb_EventId e = "") || bool_decide (pb_SessionId e = "") || (pb_ConnectionEpoch e =? 0)
      then (None, false, c)
      else let '(ok, c') := Accept c e in (None, ok, c')
  end.

(** The events a consumer accepts from a sequence, in order. *)
Fixpoint accepted (c : SessionLifecycleConsumer) (es : list SessionLifecycleEvent) : list SessionLifecycleEvent :=
  match es with
  | [] => []
  | e :: es => let '(ok, c') := Accept c e in if ok then e :: accepted c' es else accepted c' es
  end.

Definition consume (c : SessionLifecycleConsumer) (es : list SessionLifecycleEvent) : SessionLifecycleConsumer :=
  foldl (fun c e => (Accept c e).2) c es.

Lemma Accept_true c e c' : Accept c e = (true, c') ->
  pb_EventId e ∉ eventIDs c /\ LatestEpoch c (pb_SessionId e) <= pb_ConnectionEpoch e /\
  eventIDs c' = {[pb_EventId e]} ∪ eventIDs c /\
  forall sid, LatestEpoch c' sid = if bool_decide (sid = pb_SessionId e) then pb_ConnectionEpoch e else LatestEpoch c sid.
Proof.
  unfold Accept. case_bool_decide as Hin; [done|]. destruct (_ <? LatestEpoch _ _) eqn:E1; [done|].
  intros [= <-]. breflect. split_and!; [done|done|done|]. intros sid. unfold LatestEpoch in *. simpl.
  destruct (_ <? pb_ConnectionEpoch e) eqn:E2; breflect; case_bool_decide as Hs.
  - subst sid. by rewrite lookup_insert_eq.
  - by rewrite lookup_insert_ne by done.
  - subst sid. lia.
  - done.
Qed.

Lemma Accept_false c e c' : Accept c e = (false, c') -> c' = c.
Proof.
  unfold Accept. case_bool_decide; [by intros [= <-]|]. destruct (_ <? LatestEpoch _ _); [by intros [= <-]|done].
Qed.

Lemma accepted_fresh c es e : e ∈ accepted c es ->
  pb_EventId e ∉ eventIDs c /\ LatestEpoch c (pb_SessionId e) <= pb_ConnectionEpoch e.
Proof.
  revert c. induction es as [|x es IH]; intros c; simpl; [intros Hx; by apply not_elem_of_nil in Hx|].
  destruct (Accept c x) as [[] c'] eqn:Ea; [|apply Accept_false in Ea as ->; apply IH].
  apply Accept_true in Ea as (Hn & Hle & Hids & Hep).
  intros [->|Hin]%elem_of_cons; [done|]. apply IH in Hin as [Hni Hle']. rewrite Hids in Hni. rewrite Hep in Hle'.
  split; [set_solver|]. case_bool_decide as Hs; [|done]. rewrite Hs. lia.
Qed.

Lemma accepted_sorted c es i j ei ej : accepted c es !! i = Some ei -> accepted c es !! j = Some ej ->
  (i < j)%nat -> pb_SessionId ei = pb_SessionId ej -> pb_ConnectionEpoch ei <= pb_ConnectionEpoch ej.
Proof.
  revert c i j. induction es as [|x es IH]; intros c i j; simpl; [done|].
  destruct (Accept c x) as [[] c'] eqn:Ea; [|apply IH].
  intros Hi Hj Hlt Hs. destruct j as [|j]; [lia|]. destruct i as [|i]; simpl in *.
  - injection Hi as <-. apply list_elem_of_lookup_2, accepted_fresh in Hj as [_ Hle].
    apply Accept_true in Ea as (_ & _ & _ & Hep). rewrite Hep, bool_decide_true in Hle by done. done.
  - by apply (IH c' i j); [..|lia|].
Qed.

Lemma accepted_nodup c es : NoDup (pb_EventId <$> accepted c es).
Proof.
  revert c. induction es as [|x es IH]; intros c; simpl; [constructor|].
  destruct (Accept c x) as [[] c'] eqn:Ea; [|apply IH]. cbn. constructor; [|apply IH].
  intros (e & Hid & Hin)%list_elem_of_fmap. apply accepted_fresh in Hin as [Hni _].
  apply Accept_true in Ea as (_ & _ & Hids & _). apply Hni. rewrite Hids, Hid. set_solver.
Qed.

Lemma consume_latest c es sid :
  LatestEpoch (consume c es) sid =
    foldl (fun m e => if bool_decide (pb_SessionId e = sid) then pb_ConnectionEpoch e else m)
      (LatestEpoch c sid) (accepted c es).
Proof.
  revert c. induction es as [|x es IH]; intros c; simpl; [done|].
  destruct (Accept c x) as [[] c'] eqn:Ea; simpl.
  - rewrite IH. f_equal. apply Accept_true in Ea as (_ & _ & _ & Hep). rewrite Hep.
    destruct (decide (sid = pb_SessionId x)) as [->|]; [by rewrite !bool_decide_true|].
    by rewrite !bool_decide_false by congruence.
  - apply Accept_false in Ea as ->. by rewrite IH.
Qed.

(** Whatever sequence of lifecycle events reaches a service, repeated, reordered or
    late, the events it accepts have pairwise different ids and, session by session, never
    go back to an earlier connection epoch, so a disconnect of a replaced connection that
    arrives after the resumption is not acted upon; and the latest epoch it reports for a
    session is that of the last event it accepted for it. *)
Theorem consumer_accepts_forward es :
  let acc := accepted NewSessionLifecycleConsumer es in
  NoDup (pb_EventId <$> acc) /\
  (forall i j ei ej, acc !! i = Some ei -> acc !! j = Some ej -> (i < j)%nat ->
     pb_SessionId ei = pb_SessionId ej -> pb_ConnectionEpoch ei <= pb_ConnectionEpoch ej) /\
  (forall sid, LatestEpoch (consume NewSessionLifecycleConsumer es) sid =
     default 0 (pb_ConnectionEpoch <$> last (filter (fun e => pb_SessionId e = sid) acc))).
Proof.
  intros acc. split_and!; [apply accepted_nodup|apply accepted_sorted|].
  intros sid. rewrite consume_latest. fold acc. change (LatestEpoch NewSessionLifecycleConsumer sid) with 0.
  generalize 0 at 1 2. induction acc as [|e l IH]; intros d; simpl; [done|].
  rewrite IH, filter_cons. destruct (decide (pb_SessionId e = sid)).
  - rewrite bool_decide_true, last_cons by done. by destruct (last _).
  - by rewrite bool_decide_false by done.
Qed.

(** ** From the queue to the services *)

Section delivery.
Context {W : Type} `{ProtoMessage SessionLifecycleEvent}.
Context (client_SendEvent : string -> InternalEnvelope -> W -> option (option error) * W) (ctx : Z -> option error).

(** The publisher with its callers: [published] are the events accepted into the queue, in order. *)
Inductive pub_step : publisher W * list LifecycleEvent -> publisher W * list LifecycleEvent -> Prop :=
  | p_publish p es e coin :
      pub_step (p, es)
        (Publish p e coin, if (length (queue p) <? length (queue (Publish p e coin)))%nat then es ++ [e] else es)
  | p_run p es p' : run_step client_SendEvent ctx p = Some p' -> pub_step (p, es) (p', es)
  | p_close p es : pub_step (p, es) (Close p, es).

(** The events reported as delivered or failed to a target, in order. *)
Definition handled (target : string) (rs : list report) : list LifecycleEvent :=
  omap (fun r => match r with
                 | Failed t e => if bool_decide (t = target) then Some e else None
                 | Delivered t e => if bool_decide (t = target) then Some e else None
                 | Dropped _ => None
                 end) rs.

Definition marshals (e : LifecycleEvent) : bool := is_ok (Marshal (event_proto e)).

Lemma deliver_handled p e target : target ∈ targets.*1 ->
  handled target (reports (deliver client_SendEvent ctx p e)) =
    handled target (reports p) ++ (if marshals e then [e] else []) /\
  queue (deliver client_SendEvent ctx p e) = queue p.
Proof.
  intros Ht. unfold deliver, marshals. destruct (Marshal (event_proto e)) as [payload|]; simpl; [|by rewrite app_nil_r].
  destruct (Do _ _ _ (world p)) as [[[e1|] w1] l1]; simpl; destruct (Do _ _ _ w1) as [[[e2|] w2] l2]; simpl;
    unfold handled; rewrite !omap_app; simpl; (split; [|done]); rewrite <- app_assoc; f_equal;
    apply elem_of_cons in Ht as [->|[->|Hx%not_elem_of_nil]%elem_of_cons]; try done.
Qed.


End delivery.

Section runs.

Definition ev (n : Z) : LifecycleEvent := event LifecycleConnected (Session.blank "acc" "c1") n.
#[local] Instance event_codec : ProtoMessage SessionLifecycleEvent := {|
  Marshal _ := Ok "event";
  Unmarshal _ := Err (Text "unused")
|}.
Definition online (_ : string) (_ : InternalEnvelope) (w : unit) : option (option error) * unit := (Some None, w).
Definition two_tries : RetryPolicy := mkPolicy 2 1 10 None false.
Definition idle : publisher unit := mkPublisher two_tries [] false [] tt.

(** Two events published, the first one delivered. *)
Definition half_way : publisher unit :=
  default idle (run_step online (fun _ => None) (Publish (Publish idle (ev 1) false) (ev 2) false)).

Lemma half_way_reached : rtc (pub_step online (fun _ => None)) (idle, []) (half_way, [ev 1; ev 2]).
Proof.
  eapply rtc_l; [apply (p_publish _ _ _ _ (ev 1) false)|]. eapply rtc_l; [apply (p_publish _ _ _ _ (ev 2) false)|].
  apply rtc_once. apply p_run. reflexivity.
Qed.


End runs.

End Lifecycle.
