(* ===== verification/RoomSnapshots.v ===== *)
(** * Room snapshots in MongoDB: [services/battle/repository/mongo]

    The repository of [RoomManager] over a collection. It keeps the promises of
    [RoomManager.SnapshotRepositoryLaws] under two named conditions: this battle process
    is the only one that writes its rooms, and a replacement that reports a failure was
    not applied. *)

From S2P Require Import Prelude Mongo Room RoomManager.
Import Mongo Room RoomManager.

Module RoomSnapshots.

Record playerStateDocument := mkPlayerDoc {
  psd_PlayerID : string;
  psd_HP : Z;
  psd_PositionX : spec_float;
  psd_PositionY : spec_float
}.

Record roomSnapshotDocument := mkRoomDoc {
  rsd_RoomID : Z;
  rsd_Tick : Z;
  rsd_StateVersion : Z;
  rsd_Status : string;
  rsd_Players : list playerStateDocument;
  rsd_UpdatedAt : Z
}.

Definition player_document (p : PlayerState) : playerStateDocument :=
  mkPlayerDoc (PlayerID p) (HP p) (PositionX p) (PositionY p).
Definition player_domain (d : playerStateDocument) : PlayerState :=
  mkPlayer (psd_PlayerID d) (psd_HP d) (psd_PositionX d) (psd_PositionY d).

Section mapper.
Context `{!MapRange string PlayerState} `{BsonDates}.

Definition roomSnapshotDocumentFromDomain (room : Room) : res roomSnapshotDocument :=
  match Validate room with
  | Some e => Err e
  | None => Ok (mkRoomDoc (ID room) (Tick room) (StateVersion room) (Status room)
                  ((fun kp : string * PlayerState => player_document kp.2) <$> range (Players room)) (UpdatedAt room))
  end.

Definition roomSnapshotDomainFromDocument (d : roomSnapshotDocument) : res Room :=
  let room := mkRoom (rsd_RoomID d) (rsd_Tick d) (rsd_StateVersion d) (rsd_Status d) ∅ (rsd_UpdatedAt d) in
  match AddPlayers room (player_domain <$> rsd_Players d) with
  | Err e => Err e
  | Ok room => match Validate room with Some e => Err e | None => Ok room end
  end.

#[export] Instance room_bson : Bson roomSnapshotDocument := fun d =>
  mkRoomDoc (rsd_RoomID d) (rsd_Tick d) (rsd_StateVersion d) (rsd_Status d) (rsd_Players d) (bson_time (rsd_UpdatedAt d)).

(** The room that comes back: its time stamp has the resolution of the database. *)
Definition rounded (r : Room) : Room :=
  mkRoom (ID r) (Tick r) (StateVersion r) (Status r) (Players r) (bson_time (UpdatedAt r)).

Lemma player_roundtrip p : player_domain (player_document p) = p.
Proof. by destruct p. Qed.

Lemma range_players m : keys_ok m ->
  map (fun p => (PlayerID p, p)) (player_domain <$> ((fun kp : string * PlayerState => player_document kp.2) <$> range m))
  = range m.
Proof.
  intros Hk. assert (forall kp, kp ∈ range m -> PlayerID kp.2 = kp.1) as Hr.
  { intros [k p] Hin%elem_of_range. by apply Hk. }
  revert Hr. generalize (range m). induction l as [|[k p] l IH]; intros Hr; [done|]. cbn.
  rewrite player_roundtrip. f_equal.
  - f_equal. apply (Hr (k, p)), list_elem_of_here.
  - apply IH. intros kp Hin. by apply Hr, list_elem_of_further.
Qed.

(** What is saved comes back: a valid room whose players are filed under their own ids
    is turned into a document and back into the same room, but for the time stamp, which is
    rounded down to the millisecond; in whatever order the players are written. *)
Theorem room_document_roundtrip r d :
  keys_ok (Players r) -> bson_time (UpdatedAt r) <> zero_time ->
  roomSnapshotDocumentFromDomain r = Ok d ->
  roomSnapshotDomainFromDocument (bson d) = Ok (rounded r) /\
  UpdatedAt (rounded r) <= UpdatedAt r < UpdatedAt (rounded r) + Millisecond.
Proof.
  intros Hk Hz. unfold roomSnapshotDocumentFromDomain. destruct (Validate r) eqn:Hv; [done|].
  apply Validate_ok in Hv as (H1 & H2 & H3 & _ & Hv). intros [= <-]. split; [|apply bson_time_near].
  unfold roomSnapshotDomainFromDocument. simpl.
  set (ps := player_domain <$> _). set (room0 := mkRoom _ _ _ _ ∅ _).
  assert (map (fun p => (PlayerID p, p)) ps = range (Players r)) as Hps by by apply range_players.
  assert (map PlayerID ps = (range (Players r)).*1) as Hids.
  { rewrite <- Hps. by rewrite <- list_fmap_compose. }
  assert (Forall (fun p => player_Validate p = None) ps) as Hval.
  { apply Forall_forall. intros p Hp. apply (Hv (PlayerID p)), elem_of_range. rewrite <- Hps.
    apply list_elem_of_fmap. by exists p. }
  assert (is_ok (AddPlayers room0 ps) = true) as Hok.
  { apply AddPlayers_complete; [done| |apply Forall_forall; intros; apply lookup_empty].
    rewrite Hids. apply NoDup_range_fst. }
  destruct (AddPlayers room0 ps) as [room|] eqn:Ea; [|done]. apply AddPlayers_map in Ea as (-> & _ & _).
  assert (set_Players room0 (list_to_map (map (fun p => (PlayerID p, p)) ps) ∪ Players room0) = rounded r) as ->.
  { unfold set_Players, rounded. simpl. f_equal. rewrite Hps, (right_id_L ∅ (∪)).
    rewrite (list_to_map_proper _ (map_to_list (Players r))); [by rewrite list_to_map_to_list|apply NoDup_range_fst|apply range_perm]. }
  by rewrite (proj2 (Validate_ok (rounded r))).
Qed.

Lemma domain_facts d r : roomSnapshotDomainFromDocument d = Ok r ->
  ID r = rsd_RoomID d /\ keys_ok (Players r) /\
  forall p, p ∈ rsd_Players d -> is_Some (Players r !! psd_PlayerID p).
Proof.
  unfold roomSnapshotDomainFromDocument. destruct (AddPlayers _ _) as [room|] eqn:Ea; [|done].
  destruct (Validate room); [done|]. intros [= <-].
  assert (keys_ok (Players room)) as Hk by (refine (AddPlayers_keys _ _ _ _ Ea); apply map_Forall_empty).
  apply AddPlayers_map in Ea as (-> & Hnd & _). simpl in *. split_and!; [done|done|].
  intros p Hp. rewrite (right_id_L ∅ (∪)). exists (player_domain p).
  apply elem_of_list_to_map_1.
  - by rewrite <- list_fmap_compose.
  - apply list_elem_of_fmap. exists (player_domain p). split; [done|]. apply list_elem_of_fmap. eauto.
Qed.

End mapper.

(** ** The repository *)

Definition rooms_collection : collection_of (list roomSnapshotDocument) roomSnapshotDocument := {|
  get v := v;
  put l _ := l;
  conflict d d' := rsd_RoomID d =? rsd_RoomID d'
|}.

Section repository.
Context `{!MapRange string PlayerState} `{BsonDates}.
Context {S : Type} `{Database S (list roomSnapshotDocument)} `{!Collection S rooms_collection}.

Definition room_filter (roomID : Z) (d : roomSnapshotDocument) : bool := rsd_RoomID d =? roomID.
Definition player_filter (playerID : string) (d : roomSnapshotDocument) : bool :=
  existsb (fun p => bool_decide (psd_PlayerID p = playerID)) (rsd_Players d).

Definition snapshot_Save (room : Room) (s : S) : option error * S :=
  match roomSnapshotDocumentFromDomain room with
  | Err e => (Some e, s)
  | Ok document =>
      match ReplaceOne (C := rooms_collection) Background (room_filter (ID room)) document s with
      | (Err e, s') => (Some (Wrapf "save battle room snapshot" e), s')
      | (Ok _, s') => (None, s')
      end
  end.

Definition snapshot_FindByPlayerID (playerID : string) : prog S Room := fun s =>
  if bool_decide (playerID = "") then (Err ErrPlayerNotInRoom, s)
  else match FindLatest (C := rooms_collection) Background (player_filter playerID) rsd_UpdatedAt s with
       | (Err e, s') =>
           (Err (if errors_Is e ErrNoDocuments then ErrRoomNotFound else Wrapf "find battle room snapshot" e), s')
       | (Ok document, s') => (roomSnapshotDomainFromDocument document, s')
       end.

Definition stored_rooms (l : list roomSnapshotDocument) : gmap Z Room :=
  list_to_map (omap (fun d => match roomSnapshotDomainFromDocument d with
                              | Ok r => Some (rsd_RoomID d, r) | Err _ => None end) l).

#[export] Instance mongo_snapshots : SnapshotRepository S := {|
  Save := snapshot_Save;
  FindByPlayerID := snapshot_FindByPlayerID;
  stored s := stored_rooms (view s);
  persisted := rounded;
  ready s := NoDup (rsd_RoomID <$> (view s : list roomSnapshotDocument));
  time_ok t := bson_time t <> zero_time
|}.

Lemma stored_rooms_lookup l k r : NoDup (rsd_RoomID <$> l) ->
  stored_rooms l !! k = Some r <->
  exists d, d ∈ l /\ rsd_RoomID d = k /\ roomSnapshotDomainFromDocument d = Ok r.
Proof.
  unfold stored_rooms. induction l as [|d l IH]; intros Hnd; [set_solver|]. cbn in Hnd.
  apply NoDup_cons in Hnd as [Hni Hnd]. specialize (IH Hnd). cbn [omap list_omap].
  destruct (roomSnapshotDomainFromDocument d) as [r0|e] eqn:Ed.
  - cbn [list_to_map]. cbn. destruct (decide (rsd_RoomID d = k)) as [<-|Hne].
    + rewrite lookup_insert_eq. split.
      * intros [= <-]. exists d. split_and!; [apply list_elem_of_here|done|done].
      * intros (d' & [->|Hin]%elem_of_cons & Hid & Hr); [congruence|].
        exfalso. apply Hni. rewrite <- Hid. apply list_elem_of_fmap. eauto.
    + rewrite lookup_insert_ne by done. rewrite IH. split.
      * intros (d' & ? & ? & ?). exists d'. split_and!; [by apply list_elem_of_further|done|done].
      * intros (d' & [->|Hin]%elem_of_cons & Hid & Hr); [done|]. eauto.
  - rewrite IH. split.
    + intros (d' & ? & ? & ?). exists d'. split_and!; [by apply list_elem_of_further|done|done].
    + intros (d' & [->|Hin]%elem_of_cons & Hid & Hr); [congruence|]. eauto.
Qed.

Context `{!CollectionLaws S rooms_collection}.
Context (sole_writer : forall v v' : list roomSnapshotDocument, env v v' -> v' = v).
Context (definite : forall c f d s e s', ReplaceOne (C := rooms_collection) c f d s = (Err e, s') -> view s' = view s).

(** A replaced or inserted document: the one with its id is new, the others stay. *)
Lemma replaced_rooms (d : roomSnapshotDocument) l l' : NoDup (rsd_RoomID <$> l) ->
  replaced rooms_collection (room_filter (rsd_RoomID d)) d l l' ->
  NoDup (rsd_RoomID <$> l') /\
  (forall x, x ∈ l' <-> x = d \/ (x ∈ l /\ rsd_RoomID x <> rsd_RoomID d)).
Proof.
  intros Hnd [(l1 & d0 & l2 & Hl & Hf & _ & Hl')|(Hnone & [_ Hl'])]; simpl in Hl'; subst l'.
  - simpl in Hl. subst l. unfold room_filter in Hf. breflect. rewrite fmap_app, fmap_cons in *.
    split; [by rewrite <- Hf|]. apply NoDup_app in Hnd as (_ & Hx & [Hy _]%NoDup_cons).
    assert (forall x, x ∈ l1 -> rsd_RoomID x <> rsd_RoomID d) as Hl1.
    { intros x Hin E. apply (Hx (rsd_RoomID x)); [apply list_elem_of_fmap; eauto|]. rewrite E, <- Hf. apply list_elem_of_here. }
    assert (forall x, x ∈ l2 -> rsd_RoomID x <> rsd_RoomID d) as Hl2.
    { intros x Hin E. apply Hy. rewrite Hf, <- E. apply list_elem_of_fmap. eauto. }
    intros x. rewrite !elem_of_app, !elem_of_cons. split.
    + intros [Hin|[->|Hin]]; [right|by left|right]; eauto.
    + intros [->|[[Hin|[->|Hin]] Hne]]; auto. done.
  - assert (forall x, x ∈ l -> rsd_RoomID x <> rsd_RoomID d) as Hd.
    { intros x Hin E. specialize (Hnone x Hin). unfold room_filter in Hnone. by breflect. }
    split.
    + rewrite fmap_app. apply NoDup_app. split_and!; [done| |apply NoDup_singleton].
      intros k (x & -> & Hin)%list_elem_of_fmap [E|?%not_elem_of_nil]%elem_of_cons; [|done]. by apply (Hd x).
    + intros x. rewrite elem_of_app, list_elem_of_singleton. split; [intros [Hin| ->]; [right|left]; eauto|naive_solver].
Qed.

#[export] Instance mongo_snapshots_laws : SnapshotRepositoryLaws S.
Proof.
  split; simpl.
  - done.
  - intros r s s' Hrd Hk Ht. unfold snapshot_Save.
    destruct (roomSnapshotDocumentFromDomain r) as [d|] eqn:Ed; [|done].
    destruct (ReplaceOne _ _ _ s) as [[[]|e] s1] eqn:Er; [|done]. intros [= <-].
    apply replace_spec in Er as (v1 & [Henv Hrep]). apply sole_writer in Henv as ->.
    destruct (room_document_roundtrip r d Hk Ht Ed) as [Hdom _].
    assert (rsd_RoomID (bson d) = ID r) as Hid by (unfold roomSnapshotDocumentFromDomain in Ed; destruct (Validate r); by simplify_eq).
    rewrite <- Hid in Hrep. destruct (replaced_rooms _ _ _ Hrd Hrep) as [Hnd Hin]. split; [|done].
    apply map_eq. intros k. apply option_eq. intros x. rewrite stored_rooms_lookup by done.
    destruct (decide (k = ID r)) as [->|Hne].
    + rewrite lookup_insert_eq. split.
      * intros (d' & [->|[_ ?]]%Hin & Hk' & Hx); [congruence|congruence].
      * intros [= <-]. exists (bson d). split_and!; [apply Hin; by left|done|done].
    + rewrite lookup_insert_ne, stored_rooms_lookup by done. split.
      * intros (d' & [->|[? ?]]%Hin & Hk' & Hx); [congruence|eauto].
      * intros (d' & ? & ? & ?). exists d'. split_and!; [|done|done]. apply Hin. right. split; [done|congruence].
  - intros r s e s'. unfold snapshot_Save. destruct (roomSnapshotDocumentFromDomain r) as [d|]; [|by intros [= _ <-]].
    destruct (ReplaceOne _ _ _ s) as [[[]|e'] s1] eqn:Er; [done|]. intros [= _ <-]. apply definite in Er. by rewrite Er.
  - intros p s r s' Hrd. unfold snapshot_FindByPlayerID. case_bool_decide; [done|].
    destruct (FindLatest _ _ _ s) as [[d|e] s1] eqn:Ef; [|done]. intros [= Hd <-].
    apply find_latest_spec in Ef as [[Henv [Hin Hf]] _]. apply sole_writer in Henv. simpl in Hin.
    apply domain_facts in Hd as Hfacts. destruct Hfacts as (Hid & Hk & Hp).
    split_and!; [|unfold player_filter in Hf; apply existsb_exists in Hf as (q & Hq%list_elem_of_In & E); breflect; subst p; by apply Hp|done].
    rewrite Hid. apply stored_rooms_lookup; [done|]. exists d. rewrite <- Henv. done.
  - intros p s r s'. unfold snapshot_FindByPlayerID. case_bool_decide; [by intros [= _ <-]|].
    destruct (FindLatest _ _ _ s) as [rf s1] eqn:Ef. apply find_latest_spec in Ef as [[Henv _] _].
    apply sole_writer in Henv. destruct rf; intros [= _ <-]; by rewrite Henv.
Qed.

End repository.

(** ** Runs on a database in memory with a single writer *)

Section runs.
#[local] Existing Instance canonical_range.

Definition saved_duel : roomSnapshotDocument :=
  mkRoomDoc 7 0 1 "created" (player_document <$> [alice; bob]) 1234567.

Lemma room_document_roundtrip_witness :
  roomSnapshotDomainFromDocument (bson (mkRoomDoc 7 0 1 "created"
    ((fun kp : string * PlayerState => player_document kp.2) <$> range (Players duel)) 1000)) = Ok (rounded duel) /\
  UpdatedAt (rounded duel) = 0.
Proof.
  split; [|vm_compute; reflexivity].
  apply (room_document_roundtrip duel _ duel_keys); vm_compute; [discriminate|reflexivity].
Defined.

End runs.

End RoomSnapshots.
