(* ===== verification/UserStore.v ===== *)
(** * The user center's records and repositories: [services/usercenter/domain],
      [services/usercenter/repository/mongo]

    Accounts, identities, refresh tokens and idempotency records, the documents they are
    stored as, and the repositories over the collections of [Mongo]. [wall] stands for
    the [time.Now()] of the mapper. *)

From S2P Require Import Prelude Mongo.
Import Mongo.

Module UserStore.

(** ** Domain *)

Definition ErrAccountNotFound := Sentinel "usercenter.ErrAccountNotFound" "account not found".
Definition ErrIdentityNotFound := Sentinel "usercenter.ErrIdentityNotFound" "identity not found".
Definition ErrInvalidAccount := Sentinel "usercenter.ErrInvalidAccount" "invalid account".
Definition ErrInvalidIdentity := Sentinel "usercenter.ErrInvalidIdentity" "invalid identity".
Definition ErrInvalidToken := Sentinel "usercenter.ErrInvalidToken" "invalid refresh token".
Definition ErrPlayerLinked := Sentinel "usercenter.ErrPlayerLinked" "player is already linked".
Definition ErrInvalidIdempotency := Sentinel "usercenter.ErrInvalidIdempotency" "invalid idempotency record".
Definition ErrIdempotencyConflict := Sentinel "usercenter.ErrIdempotencyConflict" "idempotency key conflict".
Definition ErrIdempotencyLeaseLost := Sentinel "usercenter.ErrIdempotencyLeaseLost" "idempotency lease lost".
Definition ErrIdempotencyNotFound :=
  Sentinel "usercenter.ErrIdempotencyNotFound" "idempotency record not found".
Definition ErrTransactionRequired :=
  Sentinel "usercenter.ErrTransactionRequired" "mongo transaction unit of work is required".

Definition AuthProviderGuest : string := "guest".
Definition AuthProviderPassword : string := "password".

Record Identity := mkIdentity {
  IID : string;
  IAccountID : string;
  Provider : string;
  Subject : string;
  PasswordHash : string;
  LinkedAt : Z
}.

Definition identity_Validate (i : Identity) : option error :=
  if bool_decide (Provider i = "") || bool_decide (Subject i = "") then Some ErrInvalidIdentity
  else if bool_decide (Provider i = AuthProviderPassword) && bool_decide (PasswordHash i = "")
  then Some ErrInvalidIdentity
  else None.

Record Account := mkAccount {
  ID : string;
  Identities : list Identity;
  PlayerIDs : list string;
  CreatedAt : Z;
  UpdatedAt : Z
}.

Definition identityKey (i : Identity) : string := Provider i +:+ String Ascii.zero "" +:+ Subject i.

Fixpoint validate_identities (identityKeys : gset string) (l : list Identity) : option error :=
  match l with
  | [] => None
  | identity :: l =>
      match identity_Validate identity with
      | Some e => Some e
      | None =>
          if bool_decide (identityKey identity ∈ identityKeys) then Some ErrInvalidAccount
          else validate_identities ({[identityKey identity]} ∪ identityKeys) l
      end
  end.

Fixpoint validate_players (playerIDs : gset string) (l : list string) : option error :=
  match l with
  | [] => None
  | playerID :: l =>
      if bool_decide (playerID = "") then Some ErrInvalidAccount
      else if bool_decide (playerID ∈ playerIDs) then Some ErrInvalidAccount
      else validate_players ({[playerID]} ∪ playerIDs) l
  end.

Definition account_Validate (a : Account) : option error :=
  if bool_decide (ID a = "") then Some ErrInvalidAccount
  else match validate_identities ∅ (Identities a) with
       | Some e => Some e
       | None => validate_players ∅ (PlayerIDs a)
       end.

Definition is_identity (provider subject : string) (i : Identity) : bool :=
  bool_decide (Provider i = provider) && bool_decide (Subject i = subject).

Definition FindIdentity (a : Account) (provider subject : string) : option Identity :=
  snd <$> list_find (fun i => is_identity provider subject i = true) (Identities a).

Definition AddIdentity (a : Account) (identity : Identity) : option error * Account :=
  match identity_Validate identity with
  | Some _ => (Some ErrInvalidIdentity, a)
  | None =>
      match FindIdentity a (Provider identity) (Subject identity) with
      | Some _ => (Some ErrInvalidIdentity, a)
      | None =>
          let identity := mkIdentity (IID identity) (ID a) (Provider identity) (Subject identity)
                            (PasswordHash identity) (LinkedAt identity) in
          (None, mkAccount (ID a) (Identities a ++ [identity]) (PlayerIDs a) (CreatedAt a) (UpdatedAt a))
      end
  end.

Definition HasPlayer (a : Account) (playerID : string) : bool :=
  negb (bool_decide (playerID = "")) && existsb (fun linked => bool_decide (linked = playerID)) (PlayerIDs a).

Definition account_LinkPlayer (a : Account) (playerID : string) (wall : Z) : option error * Account :=
  if bool_decide (ID a = "") || bool_decide (playerID = "") then (Some ErrInvalidAccount, a)
  else if HasPlayer a playerID then (Some ErrPlayerLinked, a)
  else (None, mkAccount (ID a) (Identities a) (PlayerIDs a ++ [playerID]) (CreatedAt a) wall).

Record RefreshToken := mkToken {
  TID : string;
  TAccountID : string;
  TokenHash : string;
  InstallID : string;
  TCreatedAt : Z;
  TExpiresAt : Z;
  RevokedAt : option Z
}.

Definition token_Validate (t : RefreshToken) (now : Z) : option error :=
  if bool_decide (TAccountID t = "") || bool_decide (TokenHash t = "") || bool_decide (InstallID t = "") ||
     time_IsZero (TExpiresAt t)
  then Some ErrInvalidToken
  else if negb (time_Before now (TExpiresAt t)) then Some ErrInvalidToken
  else match RevokedAt t with Some _ => Some ErrInvalidToken | None => None end.

Definition IsUsable (t : RefreshToken) (now : Z) (installID : string) : bool :=
  negb (bool_decide (installID = "")) && bool_decide (InstallID t = installID) &&
  match token_Validate t now with None => true | Some _ => false end.

Definition token_Revoke (t : RefreshToken) (now : Z) : option error * RefreshToken :=
  if bool_decide (TokenHash t = "") then (Some ErrInvalidToken, t)
  else (None, match RevokedAt t with
              | Some _ => t
              | None => mkToken (TID t) (TAccountID t) (TokenHash t) (InstallID t) (TCreatedAt t)
                          (TExpiresAt t) (Some now)
              end).

Definition StatePending : string := "pending".
Definition StateCompleted : string := "completed".

Record IdempotencyRecord := mkRecord {
  Key : string;
  Operation : string;
  RAccountID : string;
  RequestHash : string;
  Response : string;
  State : string;
  ReservationID : string;
  LeaseUntil : Z;
  RCreatedAt : Z;
  RExpiresAt : Z
}.

Definition set_State (r : IdempotencyRecord) (state : string) : IdempotencyRecord :=
  mkRecord (Key r) (Operation r) (RAccountID r) (RequestHash r) (Response r) state (ReservationID r)
    (LeaseUntil r) (RCreatedAt r) (RExpiresAt r).

(** [Validate] fills in a missing state. *)
Definition record_Validate (r : IdempotencyRecord) (now : Z) : res IdempotencyRecord :=
  if bool_decide (Key r = "") || bool_decide (Operation r = "") || bool_decide (RequestHash r = "") ||
     time_IsZero (RExpiresAt r)
  then Err ErrInvalidIdempotency
  else
    let r := if bool_decide (State r = "") then set_State r StateCompleted else r in
    if negb (bool_decide (State r = StatePending)) && negb (bool_decide (State r = StateCompleted))
    then Err ErrInvalidIdempotency
    else if negb (time_Before now (RExpiresAt r)) then Err ErrInvalidIdempotency
    else Ok r.

Definition IsCompleted (r : IdempotencyRecord) : bool :=
  bool_decide (State r = "") || bool_decide (State r = StateCompleted).

Definition IsExpired (r : IdempotencyRecord) (now : Z) : bool := negb (time_Before now (RExpiresAt r)).

(** ** Documents

    The field of a document that is omitted when empty is an option where a filter
    looks at it. *)

Inductive ids_field := Missing | Null | Array (ids : list string).

Record accountDocument := mkAccountDoc {
  acd_AccountID : string;
  acd_PlayerIDs : ids_field;
  acd_CreatedAt : Z;
  acd_UpdatedAt : Z
}.

Record identityDocument := mkIdentityDoc {
  idd_IdentityID : string;
  idd_AccountID : string;
  idd_Provider : string;
  idd_Subject : string;
  idd_PasswordHash : string;
  idd_LinkedAt : Z
}.

Record refreshTokenDocument := mkTokenDoc {
  td_TokenID : string;
  td_AccountID : string;
  td_TokenHash : string;
  td_InstallID : string;
  td_CreatedAt : Z;
  td_ExpiresAt : Z;
  td_RevokedAt : option Z
}.

Record idempotencyDocument := mkIdemDoc {
  im_Key : string;
  im_Operation : string;
  im_AccountID : string;
  im_RequestHash : string;
  im_Response : string;
  im_State : string;
  im_ReservationID : option string;
  im_LeaseUntil : option Z;
  im_CreatedAt : Z;
  im_ExpiresAt : Z
}.

(** ** Mapper: [mapper.go] *)

Definition cloneTime (value : option Z) : option Z :=
  match value with None => None | Some cloned => Some cloned end.

Definition accountDocumentFromDomain (a : Account) : res accountDocument :=
  match account_Validate a with
  | Some e => Err e
  | None => Ok (mkAccountDoc (ID a) (Array (PlayerIDs a)) (CreatedAt a) (UpdatedAt a))
  end.

Definition identityDomainFromDocument (d : identityDocument) : Identity :=
  mkIdentity (idd_IdentityID d) (idd_AccountID d) (idd_Provider d) (idd_Subject d) (idd_PasswordHash d)
    (idd_LinkedAt d).

Definition accountDomainFromDocument (d : accountDocument) (identities : list identityDocument) : res Account :=
  let account := mkAccount (acd_AccountID d) (identityDomainFromDocument <$> identities)
                   (match acd_PlayerIDs d with Array ids => ids | _ => [] end)
                   (acd_CreatedAt d) (acd_UpdatedAt d) in
  match account_Validate account with
  | Some e => Err e
  | None => Ok account
  end.

Definition identityDocumentFromDomain (i : Identity) : res identityDocument :=
  match identity_Validate i with
  | Some e => Err e
  | None =>
      if bool_decide (IAccountID i = "") then Err ErrInvalidIdentity
      else Ok (mkIdentityDoc (IID i) (IAccountID i) (Provider i) (Subject i) (PasswordHash i) (LinkedAt i))
  end.

Definition refreshTokenDocumentFromDomain (t : RefreshToken) (wall : Z) : res refreshTokenDocument :=
  if bool_decide (TAccountID t = "") || bool_decide (TokenHash t = "") || bool_decide (InstallID t = "") ||
     time_IsZero (TExpiresAt t)
  then Err ErrInvalidToken
  else if match RevokedAt t with None => negb (time_Before wall (TExpiresAt t)) | Some _ => false end
  then Err ErrInvalidToken
  else Ok (mkTokenDoc (TID t) (TAccountID t) (TokenHash t) (InstallID t) (TCreatedAt t) (TExpiresAt t)
             (cloneTime (RevokedAt t))).

Definition refreshTokenDomainFromDocument (d : refreshTokenDocument) : RefreshToken :=
  mkToken (td_TokenID d) (td_AccountID d) (td_TokenHash d) (td_InstallID d) (td_CreatedAt d) (td_ExpiresAt d)
    (cloneTime (td_RevokedAt d)).

(** The validated record comes back: [Validate] changes it in place. *)
Definition idempotencyDocumentFromDomain (r : IdempotencyRecord) (wall : Z) :
    res (idempotencyDocument * IdempotencyRecord) :=
  match record_Validate r wall with
  | Err e => Err e
  | Ok r =>
      Ok (mkIdemDoc (Key r) (Operation r) (RAccountID r) (RequestHash r) (Response r) (State r)
            (if bool_decide (ReservationID r = "") then None else Some (ReservationID r))
            (if time_IsZero (LeaseUntil r) then None else Some (LeaseUntil r))
            (RCreatedAt r) (RExpiresAt r), r)
  end.

Definition idempotencyDomainFromDocument (d : idempotencyDocument) : IdempotencyRecord :=
  mkRecord (im_Key d) (im_Operation d) (im_AccountID d) (im_RequestHash d) (im_Response d) (im_State d)
    (default "" (im_ReservationID d)) (default zero_time (im_LeaseUntil d)) (im_CreatedAt d) (im_ExpiresAt d).

(** ** The database: what the indexes of [indexes.go] make unique *)

Record user_db := mkDb {
  accounts : list accountDocument;
  identities : list identityDocument;
  tokens : list refreshTokenDocument;
  records : list idempotencyDocument
}.

Definition accounts_collection : collection_of user_db accountDocument := {|
  get := accounts;
  put l v := mkDb l (identities v) (tokens v) (records v);
  conflict d d' := bool_decide (acd_AccountID d = acd_AccountID d')
|}.
Definition same_subject (d d' : identityDocument) : bool :=
  bool_decide (idd_Provider d = idd_Provider d') && bool_decide (idd_Subject d = idd_Subject d').
Definition identities_collection : collection_of user_db identityDocument := {|
  get := identities;
  put l v := mkDb (accounts v) l (tokens v) (records v);
  conflict d d' := bool_decide (idd_IdentityID d = idd_IdentityID d') || same_subject d d'
|}.
Definition tokens_collection : collection_of user_db refreshTokenDocument := {|
  get := tokens;
  put l v := mkDb (accounts v) (identities v) l (records v);
  conflict d d' := bool_decide (td_TokenID d = td_TokenID d') || bool_decide (td_TokenHash d = td_TokenHash d')
|}.
Definition records_collection : collection_of user_db idempotencyDocument := {|
  get := records;
  put l v := mkDb (accounts v) (identities v) (tokens v) l;
  conflict d d' := bool_decide (im_Key d = im_Key d')
|}.

Section dates.
Context `{BsonDates}.

#[export] Instance account_bson : Bson accountDocument := fun d =>
  mkAccountDoc (acd_AccountID d) (acd_PlayerIDs d) (bson_time (acd_CreatedAt d)) (bson_time (acd_UpdatedAt d)).
#[export] Instance identity_bson : Bson identityDocument := fun d =>
  mkIdentityDoc (idd_IdentityID d) (idd_AccountID d) (idd_Provider d) (idd_Subject d) (idd_PasswordHash d)
    (bson_time (idd_LinkedAt d)).
#[export] Instance token_bson : Bson refreshTokenDocument := fun d =>
  mkTokenDoc (td_TokenID d) (td_AccountID d) (td_TokenHash d) (td_InstallID d) (bson_time (td_CreatedAt d))
    (bson_time (td_ExpiresAt d)) (bson_time <$> td_RevokedAt d).
#[export] Instance record_bson : Bson idempotencyDocument := fun d =>
  mkIdemDoc (im_Key d) (im_Operation d) (im_AccountID d) (im_RequestHash d) (im_Response d) (im_State d)
    (im_ReservationID d) (bson_time <$> im_LeaseUntil d) (bson_time (im_CreatedAt d)) (bson_time (im_ExpiresAt d)).

(** *** Filters and updates

    A time in a filter or an update is a BSON date too. *)

Definition link_filter (accountID : string) (d : accountDocument) : bool :=
  bool_decide (acd_AccountID d = accountID).
Definition unlinked_filter (accountID : string) (d : accountDocument) : bool :=
  bool_decide (acd_AccountID d = accountID) && match acd_PlayerIDs d with Array _ => false | _ => true end.
Definition normalize_update (d : accountDocument) : option accountDocument :=
  Some (mkAccountDoc (acd_AccountID d) (Array []) (acd_CreatedAt d) (acd_UpdatedAt d)).

(** [$addToSet] creates a missing array and refuses a field that is null. *)
Definition link_update (playerID : string) (now : Z) (d : accountDocument) : option accountDocument :=
  match acd_PlayerIDs d with
  | Null => None
  | Missing => Some (mkAccountDoc (acd_AccountID d) (Array [playerID]) (acd_CreatedAt d) (bson_time now))
  | Array ids =>
      Some (mkAccountDoc (acd_AccountID d)
              (Array (if bool_decide (playerID ∈ ids) then ids else ids ++ [playerID]))
              (acd_CreatedAt d) (bson_time now))
  end.

Definition unrevoked (d : refreshTokenDocument) : bool :=
  match td_RevokedAt d with None => true | Some _ => false end.
Definition valid_filter (tokenHash : string) (now : Z) (d : refreshTokenDocument) : bool :=
  bool_decide (td_TokenHash d = tokenHash) && unrevoked d && (bson_time now <? td_ExpiresAt d).
Definition revoke_filter (tokenID : string) (d : refreshTokenDocument) : bool :=
  bool_decide (td_TokenID d = tokenID) && unrevoked d.
Definition rotate_filter (tokenID : string) (now : Z) (d : refreshTokenDocument) : bool :=
  revoke_filter tokenID d && (bson_time now <? td_ExpiresAt d).
Definition revoke_update (now : Z) (d : refreshTokenDocument) : option refreshTokenDocument :=
  Some (mkTokenDoc (td_TokenID d) (td_AccountID d) (td_TokenHash d) (td_InstallID d) (td_CreatedAt d)
          (td_ExpiresAt d) (Some (bson_time now))).

Definition key_filter (key : string) (now : Z) (d : idempotencyDocument) : bool :=
  bool_decide (im_Key d = key) && (bson_time now <? im_ExpiresAt d).
Definition expired (now : Z) (d : idempotencyDocument) : bool := im_ExpiresAt d <=? bson_time now.
Definition lease_over (now : Z) (d : idempotencyDocument) : bool :=
  match im_LeaseUntil d with Some lease => lease <=? bson_time now | None => false end.
Definition pending (d : idempotencyDocument) : bool := bool_decide (im_State d = StatePending).
Definition reserved_by (reservationID : string) (d : idempotencyDocument) : bool :=
  bool_decide (im_ReservationID d = Some reservationID).

Definition stale_filter (key : string) (now : Z) (d : idempotencyDocument) : bool :=
  bool_decide (im_Key d = key) && (expired now d || (pending d && lease_over now d)).
Definition claim_filter (key reservationID : string) (now : Z) (d : idempotencyDocument) : bool :=
  bool_decide (im_Key d = key) && pending d && reserved_by reservationID d && lease_over now d.
Definition claim_update (reservationID : string) (lease : Z) (d : idempotencyDocument) :
    option idempotencyDocument :=
  Some (mkIdemDoc (im_Key d) (im_Operation d) (im_AccountID d) (im_RequestHash d) (im_Response d) (im_State d)
          (Some reservationID) (Some (bson_time lease)) (im_CreatedAt d) (im_ExpiresAt d)).
Definition owner_filter (key reservationID : string) (d : idempotencyDocument) : bool :=
  bool_decide (im_Key d = key) && pending d && reserved_by reservationID d.
Definition live_owner_filter (key reservationID : string) (now : Z) (d : idempotencyDocument) : bool :=
  owner_filter key reservationID d && (bson_time now <? im_ExpiresAt d).
Definition complete_update (response : string) (d : idempotencyDocument) : option idempotencyDocument :=
  Some (mkIdemDoc (im_Key d) (im_Operation d) (im_AccountID d) (im_RequestHash d) response StateCompleted
          (im_ReservationID d) None (im_CreatedAt d) (im_ExpiresAt d)).
Definition renew_update (lease : Z) (d : idempotencyDocument) : option idempotencyDocument :=
  Some (mkIdemDoc (im_Key d) (im_Operation d) (im_AccountID d) (im_RequestHash d) (im_Response d) (im_State d)
          (im_ReservationID d) (Some (bson_time lease)) (im_CreatedAt d) (im_ExpiresAt d)).
Definition recover_filter (now : Z) (d : idempotencyDocument) : bool :=
  pending d && (lease_over now d || expired now d).

End dates.

(** ** Repositories *)

Section repositories.
Context {S : Type} `{Database S user_db} `{BsonDates}.
Context `{!Collection S accounts_collection, !Collection S identities_collection,
          !Collection S tokens_collection, !Collection S records_collection}.

(** The failure of an insertion, as the repositories report it. *)
Definition create_error (what : string) (e : error) : error :=
  if IsDuplicateKeyError e then Wrapf (what +:+ ": duplicate key") e else Wrapf what e.

Definition AccountRepository_Create (c : context) (account : Account) : prog S unit := fun s =>
  match accountDocumentFromDomain account with
  | Err e => (Err e, s)
  | Ok document =>
      match InsertOne (C := accounts_collection) c document s with
      | (Err e, s') => (Err (create_error "create account" e), s')
      | (Ok _, s') => (Ok tt, s')
      end
  end.

Definition AccountRepository_FindByID (c : context) (accountID : string) : prog S Account := fun s =>
  if bool_decide (accountID = "") then (Err ErrInvalidAccount, s)
  else match FindOne (C := accounts_collection) c (link_filter accountID) s with
       | (Err e, s') => (Err (if errors_Is e ErrNoDocuments then ErrAccountNotFound else Wrapf "find account" e), s')
       | (Ok document, s') => (accountDomainFromDocument document [], s')
       end.

Definition AccountRepository_LinkPlayer (c : context) (accountID playerID : string) (now : Z) : prog S unit := fun s =>
  if bool_decide (accountID = "") || bool_decide (playerID = "") then (Err ErrInvalidAccount, s)
  else match UpdateOne (C := accounts_collection) c (unlinked_filter accountID) normalize_update s with
       | (Err e, s1) => (Err (Wrapf "normalize player links" e), s1)
       | (Ok _, s1) =>
           match UpdateOne (C := accounts_collection) c (link_filter accountID) (link_update playerID now) s1 with
           | (Err e, s2) => (Err (Wrapf "link player" e), s2)
           | (Ok matched, s2) => (if matched =? 0 then Err ErrAccountNotFound else Ok tt, s2)
           end
       end.

Definition IdentityRepository_Create (c : context) (identity : Identity) : prog S unit := fun s =>
  match identityDocumentFromDomain identity with
  | Err e => (Err e, s)
  | Ok document =>
      match InsertOne (C := identities_collection) c document s with
      | (Err e, s') => (Err (create_error "create identity" e), s')
      | (Ok _, s') => (Ok tt, s')
      end
  end.

Definition identity_filter (provider subject : string) (d : identityDocument) : bool :=
  bool_decide (idd_Provider d = provider) && bool_decide (idd_Subject d = subject).

Definition IdentityRepository_Find (c : context) (provider subject : string) : prog S Identity := fun s =>
  if bool_decide (provider = "") || bool_decide (subject = "") then (Err ErrInvalidIdentity, s)
  else match FindOne (C := identities_collection) c (identity_filter provider subject) s with
       | (Err e, s') => (Err (if errors_Is e ErrNoDocuments then ErrIdentityNotFound else Wrapf "find identity" e), s')
       | (Ok document, s') => (Ok (identityDomainFromDocument document), s')
       end.

Definition TokenRepository_Create (c : context) (token : RefreshToken) (wall : Z) : prog S unit := fun s =>
  match refreshTokenDocumentFromDomain token wall with
  | Err e => (Err e, s)
  | Ok document =>
      match InsertOne (C := tokens_collection) c document s with
      | (Err e, s') => (Err (create_error "create refresh token" e), s')
      | (Ok _, s') => (Ok tt, s')
      end
  end.

Definition FindValid (c : context) (tokenHash : string) (now : Z) : prog S RefreshToken := fun s =>
  if bool_decide (tokenHash = "") then (Err ErrInvalidToken, s)
  else match FindOne (C := tokens_collection) c (valid_filter tokenHash now) s with
       | (Err e, s') => (Err (if errors_Is e ErrNoDocuments then ErrInvalidToken else Wrapf "find refresh token" e), s')
       | (Ok document, s') => (Ok (refreshTokenDomainFromDocument document), s')
       end.

Definition Revoke (c : context) (tokenID : string) (now : Z) : prog S unit := fun s =>
  match UpdateOne (C := tokens_collection) c (revoke_filter tokenID) (revoke_update now) s with
  | (Err e, s') => (Err (Wrapf "revoke refresh token" e), s')
  | (Ok matched, s') => (if matched =? 0 then Err ErrInvalidToken else Ok tt, s')
  end.

(** The function [Rotate] runs in its transaction. *)
Definition rotate (tokenID : string) (now : Z) (replacement : refreshTokenDocument) : txn_body S := fun c s =>
  match UpdateOne (C := tokens_collection) c (rotate_filter tokenID now) (revoke_update now) s with
  | (Err e, s1) => (Err (Wrapf "rotate refresh token revoke" e), s1)
  | (Ok matched, s1) =>
      if negb (matched =? 1) then (Err ErrInvalidToken, s1)
      else match InsertOne (C := tokens_collection) c replacement s1 with
           | (Err e, s2) => (Err (Wrapf "rotate refresh token insert" e), s2)
           | (Ok _, s2) => (Ok tt, s2)
           end
  end.

Definition Rotate (unitOfWork : option (option (MongoUnitOfWork S))) (tokenID : string) (now : Z)
    (replacement : RefreshToken) (wall : Z) : prog S unit := fun s =>
  match unitOfWork with
  | None => (Err ErrTransactionRequired, s)
  | Some u =>
      if bool_decide (tokenID = "") then (Err ErrInvalidToken, s)
      else match refreshTokenDocumentFromDomain replacement wall with
           | Err e => (Err e, s)
           | Ok document => Execute u (Some (rotate tokenID now document)) s
           end
  end.

End repositories.

(** ** The steps of the user center's database

    What user center processes and the expiry of documents do to the database, one
    committed effect at a time. [known] holds token hashes handed out before: the hash of
    a fresh random token is none of them. [horizon] bounds the clocks of the processes and
    of the server: nothing that expires later is dropped as expired. *)

Section steps.
Context `{BsonDates} (known : gset string) (horizon : Z).
Implicit Types (v : user_db).

Definition has_account (accountID : string) v : Prop :=
  exists a, a ∈ accounts v /\ acd_AccountID a = accountID.

(** A token that was just issued. *)
Definition fresh_token (d : refreshTokenDocument) : Prop := td_TokenHash d ∉ known /\ td_RevokedAt d = None.

Inductive user_step : user_db -> user_db -> Prop :=
  (** accounts *)
  | step_register a i d v v1 v2 v' :
      inserted accounts_collection a v v1 -> inserted identities_collection i v1 v2 ->
      inserted tokens_collection d v2 v' ->
      acd_PlayerIDs a = Array [] -> idd_AccountID i = acd_AccountID a -> td_AccountID d = acd_AccountID a ->
      (idd_Provider i = AuthProviderPassword -> idd_PasswordHash i <> "") -> fresh_token d ->
      user_step v v'
  | step_normalize account a v v' :
      updated accounts_collection (unlinked_filter account) normalize_update a v v' -> user_step v v'
  | step_link account player now a v v' :
      updated accounts_collection (link_filter account) (link_update player now) a v v' -> user_step v v'
  (** tokens *)
  | step_token d v v' :
      has_account (td_AccountID d) v -> fresh_token d -> inserted tokens_collection d v v' -> user_step v v'
  | step_rotate id now d d' v v1 v' :
      updated tokens_collection (rotate_filter id now) (revoke_update now) d' v v1 ->
      inserted tokens_collection d v1 v' -> has_account (td_AccountID d) v -> fresh_token d -> user_step v v'
  | step_revoke id now d' v v' :
      updated tokens_collection (revoke_filter id) (revoke_update now) d' v v' -> user_step v v'
  | step_drop_token f v v' : removed tokens_collection f v v' -> user_step v v'
  (** idempotency records *)
  | step_record d v v' : inserted records_collection d v v' -> user_step v v'
  | step_claim key old new now lease d' v v' :
      updated records_collection (claim_filter key old now) (claim_update new lease) d' v v' -> user_step v v'
  | step_complete key id now response d' v v' :
      updated records_collection (live_owner_filter key id now) (complete_update response) d' v v' -> user_step v v'
  | step_renew key id now lease d' v v' :
      updated records_collection (live_owner_filter key id now) (renew_update lease) d' v v' -> user_step v v'
  | step_release key id v v' : removed records_collection (owner_filter key id) v v' -> user_step v v'
  | step_stale key now v v' :
      now < horizon -> removed records_collection (stale_filter key now) v v' -> user_step v v'
  | step_recover now v v' :
      v' = put records_collection (filter (fun d => recover_filter now d = false) (records v)) v -> user_step v v'
  | step_expire now v v' : now < horizon -> removed records_collection (expired now) v v' -> user_step v v'.

(** ** The invariant *)

Record users_ok v : Prop := {
  accounts_unique : NoDup (acd_AccountID <$> accounts v);
  players_linked_once a ids : a ∈ accounts v -> acd_PlayerIDs a = Array ids -> NoDup ids;
  identities_unique i j : i ∈ identities v -> j ∈ identities v -> same_subject i j = true -> i = j;
  identity_owner i : i ∈ identities v -> has_account (idd_AccountID i) v;
  identity_password i : i ∈ identities v -> idd_Provider i = AuthProviderPassword -> idd_PasswordHash i <> "";
  tokens_unique : NoDup (td_TokenHash <$> tokens v);
  token_ids_unique : NoDup (td_TokenID <$> tokens v);
  token_owner d : d ∈ tokens v -> has_account (td_AccountID d) v;
  records_unique : NoDup (im_Key <$> records v)
}.

Definition empty_db : user_db := mkDb [] [] [] [].

Lemma empty_users_ok : users_ok empty_db.
Proof.
  split; simpl; try constructor; intros; by match goal with H : _ ∈ [] |- _ => apply not_elem_of_nil in H end.
Qed.

Lemma not_clashes {Doc} (C : collection_of user_db Doc) d v :
  ~ clashes C d v -> forall d', d' ∈ get C v -> conflict C d d' = false.
Proof. intros Hc d' Hd. destruct (conflict C d d') eqn:E; [|done]. destruct Hc. by exists d'. Qed.

Lemma same_subject_sym i j : same_subject i j = same_subject j i.
Proof. unfold same_subject. f_equal; apply bool_decide_ext; naive_solver. Qed.

(** The collections may be changed one at a time. *)
Lemma with_records l v : NoDup (im_Key <$> l) -> users_ok v -> users_ok (put records_collection l v).
Proof. intros Hl [?????????]. by split. Qed.

Lemma with_tokens l v : NoDup (td_TokenHash <$> l) -> NoDup (td_TokenID <$> l) ->
  (forall d, d ∈ l -> has_account (td_AccountID d) v) -> users_ok v -> users_ok (put tokens_collection l v).
Proof. intros ??? [?????????]. by split. Qed.

Lemma with_account l1 a l2 a' v : accounts v = l1 ++ a :: l2 -> acd_AccountID a' = acd_AccountID a ->
  (forall ids, acd_PlayerIDs a' = Array ids -> NoDup ids) ->
  users_ok v -> users_ok (put accounts_collection (l1 ++ a' :: l2) v).
Proof.
  intros Hl Hid Hids Hok.
  assert (forall id, has_account id v -> has_account id (put accounts_collection (l1 ++ a' :: l2) v)) as Ho.
  { intros id (b & Hb & <-). rewrite Hl in Hb.
    apply (elem_of_middle _ _ a') in Hb as [->|Hb]; [exists a'; set_solver|by exists b]. }
  destruct Hok as [Hu ? ? ? ? ? ? ? ?]. split; simpl; try done; eauto.
  - rewrite Hl in Hu. by eapply NoDup_fmap_middle.
  - intros b ids [Hb|[->|Hb]%elem_of_cons]%elem_of_app; [| |];
      eauto; match goal with H : context [accounts v] |- _ => eapply H; rewrite Hl; set_solver end.
Qed.

Lemma insert_token d v v' : inserted tokens_collection d v v' -> has_account (td_AccountID d) v ->
  users_ok v -> users_ok v'.
Proof.
  intros [Hc ->] Ho Hok. pose proof (not_clashes _ _ _ Hc) as Hn. simpl in Hn.
  apply with_tokens; [| | |done].
  - apply NoDup_fmap_snoc; [apply Hok|]. intros d' Hd E. specialize (Hn d' Hd).
    rewrite (bool_decide_true (td_TokenHash d = _)), orb_true_r in Hn by done. done.
  - apply NoDup_fmap_snoc; [apply Hok|]. intros d' Hd E. specialize (Hn d' Hd).
    rewrite (bool_decide_true (td_TokenID d = _)) in Hn by done. done.
  - intros d' [Hd|[->|?%not_elem_of_nil]%elem_of_cons]%elem_of_app; [by apply (token_owner v Hok)|done|done].
Qed.

Lemma update_token f now d' v v' : updated tokens_collection f (revoke_update now) d' v v' ->
  users_ok v -> users_ok v'.
Proof.
  intros (l1 & d & l2 & Hl & _ & [= <-] & ->) Hok. simpl in Hl.
  pose proof (tokens_unique v Hok) as Hh. pose proof (token_ids_unique v Hok) as Hi.
  pose proof (token_owner v Hok) as Ho. rewrite Hl in Hh, Hi, Ho.
  apply with_tokens; [by eapply NoDup_fmap_middle; [|done]|by eapply NoDup_fmap_middle; [|done]| |done].
  intros d' [Hd|[->|Hd]%elem_of_cons]%elem_of_app; [apply Ho; set_solver| |apply Ho; set_solver].
  simpl. apply (Ho d). set_solver.
Qed.

Lemma removed_sublist {Doc} (C : collection_of user_db Doc) f v v' : removed C f v v' ->
  exists l, v' = put C l v /\ l `sublist_of` get C v /\ forall d, d ∈ get C v -> f d = false -> d ∈ l.
Proof.
  intros (l1 & d & l2 & Hl & Hf & ->). exists (l1 ++ l2). rewrite Hl. split_and!; [done| |].
  - apply sublist_app; [done|]. by apply sublist_cons.
  - intros d' [?|[->|?]%elem_of_cons]%elem_of_app Hn; [set_solver|congruence|set_solver].
Qed.

Lemma updated_record f u d' v v' : updated records_collection f u d' v v' ->
  (forall d, u d = Some d' -> im_Key d' = im_Key d) -> users_ok v -> users_ok v'.
Proof.
  intros (l1 & d & l2 & Hl & _ & Hu & ->) Hk Hok. apply with_records; [|done].
  simpl in Hl. pose proof (records_unique v Hok) as Hr. rewrite Hl in Hr.
  eapply NoDup_fmap_middle; [by apply Hk|done].
Qed.

Lemma register_ok a i d v v1 v2 v' :
  inserted accounts_collection a v v1 -> inserted identities_collection i v1 v2 ->
  inserted tokens_collection d v2 v' -> acd_PlayerIDs a = Array [] ->
  idd_AccountID i = acd_AccountID a -> td_AccountID d = acd_AccountID a ->
  (idd_Provider i = AuthProviderPassword -> idd_PasswordHash i <> "") -> users_ok v -> users_ok v'.
Proof.
  intros [Hca ->] [Hci ->] Hd Hp Hi Ht Hpw Hok.
  pose proof (not_clashes _ _ _ Hca) as Hna. pose proof (not_clashes _ _ _ Hci) as Hni. simpl in Hna, Hni.
  assert (forall id, has_account id v \/ id = acd_AccountID a ->
    has_account id (mkDb (accounts v ++ [a]) (identities v ++ [i]) (tokens v) (records v))) as Ho.
  { intros id [(b & Hb & <-)| ->]; [exists b|exists a]; set_solver. }
  eapply insert_token; [exact Hd|rewrite Ht; by apply Ho; right|].
  destruct Hok as [Hu Hl Hs Hio Hip ?? Hto ?]. split; simpl; try done; eauto.
  - apply NoDup_fmap_snoc; [done|]. intros b Hb E. specialize (Hna b Hb). by rewrite bool_decide_true in Hna.
  - intros b ids [Hb|[->|?%not_elem_of_nil]%elem_of_cons]%elem_of_app E; [by eapply Hl| |done].
    rewrite Hp in E. injection E as <-. constructor.
  - intros j k [Hj|[->|?%not_elem_of_nil]%elem_of_cons]%elem_of_app
      [Hk|[->|?%not_elem_of_nil]%elem_of_cons]%elem_of_app E; try done.
    + by apply Hs.
    + specialize (Hni j Hj). rewrite same_subject_sym, E, orb_true_r in Hni. done.
    + specialize (Hni k Hk). rewrite E, orb_true_r in Hni. done.
  - intros j [Hj|[->|?%not_elem_of_nil]%elem_of_cons]%elem_of_app; [apply Ho; left; by apply Hio| |done].
    apply Ho. by right.
  - intros j [Hj|[->|?%not_elem_of_nil]%elem_of_cons]%elem_of_app; [by apply Hip|done|done].
Qed.

Lemma link_update_once player now a a' : link_update player now a = Some a' ->
  (forall ids, acd_PlayerIDs a = Array ids -> NoDup ids) ->
  acd_AccountID a' = acd_AccountID a /\ forall ids, acd_PlayerIDs a' = Array ids -> NoDup ids.
Proof.
  unfold link_update. destruct (acd_PlayerIDs a) as [| |ids] eqn:E; intros [= <-] Hids; simpl; (split; [done|]);
    intros ids' [= <-]; [apply NoDup_singleton|].
  case_bool_decide as Hin; [by apply Hids|]. apply NoDup_app. split_and!; [by apply Hids| |apply NoDup_singleton].
  set_solver.
Qed.

Lemma step_users_ok v v' : user_step v v' -> users_ok v -> users_ok v'.
Proof.
  intros Hs Hok. pose proof (records_unique v Hok) as Hr.
  destruct Hs as [a i d ???? Ha Hi Hd Hp ? ? ? _|? a ?? (l1 & a0 & l2 & Hl & _ & [= <-] & ->)
    |? pl now a ?? (l1 & a0 & l2 & Hl & _ & Hu & ->)|d ?? Ho _ Hd|? ? d d' ? v1 ? Hu Hd Ho _|? ? d' ?? Hu
    |? ?? (l & -> & Hsub & _)%removed_sublist|d ?? [Hc ->]|? ? ? ? ? d' ?? Hu|? ? ? ? d' ?? Hu|? ? ? ? d' ?? Hu
    |? ? ?? (l & -> & Hsub & _)%removed_sublist|? ? ?? _ (l & -> & Hsub & _)%removed_sublist|? ?? ->
    |? ?? _ (l & -> & Hsub & _)%removed_sublist].
  - by eapply register_ok.
  - eapply with_account; [exact Hl|done| |done]. intros ids [= <-]. constructor.
  - apply link_update_once in Hu as [E Hids]; [by eapply with_account|].
    intros ids E. eapply (players_linked_once v Hok a0); [|done]. simpl in Hl. rewrite Hl. set_solver.
  - by eapply insert_token.
  - eapply insert_token; [exact Hd| |by eapply update_token].
    destruct Hu as (? & ? & ? & _ & _ & _ & ->). exact Ho.
  - by eapply update_token.
  - apply with_tokens; [eapply NoDup_fmap_sublist; [done|apply Hok]..| |done].
    intros d Hd. apply (token_owner v Hok). by eapply elem_of_sublist.
  - apply with_records; [|done]. apply NoDup_fmap_snoc; [done|]. intros d' Hd E.
    pose proof (not_clashes _ _ _ Hc d' Hd) as Hn. simpl in Hn. by rewrite bool_decide_true in Hn.
  - eapply updated_record; [exact Hu| |done]. by intros d [= <-].
  - eapply updated_record; [exact Hu| |done]. by intros d [= <-].
  - eapply updated_record; [exact Hu| |done]. by intros d [= <-].
  - apply with_records; [|done]. by eapply NoDup_fmap_sublist.
  - apply with_records; [|done]. by eapply NoDup_fmap_sublist.
  - apply with_records; [|done]. eapply NoDup_fmap_sublist; [apply sublist_filter|done].
  - apply with_records; [|done]. by eapply NoDup_fmap_sublist.
Qed.

Lemma steps_users_ok v v' : rtc user_step v v' -> users_ok v -> users_ok v'.
Proof. induction 1; [done|]. eauto using step_users_ok. Qed.

(** What stays: identities, accounts, completed records before they expire, and the
    spent tokens among the known ones. *)

Lemma step_identities v v' : user_step v v' ->
  (forall i, i ∈ identities v -> i ∈ identities v') /\ (forall id, has_account id v -> has_account id v').
Proof.
  assert (forall l1 a l2 (b : accountDocument) w, accounts w = l1 ++ a :: l2 -> acd_AccountID b = acd_AccountID a ->
    forall id, has_account id w -> has_account id (put accounts_collection (l1 ++ b :: l2) w)) as Hacc.
  { intros l1 a l2 b w Hl E id (x & Hx & <-). rewrite Hl in Hx.
    apply (elem_of_middle _ _ b) in Hx as [->|Hx]; [exists b; set_solver|by exists x]. }
  intros Hs. destruct Hs as [a i d ???? [_ ->] [_ ->] [_ ->] _ _ _ _ _
    |? a ?? (l1 & a0 & l2 & Hl & _ & [= <-] & ->)|? pl now a ?? (l1 & a0 & l2 & Hl & _ & Hu & ->)
    |d ?? _ _ [_ ->]|? ? d d' ? v1 ? (? & ? & ? & _ & _ & _ & ->) [_ ->] _ _|? ? d' ?? (? & ? & ? & _ & _ & _ & ->)
    |? ?? (? & ? & ? & _ & _ & ->)|d ?? [_ ->]|? ? ? ? ? d' ?? (? & ? & ? & _ & _ & _ & ->)
    |? ? ? ? d' ?? (? & ? & ? & _ & _ & _ & ->)|? ? ? ? d' ?? (? & ? & ? & _ & _ & _ & ->)
    |? ? ?? (? & ? & ? & _ & _ & ->)|? ? ?? _ (? & ? & ? & _ & _ & ->)|? ?? ->|? ?? _ (? & ? & ? & _ & _ & ->)];
    try done.
  - split; [set_solver|]. intros id (x & Hx & <-). exists x. set_solver.
  - split; [done|]. by apply (Hacc _ a0).
  - split; [done|]. apply (Hacc _ a0); [done|]. unfold link_update in Hu. by destruct (acd_PlayerIDs a0); simplify_eq.
Qed.

Lemma steps_identities v v' : rtc user_step v v' ->
  (forall i, i ∈ identities v -> i ∈ identities v') /\ (forall id, has_account id v -> has_account id v').
Proof. induction 1 as [|v1 v2 v3 Hs _ [IHi IHa]]; [done|]. apply step_identities in Hs as [? ?]. split; eauto. Qed.

(** A record that is not pending and does not expire before the horizon. *)
Definition settled (d : idempotencyDocument) v : Prop :=
  d ∈ records v /\ pending d = false /\ horizon <= im_ExpiresAt d.

Lemma not_expired now d : now < horizon -> horizon <= im_ExpiresAt d -> expired now d = false.
Proof. intros. unfold expired. pose proof (bson_time_near now). apply Z.leb_gt. lia. Qed.

(** An update of pending records leaves the others alone. *)
Lemma updated_keeps f u d' v v' d : updated records_collection f u d' v v' ->
  (forall x, f x = true -> pending x = true) -> d ∈ records v -> pending d = false -> d ∈ records v'.
Proof.
  intros (l1 & d0 & l2 & Hl & Hf & _ & ->) Hp Hin Hd. simpl in *. rewrite Hl in Hin.
  apply (elem_of_middle _ _ d') in Hin as [->|Hin]; [|done].
  rewrite (Hp d0) in Hd by done. done.
Qed.

Lemma step_settled v v' d : user_step v v' -> settled d v -> settled d v'.
Proof.
  intros Hs (Hd & Hp & He).
  assert (d ∈ records v') as Hin; [|by split].
  destruct Hs as [a i ? ???? [_ ->] [_ ->] [_ ->] _ _ _ _ _
    |? a ?? (l1 & a0 & l2 & Hl & _ & [= <-] & ->)|? pl now a ?? (l1 & a0 & l2 & Hl & _ & Hu & ->)
    |? ?? _ _ [_ ->]|? ? ? ? ? v1 ? (? & ? & ? & _ & _ & _ & ->) [_ ->] _ _|? ? ? ?? (? & ? & ? & _ & _ & _ & ->)
    |? ?? (? & ? & ? & _ & _ & ->)|? ?? [_ ->]|? ? ? ? ? ? ?? Hu|? ? ? ? ? ?? Hu|? ? ? ? ? ?? Hu
    |? ? ?? (l & -> & _ & Hl)%removed_sublist|? now ?? Hnow (l & -> & _ & Hl)%removed_sublist|now ?? ->
    |now ?? Hnow (l & -> & _ & Hl)%removed_sublist];
    try done; simpl.
  - set_solver.
  - eapply updated_keeps; [exact Hu| |done..]. unfold claim_filter. intros x Hx. by breflect.
  - eapply updated_keeps; [exact Hu| |done..]. unfold live_owner_filter, owner_filter. intros x Hx. by breflect.
  - eapply updated_keeps; [exact Hu| |done..]. unfold live_owner_filter, owner_filter. intros x Hx. by breflect.
  - apply Hl; [done|]. unfold owner_filter. by rewrite Hp, andb_false_r.
  - apply Hl; [done|]. unfold stale_filter. by rewrite Hp, not_expired, andb_false_r.
  - apply list_elem_of_filter. split; [|done]. unfold recover_filter. by rewrite Hp.
  - apply Hl; [done|]. by apply not_expired.
Qed.

Lemma steps_settled v v' d : rtc user_step v v' -> settled d v -> settled d v'.
Proof. induction 1; [done|]. eauto using step_settled. Qed.

(** What is true of all tokens of a known hash, and not undone by a revocation, stays. *)
Definition of_hash (h : string) (Q : refreshTokenDocument -> Prop) v : Prop :=
  forall d, d ∈ tokens v -> td_TokenHash d = h -> Q d.

Section of_hash.
Context (h : string) (Hknown : h ∈ known) (Q : refreshTokenDocument -> Prop).
Context (Hrevoke : forall now d d', revoke_update now d = Some d' -> Q d -> Q d').

Lemma insert_of_hash d v v' : fresh_token d -> inserted tokens_collection d v v' -> of_hash h Q v -> of_hash h Q v'.
Proof.
  intros [Hf _] [_ ->] Hs d' [Hd|[->|?%not_elem_of_nil]%elem_of_cons]%elem_of_app E; [by apply Hs| |done].
  congruence.
Qed.

Lemma revoke_of_hash f now d' v v' : updated tokens_collection f (revoke_update now) d' v v' ->
  of_hash h Q v -> of_hash h Q v'.
Proof.
  intros (l1 & d & l2 & Hl & _ & Hu & ->) Hs x Hx E. simpl in *. unfold of_hash in Hs. rewrite Hl in Hs.
  apply (elem_of_middle _ _ d) in Hx as [->|Hx]; [|by apply Hs].
  eapply Hrevoke; [exact Hu|]. apply Hs; [set_solver|]. by injection Hu as <-.
Qed.

Lemma step_of_hash v v' : user_step v v' -> of_hash h Q v -> of_hash h Q v'.
Proof.
  intros Hs Hsp.
  destruct Hs as [a i d ???? [_ ->] [_ ->] Hd _ _ _ _ Hf
    |? a ?? (l1 & a0 & l2 & Hl & _ & [= <-] & ->)|? pl now a ?? (l1 & a0 & l2 & Hl & _ & Hu & ->)
    |? ?? _ Hf Hd|? ? ? ? ? v1 ? Hu Hd _ Hf|? ? ? ?? Hu
    |? ?? (l & -> & Hsub & _)%removed_sublist|? ?? [_ ->]|? ? ? ? ? d' ?? (? & ? & ? & _ & _ & _ & ->)
    |? ? ? ? d' ?? (? & ? & ? & _ & _ & _ & ->)|? ? ? ? d' ?? (? & ? & ? & _ & _ & _ & ->)
    |? ? ?? (? & ? & ? & _ & _ & ->)|? ? ?? _ (? & ? & ? & _ & _ & ->)|? ?? ->|? ?? _ (? & ? & ? & _ & _ & ->)];
    try done.
  - by eapply insert_of_hash.
  - by eapply insert_of_hash.
  - eapply insert_of_hash; [done|exact Hd|]. by eapply revoke_of_hash.
  - by eapply revoke_of_hash.
  - intros d Hd. apply Hsp. by eapply elem_of_sublist.
Qed.

Lemma steps_of_hash v v' : rtc user_step v v' -> of_hash h Q v -> of_hash h Q v'.
Proof. induction 1; [done|]. eauto using step_of_hash. Qed.

End of_hash.

(** No unrevoked token has this hash. *)
Definition spent (h : string) v : Prop := of_hash h (fun d => unrevoked d = false) v.

Lemma steps_spent h v v' : h ∈ known -> rtc user_step v v' -> spent h v -> spent h v'.
Proof. intros Hh. apply steps_of_hash; [done|]. by intros now d d' [= <-]. Qed.

(** All tokens of the hash have this token id. *)
Definition hash_id (h id : string) v : Prop := of_hash h (fun d => td_TokenID d = id) v.

Lemma steps_hash_id h id v v' : h ∈ known -> rtc user_step v v' -> hash_id h id v -> hash_id h id v'.
Proof. intros Hh. apply steps_of_hash; [done|]. by intros now d d' [= <-]. Qed.

(** Revoking the token of an id spends the hash that belongs to it. *)
Lemma revoked_spent h id f now d' v v' : users_ok v -> hash_id h id v ->
  (forall d, f d = true -> td_TokenID d = id) ->
  updated tokens_collection f (revoke_update now) d' v v' -> spent h v'.
Proof.
  intros Hok Hi Hf (l1 & d & l2 & Hl & Hfd & [= <-] & ->) x Hx E. simpl in *. apply Hf in Hfd.
  pose proof (token_ids_unique v Hok) as Hnd. unfold hash_id, of_hash in Hi. rewrite Hl in Hnd, Hi.
  rewrite fmap_app, fmap_cons in Hnd. apply NoDup_app in Hnd as (_ & Hl1 & [Hl2 _]%NoDup_cons).
  apply elem_of_app in Hx as [Hx|[->|Hx]%elem_of_cons]; [|done|]; exfalso.
  - apply (Hl1 (td_TokenID d)); [|set_solver]. apply list_elem_of_fmap. exists x. split; [|done].
    rewrite Hfd. symmetry. apply Hi; [set_solver|done].
  - apply Hl2. apply list_elem_of_fmap. exists x. split; [|done]. rewrite Hfd. symmetry. apply Hi; [set_solver|done].
Qed.

End steps.

End UserStore.
