(* ===== verification/Idempotency.v ===== *)
(** * Idempotent requests: [idempotency_repository.go] and the protocol around it in
      [domain_auth_component.go] of the user center

    A request that carries an idempotency key is executed under a reservation of the key,
    and its response is recorded; later requests with the key are answered from the
    record. Clock readings, random ids and [wall] (the [time.Now()] of the mapper) are
    arguments. The goroutine that renews a lease runs beside the operation: its writes
    are among the steps other clients may take at any time, and the error it leaves
    behind is an argument of [executeReserved]. *)

From S2P Require Import Prelude Mongo Proto UserStore.
Import Mongo Proto UserStore.

Module Idempotency.

Section repository.
Context {S : Type} `{Database S user_db} `{BsonDates}.
Context `{!Collection S records_collection}.

Definition Find (c : context) (key : string) (now : Z) : prog S IdempotencyRecord := fun s =>
  if bool_decide (key = "") then (Err ErrInvalidIdempotency, s)
  else match FindOne (C := records_collection) c (key_filter key now) s with
       | (Err e, s') =>
           (Err (if errors_Is e ErrNoDocuments then ErrIdempotencyNotFound
                 else Wrapf "find idempotency record" e), s')
       | (Ok document, s') => (Ok (idempotencyDomainFromDocument document), s')
       end.

Definition Create (c : context) (record : IdempotencyRecord) (wall : Z) : prog S unit := fun s =>
  match idempotencyDocumentFromDomain record wall with
  | Err e => (Err e, s)
  | Ok (document, _) =>
      match InsertOne (C := records_collection) c document s with
      | (Err e, s') =>
          (Err (if IsDuplicateKeyError e then ErrIdempotencyConflict
                else Wrapf "create idempotency record" e), s')
      | (Ok _, s') => (Ok tt, s')
      end
  end.

(** The end of [Reserve], for the record found under the key. *)
Definition reserve_current (c : context) (record current : IdempotencyRecord) (now : Z) :
    prog S (IdempotencyRecord * bool) := fun s =>
  if negb (bool_decide (Operation current = Operation record)) ||
     negb (bool_decide (RequestHash current = RequestHash record))
  then (Err ErrIdempotencyConflict, s)
  else if IsCompleted current then (Ok (current, false), s)
  else if time_After (LeaseUntil current) now then (Ok (current, false), s)
  else
    match FindOneAndUpdate (C := records_collection) c
            (claim_filter (Key record) (ReservationID current) now)
            (claim_update (ReservationID record) (LeaseUntil record)) s with
    | (Err e, s1) =>
        if errors_Is e ErrNoDocuments then
          match Find c (Key record) now s1 with
          | (Err findErr, s2) => (Err findErr, s2)
          | (Ok latest, s2) => (Ok (latest, false), s2)
          end
        else (Err (Wrapf "claim idempotency record" e), s1)
    | (Ok claimed, s1) => (Ok (idempotencyDomainFromDocument claimed, true), s1)
    end.

(** The record and whether it is the caller's reservation. *)
Definition Reserve (c : context) (record : IdempotencyRecord) (now wall : Z) :
    prog S (IdempotencyRecord * bool) := fun s =>
  let record := if bool_decide (State record = "") then set_State record StatePending else record in
  if bool_decide (ReservationID record = "") || time_IsZero (LeaseUntil record)
  then (Err ErrInvalidIdempotency, s)
  else match record_Validate record now with
  | Err e => (Err e, s)
  | Ok record =>
      match idempotencyDocumentFromDomain record wall with
      | Err e => (Err e, s)
      | Ok (document, record) =>
          match InsertOne (C := records_collection) c document s with
          | (Ok _, s1) => (Ok (record, true), s1)
          | (Err e, s1) =>
              if negb (IsDuplicateKeyError e) then (Err (Wrapf "reserve idempotency record" e), s1)
              else match Find c (Key record) now s1 with
              | (Ok current, s2) => reserve_current c record current now s2
              | (Err e, s2) =>
                  if errors_Is e ErrIdempotencyNotFound then
                    match DeleteOne (C := records_collection) c (stale_filter (Key record) now) s2 with
                    | (Err deleteErr, s3) => (Err (Wrapf "remove stale idempotency record" deleteErr), s3)
                    | (Ok deleted, s3) =>
                        if deleted =? 1 then
                          match InsertOne (C := records_collection) c document s3 with
                          | (Ok _, s4) => (Ok (record, true), s4)
                          | (Err insertErr, s4) =>
                              if negb (IsDuplicateKeyError insertErr)
                              then (Err (Wrapf "reserve idempotency record after stale cleanup" insertErr), s4)
                              else match Find c (Key record) now s4 with
                                   | (Err e, s5) => (Err e, s5)
                                   | (Ok current, s5) => reserve_current c record current now s5
                                   end
                          end
                        else (Err e, s3)
                    end
                  else (Err e, s2)
              end
          end
      end
  end.

Definition Complete (c : context) (key reservationID response : string) (now : Z) : prog S unit := fun s =>
  match UpdateOne (C := records_collection) c (live_owner_filter key reservationID now)
          (complete_update response) s with
  | (Err e, s') => (Err (Wrapf "complete idempotency record" e), s')
  | (Ok matched, s') => (if matched =? 0 then Err ErrIdempotencyConflict else Ok tt, s')
  end.

Definition Release (c : context) (key reservationID : string) : prog S unit := fun s =>
  match DeleteOne (C := records_collection) c (owner_filter key reservationID) s with
  | (Err e, s') => (Err (Wrapf "release idempotency record" e), s')
  | (Ok _, s') => (Ok tt, s')
  end.

Definition Renew (c : context) (key reservationID : string) (leaseUntil now : Z) : prog S unit := fun s =>
  if bool_decide (key = "") || bool_decide (reservationID = "") || negb (time_After leaseUntil now)
  then (Err ErrInvalidIdempotency, s)
  else match UpdateOne (C := records_collection) c (live_owner_filter key reservationID now)
               (renew_update leaseUntil) s with
       | (Err e, s') => (Err (Wrapf "renew idempotency lease" e), s')
       | (Ok matched, s') => (if matched =? 0 then Err ErrIdempotencyLeaseLost else Ok tt, s')
       end.

Definition RecoverExpired (c : context) (now : Z) : prog S Z := fun s =>
  match DeleteMany (C := records_collection) c (recover_filter now) s with
  | (Err e, s') => (Err (Wrapf "recover expired idempotency records" e), s')
  | (Ok deleted, s') => (Ok deleted, s')
  end.

End repository.

(** ** The protocol *)

(** What [clearIdempotencyKey] does to a request: its field [idempotency_key] is emptied. *)
Class KeyedRequest (R : Type) := clearIdempotencyKey : R -> R.

Definition GUEST_AUTHENTICATE_RESPONSE : Z := 1101.
Definition REFRESH_AUTHENTICATE_RESPONSE : Z := 1102.
Definition REVOKE_REFRESH_TOKEN_RESPONSE : Z := 1103.
Definition PASSWORD_AUTHENTICATE_RESPONSE : Z := 1104.

Definition responseMessageID (operation : string) : Z :=
  if bool_decide (operation = "guest_authenticate") then GUEST_AUTHENTICATE_RESPONSE
  else if bool_decide (operation = "password_authenticate") then PASSWORD_AUTHENTICATE_RESPONSE
  else if bool_decide (operation = "refresh_authenticate") then REFRESH_AUTHENTICATE_RESPONSE
  else REVOKE_REFRESH_TOKEN_RESPONSE.

Definition replayIdempotency {M} `{ProtoMessage M} (record : IdempotencyRecord) (operation requestHash : string) :
    res (MessageResult M) :=
  if negb (bool_decide (Operation record = operation)) || negb (bool_decide (RequestHash record = requestHash))
  then Err ErrIdempotencyConflict
  else match Unmarshal (Response record) with
       | Err e => Err (Wrapf "unmarshal idempotency response" e)
       | Ok message => Ok (mkResult (responseMessageID operation) message)
       end.

(** The settings of the component: [idempotency] and [coordinator] say whether the fields
    are set (the repository of the module is both), the rest are durations. *)
Record settings := mkSettings {
  idempotency : bool;
  coordinator : bool;
  idempotencyTTL : Z;
  idempotencyLease : Z;
  idempotencyRenewInterval : Z
}.

Definition NewSettings : settings := mkSettings true true (24 * 3600 * Second) (30 * Second) (10 * Second).
Definition WithIdempotencyLease (c : settings) (lease renewInterval : Z) : settings :=
  mkSettings (idempotency c) (coordinator c) (idempotencyTTL c)
    (if 0 <? lease then lease else idempotencyLease c)
    (if 0 <? renewInterval then renewInterval else idempotencyRenewInterval c).
Definition WithIdempotencyTTL (c : settings) (ttl : Z) : settings :=
  mkSettings (idempotency c) (coordinator c) (if 0 <? ttl then ttl else idempotencyTTL c)
    (idempotencyLease c) (idempotencyRenewInterval c).

(** What a reservation and its execution read from outside: a random id, the clock of the
    mapper, the error the renewal left, the clock when the operation is over. *)
Record readings := mkReadings {
  r_now : Z;
  r_uuid : res string;
  r_wall : Z;
  r_lease : option error;
  r_done : Z
}.

Section protocol.
Context {S : Type} `{Database S user_db} `{BsonDates}.
Context `{!Collection S records_collection}.
Context (sha256_hex : string -> string) (ctxErr : error).

(** [renewIdempotencyLease] over the ticks that come before the operation ends: the error
    it leaves in the channel. *)
Fixpoint renew_loop (c : settings) (key reservationID : string) (ticks : list Z) (s : S) : option error * S :=
  match ticks with
  | [] => (None, s)
  | now :: ticks =>
      match Renew Background key reservationID (time_Add now (idempotencyLease c)) now s with
      | (Err e, s') => (Some e, s')
      | (Ok _, s') => renew_loop c key reservationID ticks s'
      end
  end.

(** Go's division of durations truncates. *)
Definition renewIdempotencyLease (c : settings) (key reservationID : string) (ticks : list Z) (s : S) : option error * S :=
  let interval := idempotencyRenewInterval c in
  let interval := if interval <=? 0 then Z.quot (idempotencyLease c) 3 else interval in
  if interval <=? 0 then (None, s) else renew_loop c key reservationID ticks s.

Context {R M : Type} `{ProtoMessage R, KeyedRequest R, ProtoMessage M}.
Implicit Type execute : prog S (MessageResult M).

Definition executeReserved (key reservationID : string) (lease : option error) (done : Z) (execute : prog S (MessageResult M)) :
    prog S (MessageResult M) := fun s =>
  let '(r, s1) := execute s in
  match (match r, lease with Ok _, Some leaseErr => Err leaseErr | r, _ => r end) with
  | Err executeErr =>
      let '(_, s2) := Release Background key reservationID s1 in (Err executeErr, s2)
  | Ok result =>
      match Marshal (Message result) with
      | Err marshalErr =>
          let '(_, s2) := Release Background key reservationID s1 in
          (Err (Wrapf "marshal idempotency response" marshalErr), s2)
      | Ok responseBytes =>
          match Complete Background key reservationID responseBytes done s1 with
          | (Err completeErr, s2) => (Err completeErr, s2)
          | (Ok _, s2) => (Ok result, s2)
          end
      end
  end.

Definition pending_record (c : settings) (key operation requestHash reservationID : string) (now : Z) : IdempotencyRecord :=
  mkRecord key operation "" requestHash "" StatePending reservationID (time_Add now (idempotencyLease c))
    now (time_Add now (idempotencyTTL c)).

(** The look-up of a round of the loop; [again] is the wait and the next round. *)
Definition poll (key operation requestHash : string) (now : Z) (again : prog S (MessageResult M)) :
    prog S (MessageResult M) := fun s =>
  match Find Background key now s with
  | (Ok record, s1) => if IsCompleted record then (replayIdempotency record operation requestHash, s1) else again s1
  | (Err e, s1) => if negb (errors_Is e ErrIdempotencyNotFound) then (Err e, s1) else again s1
  end.

(** A round of the loop of [waitForIdempotency]. *)
Definition wait_round (c : settings) (key operation requestHash : string) (deadline : Z)
    (execute : prog S (MessageResult M)) (t : readings) (again : Z -> prog S (MessageResult M)) :
    prog S (MessageResult M) := fun s =>
  let now := r_now t in
  if time_After now deadline then
    match r_uuid t with
    | Err e => (Err e, s)
    | Ok reservationID =>
        match Reserve Background (pending_record c key operation requestHash reservationID now) now (r_wall t) s with
        | (Err reserveErr, s1) => (Err reserveErr, s1)
        | (Ok (claimed, owns), s1) =>
            if owns then executeReserved key reservationID (r_lease t) (r_done t) execute s1
            else if IsCompleted claimed then (replayIdempotency claimed operation requestHash, s1)
            else poll key operation requestHash now (again (LeaseUntil claimed)) s1
        end
    end
  else poll key operation requestHash now (again deadline) s.

(** The loop: a round per 50 ms, until the context is done. *)
Fixpoint waitForIdempotency (c : settings) (key operation requestHash : string) (deadline : Z)
    (execute : prog S (MessageResult M)) (t : readings) (more : list readings) : prog S (MessageResult M) :=
  wait_round c key operation requestHash deadline execute t (fun deadline =>
    match more with
    | [] => throw ctxErr
    | t' :: more' => waitForIdempotency c key operation requestHash deadline execute t' more'
    end).

(** Without a coordinator: execute, then record the response. *)
Definition executeRecorded (c : settings) (key operation requestHash : string) (t : readings)
    (execute : prog S (MessageResult M)) : prog S (MessageResult M) := fun s =>
  match execute s with
  | (Err e, s1) => (Err e, s1)
  | (Ok result, s1) =>
      match Marshal (Message result) with
      | Err e => (Err (Wrapf "marshal idempotency response" e), s1)
      | Ok responseBytes =>
          let record := mkRecord key operation "" requestHash responseBytes "" "" zero_time (r_now t)
                          (time_Add (r_now t) (idempotencyTTL c)) in
          match Create Background record (r_wall t) s1 with
          | (Ok _, s2) => (Ok result, s2)
          | (Err e, s2) =>
              if errors_Is e ErrIdempotencyConflict then
                match Find Background key (r_now t) s2 with
                | (Ok existing, s3) => (replayIdempotency existing operation requestHash, s3)
                | (Err findErr, s3) =>
                    (Err (if errors_Is findErr ErrIdempotencyNotFound then ErrIdempotencyConflict
                          else Wrapf "find conflicting idempotency record" findErr), s3)
                end
              else (Err (Wrapf "store idempotency record" e), s2)
          end
      end
  end.

(** [rounds] are the readings of the waiting loop, the first of which it always makes. *)
Definition withIdempotency (c : settings) (key operation : string) (request : R) (t t1 : readings)
    (rounds : list readings) (execute : prog S (MessageResult M)) : prog S (MessageResult M) := fun s =>
  let key := TrimSpace key in
  if negb (idempotency c) || bool_decide (key = "") then execute s
  else match Marshal (clearIdempotencyKey request) with
  | Err e => (Err (Wrapf "marshal idempotency request" e), s)
  | Ok canonical =>
      let requestHash := sha256_hex canonical in
      let now := r_now t in
      match Find Background key now s with
      | (Ok record, s1) =>
          if IsCompleted record then (replayIdempotency record operation requestHash, s1)
          else if coordinator c then
            if negb (bool_decide (Operation record = operation)) ||
               negb (bool_decide (RequestHash record = requestHash))
            then (Err ErrIdempotencyConflict, s1)
            else waitForIdempotency c key operation requestHash (LeaseUntil record) execute t1 rounds s1
          else (Err ErrIdempotencyConflict, s1)
      | (Err e, s1) =>
          if negb (errors_Is e ErrIdempotencyNotFound) then (Err (Wrapf "find idempotency record" e), s1)
          else if coordinator c then
            match r_uuid t with
            | Err e => (Err (Wrapf "generate idempotency reservation" e), s1)
            | Ok reservationID =>
                let record := pending_record c key operation requestHash reservationID now in
                match Reserve Background record now (r_wall t) s1 with
                | (Err reserveErr, s2) => (Err reserveErr, s2)
                | (Ok (claimed, ownsReservation), s2) =>
                    if negb ownsReservation then
                      if IsCompleted claimed then (replayIdempotency claimed operation requestHash, s2)
                      else waitForIdempotency c key operation requestHash (LeaseUntil record) execute t1 rounds s2
                    else executeReserved key reservationID (r_lease t) (r_done t) execute s2
                end
            end
          else executeRecorded c key operation requestHash t execute s1
      end
  end.

End protocol.

(** ** Correctness *)

Section correctness.
Context {S : Type} `{Database S user_db} `{BsonDates}.
Context `{!Collection S records_collection, !CollectionLaws S records_collection}.
Context (known : gset string) (horizon : Z).
Context (env_user : forall v v' : user_db, env v v' -> rtc (user_step known horizon) v v').
Notation steps := (rtc (user_step known horizon)).

(** A write whose effect is a step of the user center is one under interference too. *)
Lemma write_steps {A} (r : res A) v v' (done : A -> user_db -> Prop) v1 :
  write_post env Background v r v' done v1 -> (forall a w, done a w -> steps v1 w) -> steps v v'.
Proof.
  intros [Hp Hr] Hd. simpl in Hp. apply env_user in Hp. etrans; [exact Hp|].
  destruct r as [a|e]; [by eapply Hd|]. destruct Hr as [_ [->|[a Ha]]]; [done|by eapply Hd].
Qed.

Lemma Find_spec key now s r s' : Find Background key now s = (r, s') ->
  steps (view s) (view s') /\
  match r with
  | Ok record => exists d, d ∈ records (view s') /\ im_Key d = key /\ record = idempotencyDomainFromDocument d
  | Err e => errors_Is e ErrIdempotencyNotFound = true -> forall d, d ∈ records (view s') -> key_filter key now d = false
  end.
Proof.
  unfold Find. case_bool_decide; [by intros [= <- <-]|].
  destruct (FindOne _ _ s) as [[d|e] s1] eqn:E; apply find_spec in E as [Hp Hr]; intros [= <- <-];
    (split; [by apply env_user|]).
  - destruct Hr as [Hin Hf]. unfold key_filter in Hf. breflect. eauto.
  - destruct Hr as [Hd Hn]. destruct (errors_Is e ErrNoDocuments) eqn:En.
    + intros _. by apply Hn.
    + simpl. unfold ErrIdempotencyNotFound. by rewrite driver_not_program.
Qed.

Lemma insert_record_spec d s r s' : InsertOne (C := records_collection) Background d s = (r, s') ->
  steps (view s) (view s') /\ (is_ok r = true -> bson d ∈ records (view s')).
Proof.
  intros (v1 & Hw & _)%insert_spec. split.
  - eapply write_steps; [exact Hw|]. intros ? w Hi. apply rtc_once. eapply step_record, Hi.
  - destruct Hw as [_ Hr]. destruct r; [|done]. destruct Hr as [_ ->]. simpl. set_solver.
Qed.

(** An update whose effect is a step, on any collection. *)
Lemma update_steps {Doc} `{Bson Doc} (C : collection_of user_db Doc) `{!Collection S C, !CollectionLaws S C} f u s r s' :
  UpdateOne (C := C) Background f u s = (r, s') ->
  (forall d' v v', updated C f u d' v v' -> user_step known horizon v v') -> steps (view s) (view s').
Proof.
  intros (v1 & Hw)%update_spec Hu. eapply write_steps; [exact Hw|].
  intros ? w [(_ & _ & ->)|(_ & d' & Hd)]; [done|]. apply rtc_once. eauto.
Qed.

Lemma update_record_spec f u s r s' :
  UpdateOne (C := records_collection) Background f u s = (r, s') ->
  (forall d' v v', updated records_collection f u d' v v' -> user_step known horizon v v') ->
  steps (view s) (view s') /\
  (forall n, r = Ok n -> n = 0 \/ exists d d', f d = true /\ u d = Some d' /\ d' ∈ records (view s')).
Proof.
  intros Hr Hu. split; [by eapply update_steps|]. apply update_spec in Hr as (v1 & Hw).
  intros n ->. destruct Hw as [_ [(-> & _)|(_ & d' & l1 & d & l2 & _ & Hf & Hud & ->)]]; [by left|].
  right. exists d, d'. simpl. set_solver.
Qed.

Lemma delete_record_spec f s r s' :
  DeleteOne (C := records_collection) Background f s = (r, s') ->
  (forall v v', removed records_collection f v v' -> user_step known horizon v v') -> steps (view s) (view s').
Proof.
  intros (v1 & Hw)%delete_spec Hu. eapply write_steps; [exact Hw|].
  intros ? w [(_ & _ & ->)|(_ & Hd)]; [done|]. apply rtc_once. eauto.
Qed.

Lemma Complete_spec key id response now s r s' : Complete Background key id response now s = (r, s') ->
  steps (view s) (view s') /\
  (r = Ok tt -> exists d, d ∈ records (view s') /\ im_Key d = key /\ pending d = false /\ im_Response d = response).
Proof.
  unfold Complete. destruct (UpdateOne _ _ _ s) as [[n|e] s1] eqn:E;
    apply update_record_spec in E as [Hs Hn]; try (intros; by eapply step_complete); intros [= <- <-].
  - split; [done|]. intros Hr. destruct (Hn n eq_refl) as [->|(d & d' & Hf & [= <-] & Hin)]; [done|].
    unfold live_owner_filter, owner_filter in Hf. breflect. eexists. by split_and!.
  - by split.
Qed.

Lemma Release_spec key id s r s' : Release Background key id s = (r, s') -> steps (view s) (view s').
Proof.
  unfold Release. destruct (DeleteOne _ _ s) as [[n|e] s1] eqn:E; apply delete_record_spec in E;
    try (intros; by eapply step_release); by intros [= <- <-].
Qed.

Lemma Renew_spec key id lease now s r s' : Renew Background key id lease now s = (r, s') -> steps (view s) (view s').
Proof.
  unfold Renew. destruct (_ || _); [by intros [= <- <-]|].
  destruct (UpdateOne _ _ _ s) as [[n|e] s1] eqn:E; apply update_record_spec in E as [Hs _];
    try (intros; by eapply step_renew); by intros [= <- <-].
Qed.

Lemma RecoverExpired_spec now s r s' : RecoverExpired Background now s = (r, s') -> steps (view s) (view s').
Proof.
  unfold RecoverExpired. destruct (DeleteMany _ _ s) as [[n|e] s1] eqn:E; apply delete_many_spec in E as (v1 & Hw);
    (intros [= <- <-]; eapply write_steps; [exact Hw|]; intros ? w [_ ->]; apply rtc_once; by eapply step_recover).
Qed.

(** What the renewal goroutine does is made of steps: the interference covers it. *)
Lemma renewals_are_steps c key id ticks s r s' :
  renewIdempotencyLease c key id ticks s = (r, s') -> steps (view s) (view s').
Proof.
  assert (renew_loop c key id ticks s = (r, s') -> steps (view s) (view s')) as Hloop.
  { revert s. induction ticks as [|now ticks IH]; simpl; intros s; [by intros [= <- <-]|].
    destruct (Renew _ _ _ _ _ s) as [[[]|e] s1] eqn:E; apply Renew_spec in E; [intros ?; etrans; eauto|by intros [= <- <-]]. }
  unfold renewIdempotencyLease. repeat case_match; try done; by intros [= <- <-].
Qed.

(** The caller's reservation, or a record found under the key. *)
Definition reserve_post (key : string) (r : res (IdempotencyRecord * bool)) (v' : user_db) : Prop :=
  match r with
  | Ok (record, owns) => exists d, d ∈ records v' /\ im_Key d = key /\
      if owns then pending d = true else record = idempotencyDomainFromDocument d
  | Err _ => True
  end.

Lemma reserve_current_spec record current now s r s' :
  (exists d, d ∈ records (view s) /\ im_Key d = Key record /\ current = idempotencyDomainFromDocument d) ->
  reserve_current Background record current now s = (r, s') ->
  steps (view s) (view s') /\ reserve_post (Key record) r (view s').
Proof.
  intros Hcur. unfold reserve_current.
  destruct (_ || _); [by intros [= <- <-]|]. destruct (IsCompleted current); [by intros [= <- <-]|].
  destruct (time_After _ _); [by intros [= <- <-]|].
  destruct (FindOneAndUpdate _ _ _ s) as [[d|e] s1] eqn:E; apply find_update_spec in E as (v1 & Hw & _).
  - intros [= <- <-]. split.
    + eapply write_steps; [exact Hw|]. intros d' w Hd. eapply rtc_once, step_claim, Hd.
    + destruct Hw as [_ (l1 & d0 & l2 & _ & Hf & [= <-] & ->)]. unfold claim_filter in Hf. breflect.
      eexists. split; [simpl; apply elem_of_app; right; apply elem_of_cons; by left|]. by split.
  - assert (steps (view s) (view s1)) as Hs.
    { eapply write_steps; [exact Hw|]. intros d' w Hd. eapply rtc_once, step_claim, Hd. }
    destruct (errors_Is e ErrNoDocuments); [|by intros [= <- <-]].
    destruct (Find _ _ _ s1) as [[latest|e'] s2] eqn:Ef; apply Find_spec in Ef as [Hs2 Hf]; intros [= <- <-];
      (split; [by etrans|]); [|done].
    destruct Hf as (d & ? & ? & ?). by exists d.
Qed.

Lemma record_Validate_pending r now r' : record_Validate r now = Ok r' -> State r = StatePending ->
  r' = r.
Proof.
  unfold record_Validate. intros Hv Hp. destruct (_ || _); [done|]. rewrite Hp in Hv. simpl in Hv.
  rewrite Hp in Hv. simpl in Hv. destruct (negb _); [done|]. by injection Hv as <-.
Qed.

Lemma Reserve_spec record now wall s r s' : State record = StatePending -> now < horizon ->
  Reserve Background record now wall s = (r, s') ->
  steps (view s) (view s') /\ reserve_post (Key record) r (view s').
Proof.
  intros Hst Hnow. unfold Reserve. rewrite Hst. simpl.
  destruct (_ || time_IsZero _); [by intros [= <- <-]|].
  destruct (record_Validate record now) as [rec|e] eqn:Ev; [|by intros [= <- <-]].
  apply record_Validate_pending in Ev as ->; [|done].
  unfold idempotencyDocumentFromDomain. destruct (record_Validate record wall) as [rec|e] eqn:Ev; [|by intros [= <- <-]].
  apply record_Validate_pending in Ev as ->; [|done].
  set (document := mkIdemDoc _ _ _ _ _ _ _ _ _ _).
  assert (forall s1, bson document ∈ records (view s1) -> reserve_post (Key record) (Ok (record, true)) (view s1)) as Hown.
  { intros s1 Hin. exists (bson document). split_and!; [done|done|]. unfold pending. simpl. by rewrite Hst. }
  destruct (InsertOne _ document s) as [[[]|e] s1] eqn:Ei; apply insert_record_spec in Ei as [Hs1 Hi].
  { intros [= <- <-]. auto. }
  destruct (negb _); [by intros [= <- <-]|].
  destruct (Find _ _ _ s1) as [[current|e1] s2] eqn:Ef; apply Find_spec in Ef as [Hs2 Hf].
  { intros Hr. apply reserve_current_spec in Hr as [Hs3 Hp]; [|done]. split; [by do 2 (etrans; [done|])|done]. }
  destruct (errors_Is e1 _); [|intros [= <- <-]; split; [by etrans|done]].
  destruct (DeleteOne _ _ s2) as [[n|e2] s3] eqn:Ed; apply delete_record_spec in Ed as Hs3;
    try (intros; by eapply step_stale); (assert (steps (view s) (view s3)) as Hs by (by do 2 (etrans; [done|])));
    [|by intros [= <- <-]].
  destruct (n =? 1); [|by intros [= <- <-]].
  destruct (InsertOne _ document s3) as [[[]|e3] s4] eqn:Ei2; apply insert_record_spec in Ei2 as [Hs4 Hi2].
  { intros [= <- <-]. split; [by etrans|auto]. }
  destruct (negb _); [intros [= <- <-]; split; [by etrans|done]|].
  destruct (Find _ _ _ s4) as [[current|e4] s5] eqn:Ef2; apply Find_spec in Ef2 as [Hs5 Hf2].
  - intros Hr. apply reserve_current_spec in Hr as [Hs6 Hp]; [|done]. split; [by do 3 (etrans; [done|])|done].
  - intros [= <- <-]. split; [by do 2 (etrans; [done|])|done].
Qed.

Context (sha256_hex : string -> string) (ctxErr : error).
Context {R M : Type} `{ProtoMessage R, KeyedRequest R, ProtoLaws M}.
Notation wait := (waitForIdempotency (M := M) ctxErr).
Notation call := (withIdempotency (R := R) (M := M) sha256_hex ctxErr).
Notation operation_of := (prog S (MessageResult M)).

(** The operation only does what the user center does. *)
Definition orderly (execute : operation_of) : Prop :=
  forall s r s', users_ok (view s) -> execute s = (r, s') -> steps (view s) (view s').

Definition in_time (t : readings) : Prop := r_now t < horizon.

(** An answer that is recorded under the key. *)
Definition recorded (key : string) (r : res (MessageResult M)) (v : user_db) : Prop :=
  forall m, r = Ok m -> exists d, d ∈ records v /\ im_Key d = key /\ pending d = false /\
    Unmarshal (im_Response d) = Ok (Message m).

Definition answers (key : string) (p : operation_of) : Prop :=
  forall s r s', users_ok (view s) -> p s = (r, s') -> steps (view s) (view s') /\ recorded key r (view s').

Lemma recorded_err key e v : recorded key (Err e) v.
Proof. by intros m [=]. Qed.
Hint Resolve recorded_err : core.

Lemma completed_not_pending d : IsCompleted (idempotencyDomainFromDocument d) = true -> pending d = false.
Proof.
  unfold IsCompleted, pending. simpl. intros [E|E]%orb_prop; breflect; by rewrite E.
Qed.

Lemma replay_recorded d operation hash v : d ∈ records v -> IsCompleted (idempotencyDomainFromDocument d) = true ->
  recorded (im_Key d) (replayIdempotency (idempotencyDomainFromDocument d) operation hash) v.
Proof.
  intros Hd Hc m. unfold replayIdempotency. destruct (_ || _); [done|].
  destruct (Unmarshal _) as [msg|e] eqn:Eu; [|done]. intros [= <-]. exists d.
  split_and!; [done|done|by apply completed_not_pending|exact Eu].
Qed.

Lemma executeReserved_answers key id lease done execute : orderly execute ->
  answers key (executeReserved key id lease done execute).
Proof.
  intros Hex s r s' Hok. unfold executeReserved. destruct (execute s) as [r0 s1] eqn:E. apply Hex in E as Hs; [|done].
  assert (forall e r s', (let '(_, s2) := Release Background key id s1 in (Err e, s2)) = (r, s') ->
    steps (view s) (view s') /\ recorded key r (view s')) as Hrel.
  { intros e r1 s2. destruct (Release _ _ _ s1) as [? s3] eqn:Er. apply Release_spec in Er.
    intros [= <- <-]. split; [by etrans|done]. }
  destruct r0 as [m|e]; [|by apply Hrel]. destruct lease; [by apply Hrel|].
  destruct (Marshal (Message m)) as [bytes|e] eqn:Em; [|by apply Hrel].
  destruct (Complete _ _ _ _ _ s1) as [[[]|e] s2] eqn:Ec; apply Complete_spec in Ec as [Hs2 Hc]; intros [= <- <-];
    (split; [by etrans|]); [|done].
  intros m' [= <-]. destruct (Hc eq_refl) as (d & Hd & Hk & Hp & Hr). exists d. split_and!; try done.
  rewrite Hr. by apply unmarshal_marshal.
Qed.

Lemma poll_answers key operation hash now again : answers key again -> answers key (poll key operation hash now again).
Proof.
  intros Ha s r s' Hok. unfold poll. destruct (Find _ _ _ s) as [[record|e] s1] eqn:E; apply Find_spec in E as [Hs Hr].
  - destruct Hr as (d & Hd & <- & ->). destruct (IsCompleted _) eqn:Ec; [intros [= <- <-]; split; [done|by apply replay_recorded]|].
    intros [Hs2 ?]%Ha; [|by eapply steps_users_ok]. split; [by etrans|done].
  - destruct (negb _); [by intros [= <- <-]|]. intros [Hs2 ?]%Ha; [|by eapply steps_users_ok]. split; [by etrans|done].
Qed.


Lemma wait_round_answers c key operation hash deadline execute t again : orderly execute -> in_time t ->
  (forall dl, answers key (again dl)) -> answers key (wait_round c key operation hash deadline execute t again).
Proof.
  intros Hex Ht Ha s r s' Hok. unfold wait_round. destruct (time_After _ _); [|by apply poll_answers].
  destruct (r_uuid t) as [id|e]; [|by intros [= <- <-]].
  destruct (Reserve _ _ _ _ s) as [[[claimed owns]|e] s1] eqn:E; apply Reserve_spec in E as [Hs Hp]; try done;
    [|by intros [= <- <-]].
  assert (users_ok (view s1)) as Hok1 by by eapply steps_users_ok.
  destruct Hp as (d & Hd & Hk & Ho). simpl in Hk. destruct owns.
  - intros [? ?]%executeReserved_answers; [|done..]. split; [by etrans|done].
  - subst claimed. destruct (IsCompleted _) eqn:Ec.
    + intros [= <- <-]. split; [done|]. rewrite <- Hk. by apply replay_recorded.
    + intros [? ?]%poll_answers; [|done..]. split; [by etrans|done].
Qed.

Lemma wait_answers c key operation hash execute more : orderly execute ->
  forall t deadline, Forall in_time (t :: more) -> answers key (wait c key operation hash deadline execute t more).
Proof.
  intros Hex. induction more as [|t1 more IH]; intros t deadline [Ht Hmore]%Forall_cons; simpl;
    apply wait_round_answers; try done; intros dl.
  - by intros s r s' _ [= <- <-].
  - by apply IH.
Qed.

Lemma call_answers c key operation request t t1 rounds execute : coordinator c = true -> idempotency c = true ->
  TrimSpace key <> "" -> orderly execute -> Forall in_time (t :: t1 :: rounds) ->
  answers (TrimSpace key) (call c key operation request t t1 rounds execute).
Proof.
  intros Hco Hid Hk Hex [Ht Hrounds]%Forall_cons s r s' Hok. unfold withIdempotency.
  rewrite Hid, bool_decide_false, Hco by done. simpl.
  destruct (Marshal (clearIdempotencyKey request)) as [canonical|e]; [|by intros [= <- <-]].
  destruct (Find _ _ _ s) as [[record|e] s1] eqn:Ef; apply Find_spec in Ef as [Hs Hf].
  all: assert (users_ok (view s1)) as Hok1 by by eapply steps_users_ok.
  - destruct Hf as (d & Hd & Ek & ->). destruct (IsCompleted _) eqn:Ec.
    + intros [= <- <-]. split; [done|]. rewrite <- Ek. by apply replay_recorded.
    + destruct (_ || _); [by intros [= <- <-]|]. intros [? ?]%wait_answers; try done. split; [by etrans|done].
  - destruct (negb _); [by intros [= <- <-]|]. destruct (r_uuid t) as [id|e1]; [|by intros [= <- <-]].
    destruct (Reserve _ _ _ _ s1) as [[[claimed owns]|e1] s2] eqn:Er; apply Reserve_spec in Er as [Hs2 Hp]; try done;
      [|intros [= <- <-]; split; [by etrans|done]].
    assert (steps (view s) (view s2)) as Hs02 by by etrans.
    assert (users_ok (view s2)) as Hok2 by by eapply steps_users_ok.
    destruct Hp as (d & Hd & Ek & Ho). simpl in Ek. destruct owns; simpl.
    + intros [? ?]%executeReserved_answers; [|done..]. split; [by etrans|done].
    + subst claimed. destruct (IsCompleted _) eqn:Ec.
      * intros [= <- <-]. split; [done|]. rewrite <- Ek. by apply replay_recorded.
      * intros [? ?]%wait_answers; try done. split; [by etrans|done].
Qed.

(** A call without a key, or without a repository, is the operation alone. *)
Lemma call_plain c key operation request t t1 rounds execute :
  idempotency c = false \/ TrimSpace key = "" ->
  call c key operation request t t1 rounds execute = execute.
Proof.
  intros Hp. unfold withIdempotency. destruct Hp as [->| ->]; simpl; [done|].
  by destruct (negb (idempotency c)).
Qed.

Lemma call_orderly c key operation request t t1 rounds execute : coordinator c = true ->
  orderly execute -> Forall in_time (t :: t1 :: rounds) ->
  orderly (call c key operation request t t1 rounds execute).
Proof.
  intros Hco Hex Ht s r s' Hok. destruct (idempotency c) eqn:Hid; [|rewrite call_plain by auto; by apply Hex].
  destruct (decide (TrimSpace key = "")); [rewrite call_plain by auto; by apply Hex|].
  intros [? _]%call_answers; done.
Qed.

(** *** Calls that find their key settled *)

Section settled.
Context (d : idempotencyDocument).

(** The record is in place, and the only one of its key. *)
Definition in_place (v : user_db) : Prop := users_ok v /\ settled horizon d v.

Lemma in_place_steps v v' : steps v v' -> in_place v -> in_place v'.
Proof. intros Hs [Hok Hd]. split; [by eapply steps_users_ok|by eapply steps_settled]. Qed.

Lemma in_place_unique v d' : in_place v -> d' ∈ records v -> im_Key d' = im_Key d -> d' = d.
Proof. intros [Hok (Hd & _)] Hd' E. by eapply NoDup_fmap_inj; [apply Hok|..]. Qed.

Lemma in_place_found v now : in_place v -> now < horizon -> key_filter (im_Key d) now d = true.
Proof.
  intros [_ (_ & _ & He)] Hn. unfold key_filter. rewrite bool_decide_true by done. simpl.
  pose proof (bson_time_near now). apply Z.ltb_lt. lia.
Qed.

(** The answer is the record's, and the same whatever the operation is. *)
Definition replays (operation hash : string) (r : res (MessageResult M)) : Prop :=
  forall m, r = Ok m -> im_Operation d = operation /\ im_RequestHash d = hash /\
    Unmarshal (im_Response d) = Ok (Message m) /\ MessageID m = responseMessageID operation.

Definition same_replay (operation hash : string) (p : operation_of -> operation_of) : Prop :=
  forall execute s r s', in_place (view s) -> p execute s = (r, s') ->
    replays operation hash r /\ in_place (view s') /\ forall execute', p execute' s = (r, s').

Lemma replays_err operation hash e : replays operation hash (Err e).
Proof. by intros m [=]. Qed.
Hint Resolve replays_err : core.

Lemma replay_replays operation hash :
  replays operation hash (replayIdempotency (idempotencyDomainFromDocument d) operation hash).
Proof.
  unfold replayIdempotency. destruct (_ || _) eqn:E; [done|]. simpl in *. breflect.
  intros m. destruct (Unmarshal _); [|done]. by intros [= <-].
Qed.
Hint Resolve replay_replays : core.

Lemma Find_settled now s r s' : in_place (view s) -> now < horizon -> Find Background (im_Key d) now s = (r, s') ->
  in_place (view s') /\
  match r with Ok record => record = idempotencyDomainFromDocument d | Err e => errors_Is e ErrIdempotencyNotFound = false end.
Proof.
  intros Hp Hn [Hs Hf]%Find_spec. eapply in_place_steps in Hp; [|done]. split; [done|]. destruct r as [record|e].
  - destruct Hf as (d' & Hd' & Hk & ->). by rewrite (in_place_unique _ d' Hp).
  - destruct (errors_Is e _); [|done]. specialize (Hf eq_refl d). rewrite (in_place_found _ now Hp Hn) in Hf.
    assert (true = false); [|done]. apply Hf. apply Hp.
Qed.

Lemma Reserve_settled record now wall s r s' : in_place (view s) -> now < horizon -> State record = StatePending ->
  Key record = im_Key d -> Reserve Background record now wall s = (r, s') ->
  in_place (view s') /\
  match r with Ok (claimed, owns) => owns = false /\ claimed = idempotencyDomainFromDocument d | Err _ => True end.
Proof.
  intros Hp Hn Hst Hk [Hs Hr]%Reserve_spec; [|done..]. eapply in_place_steps in Hp; [|done]. split; [done|].
  destruct r as [[claimed owns]|e]; [|done]. destruct Hr as (d' & Hd' & Hk' & Ho).
  rewrite (in_place_unique _ d' Hp) in Ho by congruence. destruct owns; [|done].
  destruct Hp as [_ (_ & Hf & _)]. congruence.
Qed.

Lemma poll_settled operation hash now (again : operation_of -> operation_of) :
  now < horizon -> same_replay operation hash again ->
  same_replay operation hash (fun execute => poll (im_Key d) operation hash now (again execute)).
Proof.
  intros Hn Ha execute s r s' Hp. unfold poll.
  destruct (Find _ _ _ s) as [[record|e] s1] eqn:E; apply Find_settled in E as [Hp1 Hr]; try done.
  - subst record. destruct (IsCompleted _); [by intros [= <- <-]|]. by apply Ha.
  - rewrite Hr. by intros [= <- <-].
Qed.

Lemma wait_round_settled c operation hash deadline t (again : operation_of -> Z -> operation_of) : in_time t ->
  (forall dl, same_replay operation hash (fun execute => again execute dl)) ->
  same_replay operation hash (fun execute => wait_round c (im_Key d) operation hash deadline execute t (again execute)).
Proof.
  intros Ht Ha execute s r s' Hp. unfold wait_round. cbv zeta.
  destruct (time_After (r_now t) deadline); [|by apply (poll_settled _ _ _ _ Ht (Ha _))].
  destruct (r_uuid t) as [id|e]; [|by intros [= <- <-]].
  destruct (Reserve _ _ _ _ s) as [[[claimed owns]|e] s1] eqn:E; apply Reserve_settled in E as [Hp1 Hr]; try done;
    [|by intros [= <- <-]].
  destruct Hr as [-> ->]; destruct (IsCompleted _); [by intros [= <- <-]|].
  by apply (poll_settled _ _ _ _ Ht (Ha _)).
Qed.

Lemma wait_settled c operation hash more : forall t deadline, Forall in_time (t :: more) ->
  same_replay operation hash (fun execute => wait c (im_Key d) operation hash deadline execute t more).
Proof.
  induction more as [|t1 more IH]; intros t deadline [Ht Hmore]%Forall_cons; simpl.
  - apply (wait_round_settled _ _ _ _ _ (fun _ _ => throw ctxErr)); [done|].
    intros dl execute s r s' Hp [= <- <-]. done.
  - apply (wait_round_settled _ _ _ _ _ (fun execute dl => wait c (im_Key d) operation hash dl execute t1 more)); [done|].
    intros dl. by apply IH.
Qed.

Lemma call_settled c key operation request t t1 rounds hash : coordinator c = true -> idempotency c = true ->
  TrimSpace key = im_Key d -> im_Key d <> "" -> Forall in_time (t :: t1 :: rounds) ->
  sha256_hex <$> (match Marshal (clearIdempotencyKey request) with Ok b => Some b | Err _ => None end) = Some hash ->
  same_replay operation hash (call c key operation request t t1 rounds).
Proof.
  intros Hco Hid Hk Hne [Ht Hrounds]%Forall_cons Hh execute s r s' Hp. unfold withIdempotency.
  rewrite Hid, Hk, bool_decide_false, Hco by done. simpl.
  destruct (Marshal (clearIdempotencyKey request)) as [canonical|e]; [|done]. injection Hh as ->.
  destruct (Find _ _ _ s) as [[record|e] s1] eqn:E; apply Find_settled in E as [Hp1 Hr]; try done.
  - subst record. destruct (IsCompleted _); [by intros [= <- <-]|].
    destruct (_ || _); [by intros [= <- <-]|]. by apply wait_settled.
  - rewrite Hr. simpl. by intros [= <- <-].
Qed.

End settled.

(** C3 Answers to one idempotency key agree. When a request with a key was answered, its
    response is recorded; until that record expires, every request of the key that is
    answered, on any user center process, under any interference of the others and
    whatever its operation would do, gets the recorded response, and only if it is the
    same operation with the same content; its operation is not run again (the outcome does
    not depend on it). *)
Theorem idempotent_answers_agree c key operation request t t1 rounds execute s m s1 :
  coordinator c = true -> idempotency c = true -> TrimSpace key <> "" -> users_ok (view s) ->
  orderly execute -> Forall in_time (t :: t1 :: rounds) ->
  call c key operation request t t1 rounds execute s = (Ok m, s1) ->
  exists d, d ∈ records (view s1) /\ im_Key d = TrimSpace key /\
    (horizon <= im_ExpiresAt d ->
     forall s2 operation' request' u u1 rounds' execute' m' s3,
       env (view s1) (view s2) -> Forall in_time (u :: u1 :: rounds') ->
       call c key operation' request' u u1 rounds' execute' s2 = (Ok m', s3) ->
       Message m' = Message m /\ im_Operation d = operation' /\
       (exists b, Marshal (clearIdempotencyKey request') = Ok b /\ im_RequestHash d = sha256_hex b) /\
       forall other, call c key operation' request' u u1 rounds' other s2 = (Ok m', s3)).
Proof.
  intros Hco Hid Hk Hok Hex Ht Hr. apply call_answers in Hr as [Hs Hrec]; try done.
  destruct (Hrec m eq_refl) as (d & Hd & Hdk & Hdp & Hdr). exists d. split_and!; [done|done|].
  intros He s2 operation' request' u u1 rounds' execute' m' s3 Henv Hu Hc.
  assert (in_place d (view s2)) as Hp.
  { eapply in_place_steps; [by apply env_user|]. split; [by eapply steps_users_ok|]. by split. }
  destruct (Marshal (clearIdempotencyKey request')) as [b|e] eqn:Eb.
  2:{ exfalso. unfold withIdempotency in Hc. rewrite Hid, bool_decide_false, Eb in Hc by done. done. }
  destruct (call_settled d c key operation' request' u u1 rounds' (sha256_hex b)) with
    (execute := execute') (s := s2) (r := Ok m') (s' := s3) as (Hrep & _ & Hsame); try done; [congruence|by rewrite Eb|].
  destruct (Hrep m' eq_refl) as (? & ? & Hm & _). split_and!; [congruence|done|by exists b|done].
Qed.

End correctness.

(** ** Runs on a database in memory *)

Section runs.

Notation user_mem := (mem (rtc (user_step ∅ (100 * Second)))).

(** A request and a response with one value each. *)
#[local] Instance unit_codec : ProtoMessage unit := single_codec tt.
#[local] Instance unit_keyed : KeyedRequest unit := fun r => r.
#[local] Instance string_codec : ProtoMessage string := single_codec "granted".
#[local] Instance string_codec_laws : ProtoLaws string.
Proof. apply single_codec_laws. Qed.

Definition grant : prog user_mem (MessageResult string) := fun s => (Ok (mkResult GUEST_AUTHENTICATE_RESPONSE "granted"), s).
Definition refuse : prog user_mem (MessageResult string) := fun s => (Err (Text "refused"), s).
Definition at_time (n : Z) (uuid : string) : readings :=
  mkReadings (n * Second) (Ok uuid) (n * Second) None (n * Second + 1).
Definition request_at (n : Z) (uuid : string) (execute : prog user_mem (MessageResult string)) :
    prog user_mem (MessageResult string) :=
  withIdempotency (fun b => b) (Text "context done") NewSettings " k " "guest_authenticate" tt
    (at_time n uuid) (at_time n uuid) [] execute.

Lemma user_env : forall v v' : user_db, env (S := user_mem) v v' -> rtc (user_step ∅ (100 * Second)) v v'.
Proof. done. Qed.

Definition new_users : user_mem := mkMem _ empty_db [].
Definition granted : user_mem := (request_at 2 "r1" grant new_users).2.

Lemma granted_run : request_at 2 "r1" grant new_users =
  (Ok (mkResult GUEST_AUTHENTICATE_RESPONSE "granted"), granted).
Proof.
  rewrite (surjective_pairing (request_at _ _ _ _)). unfold granted. f_equal.
Qed.

(** The second request is answered from the record although its operation would fail. *)
Lemma replayed_run : (request_at 3 "r2" refuse granted).1 = Ok (mkResult GUEST_AUTHENTICATE_RESPONSE "granted").
Proof. vm_compute. reflexivity. Qed.

Lemma idempotent_answers_agree_witness : exists d, d ∈ records (view granted) /\ im_Key d = "k" /\
  (100 * Second <= im_ExpiresAt d ->
   forall other, request_at 3 "r2" other granted = (Ok (mkResult GUEST_AUTHENTICATE_RESPONSE "granted"),
                                               (request_at 3 "r2" refuse granted).2)).
Proof.
  assert (forall n uuid, n < 100 -> Forall (in_time (100 * Second)) [at_time n uuid; at_time n uuid]) as Htime.
  { intros n uuid Hn. repeat constructor; unfold in_time, at_time; simpl; unfold Second; lia. }
  edestruct (idempotent_answers_agree (S := user_mem) ∅ (100 * Second) user_env
    (fun b => b) (Text "context done") NewSettings " k " "guest_authenticate" tt
    (at_time 2 "r1") (at_time 2 "r1") [] grant new_users) as (d & Hd & Hk & Hr).
  - done.
  - done.
  - done.
  - apply empty_users_ok.
  - by intros s r s' _ [= <- <-].
  - by apply Htime.
  - exact granted_run.
  - exists d. split_and!; [exact Hd|exact Hk|]. intros He other.
    destruct (Hr He granted "guest_authenticate" tt (at_time 3 "r2") (at_time 3 "r2") [] refuse
      (mkResult GUEST_AUTHENTICATE_RESPONSE "granted") (request_at 3 "r2" refuse granted).2) as (_ & _ & _ & Hall).
    + done.
    + by apply Htime.
    + rewrite <- replayed_run. apply surjective_pairing.
    + apply Hall.
Defined.

End runs.

End Idempotency.
