(* ===== verification/KeyLock.v ===== *)
(** * The lock per idempotency key: [acquireIdempotencyLock], [releaseIdempotencyLock] and
      their use in [withIdempotency] of the user center

    A table maps each key in use to a lock entry on the heap, which counts the requests
    that hold a reference to it; the entry is dropped with its last reference. Requests
    are the threads of a transition system: each takes the entry of its key, locks its
    mutex, unlocks it and releases the entry. The two functions run under
    [idempotencyMu], so each of them is one step. *)

From S2P Require Import Prelude.

Module KeyLock.

Record idempotencyLockEntry := mkEntry { refs : Z; held : bool }.

(** The table [c.idempotencyLock], the heap of the entries, and its next free address. *)
Record locks := mkLocks {
  idempotencyLock : gmap string nat;
  heap : gmap nat idempotencyLockEntry;
  next : nat
}.

Definition new_locks : locks := mkLocks ∅ ∅ 0.

Definition acquireIdempotencyLock (key : string) (l : locks) : option (nat * locks) :=
  let '(p, l) := match idempotencyLock l !! key with
                 | Some p => (p, l)
                 | None =>
                     let p := next l in
                     (p, mkLocks (<[key := p]> (idempotencyLock l)) (<[p := mkEntry 0 false]> (heap l)) (S p))
                 end in
  match heap l !! p with
  | Some e => Some (p, mkLocks (idempotencyLock l) (<[p := mkEntry (refs e + 1) (held e)]> (heap l)) (next l))
  | None => None
  end.

Definition releaseIdempotencyLock (key : string) (p : nat) (l : locks) : option locks :=
  match heap l !! p with
  | None => None
  | Some e =>
      let e := mkEntry (refs e - 1) (held e) in
      let h := <[p := e]> (heap l) in
      if (refs e =? 0) && bool_decide (idempotencyLock l !! key = Some p)
      then Some (mkLocks (delete key (idempotencyLock l)) h (next l))
      else Some (mkLocks (idempotencyLock l) h (next l))
  end.

(** [lock.mu.Lock()] when the mutex is free, and [lock.mu.Unlock()]. *)
Definition set_held (p : nat) (from to : bool) (l : locks) : option locks :=
  match heap l !! p with
  | Some e => if eqb (held e) from
              then Some (mkLocks (idempotencyLock l) (<[p := mkEntry (refs e) to]> (heap l)) (next l))
              else None
  | None => None
  end.

(** ** The requests *)

Inductive phase := Waiting | Inside | Leaving.
#[export] Instance phase_eq_dec : EqDecision phase.
Proof. solve_decision. Defined.

Record request := mkRequest { r_key : string; r_lock : nat; r_phase : phase }.
Record system := mkSystem { mem : locks; requests : gmap nat request }.

Inductive step : system -> system -> Prop :=
  | step_acquire t key p l l' m : m !! t = None -> acquireIdempotencyLock key l = Some (p, l') ->
      step (mkSystem l m) (mkSystem l' (<[t := mkRequest key p Waiting]> m))
  | step_lock t key p l l' m : m !! t = Some (mkRequest key p Waiting) -> set_held p false true l = Some l' ->
      step (mkSystem l m) (mkSystem l' (<[t := mkRequest key p Inside]> m))
  | step_unlock t key p l l' m : m !! t = Some (mkRequest key p Inside) -> set_held p true false l = Some l' ->
      step (mkSystem l m) (mkSystem l' (<[t := mkRequest key p Leaving]> m))
  | step_release t key p l l' m : m !! t = Some (mkRequest key p Leaving) ->
      releaseIdempotencyLock key p l = Some l' ->
      step (mkSystem l m) (mkSystem l' (delete t m)).

Definition new_system : system := mkSystem new_locks ∅.

(** ** Counting requests *)

Definition weight (P : request -> bool) (r : request) : Z := if P r then 1 else 0.
Definition count (P : request -> bool) (m : gmap nat request) : Z :=
  map_fold (fun _ r n => weight P r + n) 0 m.

Lemma count_insert P m t r : m !! t = None -> count P (<[t := r]> m) = weight P r + count P m.
Proof. intros Ht. unfold count. rewrite map_fold_insert_L; [done| |done]. intros; lia. Qed.

Lemma count_delete P m t r : m !! t = Some r -> count P (delete t m) = count P m - weight P r.
Proof.
  intros Ht. pose proof (count_insert P (delete t m) t r (lookup_delete_eq m t)) as Hc.
  rewrite insert_delete_id in Hc by done. lia.
Qed.

Lemma count_update P m t r r' : m !! t = Some r -> count P (<[t := r']> m) = count P m - weight P r + weight P r'.
Proof.
  intros Ht. rewrite <- insert_delete_eq, count_insert, (count_delete P m t r) by (done || apply lookup_delete_eq). lia.
Qed.

Lemma weight_nonneg P r : 0 <= weight P r <= 1.
Proof. unfold weight. destruct (P r); lia. Qed.

Lemma count_nonneg P m : 0 <= count P m.
Proof.
  induction m as [|t r m Hm IH] using map_ind; [done|].
  rewrite count_insert by done. pose proof (weight_nonneg P r). lia.
Qed.

Lemma count_two P m t1 t2 r1 r2 : m !! t1 = Some r1 -> m !! t2 = Some r2 -> P r1 = true -> P r2 = true ->
  count P m <= 1 -> t1 = t2.
Proof.
  intros H1 H2 P1 P2 Hc. destruct (decide (t1 = t2)) as [|Hne]; [done|]. exfalso.
  pose proof (count_delete P m t1 r1 H1) as Hd1.
  pose proof (count_delete P (delete t1 m) t2 r2) as Hd2. rewrite lookup_delete_ne in Hd2 by done.
  specialize (Hd2 H2). pose proof (count_nonneg P (delete t2 (delete t1 m))). unfold weight in *.
  rewrite P1 in Hd1. rewrite P2 in Hd2. lia.
Qed.

(** ** The invariant *)

Definition uses (p : nat) (r : request) : bool := bool_decide (r_lock r = p).
Definition inside (p : nat) (r : request) : bool := uses p r && bool_decide (r_phase r = Inside).

Record locks_ok (s : system) : Prop := {
  (** every request shares the entry of its key *)
  shared t r : requests s !! t = Some r -> idempotencyLock (mem s) !! r_key r = Some (r_lock r);
  (** an entry in the table belongs to one key and has its references counted *)
  owned k1 k2 p : idempotencyLock (mem s) !! k1 = Some p -> idempotencyLock (mem s) !! k2 = Some p -> k1 = k2;
  below k p : idempotencyLock (mem s) !! k = Some p -> (p < next (mem s))%nat;
  counted k p : idempotencyLock (mem s) !! k = Some p -> exists e, heap (mem s) !! p = Some e /\
    refs e = count (uses p) (requests s) /\ 0 < refs e /\
    count (inside p) (requests s) = if held e then 1 else 0
}.

Lemma new_ok : locks_ok new_system.
Proof. split; simpl; intros *; rewrite ?lookup_empty; done. Qed.

Lemma weight_uses key p q ph : weight (uses q) (mkRequest key p ph) = if decide (p = q) then 1 else 0.
Proof. unfold weight, uses. simpl. case_decide; case_bool_decide; done. Qed.

Lemma weight_inside key p q ph :
  weight (inside q) (mkRequest key p ph) = if decide (p = q) then (if decide (ph = Inside) then 1 else 0) else 0.
Proof. unfold weight, inside, uses. simpl. repeat case_decide; repeat case_bool_decide; done. Qed.

Lemma count_none P m : (forall t r, m !! t = Some r -> P r = false) -> count P m = 0.
Proof.
  induction m as [|t r m Hm IH] using map_ind; intros Hf; [done|]. rewrite count_insert by done.
  unfold weight. rewrite (Hf t r) by apply lookup_insert_eq. rewrite IH; [done|].
  intros t' r' Ht. apply (Hf t'). rewrite lookup_insert_ne; [done|]. congruence.
Qed.

(** A request of entry [p] moves on; the entry changes accordingly, the others stay. *)
Lemma counted_move (h : gmap nat idempotencyLockEntry) (m : gmap nat request) t key p ph ph' e e' q :
  h !! p = Some e -> m !! t = Some (mkRequest key p ph) ->
  refs e' = refs e ->
  count (inside p) m = (if held e then 1 else 0) ->
  (if held e' then 1 else 0) = (if held e then 1 else 0) - (if decide (ph = Inside) then 1 else 0)
                               + (if decide (ph' = Inside) then 1 else 0) ->
  (exists x, h !! q = Some x /\ refs x = count (uses q) m /\ 0 < refs x /\ count (inside q) m = if held x then 1 else 0) ->
  exists x, <[p := e']> h !! q = Some x /\ refs x = count (uses q) (<[t := mkRequest key p ph']> m) /\ 0 < refs x /\
    count (inside q) (<[t := mkRequest key p ph']> m) = if held x then 1 else 0.
Proof.
  simpl. intros He Hm Hr Hi Hh (x & Hx & Hc & Hpos & Hin).
  rewrite !(count_update _ _ _ _ _ Hm), !weight_uses, !weight_inside.
  destruct (decide (p = q)) as [->|Hne].
  - rewrite lookup_insert_eq. exists e'. simplify_eq. split_and!; [done|lia|lia|lia].
  - rewrite lookup_insert_ne by done. exists x. split_and!; [done|lia|lia|lia].
Qed.

Lemma shared_move (m : gmap nat request) t key p ph ph' (tab : gmap string nat) :
  m !! t = Some (mkRequest key p ph) ->
  (forall t r, m !! t = Some r -> tab !! r_key r = Some (r_lock r)) ->
  forall t' r, <[t := mkRequest key p ph']> m !! t' = Some r -> tab !! r_key r = Some (r_lock r).
Proof.
  intros Hm Hs t' r [[<- <-]|[Hne Hr]]%lookup_insert_Some; [|by eapply Hs].
  apply (Hs t (mkRequest key p ph)). done.
Qed.

Lemma held_ok t key p ph ph' (from to : bool) l l' m : m !! t = Some (mkRequest key p ph) ->
  (if to then 1 else 0) = (if from then 1 else 0) - (if decide (ph = Inside) then 1 else 0)
                          + (if decide (ph' = Inside) then 1 else 0) ->
  set_held p from to l = Some l' -> locks_ok (mkSystem l m) ->
  locks_ok (mkSystem l' (<[t := mkRequest key p ph']> m)).
Proof.
  intros Hm Hw Hset [Hs Ho Hb Hc]. simpl in *. unfold set_held in Hset.
  destruct (heap l !! p) as [e|] eqn:He; [|done]. destruct (eqb (held e) from) eqn:Ef; [|done].
  apply eqb_prop in Ef. injection Hset as <-. split; simpl; [by eapply shared_move|done|done|].
  intros k q Hk. eapply counted_move; [exact He|exact Hm|done| |by rewrite Ef|by eapply Hc].
  destruct (Hc key p (Hs t _ Hm)) as (x & Hx & _ & _ & Hin). by simplify_eq.
Qed.

Lemma acquire_ok t key p l l' m : m !! t = None -> acquireIdempotencyLock key l = Some (p, l') ->
  locks_ok (mkSystem l m) -> locks_ok (mkSystem l' (<[t := mkRequest key p Waiting]> m)).
Proof.
  intros Hm Hacq [Hs Ho Hb Hc]. simpl in *. unfold acquireIdempotencyLock in Hacq.
  assert (forall q, count (uses q) (<[t := mkRequest key p Waiting]> m) = (if decide (p = q) then 1 else 0) + count (uses q) m)
    as Hu by (intros q; by rewrite count_insert, weight_uses).
  assert (forall q, count (inside q) (<[t := mkRequest key p Waiting]> m) = count (inside q) m) as Hi.
  { intros q. rewrite count_insert, weight_inside by done. by case_decide. }
  destruct (idempotencyLock l !! key) as [p0|] eqn:Ek; simpl in Hacq.
  - destruct (heap l !! p0) as [e|] eqn:Ee; [|done]. injection Hacq as -> <-. split; simpl; [|done|done|].
    + intros t' r [[<- <-]|[_ Hr]]%lookup_insert_Some; [done|by eapply Hs].
    + intros k q Hk. rewrite Hu, Hi. destruct (Hc k q Hk) as (x & Hx & Hr & Hp & Hin).
      destruct (decide (p = q)) as [->|Hne]; [|rewrite lookup_insert_ne by done; by exists x].
      rewrite lookup_insert_eq. simplify_eq. eexists. split_and!; [done| | |done]; simpl; lia.
  - rewrite lookup_insert_eq in Hacq. simpl in Hacq. injection Hacq as <- <-.
    assert (forall k q, idempotencyLock l !! k = Some q -> next l <> q) as Hfresh.
    { intros k q Hk E. apply Hb in Hk. lia. }
    assert (forall P, (forall r, P r = true -> r_lock r = next l) -> count P m = 0) as Hz.
    { intros P HP. apply count_none. intros t' r Hr. destruct (P r) eqn:E; [|done].
      apply HP in E. destruct (Hfresh (r_key r) (r_lock r)); [by eapply Hs|done]. }
    split; simpl.
    + intros t' r [[<- <-]|[_ Hr]]%lookup_insert_Some; simpl; [apply lookup_insert_eq|].
      rewrite lookup_insert_ne; [by eapply Hs|]. intros ->. apply Hs in Hr. congruence.
    + intros k1 k2 q [[<- <-]|[_ H1]]%lookup_insert_Some [[<- E]|[_ H2]]%lookup_insert_Some; try done.
      * by destruct (Hfresh k2 (next l)).
      * by destruct (Hfresh k1 q).
      * by eapply Ho.
    + intros k q [[<- <-]|[_ Hk]]%lookup_insert_Some; [lia|]. apply Hb in Hk. lia.
    + intros k q Hk. rewrite Hu, Hi. destruct (decide (next l = q)) as [<-|Hne].
      * rewrite lookup_insert_eq. eexists. split_and!; [done| |done|]; simpl.
        -- rewrite Hz; [done|]. unfold uses. intros r Hr. by breflect.
        -- apply Hz. unfold inside, uses. intros r Hr. by breflect.
      * rewrite !lookup_insert_ne by done.
        apply lookup_insert_Some in Hk as [[_ ?]|[_ Hk]]; [done|]. apply Hc in Hk as (x & Hx). by exists x.
Qed.

Lemma release_ok t key p l l' m : m !! t = Some (mkRequest key p Leaving) ->
  releaseIdempotencyLock key p l = Some l' -> locks_ok (mkSystem l m) -> locks_ok (mkSystem l' (delete t m)).
Proof.
  intros Hm Hrel [Hs Ho Hb Hc]. simpl in *. unfold releaseIdempotencyLock in Hrel.
  pose proof (Hs t _ Hm) as Hk. simpl in Hk. destruct (Hc key p Hk) as (e & He & Hr & Hp & Hin).
  rewrite He in Hrel. simpl in Hrel. rewrite bool_decide_true, andb_true_r in Hrel by done.
  assert (forall q, count (uses q) (delete t m) = count (uses q) m - (if decide (p = q) then 1 else 0)) as Hu
    by (intros q; by rewrite (count_delete _ _ _ _ Hm), weight_uses).
  assert (forall q, count (inside q) (delete t m) = count (inside q) m) as Hi.
  { intros q. rewrite (count_delete _ _ _ _ Hm), weight_inside. case_decide; simpl; lia. }
  assert (forall t' r, delete t m !! t' = Some r -> m !! t' = Some r) as Hsub.
  { by intros t' r [_ ?]%lookup_delete_Some. }
  destruct (refs e - 1 =? 0) eqn:Ez; breflect; injection Hrel as <-; split; simpl; eauto.
  - intros t' r Hr'. assert (m !! t' = Some r) as Hr2 by eauto. specialize (Hs t' r Hr2).
    rewrite lookup_delete_ne; [done|]. intros Er. rewrite <- Er, Hk in Hs. injection Hs as Hs.
    assert (t = t'); [|subst; by rewrite lookup_delete_eq in Hr'].
    eapply (count_two (uses p)); [exact Hm|exact Hr2|unfold uses; by rewrite bool_decide_true..|lia].
  - intros k1 k2 q [_ ?]%lookup_delete_Some [_ ?]%lookup_delete_Some. eauto.
  - intros k q [_ ?]%lookup_delete_Some. eauto.
  - intros k q [Hne Hkq]%lookup_delete_Some. assert (p <> q) as Hpq by (intros ->; by destruct (Ho key k q)).
    rewrite Hu, Hi, lookup_insert_ne, decide_False by done. destruct (Hc k q Hkq) as (x & ? & ? & ? & ?).
    exists x. split_and!; [done|lia|done|done].
  - intros k q Hkq. rewrite Hu, Hi. destruct (decide (p = q)) as [<-|Hne].
    + rewrite lookup_insert_eq. eexists. split_and!; [done| | |done]; simpl; lia.
    + rewrite lookup_insert_ne by done. destruct (Hc k q Hkq) as (x & ? & ? & ? & ?). exists x. split_and!; [done|lia|done|done].
Qed.

Lemma lock_step_ok s s' : step s s' -> locks_ok s -> locks_ok s'.
Proof.
  intros [t key p l l' m Hm Ha|t key p l l' m Hm Ha|t key p l l' m Hm Ha|t key p l l' m Hm Ha].
  - by eapply acquire_ok.
  - by apply (held_ok t key p Waiting Inside false true l).
  - by apply (held_ok t key p Inside Leaving true false l).
  - by eapply release_ok.
Qed.

Lemma reachable_ok s : rtc step new_system s -> locks_ok s.
Proof.
  intros Hr. assert (locks_ok new_system -> locks_ok s) as Hg by (induction Hr; eauto using lock_step_ok).
  apply Hg, new_ok.
Qed.

Lemma count_pos P m : 0 < count P m -> exists t r, m !! t = Some r /\ P r = true.
Proof.
  induction m as [|t r m Hm IH] using map_ind; [done|]. rewrite count_insert by done. unfold weight.
  destruct (P r) eqn:E; intros Hc; [exists t, r; by rewrite lookup_insert_eq|].
  destruct IH as (t' & r' & Ht & ?); [lia|]. exists t', r'. rewrite lookup_insert_ne; [done|]. congruence.
Qed.

(** A request whose turn it is. *)
Definition can_move (s : system) (t : nat) : Prop :=
  exists s', step s s' /\ requests s' !! t <> requests s !! t.

(** In a reachable state, a request moves on unless it waits for another one that is inside. *)
Lemma moves s t r : locks_ok s -> requests s !! t = Some r ->
  can_move s t \/ exists t' r', requests s !! t' = Some r' /\ r_key r' = r_key r /\ r_phase r' = Inside.
Proof.
  intros Hok Hr. destruct s as [l m]. simpl in *. destruct r as [key p ph]. pose proof (shared _ Hok t _ Hr) as Hk.
  simpl in Hk. destruct (counted _ Hok key p Hk) as (e & He & _ & _ & Hin). simpl in *. destruct ph.
  - destruct (held e) eqn:Eh.
    + right. destruct (count_pos (inside p) m) as (t' & r' & Ht' & Hi); [lia|]. unfold inside, uses in Hi. breflect.
      exists t', r'. split_and!; [done| |done]. apply (owned _ Hok _ _ p); [|done].
      rewrite (shared _ Hok t' r' Ht'). by f_equal.
    + left. eexists. split; [eapply step_lock; [exact Hr|]|].
      * unfold set_held. rewrite He, Eh. reflexivity.
      * simpl. rewrite lookup_insert_eq, Hr. done.
  - right. exists t, (mkRequest key p Inside). done.
  - left. unfold can_move.
    assert (exists l', releaseIdempotencyLock key p l = Some l') as [l' Hl].
    { unfold releaseIdempotencyLock. rewrite He. simpl. destruct (_ && _); eexists; reflexivity. }
    eexists. split; [by eapply step_release|]. simpl. by rewrite lookup_delete_eq, Hr.
Qed.

(** C14 The lock per key excludes and does not leak: over every interleaving of the
    requests, at most one request of a key is between its lock and its unlock, an entry is
    in the table exactly while a request of its key is under way, and while there are
    requests at least one of them can move on. *)
Theorem key_lock_exclusive s : rtc step new_system s ->
  (forall t1 t2 r1 r2, requests s !! t1 = Some r1 -> requests s !! t2 = Some r2 ->
     r_phase r1 = Inside -> r_phase r2 = Inside -> r_key r1 = r_key r2 -> t1 = t2) /\
  (forall key, is_Some (idempotencyLock (mem s) !! key) <->
     exists t r, requests s !! t = Some r /\ r_key r = key) /\
  (requests s <> ∅ -> exists t, can_move s t).
Proof.
  intros Hok%reachable_ok. split_and!.
  - intros t1 t2 r1 r2 H1 H2 P1 P2 E. pose proof (shared _ Hok t1 r1 H1) as S1. pose proof (shared _ Hok t2 r2 H2) as S2.
    rewrite E, S2 in S1. injection S1 as El. destruct (counted _ Hok _ _ S2) as (e & _ & _ & _ & Hin).
    eapply (count_two (inside (r_lock r2))); [exact H1|exact H2| | |destruct (held e); lia];
      unfold inside, uses; by rewrite !bool_decide_true.
  - intros key. split.
    + intros [p Hp]. destruct (counted _ Hok key p Hp) as (e & _ & Hr & Hpos & _).
      destruct (count_pos (uses p) (requests s)) as (t & r & Ht & Hu); [lia|]. exists t, r. split; [done|].
      unfold uses in Hu. breflect. apply (owned _ Hok _ _ p); [|done]. rewrite (shared _ Hok t r Ht). by f_equal.
    + intros (t & r & Ht & <-). rewrite (shared _ Hok t r Ht). eauto.
  - intros Hne. apply map_choose in Hne as (t & r & Ht).
    destruct (moves s t r Hok Ht) as [|(t' & r' & Ht' & _ & Hp)]; [eauto|]. exists t'.
    destruct s as [l m], r' as [key p ph]. simpl in *. subst ph. pose proof (shared _ Hok t' _ Ht') as Hk. simpl in Hk.
    destruct (counted _ Hok key p Hk) as (e & He & _ & _ & Hin). simpl in *.
    destruct (held e) eqn:Eh.
    + eexists. split; [eapply step_unlock; [exact Ht'|]|].
      * unfold set_held. rewrite He, Eh. reflexivity.
      * simpl. rewrite lookup_insert_eq, Ht'. done.
    + exfalso. pose proof (count_delete (inside p) m t' _ Ht') as Hd. pose proof (count_nonneg (inside p) (delete t' m)).
      rewrite weight_inside, !decide_True in Hd by done. lia.
Qed.

(** Two requests of one key: the second waits for the first. *)
Definition two_requests : system :=
  mkSystem (mkLocks {["k" := 0%nat]} {[0%nat := mkEntry 2 true]} 1)
    {[7%nat := mkRequest "k" 0 Inside; 8%nat := mkRequest "k" 0 Waiting]}.

Lemma two_requests_reached : rtc step new_system two_requests.
Proof.
  eapply rtc_l; [by apply (step_acquire 7 "k" 0 new_locks (mkLocks {["k" := 0%nat]} {[0%nat := mkEntry 1 false]} 1))|].
  eapply rtc_l; [by eapply (step_lock 7 "k" 0 _ (mkLocks {["k" := 0%nat]} {[0%nat := mkEntry 1 true]} 1))|].
  eapply rtc_l; [by eapply (step_acquire 8 "k" 0 _ (mkLocks {["k" := 0%nat]} {[0%nat := mkEntry 2 true]} 1))|].
  apply rtc_refl.
Qed.

Lemma key_lock_exclusive_witness : exists t, can_move two_requests t.
Proof.
  destruct (key_lock_exclusive two_requests two_requests_reached) as (_ & _ & Hmove). by apply Hmove.
Defined.

End KeyLock.
