(* ===== verification/Auth.v ===== *)
(** * Authentication in the user center: [services/usercenter/components]

    The message handlers of the domain and client authentication components over the
    repositories of [UserStore] and the protocol of [Idempotency]. Clock readings, random
    ids and raw tokens are arguments; SHA-256 and bcrypt are parameters. *)

From S2P Require Import Prelude Mongo Proto UserStore Idempotency.
Import Mongo Proto UserStore Idempotency.

Module Auth.

Definition LINK_PLAYER_RESPONSE : Z := 1105.
Definition CLIENT_LOGIN_AUTHENTICATE_RESPONSE : Z := 1106.
Definition CLIENT_REFRESH_AUTHENTICATE_RESPONSE : Z := 1107.

Definition AUTH_PROVIDER_GUEST : Z := 1.
Definition AUTH_PROVIDER_PASSWORD : Z := 6.

Record GuestAuthenticateRequest := mkGuestRequest {
  g_InstallId : string;
  g_ClientPlatform : string;
  g_ClientVersion : string;
  g_IdempotencyKey : string
}.
Record GuestAuthenticateResponse := mkGuestResponse {
  gr_AccountId : string;
  gr_RefreshToken : string;
  gr_ExpireAtUnix : Z;
  gr_Created : bool
}.
Record RefreshAuthenticateRequest := mkRefreshRequest {
  f_RefreshToken : string;
  f_InstallId : string;
  f_IdempotencyKey : string
}.
Record RevokeRefreshTokenRequest := mkRevokeRequest {
  v_AccountId : string;
  v_RefreshToken : string;
  v_IdempotencyKey : string
}.
Record RevokeRefreshTokenResponse := mkRevokeResponse {}.
Record PasswordAuthenticateRequest := mkPasswordRequest {
  p_Username : string;
  p_Password : string;
  p_InstallId : string;
  p_IdempotencyKey : string
}.
Record PasswordAuthenticateResponse := mkPasswordResponse {
  pr_AccountId : string;
  pr_RefreshToken : string;
  pr_ExpireAtUnix : Z
}.
Record RefreshAuthenticateResponse := mkRefreshResponse {
  fr_AccountId : string;
  fr_RefreshToken : string;
  fr_ExpireAtUnix : Z
}.
Record AuthenticationGrant := mkGrant {
  a_AccountId : string;
  a_RefreshToken : string;
  a_ExpireAtUnix : Z
}.
Record ClientLoginAuthenticateResponse := mkClientLoginResponse { cl_Grant : option AuthenticationGrant }.
Record ClientRefreshAuthenticateResponse := mkClientRefreshResponse { cr_Grant : option AuthenticationGrant }.
Record LinkPlayerRequest := mkLinkRequest { k_AccountId : string; k_PlayerId : string }.
Record LinkPlayerResponse := mkLinkResponse { kr_AccountId : string; kr_PlayerId : string }.
Record ClientLoginAuthenticateRequest := mkClientLogin { cl_LoginRequest : string }.
Record ClientRefreshAuthenticateRequest := mkClientRefresh { cl_RefreshLoginRequest : string }.
Record LoginRequest := mkLogin {
  l_Provider : Z;
  l_Credential : string;
  l_InstallId : string;
  l_Username : string;
  l_Password : string;
  l_IdempotencyKey : string
}.
Record RefreshLoginRequest := mkRefreshLogin {
  rl_RefreshToken : string;
  rl_InstallId : string;
  rl_IdempotencyKey : string
}.

#[export] Instance guest_keyed : KeyedRequest GuestAuthenticateRequest := fun r =>
  mkGuestRequest (g_InstallId r) (g_ClientPlatform r) (g_ClientVersion r) "".
#[export] Instance refresh_keyed : KeyedRequest RefreshAuthenticateRequest := fun r =>
  mkRefreshRequest (f_RefreshToken r) (f_InstallId r) "".
#[export] Instance revoke_keyed : KeyedRequest RevokeRefreshTokenRequest := fun r =>
  mkRevokeRequest (v_AccountId r) (v_RefreshToken r) "".
#[export] Instance password_keyed : KeyedRequest PasswordAuthenticateRequest := fun r =>
  mkPasswordRequest (p_Username r) (p_Password r) (p_InstallId r) "".
#[export] Instance login_keyed : KeyedRequest LoginRequest := fun r =>
  mkLogin (l_Provider r) (l_Credential r) (l_InstallId r) (l_Username r) (l_Password r) "".
#[export] Instance refresh_login_keyed : KeyedRequest RefreshLoginRequest := fun r =>
  mkRefreshLogin (rl_RefreshToken r) (rl_InstallId r) "".

(** What issuing a token and creating an account read: random ids, the random raw token
    (32 bytes in base64), a bcrypt salt, the clock, and the mapper's clock. *)
Record token_readings := mkTokenReadings {
  t_uuid : res string;
  t_raw : res string;
  t_now : Z;
  t_wall : Z
}.
Record create_readings := mkCreateReadings {
  c_account : res string;
  c_identity : res string;
  c_salt : string;
  c_now : Z;
  c_token : token_readings
}.

(** bcrypt: the hash under a salt, and whether a password matches a hash. *)
Class Bcrypt := {
  GenerateFromPassword : string -> string -> res string;
  CompareHashAndPassword : string -> string -> bool
}.
Class BcryptLaws `{Bcrypt} := {
  compare_generate salt password h : GenerateFromPassword salt password = Ok h ->
    h <> "" /\ CompareHashAndPassword h password = true
}.

Section component.
Context {S : Type} `{Database S user_db} `{BsonDates}.
Context `{!Collection S accounts_collection, !Collection S identities_collection,
          !Collection S tokens_collection, !Collection S records_collection}.
Context `{Bcrypt} (sha256_hex : string -> string) (ctxErr : error).

(** The component; the token repository has the same unit of work. *)
Record DomainAuthComponent := mkComponent {
  unitOfWork : option (option (MongoUnitOfWork S));
  refreshTokenTTL : Z;
  protocol : settings
}.

Definition authHashToken (token : string) : string := sha256_hex token.

Definition newToken (c : DomainAuthComponent) (accountID installID : string) (t : token_readings) :
    res (RefreshToken * string) :=
  if bool_decide (accountID = "") || bool_decide (installID = "") || (refreshTokenTTL c <=? 0)
  then Err ErrInvalidToken
  else match t_uuid t with
       | Err e => Err e
       | Ok tokenID =>
           match t_raw t with
           | Err e => Err e
           | Ok rawToken =>
               Ok (mkToken tokenID accountID (authHashToken rawToken) (TrimSpace installID) (t_now t)
                     (time_Add (t_now t) (refreshTokenTTL c)) None, rawToken)
           end
       end.

Definition issueToken (c : DomainAuthComponent) (accountID installID : string) (t : token_readings) :
    prog S (RefreshToken * string) := fun s =>
  match newToken c accountID installID t with
  | Err e => (Err e, s)
  | Ok (token, rawToken) =>
      match TokenRepository_Create Background token (t_wall t) s with
      | (Err e, s') => (Err (Wrapf "store refresh token" e), s')
      | (Ok _, s') => (Ok (token, rawToken), s')
      end
  end.

(** The function [createAccountAndToken] runs in its transaction. *)
Definition register (account : Account) (identity : Identity) (token : RefreshToken) (wall : Z) : txn_body S := fun ctx =>
  (_ <- AccountRepository_Create ctx account ;;
   _ <- IdentityRepository_Create ctx identity ;;
   TokenRepository_Create ctx token wall)%go.

Definition createAccountAndToken (c : DomainAuthComponent) (provider subject password installID : string)
    (t : create_readings) : prog S (string * RefreshToken * string) := fun s =>
  match unitOfWork c with
  | None => (Err (Text "user center transaction is not configured"), s)
  | Some u =>
      match c_account t with
      | Err e => (Err (Wrapf "generate account id" e), s)
      | Ok accountID =>
          match c_identity t with
          | Err e => (Err (Wrapf "generate identity id" e), s)
          | Ok identityID =>
              match (if bool_decide (password = "") then Ok ""
                     else match GenerateFromPassword (c_salt t) password with
                          | Err e => Err (Wrapf "hash password" e)
                          | Ok h => Ok h
                          end) with
              | Err e => (Err e, s)
              | Ok passwordHash =>
                  let now := c_now t in
                  let account := mkAccount accountID [] [] now now in
                  let identity := mkIdentity identityID accountID provider subject passwordHash now in
                  match newToken c accountID installID (c_token t) with
                  | Err e => (Err e, s)
                  | Ok (token, rawToken) =>
                      match Execute u (Some (register account identity token (t_wall (c_token t)))) s with
                      | (Err e, s') => (Err e, s')
                      | (Ok _, s') => (Ok (accountID, token, rawToken), s')
                      end
                  end
              end
          end
      end
  end.

Definition guestResult (accountID : string) (token : RefreshToken) (rawToken : string) (created : bool) :
    MessageResult GuestAuthenticateResponse :=
  mkResult GUEST_AUTHENTICATE_RESPONSE
    (mkGuestResponse accountID rawToken (time_Unix (TExpiresAt token)) created).

(** [ct] are the readings of the creation, [it] those of [issueToken]. *)
Definition guestAuthenticateCore (c : DomainAuthComponent) (request : GuestAuthenticateRequest)
    (ct : create_readings) (it : token_readings) : prog S (MessageResult GuestAuthenticateResponse) := fun s =>
  let installID := TrimSpace (g_InstallId request) in
  let issue identity : prog S (MessageResult GuestAuthenticateResponse) := fun s =>
    match issueToken c (IAccountID identity) installID it s with
    | (Err e, s') => (Err e, s')
    | (Ok (token, rawToken), s') => (Ok (guestResult (IAccountID identity) token rawToken false), s')
    end in
  match IdentityRepository_Find Background AuthProviderGuest installID s with
  | (Ok identity, s1) => issue identity s1
  | (Err e, s1) =>
      if errors_Is e ErrIdentityNotFound then
        match createAccountAndToken c AuthProviderGuest installID "" installID ct s1 with
        | (Ok (accountID, token, rawToken), s2) => (Ok (guestResult accountID token rawToken true), s2)
        | (Err createErr, s2) =>
            match IdentityRepository_Find Background AuthProviderGuest installID s2 with
            | (Err _, s3) => (Err (Wrapf "create guest account" createErr), s3)
            | (Ok identity, s3) => issue identity s3
            end
        end
      else (Err (Wrapf "find guest identity" e), s1)
  end.

Definition ErrBadPassword := Text "invalid username or password".

Definition passwordResult (accountID : string) (token : RefreshToken) (rawToken : string) : MessageResult PasswordAuthenticateResponse :=
  mkResult PASSWORD_AUTHENTICATE_RESPONSE (mkPasswordResponse accountID rawToken (time_Unix (TExpiresAt token))).

Definition password_matches (identity : Identity) (password : string) : bool :=
  negb (bool_decide (PasswordHash identity = "")) && CompareHashAndPassword (PasswordHash identity) password.

Definition passwordAuthenticateCore (c : DomainAuthComponent) (request : PasswordAuthenticateRequest)
    (ct : create_readings) (it : token_readings) : prog S (MessageResult PasswordAuthenticateResponse) := fun s =>
  let username := TrimSpace (p_Username request) in
  let installID := TrimSpace (p_InstallId request) in
  let len x := Z.of_nat (String.length x) in
  if bool_decide (username = "") || bool_decide (p_Password request = "") || bool_decide (installID = "") ||
     (len username <? 3) || (64 <? len username) || (len (p_Password request) <? 6) || (128 <? len (p_Password request))
  then (Err ErrBadPassword, s)
  else
    let issue identity : prog S (MessageResult PasswordAuthenticateResponse) := fun s =>
      if negb (password_matches identity (p_Password request)) then (Err ErrBadPassword, s)
      else match issueToken c (IAccountID identity) installID it s with
           | (Err e, s') => (Err e, s')
           | (Ok (token, rawToken), s') => (Ok (passwordResult (IAccountID identity) token rawToken), s')
           end in
    match IdentityRepository_Find Background AuthProviderPassword username s with
    | (Ok identity, s1) => issue identity s1
    | (Err e, s1) =>
        if errors_Is e ErrIdentityNotFound then
          match createAccountAndToken c AuthProviderPassword username (p_Password request) installID ct s1 with
          | (Ok (accountID, token, rawToken), s2) => (Ok (passwordResult accountID token rawToken), s2)
          | (Err createErr, s2) =>
              match IdentityRepository_Find Background AuthProviderPassword username s2 with
              | (Err _, s3) => (Err (Wrapf "create password account" createErr), s3)
              | (Ok identity, s3) => issue identity s3
              end
          end
        else (Err (Wrapf "find password identity" e), s1)
    end.

(** [now] is read once at the start. *)
Definition refreshAuthenticateCore (c : DomainAuthComponent) (request : RefreshAuthenticateRequest) (now : Z)
    (it : token_readings) : prog S (MessageResult RefreshAuthenticateResponse) := fun s =>
  match FindValid Background (authHashToken (f_RefreshToken request)) now s with
  | (Err e, s1) => (Err (Wrapf "find refresh token" e), s1)
  | (Ok oldToken, s1) =>
      if negb (IsUsable oldToken now (TrimSpace (f_InstallId request))) then (Err ErrInvalidToken, s1)
      else match newToken c (TAccountID oldToken) (f_InstallId request) it with
           | Err e => (Err e, s1)
           | Ok (replacement, rawToken) =>
               match Rotate (unitOfWork c) (TID oldToken) now replacement (t_wall it) s1 with
               | (Err e, s2) => (Err (Wrapf "rotate refresh token" e), s2)
               | (Ok _, s2) =>
                   (Ok (mkResult REFRESH_AUTHENTICATE_RESPONSE
                          (mkRefreshResponse (TAccountID oldToken) rawToken (time_Unix (TExpiresAt replacement)))), s2)
               end
           end
  end.

Definition revokeRefreshTokenCore (request : RevokeRefreshTokenRequest) (now revoked : Z) :
    prog S (MessageResult RevokeRefreshTokenResponse) := fun s =>
  match FindValid Background (authHashToken (v_RefreshToken request)) now s with
  | (Err _, s1) => (Err ErrInvalidToken, s1)
  | (Ok token, s1) =>
      if negb (bool_decide (TAccountID token = TrimSpace (v_AccountId request))) then (Err ErrInvalidToken, s1)
      else match Revoke Background (TID token) revoked s1 with
           | (Err e, s2) => (Err (Wrapf "revoke refresh token" e), s2)
           | (Ok _, s2) => (Ok (mkResult REVOKE_REFRESH_TOKEN_RESPONSE mkRevokeResponse), s2)
           end
  end.

(** ** Handlers *)

Context `{ProtoMessage GuestAuthenticateRequest, ProtoMessage GuestAuthenticateResponse,
          ProtoMessage RefreshAuthenticateRequest, ProtoMessage RefreshAuthenticateResponse,
          ProtoMessage RevokeRefreshTokenRequest, ProtoMessage RevokeRefreshTokenResponse,
          ProtoMessage PasswordAuthenticateRequest, ProtoMessage PasswordAuthenticateResponse,
          ProtoMessage LinkPlayerRequest, ProtoMessage ClientLoginAuthenticateResponse,
          ProtoMessage ClientRefreshAuthenticateResponse,
          ProtoMessage ClientLoginAuthenticateRequest, ProtoMessage ClientRefreshAuthenticateRequest,
          ProtoMessage LoginRequest, ProtoMessage RefreshLoginRequest}.

(** The readings of the idempotency protocol. *)
Record call_readings := mkCallReadings { k_first : readings; k_wait : readings; k_rounds : list readings }.

Definition idempotently {R M} `{ProtoMessage R, KeyedRequest R, ProtoMessage M} (c : DomainAuthComponent)
    (key operation : string) (request : R) (k : call_readings) (execute : prog S (MessageResult M)) :
    prog S (MessageResult M) :=
  withIdempotency sha256_hex ctxErr (protocol c) key operation request (k_first k) (k_wait k) (k_rounds k) execute.

Definition blank (x : string) : bool := bool_decide (TrimSpace x = "").

Definition guestAuthenticate (c : DomainAuthComponent) (payload : string) (k : call_readings)
    (ct : create_readings) (it : token_readings) : prog S (MessageResult GuestAuthenticateResponse) := fun s =>
  match Unmarshal payload with
  | Err _ => (Err (Text "install_id is required"), s)
  | Ok request =>
      if blank (g_InstallId request) then (Err (Text "install_id is required"), s)
      else idempotently c (g_IdempotencyKey request) "guest_authenticate" request k
             (guestAuthenticateCore c request ct it) s
  end.

Definition passwordAuthenticate (c : DomainAuthComponent) (payload : string) (k : call_readings)
    (ct : create_readings) (it : token_readings) : prog S (MessageResult PasswordAuthenticateResponse) := fun s =>
  match Unmarshal payload with
  | Err _ => (Err (Text "invalid password authentication request"), s)
  | Ok request =>
      idempotently c (p_IdempotencyKey request) "password_authenticate" request k
        (passwordAuthenticateCore c request ct it) s
  end.

Definition refreshAuthenticate (c : DomainAuthComponent) (payload : string) (k : call_readings) (now : Z)
    (it : token_readings) : prog S (MessageResult RefreshAuthenticateResponse) := fun s =>
  let bad := Err (Text "refresh_token and install_id are required") in
  match Unmarshal payload with
  | Err _ => (bad, s)
  | Ok request =>
      if blank (f_RefreshToken request) || blank (f_InstallId request) then (bad, s)
      else idempotently c (f_IdempotencyKey request) "refresh_authenticate" request k
             (refreshAuthenticateCore c request now it) s
  end.

Definition revokeRefreshToken (c : DomainAuthComponent) (payload : string) (k : call_readings) (now revoked : Z) :
    prog S (MessageResult RevokeRefreshTokenResponse) := fun s =>
  let bad := Err (Text "account_id and refresh_token are required") in
  match Unmarshal payload with
  | Err _ => (bad, s)
  | Ok request =>
      if blank (v_AccountId request) || blank (v_RefreshToken request) then (bad, s)
      else idempotently c (v_IdempotencyKey request) "revoke_refresh_token" request k
             (revokeRefreshTokenCore request now revoked) s
  end.

Definition linkPlayer (payload : string) (now : Z) : prog S (MessageResult LinkPlayerResponse) := fun s =>
  match Unmarshal payload with
  | Err e => (Err e, s)
  | Ok request =>
      if blank (k_AccountId request) || blank (k_PlayerId request)
      then (Err (Text "account_id and player_id are required"), s)
      else match AccountRepository_LinkPlayer Background (k_AccountId request) (k_PlayerId request) now s with
           | (Err e, s') => (Err e, s')
           | (Ok _, s') =>
               (Ok (mkResult LINK_PLAYER_RESPONSE (mkLinkResponse (k_AccountId request) (k_PlayerId request))), s')
           end
  end.

Definition clientLoginGrant (accountID refreshToken : string) (expiresAtUnix : Z) :
    MessageResult ClientLoginAuthenticateResponse :=
  mkResult CLIENT_LOGIN_AUTHENTICATE_RESPONSE
    (mkClientLoginResponse (Some (mkGrant accountID refreshToken expiresAtUnix))).
Definition clientRefreshGrant (accountID refreshToken : string) (expiresAtUnix : Z) :
    MessageResult ClientRefreshAuthenticateResponse :=
  mkResult CLIENT_REFRESH_AUTHENTICATE_RESPONSE
    (mkClientRefreshResponse (Some (mkGrant accountID refreshToken expiresAtUnix))).

Definition clientLoginAuthenticateCore (c : DomainAuthComponent) (login : LoginRequest) (ct : create_readings)
    (it : token_readings) : prog S (MessageResult ClientLoginAuthenticateResponse) := fun s =>
  if l_Provider login =? AUTH_PROVIDER_GUEST then
    match guestAuthenticateCore c (mkGuestRequest (l_InstallId login) "" "" (l_IdempotencyKey login)) ct it s with
    | (Err e, s') => (Err e, s')
    | (Ok result, s') =>
        let message := Message result in
        (Ok (clientLoginGrant (gr_AccountId message) (gr_RefreshToken message) (gr_ExpireAtUnix message)), s')
    end
  else if l_Provider login =? AUTH_PROVIDER_PASSWORD then
    match passwordAuthenticateCore c
            (mkPasswordRequest (l_Username login) (l_Password login) (l_InstallId login) (l_IdempotencyKey login)) ct it s with
    | (Err e, s') => (Err e, s')
    | (Ok result, s') =>
        let message := Message result in
        (Ok (clientLoginGrant (pr_AccountId message) (pr_RefreshToken message) (pr_ExpireAtUnix message)), s')
    end
  else (Err (Text "authentication provider is not enabled"), s).

Definition clientLoginAuthenticate (c : DomainAuthComponent) (payload : string) (k : call_readings)
    (ct : create_readings) (it : token_readings) : prog S (MessageResult ClientLoginAuthenticateResponse) := fun s =>
  match Unmarshal payload with
  | Err _ => (Err (Text "invalid client login authentication request"), s)
  | Ok request =>
      match Unmarshal (cl_LoginRequest request) with
      | Err _ => (Err (Text "invalid client login request"), s)
      | Ok login =>
          if blank (l_InstallId login) then (Err (Text "install_id is required"), s)
          else idempotently c (l_IdempotencyKey login) "client_login_authenticate" login k
                 (clientLoginAuthenticateCore c login ct it) s
      end
  end.

(** The closure of [clientRefreshAuthenticate]. *)
Definition clientRefreshAuthenticateCore (c : DomainAuthComponent) (refresh : RefreshLoginRequest) (now : Z)
    (it : token_readings) : prog S (MessageResult ClientRefreshAuthenticateResponse) := fun s =>
  match refreshAuthenticateCore c
          (mkRefreshRequest (rl_RefreshToken refresh) (rl_InstallId refresh) (rl_IdempotencyKey refresh)) now it s with
  | (Err e, s') => (Err e, s')
  | (Ok result, s') =>
      let message := Message result in
      (Ok (clientRefreshGrant (fr_AccountId message) (fr_RefreshToken message) (fr_ExpireAtUnix message)), s')
  end.

Definition clientRefreshAuthenticate (c : DomainAuthComponent) (payload : string) (k : call_readings) (now : Z)
    (it : token_readings) : prog S (MessageResult ClientRefreshAuthenticateResponse) := fun s =>
  match Unmarshal payload with
  | Err _ => (Err (Text "invalid client refresh authentication request"), s)
  | Ok request =>
      match Unmarshal (cl_RefreshLoginRequest request) with
      | Err _ => (Err (Text "invalid client refresh login request"), s)
      | Ok refresh =>
          if blank (rl_RefreshToken refresh) || blank (rl_InstallId refresh)
          then (Err (Text "refresh_token and install_id are required"), s)
          else idempotently c (rl_IdempotencyKey refresh) "client_refresh_authenticate" refresh k
                 (clientRefreshAuthenticateCore c refresh now it) s
      end
  end.

End component.

(** ** Correctness

    The component as [NewModule] builds it: the unit of work over the driver's client and
    the coordinating repository. The other clients of the database are user center
    processes, and expiry. *)

Section correctness.
Context {S : Type} `{Database S user_db} `{BsonDates}.
Context `{!Collection S accounts_collection, !Collection S identities_collection,
          !Collection S tokens_collection, !Collection S records_collection}.
Context `{!CollectionLaws S accounts_collection, !CollectionLaws S identities_collection,
          !CollectionLaws S tokens_collection, !CollectionLaws S records_collection}.
Context `{!Driver S, !DriverLaws S user_db} `{BcryptLaws}.
Context (sha256_hex : string -> string) (ctxErr : error) (known : gset string) (horizon : Z).
Context (env_user : forall v v' : user_db, env v v' -> rtc (user_step known horizon) v v').
Context (client : option Client) (ttl : Z) (sets : settings).
Notation steps := (rtc (user_step known horizon)).
Notation component := (mkComponent (Some (Some (NewMongoUnitOfWork client))) ttl sets).

(** The random token was never seen before. *)
Definition fresh_raw (t : token_readings) : Prop :=
  forall raw, t_raw t = Ok raw -> authHashToken sha256_hex raw ∉ known.

Lemma identity_find_spec provider subject s r s' :
  IdentityRepository_Find Background provider subject s = (r, s') ->
  steps (view s) (view s') /\
  match r with
  | Ok i => exists d, d ∈ identities (view s') /\ idd_Provider d = provider /\ idd_Subject d = subject /\
              i = identityDomainFromDocument d
  | Err _ => True
  end.
Proof.
  unfold IdentityRepository_Find. destruct (_ || _); [by intros [= <- <-]|].
  destruct (FindOne _ _ s) as [[d|e] s1] eqn:E; apply find_spec in E as [Hp Hr]; intros [= <- <-];
    (split; [by apply env_user|]); [|done].
  destruct Hr as [Hin Hf]. unfold identity_filter in Hf. breflect. exists d. done.
Qed.

Lemma newToken_spec accountID installID t token raw :
  newToken sha256_hex component accountID installID t = Ok (token, raw) ->
  TAccountID token = accountID /\ TokenHash token = authHashToken sha256_hex raw /\ t_raw t = Ok raw /\
  RevokedAt token = None /\ TExpiresAt token = t_now t + ttl /\ installID <> "" /\ InstallID token = TrimSpace installID.
Proof.
  unfold newToken. destruct (_ || _) eqn:Eb; [done|]. breflect. destruct (t_uuid t); [|done].
  destruct (t_raw t) as [raw'|]; [|done]. by intros [= <- <-].
Qed.

Lemma token_document_spec token wall d : refreshTokenDocumentFromDomain token wall = Ok d ->
  td_AccountID d = TAccountID token /\ td_TokenHash d = TokenHash token /\ td_RevokedAt d = RevokedAt token.
Proof.
  unfold refreshTokenDocumentFromDomain. destruct token as [?????? [rev|]]; simpl; (destruct (_ || _); [done|]).
  - by intros [= <-].
  - destruct (negb _); [done|]. by intros [= <-].
Qed.

(** The insertion of a document: done, or failed with or without effect. *)
Lemma insert_cases {Doc} `{Bson Doc} (C : collection_of user_db Doc) `{!Collection S C, !CollectionLaws S C} c d s r s' :
  InsertOne (C := C) c d s = (r, s') -> exists v1, at_point env c (view s) v1 /\
    (inserted C (bson d) v1 (view s') \/ (is_ok r = false /\ view s' = v1)).
Proof.
  intros (v1 & [Hp Hr] & _)%insert_spec. exists v1. split; [done|]. destruct r as [[]|e]; [by left|].
  destruct Hr as [_ [->|[[] Hi]]]; auto.
Qed.

Lemma token_fresh d accountID token raw t : fresh_raw t -> t_raw t = Ok raw ->
  TAccountID token = accountID -> TokenHash token = authHashToken sha256_hex raw -> RevokedAt token = None ->
  td_AccountID d = TAccountID token /\ td_TokenHash d = TokenHash token /\ td_RevokedAt d = RevokedAt token ->
  td_AccountID (bson d) = accountID /\ fresh_token known (bson d).
Proof.
  intros Hf Hraw Ha Hh Hr (Ed & Eh & Er). simpl. split; [congruence|]. split; simpl.
  - rewrite Eh, Hh. by apply Hf.
  - by rewrite Er, Hr.
Qed.

Lemma issueToken_spec accountID installID t s r s' : fresh_raw t -> has_account accountID (view s) ->
  issueToken sha256_hex component accountID installID t s = (r, s') -> steps (view s) (view s').
Proof.
  intros Hf Ho. unfold issueToken.
  destruct (newToken _ _ _ _ _) as [[token raw]|e] eqn:En; [|by intros [= <- <-]].
  apply newToken_spec in En as (Ha & Hh & Hraw & Hrev & _).
  destruct (TokenRepository_Create _ _ _ s) as [r0 s1] eqn:Ec. unfold TokenRepository_Create in Ec.
  assert (steps (view s) (view s1)) as Hs; [|destruct r0; by intros [= <- <-]].
  destruct (refreshTokenDocumentFromDomain _ _) as [d|e] eqn:Ed; [|by injection Ec as <- <-].
  apply token_document_spec in Ed.
  destruct (token_fresh d accountID token raw t) as [Hd Hfr]; try done.
  destruct (InsertOne _ d s) as [r1 s2] eqn:Ei. assert (s2 = s1) as -> by (destruct r1; by injection Ec).
  destruct (insert_cases _ _ _ _ _ _ Ei) as (v1 & Hp & Hcase). simpl in Hp. apply env_user in Hp.
  destruct Hcase as [Hi|[_ ->]]; [|done].
  etrans; [exact Hp|]. apply rtc_once. eapply step_token; [|exact Hfr|exact Hi].
  rewrite Hd. by apply (steps_identities _ _ _ _ Hp).
Qed.

(** What the registration commits: the identity it stores, in one step. *)
Definition registered (accountID provider subject passwordHash : string) (v v' : user_db) : Prop :=
  user_step known horizon v v' /\
  (forall d, d ∈ identities v -> idd_Provider d = provider -> idd_Subject d <> subject) /\
  exists d, d ∈ identities v' /\ idd_Provider d = provider /\ idd_Subject d = subject /\
    idd_AccountID d = accountID /\ idd_PasswordHash d = passwordHash.

Lemma register_commits accountID identityID provider subject passwordHash now token raw t s0 s1 :
  fresh_raw t -> t_raw t = Ok raw -> TAccountID token = accountID ->
  TokenHash token = authHashToken sha256_hex raw -> RevokedAt token = None ->
  register (mkAccount accountID [] [] now now) (mkIdentity identityID accountID provider subject passwordHash now)
    token (t_wall t) Transaction s0 = (Ok tt, s1) ->
  registered accountID provider subject passwordHash (view s0) (view s1).
Proof.
  intros Hf Hraw Ha Hh Hrev ([] & sa & Hac & ([] & sb & Hid & Htk)%bind_ok)%bind_ok.
  unfold AccountRepository_Create in Hac. destruct (accountDocumentFromDomain _) as [da|] eqn:Eda; [|done].
  destruct (InsertOne _ da s0) as [[[]|] s2] eqn:Ei; [|done]. injection Hac as ->.
  apply insert_spec in Ei as (v1 & [-> Hia] & _).
  unfold IdentityRepository_Create in Hid. destruct (identityDocumentFromDomain _) as [di|] eqn:Edi; [|done].
  destruct (InsertOne _ di sa) as [[[]|] s2] eqn:Ei; [|done]. injection Hid as ->.
  apply insert_spec in Ei as (v1 & [-> Hii] & _).
  unfold TokenRepository_Create in Htk. destruct (refreshTokenDocumentFromDomain _ _) as [dt|] eqn:Edt; [|done].
  destruct (InsertOne _ dt sb) as [[[]|] s2] eqn:Ei; [|done]. injection Htk as ->.
  apply insert_spec in Ei as (v1 & [-> Hit] & _). apply token_document_spec in Edt.
  destruct (token_fresh dt accountID token raw t) as [Hd Hfr]; try done.
  unfold accountDocumentFromDomain in Eda. destruct (account_Validate _); [done|]. injection Eda as <-.
  unfold identityDocumentFromDomain, identity_Validate in Edi. simpl in Edi.
  destruct (bool_decide (provider = "") || _); [done|]. destruct (_ && _) eqn:Epw; [done|].
  destruct (bool_decide (accountID = "")); [done|]. injection Edi as <-. split_and!.
  - eapply step_register; [exact Hia|exact Hii|exact Hit|done|done|done| |done].
    simpl. intros -> ->. by rewrite !bool_decide_true in Epw.
  - intros d Hd' Ep Es. destruct Hia as [_ Eva], Hii as [Hc _]. apply Hc. rewrite Eva. exists d. split; [done|].
    simpl. unfold same_subject. simpl. by rewrite (bool_decide_true (provider = _)), (bool_decide_true (subject = _)), orb_true_r.
  - destruct Hit as [_ ->], Hii as [_ ->]. simpl. eexists. split; [apply elem_of_app; right; apply elem_of_cons; by left|done].
Qed.

(** The password hash a registration stores. *)
Definition hashed (salt password h : string) : Prop :=
  (password = "" /\ h = "") \/ (password <> "" /\ GenerateFromPassword salt password = Ok h).

Lemma createAccountAndToken_spec provider subject password installID t s r s' : fresh_raw (c_token t) ->
  createAccountAndToken sha256_hex component provider subject password installID t s = (r, s') ->
  steps (view s) (view s') /\
  match r with
  | Ok (accountID, token, raw) => exists d h, d ∈ identities (view s') /\ idd_Provider d = provider /\
      idd_Subject d = subject /\ idd_AccountID d = accountID /\ idd_PasswordHash d = h /\
      hashed (c_salt t) password h /\
      (forall d, d ∈ identities (view s) -> idd_Provider d = provider -> idd_Subject d <> subject)
  | Err _ => True
  end.
Proof.
  intros Hf. unfold createAccountAndToken. cbn [unitOfWork].
  destruct (c_account t) as [accountID|e]; [|by intros [= <- <-]].
  destruct (c_identity t) as [identityID|e]; [|by intros [= <- <-]].
  destruct (if bool_decide (password = "") then _ else _) as [h|e] eqn:Eh; [|by intros [= <- <-]].
  assert (hashed (c_salt t) password h) as Hh.
  { case_bool_decide as Ep; [injection Eh as <-; by left|]. right. split; [done|].
    destruct (GenerateFromPassword _ _); [by injection Eh as ->|done]. }
  destruct (newToken _ _ _ _ _) as [[token raw]|e] eqn:En; [|by intros [= <- <-]].
  apply newToken_spec in En as (Ha & Hth & Hraw & Hrev & _).
  destruct (Execute _ _ s) as [r0 s1] eqn:Ex. apply Execute_spec in Ex as (s2 & s3 & He & Hx). apply env_user in He.
  destruct r0 as [[]|e]; intros [= <- <-].
  - destruct Hx as [Hreg Henv]. apply env_user in Henv. eapply register_commits in Hreg as [Hst [Hno (d & Hd & ? & ? & ? & ?)]];
      try done. split; [etrans; [done|]; by eapply rtc_l|]. exists d, h. split_and!; try done.
    + by apply (steps_identities _ _ _ _ Henv).
    + intros d' Hd'. apply Hno. by apply (steps_identities _ _ _ _ He).
  - split; [|done]. destruct Hx as [[_ Hv]|[_ [Hv|[Hreg Hv]]]]; apply env_user in Hv; [by etrans|by etrans|].
    eapply register_commits in Hreg as [Hst _]; try done. etrans; [done|]. by eapply rtc_l.
Qed.

(** The identity of a subject. *)
Definition identified (provider subject accountID : string) (v : user_db) (d : identityDocument) : Prop :=
  d ∈ identities v /\ idd_Provider d = provider /\ idd_Subject d = subject /\ idd_AccountID d = accountID.

Lemma identified_steps provider subject accountID v v' d : steps v v' ->
  identified provider subject accountID v d -> identified provider subject accountID v' d.
Proof. intros Hs (? & ? & ? & ?). split_and!; try done. by apply (steps_identities _ _ _ _ Hs). Qed.

Lemma identified_unique provider subject a1 a2 v d1 d2 : users_ok v ->
  identified provider subject a1 v d1 -> identified provider subject a2 v d2 -> d1 = d2 /\ a1 = a2.
Proof.
  intros Hok (? & E1 & F1 & <-) (? & E2 & F2 & <-). assert (d1 = d2) as ->; [|done].
  apply (identities_unique v Hok); try done. unfold same_subject. by rewrite !bool_decide_true by congruence.
Qed.

(** Issuing a token to the account of an identity. *)
Lemma issue_identified provider subject d installID t s r s' : users_ok (view s) -> fresh_raw t ->
  identified provider subject (idd_AccountID d) (view s) d ->
  issueToken sha256_hex component (idd_AccountID d) installID t s = (r, s') ->
  steps (view s) (view s') /\ identified provider subject (idd_AccountID d) (view s') d.
Proof.
  intros Hok Hf Hd Hr. assert (steps (view s) (view s')) as Hs.
  { eapply issueToken_spec; [exact Hf| |exact Hr]. by apply (identity_owner _ Hok), Hd. }
  split; [done|]. by eapply identified_steps.
Qed.

(** The common shape of the guest and the password login: look the identity up; if there
    is none, register it; if that fails, look again; then check it and issue a token. *)
Section login.
Context {M : Type} (provider subject password installID findErr createErr : string) (check : Identity -> option error)
  (answer : string -> RefreshToken -> string -> bool -> M).

Definition login_issue (it : token_readings) (identity : Identity) : prog S M := fun s =>
  match check identity with
  | Some e => (Err e, s)
  | None =>
      match issueToken sha256_hex component (IAccountID identity) installID it s with
      | (Err e, s') => (Err e, s')
      | (Ok (token, rawToken), s') => (Ok (answer (IAccountID identity) token rawToken false), s')
      end
  end.

Definition login (ct : create_readings) (it : token_readings) : prog S M := fun s =>
  match IdentityRepository_Find Background provider subject s with
  | (Ok identity, s1) => login_issue it identity s1
  | (Err e, s1) =>
      if errors_Is e ErrIdentityNotFound then
        match createAccountAndToken sha256_hex component provider subject password installID ct s1 with
        | (Ok (accountID, token, rawToken), s2) => (Ok (answer accountID token rawToken true), s2)
        | (Err err, s2) =>
            match IdentityRepository_Find Background provider subject s2 with
            | (Err _, s3) => (Err (Wrapf createErr err), s3)
            | (Ok identity, s3) => login_issue it identity s3
            end
        end
      else (Err (Wrapf findErr e), s1)
  end.

(** Who is logged in: the account of the subject's identity, which either passed the check
    or was registered by this call, with this password, when the subject had none. *)
Definition login_post (salt : string) (v : user_db) (r : res M) (v' : user_db) : Prop :=
  steps v v' /\ forall m, r = Ok m ->
    exists accountID token raw created d, m = answer accountID token raw created /\
      identified provider subject accountID v' d /\
      if created then hashed salt password (idd_PasswordHash d) /\
                      (forall d', d' ∈ identities v -> idd_Provider d' = provider -> idd_Subject d' <> subject)
      else check (identityDomainFromDocument d) = None.

Lemma login_post_l salt v v1 r v' : steps v v1 -> login_post salt v1 r v' -> login_post salt v r v'.
Proof.
  intros Hs [Hs1 Hm]. split; [by etrans|]. intros m Hr.
  destruct (Hm m Hr) as (a & tk & raw & created & d & ? & ? & Hc). exists a, tk, raw, created, d. split_and!; [done|done|].
  destruct created; [|done]. destruct Hc as [? Hno]. split; [done|]. intros d' Hd'. apply Hno.
  by apply (steps_identities _ _ _ _ Hs).
Qed.

Lemma login_issue_spec salt it d s r s' : users_ok (view s) -> fresh_raw it ->
  identified provider subject (idd_AccountID d) (view s) d ->
  login_issue it (identityDomainFromDocument d) s = (r, s') -> login_post salt (view s) r (view s').
Proof.
  intros Hok Hf Hd. unfold login_issue. destruct (check _) as [e|] eqn:Ec; [by intros [= <- <-]|].
  simpl. destruct (issueToken _ _ _ _ _ s) as [r1 s1] eqn:Ei. eapply issue_identified in Ei as [Hs1 Hd1]; try done.
  destruct r1 as [[token raw]|e]; intros [= <- <-]; (split; [done|]); [|by intros m [=]].
  intros m [= <-]. by exists (idd_AccountID d), token, raw, false, d.
Qed.

Lemma login_spec ct it s r s' : users_ok (view s) -> fresh_raw (c_token ct) -> fresh_raw it ->
  login ct it s = (r, s') -> login_post (c_salt ct) (view s) r (view s').
Proof.
  intros Hok Hfc Hfi. unfold login.
  destruct (IdentityRepository_Find _ _ _ s) as [[identity|e] s1] eqn:Ef; apply identity_find_spec in Ef as [Hs1 Hf];
    (eapply steps_users_ok in Hok as Hok1; [|exact Hs1]); intros Hr; (eapply login_post_l; [exact Hs1|]); revert Hr.
  - destruct Hf as (d & ? & ? & ? & ->). by apply login_issue_spec.
  - destruct (errors_Is e _); [|by intros [= <- <-]].
    destruct (createAccountAndToken _ _ _ _ _ _ _ s1) as [[[[accountID token] raw]|e1] s2] eqn:Ec;
      apply createAccountAndToken_spec in Ec as [Hs2 Hc]; try done.
    + intros [= <- <-]. split; [done|]. intros m [= <-]. destruct Hc as (d & h & ? & ? & ? & ? & <- & ? & Hno).
      by exists accountID, token, raw, true, d.
    + eapply steps_users_ok in Hok1 as Hok2; [|exact Hs2]. intros Hr. eapply login_post_l; [exact Hs2|]. revert Hr.
      destruct (IdentityRepository_Find _ _ _ s2) as [[identity|e2] s3] eqn:Eg; apply identity_find_spec in Eg as [Hs3 Hg].
      * destruct Hg as (d & ? & ? & ? & ->). intros Hr. eapply login_post_l; [exact Hs3|].
        eapply login_issue_spec; [by eapply steps_users_ok|done..].
      * by intros [= <- <-].
Qed.

End login.

Lemma guest_login request ct it : guestAuthenticateCore sha256_hex component request ct it =
  login AuthProviderGuest (TrimSpace (g_InstallId request)) "" (TrimSpace (g_InstallId request))
    "find guest identity" "create guest account" (fun _ => None) guestResult ct it.
Proof. reflexivity. Qed.

Definition password_check (password : string) (identity : Identity) : option error :=
  if negb (password_matches identity password) then Some ErrBadPassword else None.

Lemma password_login request ct it s r s' :
  passwordAuthenticateCore sha256_hex component request ct it s = (r, s') ->
  (r = Err ErrBadPassword /\ s' = s) \/
  (p_Password request <> "" /\
   login AuthProviderPassword (TrimSpace (p_Username request)) (p_Password request) (TrimSpace (p_InstallId request))
     "find password identity" "create password account" (password_check (p_Password request))
     (fun accountID token raw _ => passwordResult accountID token raw) ct it s = (r, s')).
Proof.
  unfold passwordAuthenticateCore. cbv zeta. destruct (_ || _) eqn:Eb; [intros [= <- <-]; by left|]. right.
  breflect. split; [done|]. unfold login, login_issue, password_check in *.
  repeat (case_match; try done); simplify_eq; done.
Qed.

(** ** Refresh tokens *)

Lemma FindValid_spec h now s r s' : FindValid Background h now s = (r, s') ->
  steps (view s) (view s') /\
  forall token, r = Ok token -> exists d, d ∈ tokens (view s') /\ valid_filter h now d = true /\
    token = refreshTokenDomainFromDocument d.
Proof.
  unfold FindValid. case_bool_decide; [by intros [= <- <-]|].
  destruct (FindOne _ _ s) as [[d|e] s1] eqn:E; apply find_spec in E as [Hp Hr]; intros [= <- <-];
    (split; [by apply env_user|]); [|by intros token [=]].
  destruct Hr as [Hin Hf]. intros token [= <-]. by exists d.
Qed.

Lemma valid_not_spent h now d v : d ∈ tokens v -> valid_filter h now d = true -> spent h v -> False.
Proof. unfold valid_filter. intros Hd Hf Hs. breflect. specialize (Hs d Hd). by rewrite Hs in *. Qed.

Lemma found_hash_id h now d v : users_ok v -> d ∈ tokens v -> valid_filter h now d = true ->
  hash_id h (td_TokenID d) v.
Proof.
  unfold valid_filter. intros Hok Hd Hf x Hx E. breflect.
  assert (x = d) as ->; [|done]. eapply (NoDup_fmap_inj td_TokenHash); [apply (tokens_unique v Hok)|done|done|congruence].
Qed.

(** What a committed rotation does. *)
Lemma rotate_commits id now d s0 s1 : fresh_token known (bson d) -> has_account (td_AccountID d) (view s0) ->
  rotate id now d Transaction s0 = (Ok tt, s1) ->
  user_step known horizon (view s0) (view s1) /\
  forall h, h ∈ known -> users_ok (view s0) -> hash_id h id (view s0) -> spent h (view s1).
Proof.
  intros Hf Ho. unfold rotate. destruct (UpdateOne _ _ _ s0) as [[n|e] sa] eqn:Eu; [|done].
  apply update_spec in Eu as (v1 & [-> Hu]). destruct (negb (n =? 1)) eqn:En; [done|]. breflect. subst n.
  destruct Hu as [(? & _)|(_ & d' & Hu)]; [done|].
  destruct (InsertOne _ d sa) as [[[]|e] sb] eqn:Ei; [|done]. intros [= ->].
  apply insert_spec in Ei as (v1 & [-> Hi] & _). split.
  - by eapply step_rotate.
  - intros h Hh Hok Hid. eapply insert_of_hash; [exact Hh|exact Hf|exact Hi|].
    eapply revoked_spent; [exact Hok|exact Hid| |exact Hu].
    unfold rotate_filter, revoke_filter. intros x Hx. by breflect.
Qed.

Lemma refreshAuthenticateCore_spec request now it s r s' : users_ok (view s) -> fresh_raw it ->
  refreshAuthenticateCore sha256_hex component request now it s = (r, s') ->
  steps (view s) (view s') /\ forall m, r = Ok m ->
    exists v d, steps (view s) v /\ d ∈ tokens v /\ valid_filter (authHashToken sha256_hex (f_RefreshToken request)) now d = true /\
      td_InstallID d = TrimSpace (f_InstallId request) /\ fr_AccountId (Message m) = td_AccountID d /\
      (authHashToken sha256_hex (f_RefreshToken request) ∈ known ->
       spent (authHashToken sha256_hex (f_RefreshToken request)) (view s')).
Proof.
  intros Hok Hfr. unfold refreshAuthenticateCore. set (h := authHashToken _ _).
  destruct (FindValid _ _ _ s) as [[old|e] s1] eqn:Ef; apply FindValid_spec in Ef as [Hs1 Hf];
    [|intros [= <- <-]; split; [done|by intros m [=]]].
  destruct (Hf old eq_refl) as (d & Hd & Hv & ->). eapply steps_users_ok in Hok as Hok1; [|exact Hs1].
  destruct (IsUsable _ _ _) eqn:Eus; simpl; [|intros [= <- <-]; split; [done|by intros m [=]]].
  assert (td_InstallID d = TrimSpace (f_InstallId request)) as Hinst by (unfold IsUsable in Eus; by breflect).
  destruct (newToken _ _ _ _ _) as [[replacement raw]|e] eqn:En; [|intros [= <- <-]; split; [done|by intros m [=]]].
  apply newToken_spec in En as (Ha & Hth & Hraw & Hrev & _). unfold Rotate. simpl.
  case_bool_decide; [intros [= <- <-]; split; [done|by intros m [=]]|].
  destruct (refreshTokenDocumentFromDomain _ _) as [doc|e] eqn:Ed; [|intros [= <- <-]; split; [done|by intros m [=]]].
  apply token_document_spec in Ed. destruct (token_fresh doc (td_AccountID d) replacement raw it) as [Hda Hfresh]; try done.
  destruct (Execute _ _ s1) as [r0 s2] eqn:Ex. apply Execute_spec in Ex as (s3 & s4 & He & Hx). apply env_user in He.
  assert (has_account (td_AccountID doc) (view s3)) as Hacc.
  { simpl in Hda. rewrite Hda. apply (steps_identities _ _ _ _ He). by apply (token_owner _ Hok1). }
  destruct r0 as [[]|e]; intros [= <- <-].
  - destruct Hx as [Hrot Henv]. apply env_user in Henv. apply rotate_commits in Hrot as [Hst Hsp]; try done. split.
    + do 2 (etrans; [done|]). by eapply rtc_l.
    + intros m [= <-]. exists (view s1), d. split_and!; try done. intros Hh. eapply steps_spent; [done|exact Henv|].
      apply Hsp; [done|by eapply steps_users_ok|]. eapply steps_hash_id; [done|exact He|]. by eapply found_hash_id.
  - split; [|by intros m [=]]. etrans; [done|].
    destruct Hx as [[_ Hv']|[_ [Hv'|[Hrot Hv']]]]; apply env_user in Hv'; [by etrans|by etrans|].
    apply rotate_commits in Hrot as [Hst _]; try done. etrans; [done|]. by eapply rtc_l.
Qed.

Lemma revokeRefreshTokenCore_spec request now revoked s r s' : users_ok (view s) ->
  revokeRefreshTokenCore sha256_hex request now revoked s = (r, s') ->
  steps (view s) (view s') /\ (is_ok r = true -> exists v d, steps (view s) v /\ d ∈ tokens v /\
    valid_filter (authHashToken sha256_hex (v_RefreshToken request)) now d = true /\
    (authHashToken sha256_hex (v_RefreshToken request) ∈ known ->
     spent (authHashToken sha256_hex (v_RefreshToken request)) (view s'))).
Proof.
  intros Hok. unfold revokeRefreshTokenCore. set (h := authHashToken _ _).
  destruct (FindValid _ _ _ s) as [[token|e] s1] eqn:Ef; apply FindValid_spec in Ef as [Hs1 Hf]; [|by intros [= <- <-]].
  destruct (Hf token eq_refl) as (d & Hd & Hv & ->). eapply steps_users_ok in Hok as Hok1; [|exact Hs1].
  destruct (negb _); [by intros [= <- <-]|]. unfold Revoke. simpl.
  destruct (UpdateOne _ _ _ s1) as [r0 s2] eqn:Eu.
  assert (steps (view s1) (view s2)) as Hs2.
  { eapply (update_steps known horizon env_user tokens_collection); [exact Eu|]. intros. by eapply step_revoke. }
  apply update_spec in Eu as (v1 & [He Hu]). simpl in He. apply env_user in He.
  destruct r0 as [n|e]; [destruct (n =? 0) eqn:En|]; intros [= <- <-]; (split; [by etrans|]); try done.
  intros _. exists (view s1), d. split_and!; try done. intros Hh. breflect.
  destruct Hu as [(? & _)|(_ & d' & Hu)]; [done|].
  eapply (revoked_spent _ _ _ _ _ v1); [eapply steps_users_ok; [exact He|done]| | |exact Hu].
  - eapply steps_hash_id; [done|exact He|]. by eapply found_hash_id.
  - unfold revoke_filter. intros x Hx. by breflect.
Qed.

Lemma LinkPlayer_spec accountID playerID now s r s' :
  AccountRepository_LinkPlayer Background accountID playerID now s = (r, s') ->
  steps (view s) (view s') /\
  (r = Ok tt -> exists a ids, a ∈ accounts (view s') /\ acd_AccountID a = accountID /\ acd_PlayerIDs a = Array ids /\
     playerID ∈ ids).
Proof.
  unfold AccountRepository_LinkPlayer. destruct (_ || _); [by intros [= <- <-]|].
  destruct (UpdateOne _ _ _ s) as [r0 s1] eqn:Eu. assert (steps (view s) (view s1)) as Hs1.
  { eapply (update_steps known horizon env_user accounts_collection); [exact Eu|]. intros. by eapply step_normalize. }
  destruct r0 as [n|e]; [|by intros [= <- <-]].
  destruct (UpdateOne _ _ _ s1) as [r1 s2] eqn:Ev. assert (steps (view s1) (view s2)) as Hs2.
  { eapply (update_steps known horizon env_user accounts_collection); [exact Ev|]. intros. by eapply step_link. }
  apply update_spec in Ev as (v1 & [_ Hu]).
  destruct r1 as [k|e]; intros [= <- <-]; (split; [by etrans|]); [|done].
  intros Hk. destruct Hu as [(-> & _)|(_ & a' & l1 & a & l2 & _ & Hf & Hua & ->)]; [done|].
  unfold link_filter in Hf. breflect. unfold link_update in Hua.
  assert (acd_AccountID a' = accountID /\ exists ids, acd_PlayerIDs a' = Array ids /\ playerID ∈ ids) as (Ea & ids & Ei & Hin).
  { destruct (acd_PlayerIDs a) as [| |ids]; [|done|]; injection Hua as <-; simpl; (split; [done|]); eexists; (split; [done|]).
    - set_solver.
    - case_bool_decide; set_solver. }
  exists a', ids. simpl. set_solver.
Qed.


(** C12 A password login needs the password: when a login of a user name is answered, there
    is an identity of that name and account whose bcrypt hash matches the password; every
    later answer for the name, under any races, is for the same account and was given for
    a password that matches the same hash. *)
Theorem password_login_sound request ct it s m s1 : users_ok (view s) -> fresh_raw (c_token ct) -> fresh_raw it ->
  passwordAuthenticateCore sha256_hex component request ct it s = (Ok m, s1) ->
  exists h, CompareHashAndPassword h (p_Password request) = true /\
    forall s2 request' ct' it' m' s3, env (view s1) (view s2) ->
      TrimSpace (p_Username request') = TrimSpace (p_Username request) ->
      fresh_raw (c_token ct') -> fresh_raw it' ->
      passwordAuthenticateCore sha256_hex component request' ct' it' s2 = (Ok m', s3) ->
      pr_AccountId (Message m') = pr_AccountId (Message m) /\ CompareHashAndPassword h (p_Password request') = true.
Proof.
  assert (forall password salt (created : bool) d v, password <> "" ->
    (if created then hashed salt password (idd_PasswordHash d) /\
       (forall d', d' ∈ identities v -> idd_Provider d' = AuthProviderPassword -> idd_Subject d' <> TrimSpace (p_Username request))
     else password_check password (identityDomainFromDocument d) = None) ->
    CompareHashAndPassword (idd_PasswordHash d) password = true) as Hmatch.
  { intros password salt created d v Hne Hc. destruct created.
    - destruct Hc as [[[-> _]|[_ Hg]] _]; [done|]. by apply compare_generate in Hg as [_ ?].
    - unfold password_check, password_matches in Hc. simpl in Hc. destruct (CompareHashAndPassword _ _); [done|].
      by rewrite andb_false_r in Hc. }
  intros Hok Hf1 Hf2 Hr. apply password_login in Hr as [[? _]|[Hne Hr]]; [done|].
  apply login_spec in Hr as [Hs1 Hm]; try done.
  destruct (Hm m eq_refl) as (a & tk & raw & created & d & -> & Hd & Hc). exists (idd_PasswordHash d).
  split; [by eapply Hmatch|]. intros s2 request' ct' it' m' s3 Henv Hid Hf3 Hf4 Hr'. apply env_user in Henv.
  apply password_login in Hr' as [[? _]|[Hne' Hr']]; [done|]. rewrite Hid in Hr'.
  assert (users_ok (view s2)) as Hok2 by (eapply steps_users_ok; [|done]; by etrans).
  apply login_spec in Hr' as [Hs3 Hm']; try done.
  destruct (Hm' m' eq_refl) as (a' & tk' & raw' & created' & d' & -> & Hd' & Hc'). simpl.
  eapply identified_steps in Hd as Hd3; [|etrans; [exact Henv|exact Hs3]].
  destruct (identified_unique _ _ _ _ _ _ _ (steps_users_ok _ _ _ _ Hs3 Hok2) Hd3 Hd') as [<- ->].
  split; [done|]. by eapply Hmatch.
Qed.


Context `{ProtoMessage GuestAuthenticateRequest, ProtoLaws GuestAuthenticateResponse,
          ProtoMessage RefreshAuthenticateRequest, ProtoLaws RefreshAuthenticateResponse,
          ProtoMessage RevokeRefreshTokenRequest, ProtoLaws RevokeRefreshTokenResponse,
          ProtoMessage PasswordAuthenticateRequest, ProtoLaws PasswordAuthenticateResponse,
          ProtoMessage LinkPlayerRequest, ProtoLaws ClientLoginAuthenticateResponse,
          ProtoLaws ClientRefreshAuthenticateResponse,
          ProtoMessage ClientLoginAuthenticateRequest, ProtoMessage ClientRefreshAuthenticateRequest,
          ProtoMessage LoginRequest, ProtoMessage RefreshLoginRequest}.

Notation lawful := (orderly known horizon).

Lemma guest_orderly request ct it : fresh_raw (c_token ct) -> fresh_raw it ->
  lawful (guestAuthenticateCore sha256_hex component request ct it).
Proof. intros ?? s r s' Hok Hr. rewrite guest_login in Hr. by apply login_spec in Hr as [? _]. Qed.

Lemma password_orderly request ct it : fresh_raw (c_token ct) -> fresh_raw it ->
  lawful (passwordAuthenticateCore sha256_hex component request ct it).
Proof. intros ?? s r s' Hok [[_ ->]|[_ Hr]]%password_login; [done|]. by apply login_spec in Hr as [? _]. Qed.

Lemma refresh_orderly request now it : fresh_raw it ->
  lawful (refreshAuthenticateCore sha256_hex component request now it).
Proof. intros ? s r s' Hok Hr. by apply refreshAuthenticateCore_spec in Hr as [? _]. Qed.

(** A core wrapped into another answer. *)
Lemma wrapped_orderly {A B} (p : prog S (MessageResult A)) (f : MessageResult A -> MessageResult B) : lawful p ->
  lawful (fun s => match p s with (Err e, s') => (Err e, s') | (Ok result, s') => (Ok (f result), s') end).
Proof. intros Hp s r s' Hok. destruct (p s) as [[m|e] s1] eqn:E; apply Hp in E; try done; by intros [= <- <-]. Qed.

Lemma idempotently_orderly {R M} `{ProtoMessage R, KeyedRequest R, ProtoLaws M} key operation (request : R) k
    (p : prog S (MessageResult M)) : coordinator sets = true ->
  Forall (in_time horizon) (k_first k :: k_wait k :: k_rounds k) -> lawful p ->
  lawful (idempotently sha256_hex ctxErr component key operation request k p).
Proof. intros. by apply call_orderly. Qed.

(** C8 Every handler of the user center keeps its records in order, on every path, through
    every retry of the idempotency protocol and under interference: account ids, token
    ids, token hashes and idempotency keys stay unique, a subject has one identity, every
    identity and every token belongs to an account, password identities have a hash, and
    a player is linked at most once to an account. *)
Theorem auth_handlers_keep_users payload k ct it now revoked s : users_ok (view s) -> coordinator sets = true ->
  Forall (in_time horizon) (k_first k :: k_wait k :: k_rounds k) -> fresh_raw (c_token ct) -> fresh_raw it ->
  users_ok (view (guestAuthenticate sha256_hex ctxErr component payload k ct it s).2) /\
  users_ok (view (passwordAuthenticate sha256_hex ctxErr component payload k ct it s).2) /\
  users_ok (view (refreshAuthenticate sha256_hex ctxErr component payload k now it s).2) /\
  users_ok (view (revokeRefreshToken sha256_hex ctxErr component payload k now revoked s).2) /\
  users_ok (view (linkPlayer payload now s).2) /\
  users_ok (view (clientLoginAuthenticate sha256_hex ctxErr component payload k ct it s).2) /\
  users_ok (view (clientRefreshAuthenticate sha256_hex ctxErr component payload k now it s).2).
Proof.
  intros Hok Hco Hk Hfc Hfi.
  assert (forall A (p : prog S (MessageResult A)), lawful p -> users_ok (view (p s).2)) as Hp.
  { intros A p Hl. destruct (p s) as [r s'] eqn:E. eapply steps_users_ok; [by eapply Hl|done]. }
  split_and!.
  - unfold guestAuthenticate. destruct (Unmarshal payload) as [request|]; [|done]. destruct (blank _); [done|].
    by apply Hp, idempotently_orderly, guest_orderly.
  - unfold passwordAuthenticate. destruct (Unmarshal payload) as [request|]; [|done].
    by apply Hp, idempotently_orderly, password_orderly.
  - unfold refreshAuthenticate. destruct (Unmarshal payload) as [request|]; [|done]. destruct (_ || _); [done|].
    by apply Hp, idempotently_orderly, refresh_orderly.
  - unfold revokeRefreshToken. destruct (Unmarshal payload) as [request|]; [|done]. destruct (_ || _); [done|].
    apply Hp, idempotently_orderly; try done. intros s0 r s' ? Hr. by apply revokeRefreshTokenCore_spec in Hr as [? _].
  - apply Hp. intros s0 r s' Hok0. unfold linkPlayer. destruct (Unmarshal payload) as [request|]; [|by intros [= <- <-]].
    destruct (_ || _); [by intros [= <- <-]|].
    destruct (AccountRepository_LinkPlayer _ _ _ _ s0) as [r1 s1] eqn:E. apply LinkPlayer_spec in E as [Hs _].
    destruct r1; by intros [= <- <-].
  - unfold clientLoginAuthenticate. destruct (Unmarshal payload) as [request|]; [|done].
    destruct (Unmarshal (cl_LoginRequest request)) as [login|]; [|done]. destruct (blank _); [done|].
    apply Hp, idempotently_orderly; try done. intros s0 r s' Hok0. unfold clientLoginAuthenticateCore.
    destruct (_ =? _); [|destruct (_ =? _); [|by intros [= <- <-]]]; intros Hr.
    + by eapply (wrapped_orderly _ (fun result => clientLoginGrant _ _ _)) in Hr; [|apply guest_orderly|].
    + by eapply (wrapped_orderly _ (fun result => clientLoginGrant _ _ _)) in Hr; [|apply password_orderly|].
  - unfold clientRefreshAuthenticate. destruct (Unmarshal payload) as [request|]; [|done].
    destruct (Unmarshal (cl_RefreshLoginRequest request)) as [refresh|]; [|done]. destruct (_ || _); [done|].
    apply Hp, idempotently_orderly; try done.
    by apply (wrapped_orderly _ (fun result => clientRefreshGrant _ _ _)), refresh_orderly.
Qed.

End correctness.

(** ** Runs on a database in memory *)

Section runs.

Definition toy_sha (b : string) : string := "sha:" +:+ b.
#[local] Instance toy_bcrypt : Bcrypt := {|
  GenerateFromPassword salt password := Ok ("bcrypt:" +:+ password);
  CompareHashAndPassword h password := bool_decide (h = "bcrypt:" +:+ password)
|}.
#[local] Instance toy_bcrypt_laws : BcryptLaws.
Proof. split. intros salt password h [= <-]. split; [done|]. by apply bool_decide_eq_true. Qed.

(** The hash of the token [raw-1] is known, and all clocks stay below 100 s. *)
Definition old_tokens : gset string := {["sha:raw-1"]}.
Notation user_mem := (mem (rtc (user_step old_tokens (100 * Second)))).

Definition mem_client : option (Client (S := user_mem)) := Some tt.
Notation center := (mkComponent (Some (Some (NewMongoUnitOfWork mem_client))) (3600 * Second) NewSettings).

Lemma center_env : forall v v' : user_db, env (S := user_mem) v v' -> rtc (user_step old_tokens (100 * Second)) v v'.
Proof. done. Qed.

Definition token_at (n : Z) (id : string) : token_readings :=
  mkTokenReadings (Ok ("token-" +:+ id)) (Ok ("raw-" +:+ id)) (n * Second) (n * Second).
Definition account_at (n : Z) (id : string) : create_readings :=
  mkCreateReadings (Ok ("account-" +:+ id)) (Ok ("identity-" +:+ id)) "salt" (n * Second) (token_at n id).

Lemma token_at_fresh n id : "raw-" +:+ id <> "raw-1" -> fresh_raw toy_sha old_tokens (token_at n id).
Proof.
  intros Hne raw [= <-]. unfold old_tokens, authHashToken, toy_sha. rewrite not_elem_of_singleton.
  intros [= E]. change (id = "1") in E. by subst id.
Qed.

Definition no_users : user_mem := mkMem _ empty_db [].

(** *** A guest logs in twice *)

Definition guest_request : GuestAuthenticateRequest := mkGuestRequest " device " "pc" "1.0" "".
Definition guest_in (n : Z) (id : string) (s : user_mem) : res (MessageResult GuestAuthenticateResponse) * user_mem :=
  guestAuthenticateCore toy_sha center guest_request (account_at n id) (token_at n id) s.
Definition one_guest : user_mem := (guest_in 1 "2" no_users).2.

Lemma guest_first : (guest_in 1 "2" no_users).1 =
  Ok (mkResult GUEST_AUTHENTICATE_RESPONSE (mkGuestResponse "account-2" "raw-2" 3601 true)).
Proof. vm_compute. reflexivity. Qed.
Lemma guest_again : (guest_in 2 "3" one_guest).1 =
  Ok (mkResult GUEST_AUTHENTICATE_RESPONSE (mkGuestResponse "account-2" "raw-3" 3602 false)).
Proof. vm_compute. reflexivity. Qed.


(** *** A user registers, and tries a wrong password *)

Definition password_request (password : string) : PasswordAuthenticateRequest :=
  mkPasswordRequest "alice" password "device" "".
Definition sign_in (password : string) (n : Z) (id : string) (s : user_mem) :=
  passwordAuthenticateCore toy_sha center (password_request password) (account_at n id) (token_at n id) s.
Definition one_user : user_mem := (sign_in "secret1" 1 "2" no_users).2.

Lemma sign_in_first : (sign_in "secret1" 1 "2" no_users).1 =
  Ok (mkResult PASSWORD_AUTHENTICATE_RESPONSE (mkPasswordResponse "account-2" "raw-2" 3601)).
Proof. vm_compute. reflexivity. Qed.
Example wrong_password : (sign_in "secret2" 2 "3" one_user).1 = Err ErrBadPassword.
Proof. vm_compute. reflexivity. Qed.

Lemma password_login_sound_witness : exists h, CompareHashAndPassword h "secret1" = true.
Proof.
  destruct (password_login_sound (S := user_mem) toy_sha old_tokens (100 * Second) center_env mem_client (3600 * Second)
    NewSettings (password_request "secret1") (account_at 1 "2") (token_at 1 "2") no_users
    (mkResult PASSWORD_AUTHENTICATE_RESPONSE (mkPasswordResponse "account-2" "raw-2" 3601)) one_user) as (h & Hh & _).
  - apply empty_users_ok.
  - by apply token_at_fresh.
  - by apply token_at_fresh.
  - etrans; [apply (surjective_pairing (sign_in "secret1" 1 "2" no_users))|]. by rewrite sign_in_first.
  - by exists h.
Defined.

(** *** A token is refreshed twice *)

Definition token_db : user_db :=
  mkDb [mkAccountDoc "account-1" (Array []) 0 0] [] [mkTokenDoc "token-1" "account-1" "sha:raw-1" "device" 0 (50 * Second) None] [].
Definition token_holder : user_mem := mkMem _ token_db [].
Definition refresh_request : RefreshAuthenticateRequest := mkRefreshRequest "raw-1" "device" "".
Definition refresh_at (n : Z) (id : string) (s : user_mem) :=
  refreshAuthenticateCore toy_sha center refresh_request (n * Second) (token_at n id) s.
Definition refreshed : user_mem := (refresh_at 1 "2" token_holder).2.

Lemma token_db_ok : users_ok token_db.
Proof.
  split; simpl.
  - apply NoDup_singleton.
  - intros a ids ->%list_elem_of_singleton [= <-]. constructor.
  - intros i j Hi. by apply not_elem_of_nil in Hi.
  - intros i Hi. by apply not_elem_of_nil in Hi.
  - intros i Hi. by apply not_elem_of_nil in Hi.
  - apply NoDup_singleton.
  - apply NoDup_singleton.
  - intros d ->%list_elem_of_singleton. eexists. split; [by apply list_elem_of_singleton|done].
  - constructor.
Qed.

Lemma refresh_first : (refresh_at 1 "2" token_holder).1 =
  Ok (mkResult REFRESH_AUTHENTICATE_RESPONSE (mkRefreshResponse "account-1" "raw-2" 3601)).
Proof. vm_compute. reflexivity. Qed.


(** *** The handlers *)

(** A codec that refuses everything. *)
Definition null_codec (A : Type) : ProtoMessage A := {|
  Marshal _ := Err (Text "unknown message");
  Unmarshal _ := Err (Text "proto: cannot parse")
|}.
Lemma null_codec_laws (A : Type) : @ProtoLaws A (null_codec A).
Proof. by split. Qed.

#[local] Existing Instance null_codec | 100.
#[local] Existing Instance null_codec_laws | 100.

Definition login_request : LoginRequest := mkLogin AUTH_PROVIDER_GUEST "" "device" "" "" "key-1".
#[local] Instance login_eq_dec : EqDecision LoginRequest.
Proof. solve_decision. Defined.
#[local] Instance grant_eq_dec : EqDecision AuthenticationGrant.
Proof. solve_decision. Defined.
#[local] Instance login_response_eq_dec : EqDecision ClientLoginAuthenticateResponse.
Proof. solve_decision. Defined.

#[local] Instance client_login_codec : ProtoMessage ClientLoginAuthenticateRequest := {|
  Marshal r := Ok (cl_LoginRequest r);
  Unmarshal b := Ok (mkClientLogin b)
|}.
#[local] Instance login_codec : ProtoMessage LoginRequest := {|
  Marshal r := Ok "login";
  Unmarshal _ := Ok login_request
|}.
#[local] Instance login_response_codec : ProtoMessage ClientLoginAuthenticateResponse :=
  single_codec (mkClientLoginResponse (Some (mkGrant "account-2" "raw-2" 3601))).
#[local] Instance login_response_laws : ProtoLaws ClientLoginAuthenticateResponse.
Proof. apply single_codec_laws. Qed.

Definition calls_at (n : Z) (id : string) : call_readings :=
  let t := mkReadings (n * Second) (Ok ("reservation-" +:+ id)) (n * Second) None (n * Second + 1) in
  mkCallReadings t t [].
Definition log_in (n : Z) (id : string) (s : user_mem) :=
  clientLoginAuthenticate toy_sha (Text "context done") center "message" (calls_at n id) (account_at n id) (token_at n id) s.
Definition logged_in : user_mem := (log_in 1 "2" no_users).2.

Lemma auth_handlers_keep_users_witness : users_ok (view logged_in).
Proof.
  refine (proj1 (proj2 (proj2 (proj2 (proj2 (proj2 (auth_handlers_keep_users (S := user_mem) toy_sha (Text "context done") old_tokens
    (100 * Second) center_env mem_client (3600 * Second) NewSettings
    "message" (calls_at 1 "2") (account_at 1 "2") (token_at 1 "2") (1 * Second) (1 * Second) no_users _ _ _ _ _))))))).
  - apply empty_users_ok.
  - done.
  - repeat constructor; unfold in_time; simpl; unfold Second; lia.
  - by apply token_at_fresh.
  - by apply token_at_fresh.
Defined.

(** A replayed client login has the wrong message id: the first answer carries the id
    of a login response, the replay of the same request that of a revocation response. *)
Theorem replayed_login_id : exists first replay,
  (log_in 1 "2" no_users).1 = Ok first /\ (log_in 2 "3" logged_in).1 = Ok replay /\
  Message replay = Message first /\
  MessageID first = CLIENT_LOGIN_AUTHENTICATE_RESPONSE /\ MessageID replay = REVOKE_REFRESH_TOKEN_RESPONSE.
Proof.
  exists (mkResult CLIENT_LOGIN_AUTHENTICATE_RESPONSE (mkClientLoginResponse (Some (mkGrant "account-2" "raw-2" 3601)))),
    (mkResult REVOKE_REFRESH_TOKEN_RESPONSE (mkClientLoginResponse (Some (mkGrant "account-2" "raw-2" 3601)))).
  split_and!; vm_compute; reflexivity.
Qed.

End runs.

End Auth.
