(* ===== verification/TokenBucket.v ===== *)
(** * Rate limiting: [common/reliability/token_bucket.go]

    The bucket counts in [float64]: the operations are the IEEE 754 ones of
    [Floats.SpecFloat] at 53 bits, not fused (the compiler may fuse a product and a sum on
    some architectures; the model has the two roundings of amd64). A value of the type
    [float64] is a [spec_float] that satisfies [valid_binary]. Every reading of
    [time.Now()] is an argument. *)

From S2P Require Import Prelude.
From Stdlib.Floats Require Export SpecFloat.

Module TokenBucket.

Notation float64 := spec_float.
Notation f_add := (SFadd 53 1024).
Notation f_sub := (SFsub 53 1024).
Notation f_mul := (SFmul 53 1024).
Notation f_div := (SFdiv 53 1024).
Notation valid := (valid_binary 53 1024).
(** A conversion of a float to [int64]; outside its range the language leaves the result
    to the implementation. *)
Definition int64_of_float (out_of_range : float64 -> Z) (x : float64) : Z :=
  match x with
  | S754_zero _ => 0
  | S754_finite s m e =>
      let z := (if s then Z.opp else id) (Z.shiftl (Zpos m) e) in
      if (- 2 ^ 63 <=? z) && (z <? 2 ^ 63) then z else out_of_range x
  | _ => out_of_range x
  end.

(** [float64(n)] of an integer. *)
Definition f_of_Z (n : Z) : float64 := binary_normalize 53 1024 n 0 false.

Definition ErrRateLimited := Sentinel "reliability.ErrRateLimited" "rate limit exceeded".

Record TokenBucket := mkBucket {
  capacity : float64;
  rate : float64;
  tokens : float64;
  last : Z;
  observed : bool
}.

Definition NewTokenBucket (capacity : Z) (refillPerSecond : float64) (observers : bool) (now : Z) : TokenBucket :=
  let capacity := if capacity <? 1 then 1 else capacity in
  let rate := if SFleb refillPerSecond (f_of_Z 0) then f_of_Z capacity else refillPerSecond in
  mkBucket (f_of_Z capacity) rate (f_of_Z capacity) now observers.

(** [now.Sub(last)]: the difference saturates at the range of [Duration]. *)
Definition time_Sub (t u : Z) : Z := Z.max (- 2 ^ 63) (Z.min (2 ^ 63 - 1) (t - u)).
(** [Duration.Seconds] *)
Definition Seconds (d : Z) : float64 :=
  f_add (f_of_Z (Z.quot d Second)) (f_div (f_of_Z (Z.rem d Second)) (f_of_Z Second)).

Definition refill (b : TokenBucket) (now : Z) : TokenBucket :=
  if time_After now (last b) then
    let t := f_add (tokens b) (f_mul (Seconds (time_Sub now (last b))) (rate b)) in
    mkBucket (capacity b) (rate b) (if SFltb (capacity b) t then capacity b else t) now (observed b)
  else b.

(** Whether the request may pass, the bucket, and what the observer is told; a nil bucket
    lets everything pass. *)
Definition AllowN (b : option TokenBucket) (n : Z) (now : Z) : bool * option TokenBucket * list bool :=
  match b with
  | None => (true, None, [])
  | Some b =>
      if n <=? 0 then (true, Some b, [])
      else
        let b := refill b now in
        let allowed := SFleb (f_of_Z n) (tokens b) in
        let b := if allowed then mkBucket (capacity b) (rate b) (f_sub (tokens b) (f_of_Z n)) (last b) (observed b) else b in
        (allowed, Some b, if observed b then [allowed] else [])
  end.

Definition Allow (b : option TokenBucket) (now : Z) : bool * option TokenBucket * list bool := AllowN b 1 now.

(** [Wait]: a round per reading of the clock, [ctx] being what the context says while the
    round waits; [None] while it keeps waiting. *)
Fixpoint Wait (b : option TokenBucket) (rounds : list (Z * option error)) : option (option error) * option TokenBucket :=
  match rounds with
  | [] => (None, b)
  | (now, ctx) :: rounds =>
      let '(allowed, b, _) := Allow b now in
      if allowed then (Some None, b)
      else match ctx with
           | Some e => (Some (Some e), b)
           | None => Wait b rounds
           end
  end.

(** The decisions of successive calls of [Allow]. *)
Fixpoint decisions (b : option TokenBucket) (nows : list Z) : list bool :=
  match nows with
  | [] => []
  | now :: nows => let '(allowed, b', _) := Allow b now in allowed :: decisions b' nows
  end.

(** ** Subtracting one is exact

    [floor x] is the integer part of a finite non-negative float. *)

Definition floor (x : float64) : Z :=
  match x with S754_finite false m e => Z.shiftl (Zpos m) e | _ => 0 end.

Lemma digits_bounds p : 2 ^ (Zpos (digits2_pos p) - 1) <= Zpos p < 2 ^ Zpos (digits2_pos p).
Proof.
  induction p as [p IH|p IH|]; cbn [digits2_pos]; [| |done];
    rewrite Pos2Z.inj_succ;
    replace (Z.succ (Zpos (digits2_pos p)) - 1) with (Z.succ (Zpos (digits2_pos p) - 1)) by lia;
    rewrite !Z.pow_succ_r by lia; lia.
Qed.

Lemma digits_unique p d : 2 ^ (d - 1) <= Zpos p < 2 ^ d -> Zpos (digits2_pos p) = d.
Proof.
  intros [Hl Hu]. pose proof (digits_bounds p) as [Hl' Hu'].
  assert (d - 1 < Zpos (digits2_pos p)) by (apply (Z.pow_lt_mono_r_iff 2); lia).
  assert (0 <= d) by (destruct (Z.leb_spec 0 d); [done|rewrite (Z.pow_neg_r 2 d) in Hu by lia; lia]).
  assert (Zpos (digits2_pos p) - 1 < d) by (apply (Z.pow_lt_mono_r_iff 2); lia). lia.
Qed.

Lemma digits_shift p n : 0 <= n ->
  forall q, Zpos q = Zpos p * 2 ^ n -> Zpos (digits2_pos q) = Zpos (digits2_pos p) + n.
Proof.
  intros Hn q Hq. apply digits_unique. pose proof (digits_bounds p) as [Hl Hu]. rewrite Hq.
  replace (Zpos (digits2_pos p) + n - 1) with (Zpos (digits2_pos p) - 1 + n) by lia.
  rewrite !Z.pow_add_r by lia. nia.
Qed.

Lemma iter_pos_nat {A} (f : A -> A) n x : iter_pos f n x = Nat.iter (Pos.to_nat n) f x.
Proof.
  revert x. induction n as [n IH|n IH|]; intros x; cbn [iter_pos]; [| |done].
  - rewrite !IH, Pos2Nat.inj_xI, <- Nat.iter_add, <- Nat.iter_succ_r. f_equal. lia.
  - rewrite !IH, Pos2Nat.inj_xO, <- Nat.iter_add. f_equal. lia.
Qed.

Lemma shr_exact k n : 0 < k ->
  Nat.iter n shr_1 (Build_shr_record (k * 2 ^ Z.of_nat n) false false) = Build_shr_record k false false.
Proof.
  intros Hk. revert k Hk. induction n as [|n IH]; intros k Hk.
  { simpl. by rewrite Z.mul_1_r. }
  rewrite Nat.iter_succ_r. replace (k * 2 ^ Z.of_nat (S n)) with (2 * (k * 2 ^ Z.of_nat n))
    by (rewrite Nat2Z.inj_succ, Z.pow_succ_r by lia; ring).
  assert (0 < k * 2 ^ Z.of_nat n) as Hp by (apply Z.mul_pos_pos; [done|apply Z.pow_pos_nonneg; lia]).
  rewrite <- (IH k Hk). f_equal. destruct (k * 2 ^ Z.of_nat n) eqn:E; [lia|done|lia].
Qed.

Lemma shift_left_value m n : Zpos (Pos.iter xO m n) = Zpos m * 2 ^ Zpos n.
Proof. change (Pos.iter xO m n) with (Zpower.shift_pos n m). rewrite Zpower.shift_pos_correct. change (Z.pow_pos 2 n) with (2 ^ Zpos n). lia. Qed.

(** Rounding an integer multiple of a power of two that fits in 53 bits keeps its value:
    the result is [k' * 2 ^ e'] with [k * 2 ^ (e + s) = k' * 2 ^ e']. *)
Lemma binary_round_exact m e k s :
  Zpos m = Zpos k * 2 ^ s -> 0 <= s -> Zpos (digits2_pos k) <= 53 -> -1074 <= e + s <= 971 ->
  -1021 <= Zpos (digits2_pos k) + (e + s) ->
  exists k', let e' := Zpos (digits2_pos k) + (e + s) - 53 in
    binary_round 53 1024 false m e = S754_finite false k' e' /\ e' <= e + s /\ Zpos k' = Zpos k * 2 ^ (e + s - e').
Proof.
  intros Hm Hs Hd He Hde. set (d := Zpos (digits2_pos k)) in *. set (e' := d + (e + s) - 53).
  pose proof (digits_shift k s Hs m Hm) as Hdm. fold d in Hdm.
  assert (forall x, x = d + (e + s) -> fexp 53 1024 x = e') as Hf.
  { intros x ->. unfold fexp, emin, e'. lia. }
  assert (0 <= e + s - e') as Hpos by lia.
  assert (exists k', Zpos k' = Zpos k * 2 ^ (e + s - e')) as [k' Hk'].
  { assert (0 < Zpos k * 2 ^ (e + s - e')) by (apply Z.mul_pos_pos; [done|apply Z.pow_pos_nonneg; lia]).
    destruct (Zpos k * 2 ^ (e + s - e')) as [|p|p]; [lia|by exists p|lia]. }
  exists k'. cbn zeta. split; [|split; [lia|done]].
  pose proof (digits_shift k _ Hpos k' Hk') as Hdk'. fold d in Hdk'.
  assert (forall q x, x = e' -> Zpos q = Zpos k' ->
    binary_round_aux 53 1024 false (Zpos q) x loc_Exact = S754_finite false k' e') as Haux.
  { intros q x -> [= ->]. unfold binary_round_aux, shr_fexp. cbn [Zdigits2 shr_record_of_loc].
    rewrite (Hf (Zpos (digits2_pos k') + e')) by lia. rewrite Z.sub_diag. cbn [shr shr_m loc_of_shr_record round_nearest_even].
    cbn [Zdigits2 shr_record_of_loc]. rewrite (Hf (Zpos (digits2_pos k') + e')) by lia. rewrite Z.sub_diag. cbn [shr shr_m].
    destruct (Z.leb_spec e' (1024 - 53)); [done|lia]. }
  unfold binary_round, shl_align. rewrite (Hf (Zpos (digits2_pos m) + e)) by lia.
  destruct (e' - e) as [|n|n] eqn:En.
  - apply Haux; [lia|]. rewrite Hm, Hk'. f_equal. f_equal. lia.
  - (* the mantissa is shortened by dropping zeros *)
    unfold binary_round_aux at 1. unfold shr_fexp at 1. cbn [Zdigits2 shr_record_of_loc].
    rewrite (Hf (Zpos (digits2_pos m) + e)) by lia. rewrite En. cbn [shr].
    rewrite iter_pos_nat. replace (Zpos m) with (Zpos k' * 2 ^ Z.of_nat (Pos.to_nat n)).
    2:{ rewrite Hm, Hk', <- Z.mul_assoc, <- Z.pow_add_r by lia. f_equal. f_equal. lia. }
    rewrite shr_exact by done. cbn [shr_m loc_of_shr_record round_nearest_even].
    unfold shr_fexp. cbn [Zdigits2 shr_record_of_loc].
    rewrite (Hf (Zpos (digits2_pos k') + (e + Zpos n))) by lia.
    replace (e' - (e + Zpos n)) with 0 by lia. cbn [shr shr_m].
    replace (e + Zpos n) with e' by lia. destruct (Z.leb_spec e' (1024 - 53)); [done|lia].
  - apply Haux; [done|]. rewrite Hk', shift_left_value, Hm, <- Z.mul_assoc, <- Z.pow_add_r by lia. f_equal. f_equal. lia.
Qed.

(** A float that is a count of tokens: not negative, not infinite, not NaN, below 2^53. *)
Definition is_count (x : float64) : Prop :=
  valid x = true /\ floor x < 2 ^ 53 /\
  match x with S754_zero _ => True | S754_finite false _ _ => True | _ => False end.

Lemma floor_neg m e : e <= 0 -> floor (S754_finite false m e) = Zpos m / 2 ^ (- e).
Proof. intros He. simpl. rewrite <- (Z.opp_involutive e) at 1. by rewrite Z.shiftl_opp_r, Z.shiftr_div_pow2 by lia. Qed.

Lemma canonical_digits m e : valid (S754_finite false m e) = true ->
  Zpos (digits2_pos m) <= 53 /\ -1074 <= e /\ (-1074 < e -> Zpos (digits2_pos m) = 53).
Proof.
  intros [Hc He]%andb_true_iff. apply Z.eqb_eq in Hc. unfold fexp, emin in Hc. lia.
Qed.

(** The floats from 1 to 2^53 have 53 digits. *)
Lemma count_is_positive m e : valid (S754_finite false m e) = true -> 1 <= floor (S754_finite false m e) < 2 ^ 53 ->
  Zpos (digits2_pos m) = 53 /\ -52 <= e <= 0.
Proof.
  intros Hv [Hl Hu]. destruct (canonical_digits m e Hv) as (Hd & He & Hd53).
  pose proof (digits_bounds m) as [Hm Hm']. destruct (Z.leb_spec e 0) as [Hneg|Hpos].
  - rewrite floor_neg in Hl by done. assert (2 ^ (- e) <= Zpos m) as Hle.
    { destruct (Z.leb_spec (2 ^ (- e)) (Zpos m)); [done|]. rewrite Z.div_small in Hl by lia. lia. }
    assert (- e < Zpos (digits2_pos m)) by (apply (Z.pow_lt_mono_r_iff 2); lia). lia.
  - simpl in Hu. rewrite Z.shiftl_mul_pow2 in Hu by lia. rewrite Hd53 in Hm by lia.
    assert (2 ^ 1 <= 2 ^ e) by (apply Z.pow_le_mono_r; lia). change (53 - 1) with 52 in Hm. lia.
Qed.

Lemma one_le x : is_count x -> SFleb (f_of_Z 1) x = (1 <=? floor x).
Proof.
  intros (Hv & Hu & Hx). change (f_of_Z 1) with (S754_finite false 4503599627370496 (-52)).
  destruct x as [[]|[]| |[] m e]; try done.
  destruct (canonical_digits m e Hv) as (Hd & He & Hd53). pose proof (digits_bounds m) as [Hm Hm'].
  unfold SFleb, SFcompare. destruct (Z.compare_spec (-52) e) as [<-|Hlt|Hgt].
  - rewrite Hd53 in Hm by lia. change (53 - 1) with 52 in Hm. assert (4503599627370496 <= m)%positive as Hle by lia.
    rewrite floor_neg by lia. change (Pos.compare_cont Eq) with Pos.compare.
    assert (1 <= Zpos m / 2 ^ (- -52)) as Hf by (apply Z.div_le_lower_bound; lia). apply Z.leb_le in Hf. rewrite Hf.
    apply Pos.leb_le in Hle. unfold Pos.leb in Hle. by destruct (4503599627370496 ?= m)%positive.
  - symmetry. apply Z.leb_le. rewrite Hd53 in Hm by lia. change (53 - 1) with 52 in Hm.
    destruct (Z.leb_spec e 0).
    + rewrite floor_neg by done. assert (2 ^ (- e) <= 2 ^ 52) by (apply Z.pow_le_mono_r; lia).
      apply Z.div_le_lower_bound; [apply Z.pow_pos_nonneg; lia|lia].
    + simpl. rewrite Z.shiftl_mul_pow2 by lia. assert (0 < 2 ^ e) by (apply Z.pow_pos_nonneg; lia). nia.
  - symmetry. apply Z.leb_gt. rewrite floor_neg by lia. rewrite Z.div_small; [done|].
    assert (2 ^ 53 <= 2 ^ (- e)) by (apply Z.pow_le_mono_r; lia).
    assert (2 ^ Zpos (digits2_pos m) <= 2 ^ 53) by (apply Z.pow_le_mono_r; lia). lia.
Qed.

Lemma sub_one x : is_count x -> 1 <= floor x ->
  is_count (f_sub x (f_of_Z 1)) /\ floor (f_sub x (f_of_Z 1)) = floor x - 1.
Proof.
  intros (Hv & Hu & Hx) Hl. change (f_of_Z 1) with (S754_finite false 4503599627370496 (-52)).
  destruct x as [[]|[]| |[] m e]; try done.
  destruct (count_is_positive m e Hv (conj Hl Hu)) as [Hd He]. pose proof (digits_bounds m) as [Hm Hm'].
  rewrite Hd in Hm, Hm'. change (53 - 1) with 52 in Hm.
  assert (0 < 2 ^ (- e)) as Hpe by (apply Z.pow_pos_nonneg; lia).
  rewrite floor_neg in Hl, Hu |- * by lia.
  assert (2 ^ (- e) <= 2 ^ 52) as Hpe' by (apply Z.pow_le_mono_r; lia).
  cbn [SFsub]. replace (Z.min e (-52)) with (-52) by lia.
  replace (Zpos (shl_align m e (-52)).1) with (Zpos m * 2 ^ (e + 52)).
  2:{ unfold shl_align. destruct (-52 - e) as [|n|n] eqn:En; simpl; [|lia|].
      - replace (e + 52) with 0 by lia. lia.
      - rewrite shift_left_value. f_equal. f_equal. lia. }
  change (Zpos (shl_align 4503599627370496 (-52) (-52)).1) with (2 ^ 52). cbn [cond_Zopp].
  assert (Zpos m * 2 ^ (e + 52) - 2 ^ 52 = (Zpos m - 2 ^ (- e)) * 2 ^ (e + 52)) as ->.
  { rewrite Z.mul_sub_distr_r, <- Z.pow_add_r by lia. f_equal. f_equal. lia. }
  assert (0 < 2 ^ (e + 52)) as Hp by (apply Z.pow_pos_nonneg; lia).
  destruct (Zpos m - 2 ^ (- e)) as [|k|k] eqn:Ek; [| |lia].
  { simpl. assert (Zpos m / 2 ^ (- e) = 1) as ->; [|done].
    replace (Zpos m) with (2 ^ (- e)) by lia. apply Z.div_same. lia. }
  destruct (Zpos k * 2 ^ (e + 52)) as [|q|q] eqn:Eq; [lia| |lia]. cbn [binary_normalize].
  assert (Zpos (digits2_pos k) <= 53) as Hdk.
  { pose proof (digits_bounds k) as [Hk _]. assert (Zpos (digits2_pos k) - 1 < 53); [|lia].
    apply (Z.pow_lt_mono_r_iff 2); lia. }
  destruct (binary_round_exact q (-52) k (e + 52)) as (k' & Hr & Hle & Hk'); [lia..|].
  cbn zeta in *. rewrite Hr. replace (-52 + (e + 52)) with e in * by lia.
  set (e' := Zpos (digits2_pos k) + e - 53) in *.
  assert (floor (S754_finite false k' e') = Zpos m / 2 ^ (- e) - 1) as Hfl.
  { rewrite floor_neg by lia. rewrite Hk'. replace (2 ^ (- e')) with (2 ^ (- e) * 2 ^ (e - e'))
      by (rewrite <- Z.pow_add_r by lia; f_equal; lia).
    rewrite Z.div_mul_cancel_r by (apply Z.pow_nonzero; lia).
    replace (Zpos k) with (Zpos m + (-1) * 2 ^ (- e)) by lia. rewrite Z.div_add by lia. lia. }
  split; [|done]. split_and!; [|rewrite Hfl; lia|done].
  apply andb_true_iff. split; [|apply Z.leb_le; lia]. apply Z.eqb_eq.
  rewrite (digits_shift k (e - e')) by lia. unfold fexp, emin. lia.
Qed.

Lemma f_of_Z_count c : 1 <= c < 2 ^ 53 -> is_count (f_of_Z c) /\ floor (f_of_Z c) = c.
Proof.
  intros [Hl Hu]. destruct c as [|k|k]; [lia| |lia]. unfold f_of_Z. cbn [binary_normalize].
  pose proof (digits_bounds k) as [Hk _].
  assert (Zpos (digits2_pos k) <= 53) as Hd.
  { assert (Zpos (digits2_pos k) - 1 < 53); [|lia]. apply (Z.pow_lt_mono_r_iff 2); lia. }
  destruct (binary_round_exact k 0 k 0) as (k' & Hr & Hle & Hk'); [lia..|]. cbn zeta in *. rewrite Hr.
  set (e' := Zpos (digits2_pos k) + (0 + 0) - 53) in *.
  assert (floor (S754_finite false k' e') = Zpos k) as Hf.
  { rewrite floor_neg by lia. rewrite Hk'. replace (0 + 0 - e') with (- e') by lia.
    apply Z.div_mul. apply Z.pow_nonzero; lia. }
  split; [|done]. split_and!; [|rewrite Hf; lia|done].
  apply andb_true_iff. split; [|apply Z.leb_le; lia]. apply Z.eqb_eq.
  rewrite (digits_shift k (0 + 0 - e')) by lia. unfold fexp, emin. lia.
Qed.

Lemma SFltb_irrefl x : SFltb x x = false.
Proof.
  destruct x as [[]|[]| |[] m e]; try done; unfold SFltb, SFcompare; rewrite Z.compare_refl;
    change (Pos.compare_cont Eq m m) with (Pos.compare m m); by rewrite Pos.compare_refl.
Qed.

Lemma refill_still b now : now <= last b -> refill b now = b.
Proof. intros Hn. unfold refill, time_After. destruct (Z.ltb_spec (last b) now); [lia|done]. Qed.

Lemma decisions_still b nows :
  is_count (tokens b) -> Forall (fun now => now <= last b) nows ->
  let n := Z.to_nat (floor (tokens b)) in
  decisions (Some b) nows = replicate (length nows `min` n) true ++ replicate (length nows - n) false.
Proof.
  intros Hc Hn. revert b Hc Hn. induction nows as [|now nows IH]; intros b Hc Hn; [done|].
  apply Forall_cons in Hn as [Hnow Hn]. cbn zeta.
  assert (0 <= floor (tokens b)) as Hpos.
  { destruct (tokens b) as [| | |[] m e]; simpl; try lia. apply Z.shiftl_nonneg. lia. }
  cbn [decisions Allow AllowN]. change (1 <=? 0) with false. cbn iota. rewrite refill_still by done.
  rewrite one_le by done. destruct (Z.leb_spec 1 (floor (tokens b))) as [Hle|Hgt].
  - destruct (sub_one _ Hc Hle) as [Hc' Hf].
    set (b' := mkBucket _ _ _ _ _). rewrite (IH b') by done. cbn [tokens b']. rewrite Hf.
    replace (Z.to_nat (floor (tokens b))) with (S (Z.to_nat (floor (tokens b) - 1))) by lia. done.
  - rewrite (IH b) by done. replace (floor (tokens b)) with 0 by lia. simpl. by rewrite Nat.min_0_r, Nat.sub_0_r.
Qed.

(** C34 The bucket counts exactly, whatever the roundings of its floating-point arithmetic:
    while the clock does not advance, a bucket lets exactly the integer part of its tokens
    pass, one request each, and turns every further request away. So a bucket that is new
    or was just refilled lets a burst of at most its capacity pass, and never more tokens
    are in it than its capacity. *)
Theorem burst_is_counted b c r o now0 nows :
  is_count (tokens b) -> 1 <= c < 2 ^ 53 ->
  let served n := replicate (length nows `min` Z.to_nat n) true ++ replicate (length nows - Z.to_nat n) false in
  (Forall (fun now => now <= last b) nows -> decisions (Some b) nows = served (floor (tokens b))) /\
  (Forall (fun now => now <= now0) nows -> decisions (Some (NewTokenBucket c r o now0)) nows = served c) /\
  (last b < now0 -> SFltb (capacity b) (tokens (refill b now0)) = false).
Proof.
  intros Hb Hc. cbn zeta. split_and!.
  - intros Hn. by rewrite (decisions_still b).
  - destruct (f_of_Z_count c Hc) as [Hcnt Hf]. intros Hn.
    unfold NewTokenBucket. destruct (Z.ltb_spec c 1); [lia|].
    rewrite decisions_still by done. cbn [tokens]. by rewrite Hf.
  - intros Hlt. unfold refill, time_After. apply Z.ltb_lt in Hlt. rewrite Hlt. cbn [tokens].
    set (t := f_add _ _). destruct (SFltb (capacity b) t) eqn:E; [apply SFltb_irrefl|done].
Qed.

Section runs.

Definition ten_per_second : float64 := f_of_Z 10.
Definition fresh : TokenBucket := NewTokenBucket 3 ten_per_second false 0.
(** A quarter of a second after a burst: two and a half tokens. *)
Definition refilled : TokenBucket :=
  refill (mkBucket (f_of_Z 3) ten_per_second (S754_zero false) 0 false) (250 * Millisecond).

Lemma burst_is_counted_witness :
  decisions (Some refilled) [0; 0; 0] = [true; true; false] /\
  decisions (Some fresh) [0; 0; 0; 0] = [true; true; true; false].
Proof.
  split.
  - refine (proj1 (burst_is_counted refilled 3 ten_per_second false 0 [0; 0; 0] _ _) _);
      [vm_compute; done|lia|repeat constructor; vm_compute; done].
  - refine (proj1 (proj2 (burst_is_counted refilled 3 ten_per_second false 0 [0; 0; 0; 0] _ _)) _);
      [vm_compute; done|lia|repeat constructor; lia].
Defined.

End runs.

End TokenBucket.
