(* ===== verification/Metrics.v ===== *)
(** * Metrics: [common/observability/metrics.go]

    The collectors of the process and the observers that the retry policy, the circuit
    breaker and the rate limiter are given. The client library of Prometheus is a type
    class: its operations are programs over the registry [R] (a panic is [Err]), and [count]
    and [gauge] are what a scrape shows of a series. The observers are composed with the
    models of [Retry] and [Breaker]: what those tell is what is counted. *)

From S2P Require Import Prelude Retry Breaker TokenBucket.
Import TokenBucket.
Open Scope Z_scope.

Module Metrics.
#[local] Existing Instance Breaker.CircuitState_eq_dec.

(** ** The client library *)

Inductive kind := CounterVec | GaugeVec | HistogramVec | Gauge.
Record collector := mkCollector {
  c_kind : kind; Namespace : string; Subsystem : string; Name : string; Help : string; labelNames : list string
}.
(** The full name of a collector; a series is a full name with the values of the labels. *)
Definition fqName (c : collector) : string := Namespace c +:+ "_" +:+ Subsystem c +:+ "_" +:+ Name c.
Notation series := (string * list string)%type.
Definition series_of (c : collector) (lvs : list string) : series := (fqName c, lvs).

(** [Inc c lvs] is [c.WithLabelValues(lvs...).Inc()], and so are the others; a collector
    without labels is used with no values. *)
Class Prometheus (R : Type) := {
  NewRegistry : R;
  MustRegister : list collector -> prog R unit;
  Inc : collector -> list string -> prog R unit;
  Set_ : collector -> list string -> float64 -> prog R unit;
  Observe : collector -> list string -> float64 -> prog R unit;
  count : R -> series -> Z;
  gauge : R -> series -> float64
}.

Definition hit (s : series) (c : collector) (lvs : list string) : Z := if decide (s = series_of c lvs) then 1 else 0.

(** What the library documents: registering collectors with different names succeeds, and
    an operation with as many values as the collector has labels changes its series and no
    other. *)
Class PrometheusLaws (R : Type) `{Prometheus R} := {
  register_new cs : NoDup (fqName <$> cs) ->
    exists r, MustRegister cs NewRegistry = (Ok tt, r) /\ forall s, count r s = 0;
  inc_spec c lvs r : length lvs = length (labelNames c) ->
    exists r', Inc c lvs r = (Ok tt, r') /\ (forall s, count r' s = count r s + hit s c lvs) /\
      forall s, gauge r' s = gauge r s;
  set_spec c lvs x r : length lvs = length (labelNames c) ->
    exists r', Set_ c lvs x r = (Ok tt, r') /\ (forall s, count r' s = count r s) /\
      forall s, gauge r' s = if decide (s = series_of c lvs) then x else gauge r s;
  observe_spec c lvs x r : length lvs = length (labelNames c) ->
    exists r', Observe c lvs x r = (Ok tt, r') /\ (forall s, count r' s = count r s + hit s c lvs) /\
      forall s, gauge r' s = gauge r s
}.

(** ** The collectors of [NewMetrics] *)

Definition request_labels : list string := ["caller_service"; "target_service"; "operation"].

Definition requestAttempts := mkCollector CounterVec "game01" "reliability" "request_attempts_total"
  "Total number of individual internal request attempts." request_labels.
Definition requestRetries := mkCollector CounterVec "game01" "reliability" "request_retries_total"
  "Total number of internal request retries scheduled." (request_labels ++ ["reason"]).
Definition requestRetryExhausted := mkCollector CounterVec "game01" "reliability" "request_retry_exhausted_total"
  "Total number of internal requests that exhausted retry attempts." (request_labels ++ ["reason"]).
Definition requestOutcomes := mkCollector CounterVec "game01" "reliability" "request_outcomes_total"
  "Total number of completed internal requests by outcome." (request_labels ++ ["result"; "reason"]).
Definition requestDuration := mkCollector HistogramVec "game01" "reliability" "request_duration_seconds"
  "Internal request duration including retries." request_labels.
Definition rateLimitDecisions := mkCollector CounterVec "game01" "gateway" "rate_limit_decisions_total"
  "Total number of rate limiter decisions." ["scope"; "decision"].
Definition circuitCalls := mkCollector CounterVec "game01" "reliability" "circuit_breaker_calls_total"
  "Total number of circuit breaker calls by result." (request_labels ++ ["result"]).
Definition circuitState := mkCollector GaugeVec "game01" "reliability" "circuit_breaker_state"
  "Current circuit breaker state: 0 closed, 1 open, 2 half-open." request_labels.
Definition circuitTransitions := mkCollector CounterVec "game01" "reliability" "circuit_breaker_transitions_total"
  "Total number of circuit breaker state transitions." (request_labels ++ ["from"; "to"]).
Definition sessionLifecycle := mkCollector CounterVec "game01" "gateway" "session_lifecycle_events_total"
  "Gateway session lifecycle event delivery attempts by target and result." ["target_service"; "event_type"; "result"].
Definition sessionLifecycleQueue := mkCollector Gauge "game01" "gateway" "session_lifecycle_queue_depth"
  "Current queued Gateway session lifecycle events." [].
Definition gatewayErrors := mkCollector CounterVec "game01" "gateway" "public_errors_total"
  "Gateway public errors sent to clients by stable code." ["code"; "retryable"].
Definition gatewayConnections := mkCollector Gauge "game01" "gateway" "websocket_connections"
  "Current Gateway WebSocket connections." [].

Definition collectors : list collector :=
  [requestAttempts; requestRetries; requestRetryExhausted; requestOutcomes; requestDuration; rateLimitDecisions;
   circuitCalls; circuitState; circuitTransitions; sessionLifecycle; sessionLifecycleQueue; gatewayErrors;
   gatewayConnections].

(** [*Metrics] is its registry, or nil. *)
Section metrics.
Context {R : Type} `{Prometheus R}.

Definition NewMetrics : res R :=
  match MustRegister collectors NewRegistry with (Ok _, r) => Ok r | (Err e, _) => Err e end.

(** A method on a pointer that may be nil. *)
Definition on_metrics (p : prog R unit) : prog (option R) unit := fun m =>
  match m with
  | None => (Ok tt, None)
  | Some r => let '(x, r) := p r in (x, Some r)
  end.

Definition ObserveSessionLifecycle (targetService eventType result : string) : prog (option R) unit :=
  on_metrics (Inc sessionLifecycle [targetService; eventType; result]).
Definition SetSessionLifecycleQueueDepth (depth : Z) : prog (option R) unit :=
  on_metrics (Set_ sessionLifecycleQueue [] (f_of_Z depth)).
Definition ObserveGatewayError (code : string) (retryable : bool) : prog (option R) unit :=
  on_metrics (Inc gatewayErrors [code; if retryable then "true" else "false"]).
Definition SetGatewayConnections (count : Z) : prog (option R) unit :=
  on_metrics (Set_ gatewayConnections [] (f_of_Z count)).

(** The registry a scrape reads; [global] is the library's default one. *)
Definition Handler (global : R) (m : option R) : R := default global m.

(** ** Observers *)

Definition errorReason (err : option error) (classify : option (error -> string)) : string :=
  match err with
  | None => "none"
  | Some e =>
      let fallback :=
        if errors_Is e Canceled then "context_canceled"
        else if errors_Is e DeadlineExceeded then "context_deadline_exceeded" else "error" in
      match classify with
      | None => fallback
      | Some f => if bool_decide (f e = "") then fallback else f e
      end
  end.

Record retryObserver := mkRetryObserver {
  ro_caller : string; ro_target : string; ro_operation : string; classify : option (error -> string)
}.
Definition RetryObserver (m : option R) (callerService targetService operation : string) (classify : option (error -> string)) :
    option retryObserver :=
  match m with None => None | Some _ => Some (mkRetryObserver callerService targetService operation classify) end.

Definition retry_labels (o : retryObserver) (more : list string) : list string :=
  [ro_caller o; ro_target o; ro_operation o] ++ more.
Definition result_name (err : option error) : string := match err with None => "success" | Some _ => "failure" end.

Definition OnAttempt (o : retryObserver) : prog R unit := Inc requestAttempts (retry_labels o []).
Definition OnRetry (o : retryObserver) (err : error) : prog R unit :=
  Inc requestRetries (retry_labels o [errorReason (Some err) (classify o)]).
Definition OnComplete (o : retryObserver) (exhausted : bool) (err : option error) (duration : Z) : prog R unit :=
  let reason := errorReason err (classify o) in
  (_ <- Inc requestOutcomes (retry_labels o [result_name err; reason]);;
   _ <- Observe requestDuration (retry_labels o []) (Seconds duration);;
   if exhausted then Inc requestRetryExhausted (retry_labels o [reason]) else ret tt)%go.

Record rateLimitObserver := mkRateObserver { scope : string }.
Definition RateLimitObserver (m : option R) (scope : string) : option rateLimitObserver :=
  match m with None => None | Some _ => Some (mkRateObserver scope) end.
Definition decision_name (allowed : bool) : string := if allowed then "allowed" else "rejected".
Definition OnDecision (o : rateLimitObserver) (allowed : bool) : prog R unit :=
  Inc rateLimitDecisions [scope o; decision_name allowed].

Record circuitObserver := mkCircuitObserver { co_caller : string; co_target : string; co_operation : string }.
Definition circuit_labels (o : circuitObserver) (more : list string) : list string :=
  [co_caller o; co_target o; co_operation o] ++ more.

Definition circuitStateName (s : Breaker.CircuitState) : string :=
  match s with
  | Breaker.CircuitStateOpen => "open"
  | Breaker.CircuitStateHalfOpen => "half_open"
  | Breaker.CircuitStateClosed => "closed"
  end.
(** [float64(state)] of the constants, which count from zero. *)
Definition state_value (s : Breaker.CircuitState) : float64 :=
  f_of_Z match s with Breaker.CircuitStateClosed => 0 | Breaker.CircuitStateOpen => 1 | Breaker.CircuitStateHalfOpen => 2 end.

Definition CircuitObserver (callerService targetService operation : string) : prog (option R) (option circuitObserver) := fun m =>
  match m with
  | None => (Ok None, None)
  | Some r =>
      let o := mkCircuitObserver callerService targetService operation in
      match Set_ circuitState (circuit_labels o []) (state_value Breaker.CircuitStateClosed) r with
      | (Ok _, r) => (Ok (Some o), Some r)
      | (Err e, r) => (Err e, Some r)
      end
  end.

Definition OnCall (o : circuitObserver) (result : string) : prog R unit := Inc circuitCalls (circuit_labels o [result]).
Definition OnStateChange (o : circuitObserver) (from to : Breaker.CircuitState) : prog R unit :=
  (_ <- Set_ circuitState (circuit_labels o []) (state_value to);;
   if bool_decide (from <> to) then Inc circuitTransitions (circuit_labels o [circuitStateName from; circuitStateName to])
   else ret tt)%go.

(** ** What the components tell their observers *)

Definition retry_entry (o : retryObserver) (duration : Z) (e : Retry.entry) : prog R unit :=
  match e with
  | Retry.OnAttempt _ => OnAttempt o
  | Retry.OnRetry _ err => OnRetry o err
  | Retry.Waits _ => ret tt
  | Retry.OnComplete _ exhausted err => OnComplete o exhausted err duration
  end.
Definition breaker_notification (o : circuitObserver) (n : Breaker.notification) : prog R unit :=
  match n with
  | Breaker.OnCall result => OnCall o result
  | Breaker.OnStateChange from to => OnStateChange o from to
  end.

Fixpoint each {A} (f : A -> prog R unit) (l : list A) : prog R unit :=
  match l with
  | [] => ret tt
  | a :: l => (_ <- f a;; each f l)%go
  end.

Context `{!PrometheusLaws R}.

(** ** Effects: the series an operation increments, and the gauges it sets *)

Definition occurrences {A} `{EqDecision A} (x : A) (l : list A) : Z := Z.of_nat (length (filter (fun y => y = x) l)).
Definition latest (s : series) (g : list (series * float64)) (x : float64) : float64 :=
  foldl (fun x y => if decide (s = y.1) then y.2 else x) x g.

Definition does (p : prog R unit) (l : list series) (g : list (series * float64)) : Prop := forall r,
  exists r', p r = (Ok tt, r') /\ (forall s, count r' s = count r s + occurrences s l) /\
    forall s, gauge r' s = latest s g (gauge r s).

Lemma occurrences_app {A} `{EqDecision A} (x : A) l1 l2 : occurrences x (l1 ++ l2) = occurrences x l1 + occurrences x l2.
Proof. unfold occurrences. rewrite filter_app, length_app. lia. Qed.

Lemma occurrences_cons {A} `{EqDecision A} (x y : A) l : occurrences x (y :: l) = (if decide (y = x) then 1 else 0) + occurrences x l.
Proof. unfold occurrences. rewrite filter_cons. destruct (decide (y = x)); simpl; lia. Qed.

Lemma occurrences_nil {A} `{EqDecision A} (x : A) : occurrences x [] = 0.
Proof. done. Qed.

Lemma does_ret : does (ret tt) [] [].
Proof. intros r. exists r. split_and!; [done| |done]. intros s. rewrite occurrences_nil. lia. Qed.

Lemma does_bind p q l1 l2 g1 g2 : does p l1 g1 -> does q l2 g2 -> does (bind p (fun _ => q)) (l1 ++ l2) (g1 ++ g2).
Proof.
  intros Hp Hq r. destruct (Hp r) as (r1 & E1 & Hc1 & Hg1), (Hq r1) as (r2 & E2 & Hc2 & Hg2).
  exists r2. unfold bind. rewrite E1. split_and!; [done| |].
  - intros s. rewrite Hc2, Hc1, occurrences_app. lia.
  - intros s. rewrite Hg2, Hg1. unfold latest. by rewrite foldl_app.
Qed.

Lemma hit_occurrence s c lvs : hit s c lvs = occurrences s [series_of c lvs].
Proof. unfold hit. rewrite occurrences_cons, occurrences_nil. repeat case_decide; naive_solver lia. Qed.

Lemma does_inc c lvs : length lvs = length (labelNames c) -> does (Inc c lvs) [series_of c lvs] [].
Proof.
  intros Hl r. destruct (inc_spec c lvs r Hl) as (r' & E & Hc & Hg). exists r'. split_and!; [done| |done].
  intros s. by rewrite Hc, hit_occurrence.
Qed.

Lemma does_observe c lvs x : length lvs = length (labelNames c) -> does (Observe c lvs x) [series_of c lvs] [].
Proof.
  intros Hl r. destruct (observe_spec c lvs x r Hl) as (r' & E & Hc & Hg). exists r'. split_and!; [done| |done].
  intros s. by rewrite Hc, hit_occurrence.
Qed.

Lemma does_set c lvs x : length lvs = length (labelNames c) -> does (Set_ c lvs x) [] [(series_of c lvs, x)].
Proof.
  intros Hl r. destruct (set_spec c lvs x r Hl) as (r' & E & Hc & Hg). exists r'. split_and!; [done| |done].
  intros s. rewrite Hc, occurrences_nil. lia.
Qed.

Lemma does_each {A} (f : A -> prog R unit) (l : list A) (fl : A -> list series) (fg : A -> list (series * float64)) :
  (forall a, does (f a) (fl a) (fg a)) -> does (each f l) (l ≫= fl) (l ≫= fg).
Proof.
  intros Hf. induction l as [|a l IH]; [apply does_ret|]. by apply does_bind.
Qed.

Lemma bind_nil {A B} (l : list A) : l ≫= (fun _ => @nil B) = [].
Proof. induction l; [done|]. by simpl. Qed.

(** The series each observer call increments. *)
Definition retry_series (o : retryObserver) (e : Retry.entry) : list series :=
  match e with
  | Retry.OnAttempt _ => [series_of requestAttempts (retry_labels o [])]
  | Retry.OnRetry _ err => [series_of requestRetries (retry_labels o [errorReason (Some err) (classify o)])]
  | Retry.Waits _ => []
  | Retry.OnComplete _ exhausted err =>
      let reason := errorReason err (classify o) in
      [series_of requestOutcomes (retry_labels o [result_name err; reason]); series_of requestDuration (retry_labels o [])] ++
      (if exhausted then [series_of requestRetryExhausted (retry_labels o [reason])] else [])
  end.

Lemma does_retry_entry o duration e : does (retry_entry o duration e) (retry_series o e) [].
Proof.
  destruct e as [k|k err|d|k ex err]; simpl; [by apply does_inc|by apply does_inc|apply does_ret|].
  apply (does_bind _ _ [_] (_ :: _) [] []); [by apply does_inc|].
  apply (does_bind _ _ [_] _ [] []); [by apply does_observe|]. destruct ex; [by apply does_inc|apply does_ret].
Qed.

Definition breaker_series (o : circuitObserver) (n : Breaker.notification) : list series :=
  match n with
  | Breaker.OnCall result => [series_of circuitCalls (circuit_labels o [result])]
  | Breaker.OnStateChange from to =>
      if bool_decide (from <> to) then [series_of circuitTransitions (circuit_labels o [circuitStateName from; circuitStateName to])]
      else []
  end.
Definition breaker_gauge (o : circuitObserver) (n : Breaker.notification) : list (series * float64) :=
  match n with
  | Breaker.OnCall _ => []
  | Breaker.OnStateChange _ to => [(series_of circuitState (circuit_labels o []), state_value to)]
  end.

Lemma does_breaker_notification o n : does (breaker_notification o n) (breaker_series o n) (breaker_gauge o n).
Proof.
  destruct n as [result|from to]; simpl; [by apply does_inc|].
  apply (does_bind _ _ [] _ [_] []); [by apply does_set|]. destruct (bool_decide _); [by apply does_inc|apply does_ret].
Qed.

(** ** Counting retries *)

(** The operation with the number of times it ran. *)
Definition counted {W} (op : W -> option error * W) (x : W * nat) : option error * (W * nat) :=
  let '(err, w) := op x.1 in (err, (w, S x.2)).
Definition retried (log : list Retry.entry) : list error :=
  omap (fun e => match e with Retry.OnRetry _ err => Some err | _ => None end) log.
Definition attempted (log : list Retry.entry) : list Z :=
  omap (fun e => match e with Retry.OnAttempt k => Some k | _ => None end) log.
Definition completed (e : Retry.entry) : bool := match e with Retry.OnComplete _ _ _ => true | _ => false end.

(** The shape of what a run tells: attempts and retries, then one completion. *)
Definition log_ok (maximum : Z) (from ran : nat) (err : option error) (log : list Retry.entry) : Prop :=
  exists pre k exhausted, log = pre ++ [Retry.OnComplete k exhausted err] /\ Forall (fun e => completed e = false) pre /\
    (from + length (attempted pre) = ran)%nat /\
    (from + length (retried pre) = ran \/ S (from + length (retried pre)) = ran)%nat /\
    (exhausted = true <-> Z.of_nat ran = maximum /\ 1 < maximum /\ err <> None).

Lemma log_ok_retry maximum from ran err log k e d :
  log_ok maximum (S from) ran err log ->
  log_ok maximum from ran err ([Retry.OnAttempt k] ++ [Retry.OnRetry k e] ++ [Retry.Waits d] ++ log).
Proof.
  intros (pre & k' & ex & -> & Hc & Ha & Hr & He).
  exists ([Retry.OnAttempt k; Retry.OnRetry k e; Retry.Waits d] ++ pre), k', ex. split_and!.
  - done.
  - by repeat constructor.
  - simpl. lia.
  - simpl. lia.
  - done.
Qed.

Lemma attempts_log {W} (op : W -> option error * W) ctx p remaining k err0 w err w' ran log :
  Retry.Observed p = true -> Z.of_nat k + Z.of_nat remaining = Retry.MaxAttempts p -> (0 < remaining)%nat ->
  Retry.attempts (counted op) ctx p remaining (Z.of_nat k) err0 (w, k) = (err, (w', ran), log) ->
  log_ok (Retry.MaxAttempts p) k ran err log.
Proof.
  intros Ho. revert k err0 w log. induction remaining as [|remaining IH]; intros k err0 w log Hk Hr; [lia|].
  cbn [Retry.attempts]. unfold counted at 1. cbn [fst snd]. destruct (op w) as [e1 w1].
  unfold Retry.tell. rewrite Ho. destruct e1 as [e|].
  2: { intros [= <- <- <- <-]. exists [Retry.OnAttempt (Z.of_nat k + 1)], (Z.of_nat k + 1), false.
       split_and!; [done|by repeat constructor|simpl; lia|simpl; lia|naive_solver]. }
  destruct (_ && _) eqn:Es; cbn [negb].
  - apply andb_true_iff in Es as [Hlt _]. breflect. destruct (ctx (Z.of_nat k)) as [ce|].
    + intros [= <- <- <- <-].
      exists [Retry.OnAttempt (Z.of_nat k + 1); Retry.OnRetry (Z.of_nat k + 1) e; Retry.Waits (Retry.backoff p (Z.of_nat k))], (Z.of_nat k + 1), false.
      split_and!; [done|by repeat constructor|simpl; lia|simpl; lia|]. split; [done|lia].
    + destruct (Retry.attempts _ _ _ _ _ _ _) as [[err' w2] log'] eqn:Ea. intros [= <- -> <-].
      apply (log_ok_retry _ _ _ _ log'). replace (Z.of_nat k + 1) with (Z.of_nat (S k)) in Ea by lia.
      eapply IH; [lia|lia|exact Ea].
  - intros [= <- <- <- <-]. eexists [Retry.OnAttempt (Z.of_nat k + 1)], (Z.of_nat k + 1), _.
    split_and!; [reflexivity|by repeat constructor|simpl; lia|simpl; lia|].
    rewrite andb_true_iff, Z.ltb_lt, Z.leb_le. naive_solver lia.
Qed.

(** How often a series was incremented by a log, by the entries of the log. *)
Lemma series_of_ne c d l m : fqName c <> fqName d -> series_of c l <> series_of d m.
Proof. unfold series_of. congruence. Qed.

(** Decides which of the collectors two series belong to. *)
Ltac split_series :=
  repeat (rewrite occurrences_cons || rewrite occurrences_nil || rewrite occurrences_app);
  repeat match goal with
    | |- context [decide (series_of ?c ?l = series_of ?d ?m)] =>
        rewrite (decide_False (P := series_of c l = series_of d m)) by (apply series_of_ne; intros E; vm_compute in E; discriminate)
    end.

Lemma occurrences_pre o (pre : list Retry.entry) : Forall (fun e => completed e = false) pre ->
  let occ c more := occurrences (series_of c (retry_labels o more)) (pre ≫= retry_series o) in
  occ requestAttempts [] = Z.of_nat (length (attempted pre)) /\
  (forall reason, occ requestRetries [reason] = occurrences reason ((fun e => errorReason (Some e) (classify o)) <$> retried pre)) /\
  (forall c more, c ∈ [requestRetryExhausted; requestOutcomes; requestDuration] -> occ c more = 0).
Proof.
  intros Hc. cbn zeta. induction Hc as [|e pre He Hc (IHa & IHr & IHo)]; [done|].
  destruct e as [k|k err|d|k ex err]; [| |done|done]; cbn [mbind list_bind retry_series app] in *; split_and!.
  - rewrite occurrences_cons, IHa, decide_True by done. change (attempted (_ :: pre)) with (k :: attempted pre). simpl. lia.
  - intros reason. split_series. by rewrite IHr.
  - intros c more Hin. rewrite occurrences_cons, IHo by done. set_unfold in Hin. destruct Hin as [->|[->|[->|[]]]]; by split_series.
  - split_series. by rewrite IHa.
  - intros reason. rewrite occurrences_cons, IHr. change (retried (_ :: pre)) with (err :: retried pre). rewrite fmap_cons, occurrences_cons.
    f_equal. repeat case_decide; [done| | |done]; unfold series_of, retry_labels in *; simplify_eq; done.
  - intros c more Hin. rewrite occurrences_cons, IHo by done. set_unfold in Hin. destruct Hin as [->|[->|[->|[]]]]; by split_series.
Qed.

Lemma occurrences_complete o k ex err :
  let occ c more := occurrences (series_of c (retry_labels o more)) (retry_series o (Retry.OnComplete k ex err)) in
  let reason := errorReason err (classify o) in
  (forall c more, c ∈ [requestAttempts; requestRetries] -> occ c more = 0) /\
  (forall more, occ requestOutcomes more = if decide (more = [result_name err; reason]) then 1 else 0) /\
  occ requestDuration [] = 1 /\
  (forall more, occ requestRetryExhausted more = if decide (more = [reason] /\ ex = true) then 1 else 0).
Proof.
  cbn zeta. cbn [retry_series]. split_and!.
  - intros c more Hin. set_unfold in Hin. destruct Hin as [->|[->|[]]]; split_series; by destruct ex; split_series.
  - intros more. split_series. destruct ex; split_series; repeat case_decide; unfold series_of, retry_labels in *; simplify_eq; done.
  - split_series. rewrite decide_True by done. by destruct ex; split_series.
  - intros more. split_series. destruct ex; split_series; repeat case_decide; unfold series_of, retry_labels in *; naive_solver congruence.
Qed.

(** The metrics of a retried request, whatever the operation, its failures and the policy:
    attempts count exactly the executions of the operation; retries are counted under the
    reasons of the errors they follow, which are all executions but the last, or all of them
    when the wait after the last one was cut short; exactly one outcome, with the result and
    reason that were returned, and one duration are recorded; the exhausted counter moves
    exactly when all of several allowed attempts failed; no gauge moves. *)
Theorem retry_metrics_account {W} (op : W -> option error * W) ctx p w o duration r :
  Retry.Observed p = true ->
  exists err w' ran log r',
    Retry.Do (counted op) ctx p (w, 0%nat) = (err, (w', ran), log) /\
    each (retry_entry o duration) log r = (Ok tt, r') /\
    let added c more := count r' (series_of c (retry_labels o more)) - count r (series_of c (retry_labels o more)) in
    let reason := errorReason err (classify o) in
    added requestAttempts [] = Z.of_nat ran /\
    (exists errs, (length errs = ran \/ S (length errs) = ran) /\
       forall why, added requestRetries [why] = occurrences why ((fun e => errorReason (Some e) (classify o)) <$> errs)) /\
    (forall more, added requestOutcomes more = if decide (more = [result_name err; reason]) then 1 else 0) /\
    added requestDuration [] = 1 /\
    (forall more, added requestRetryExhausted more =
       if decide (more = [reason] /\ (Z.of_nat ran = Retry.MaxAttempts p /\ 1 < Retry.MaxAttempts p /\ err <> None)) then 1 else 0) /\
    (forall s, gauge r' s = gauge r s).
Proof.
  intros Ho. destruct (Retry.Do (counted op) ctx p (w, 0%nat)) as [[err [w' ran]] log] eqn:Hdo.
  pose proof (Retry.normalize_max p) as Hm.
  destruct (attempts_log op ctx (Retry.normalize p) (Z.to_nat (Retry.MaxAttempts (Retry.normalize p))) 0 None w err w' ran log Ho ltac:(lia) ltac:(lia) Hdo)
    as (pre & k & ex & -> & Hc & Ha & Hr & Hex).
  destruct (does_each (retry_entry o duration) (pre ++ [Retry.OnComplete k ex err]) _ _ (does_retry_entry o duration) r)
    as (r' & Hrun & Hcount & Hgauge).
  destruct (occurrences_pre o pre Hc) as (Pa & Pr & Po), (occurrences_complete o k ex err) as (Ca & Co & Cd & Cx).
  exists err, w', ran, (pre ++ [Retry.OnComplete k ex err]), r'. split; [done|]. split; [done|]. cbn zeta.
  assert (forall c more, count r' (series_of c (retry_labels o more)) - count r (series_of c (retry_labels o more)) =
    occurrences (series_of c (retry_labels o more)) (pre ≫= retry_series o) +
    occurrences (series_of c (retry_labels o more)) (retry_series o (Retry.OnComplete k ex err))) as Hadd.
  { intros c more. rewrite Hcount, bind_app, occurrences_app. cbn [mbind list_bind]. rewrite app_nil_r. lia. }
  setoid_rewrite Hadd. split_and!.
  - rewrite Pa, Ca by set_solver. lia.
  - exists (retried pre). split; [lia|]. intros why. rewrite Pr, Ca by set_solver. lia.
  - intros more. by rewrite Po, Co by set_solver.
  - by rewrite Po, Cd by set_solver.
  - intros more. rewrite Po, Cx by set_solver.
    assert (ex = true <-> Z.of_nat ran = Retry.MaxAttempts p /\ 1 < Retry.MaxAttempts p /\ err <> None) as Hx.
    { rewrite Hex. unfold Retry.normalize. simpl. case_on; breflect; naive_solver lia. }
    rewrite Z.add_0_l. apply decide_ext. by rewrite Hx.
  - intros s. by rewrite Hgauge, bind_nil.
Qed.

(** ** Observing a circuit breaker

    Callers take their turns at the two critical sections; the observer is told outside
    them, so what is still to be told is a list of notifications that any of the callers may
    deliver next. [ordered] restricts the runs to those where notifications are delivered in
    the order of the changes they report, as with a single caller. *)

Record observed_breaker := mkObserved {
  breaker : Breaker.CircuitBreaker; begun : nat; running : nat; pending : list Breaker.notification; registry : R
}.

Inductive call_step (o : circuitObserver) (ordered : bool) : observed_breaker -> observed_breaker -> Prop :=
  | call_admitted b n k ps r now b' ns :
      Breaker.allow b now = (true, b', ns) ->
      call_step o ordered (mkObserved b n k ps r) (mkObserved b' (S n) (S k) (ps ++ ns) r)
  | call_rejected b n k ps r now b' ns :
      Breaker.allow b now = (false, b', ns) ->
      call_step o ordered (mkObserved b n k ps r)
        (mkObserved b' (S n) k (ps ++ ns ++ Breaker.notify b' (Breaker.OnCall "circuit_open")) r)
  | call_completed b n k ps r err counts now b' ns :
      Breaker.complete b (if counts : bool then err else None) now = (b', ns) ->
      call_step o ordered (mkObserved b n (S k) ps r)
        (mkObserved b' n k (ps ++ ns ++ Breaker.notify b' (Breaker.OnCall (Breaker.call_result err counts))) r)
  | call_told b n k ps1 x ps2 r r' :
      (ordered = true -> ps1 = []) -> breaker_notification o x r = (Ok tt, r') ->
      call_step o ordered (mkObserved b n k (ps1 ++ x :: ps2) r) (mkObserved b n k (ps1 ++ ps2) r').

(** A history of notifications leads from one state to another. *)
Fixpoint path (s : Breaker.CircuitState) (h : list Breaker.notification) (t : Breaker.CircuitState) : Prop :=
  match h with
  | [] => s = t
  | Breaker.OnCall _ :: h => path s h t
  | Breaker.OnStateChange f u :: h =>
      s = f /\ f <> u /\ (f = Breaker.CircuitStateClosed -> u = Breaker.CircuitStateOpen) /\ path u h t
  end.

Lemma path_app s h1 h2 u : forall t, path s h1 t -> path t h2 u -> path s (h1 ++ h2) u.
Proof.
  revert s. induction h1 as [|[c|f v] h1 IH]; intros s t; simpl; [by intros -> ?|by eauto|].
  intros (-> & ? & ? & Hp) ?. eauto.
Qed.

Definition changes (h : list Breaker.notification) : list (Breaker.CircuitState * Breaker.CircuitState) :=
  omap (fun x => match x with Breaker.OnStateChange f t => Some (f, t) | _ => None end) h.
Definition results (h : list Breaker.notification) : list string :=
  omap (fun x => match x with Breaker.OnCall c => Some c | _ => None end) h.
Definition call_results : list string := ["circuit_open"; "success"; "failure"; "ignored_failure"].
Definition at_ (s t : Breaker.CircuitState) : Z := if decide (s = t) then 1 else 0.
Definition states : list Breaker.CircuitState :=
  [Breaker.CircuitStateClosed; Breaker.CircuitStateOpen; Breaker.CircuitStateHalfOpen].
Definition sum {A} (f : A -> Z) (l : list A) : Z := foldr (fun x n => f x + n) 0 l.

Lemma sum_ext {A} (f g : A -> Z) l : (forall x, f x = g x) -> sum f l = sum g l.
Proof. intros E. unfold sum. induction l as [|x l IH]; simpl; [done|]. by rewrite E, IH. Qed.

(** A path enters every state as often as it leaves it, up to its ends, and never makes a
    change that is none, or one from closed to half-open. *)
Lemma path_flow s h t : path s h t -> forall u,
  sum (fun f => occurrences (f, u) (changes h)) states - sum (fun v => occurrences (u, v) (changes h)) states = at_ t u - at_ s u /\
  occurrences (u, u) (changes h) = 0 /\
  occurrences (Breaker.CircuitStateClosed, Breaker.CircuitStateHalfOpen) (changes h) = 0.
Proof.
  revert s. induction h as [|[c|f v] h IH]; intros s; simpl.
  - intros -> u. unfold sum. simpl. rewrite !occurrences_nil. lia.
  - intros Hp. exact (IH s Hp).
  - intros (-> & Hne & Hc & Hp) u. destruct (IH v Hp u) as (Hf & Hz & Hch).
    change (changes (_ :: h)) with ((f, v) :: changes h). unfold sum, at_ in *. cbn [foldr states] in *.
    rewrite !occurrences_cons. destruct f, v, u; try done; try (by specialize (Hc eq_refl));
      repeat (case_decide; simplify_eq); lia.
Qed.

(** What the critical sections tell an observer leads from the old state to the new one. *)
Lemma allow_path b now ok b' ns : Breaker.observer b = true -> Breaker.allow b now = (ok, b', ns) ->
  path (Breaker.state b) ns (Breaker.state b') /\ Breaker.observer b' = true /\ results ns = [].
Proof.
  intros Ho. unfold Breaker.allow, Breaker.notifyStateChange, Breaker.notify. simpl. rewrite Ho.
  repeat case_on; intros [= <- <- <-]; simpl; split_and!; try done; congruence.
Qed.

Lemma complete_path b err now b' ns : Breaker.observer b = true -> Breaker.inv b -> Breaker.complete b err now = (b', ns) ->
  path (Breaker.state b) ns (Breaker.state b') /\ Breaker.observer b' = true /\ results ns = [].
Proof.
  intros Ho Hi. unfold Breaker.complete, Breaker.notifyStateChange, Breaker.notify. simpl. rewrite Ho.
  repeat case_on; intros [= <- <-]; simpl; split_and!; try done; congruence.
Qed.

(** The invariant: what was delivered and what is pending are, together, the history of the
    breaker, in its order when delivery is ordered; the registry counts what was delivered. *)
Definition accounted (o : circuitObserver) (ordered : bool) (r0 : R) (x : observed_breaker) : Prop :=
  exists told history,
    told ++ pending x ≡ₚ history /\ (ordered = true -> told ++ pending x = history) /\
    path Breaker.CircuitStateClosed history (Breaker.state (breaker x)) /\
    (length (results history) + running x = begun x)%nat /\ Forall (fun c => c ∈ call_results) (results history) /\
    Breaker.observer (breaker x) = true /\ Breaker.inv (breaker x) /\
    (forall s, count (registry x) s = count r0 s + occurrences s (told ≫= breaker_series o)) /\
    (forall s, gauge (registry x) s = latest s (told ≫= breaker_gauge o) (gauge r0 s)).

Lemma accounted_more o ordered r0 b n k ps r b' n' k' ns calls :
  accounted o ordered r0 (mkObserved b n k ps r) ->
  path (Breaker.state b) ns (Breaker.state b') -> results ns = [] -> Breaker.observer b' = true -> Breaker.inv b' ->
  (length calls + k' + n = n' + k)%nat -> Forall (fun c => c ∈ call_results) calls ->
  accounted o ordered r0 (mkObserved b' n' k' (ps ++ ns ++ (Breaker.OnCall <$> calls)) r).
Proof.
  intros (told & h & Hp & Ho & Hpath & Hn & Hc & _ & _ & Hcount & Hgauge) Hns Hr Hob Hi Hk Hcalls. simpl in *.
  assert (forall u, path u (Breaker.OnCall <$> calls) u) as Hcp
    by (clear; intros u; induction calls as [|c calls IH]; [done|exact IH]).
  assert (results (Breaker.OnCall <$> calls) = calls) as Hcr
    by (clear; induction calls as [|c calls IH]; [done|]; cbn; f_equal; exact IH).
  assert (results (h ++ ns ++ (Breaker.OnCall <$> calls)) = results h ++ calls) as Hres.
  { unfold results in *. by rewrite !omap_app, Hr, Hcr. }
  exists told, (h ++ ns ++ (Breaker.OnCall <$> calls)). simpl. split_and!; try done.
  - by rewrite app_assoc, Hp.
  - intros Hx. by rewrite <- (Ho Hx), <- app_assoc.
  - eapply path_app; [exact Hpath|]. by eapply path_app.
  - rewrite Hres, length_app. lia.
  - rewrite Hres. by apply Forall_app.
Qed.

Lemma call_step_accounted o ordered r0 x y : call_step o ordered x y -> accounted o ordered r0 x -> accounted o ordered r0 y.
Proof.
  destruct 1 as [b n k ps r now b' ns Ha|b n k ps r now b' ns Ha|b n k ps r err counts now b' ns Hc|b n k ps1 x ps2 r r' Hord Hx];
    intros Hacc; pose proof Hacc as (told & h & Hp & Ho & Hpath & Hn & Hres & Hob & Hi & Hcount & Hgauge); simpl in *.
  - destruct (allow_path _ _ _ _ _ Hob Ha) as (? & ? & ?). replace ns with (ns ++ (Breaker.OnCall <$> [])) by apply app_nil_r.
    eapply accounted_more; try done; [by eapply Breaker.allow_inv|simpl; lia].
  - destruct (allow_path _ _ _ _ _ Hob Ha) as (? & Hob' & ?). unfold Breaker.notify. rewrite Hob'.
    eapply (accounted_more _ _ _ _ _ _ _ _ _ _ _ _ ["circuit_open"]); try done;
      [by eapply Breaker.allow_inv|simpl; lia|repeat constructor].
  - destruct (complete_path _ _ _ _ _ Hob Hi Hc) as (? & Hob' & ?). unfold Breaker.notify. rewrite Hob'.
    eapply (accounted_more _ _ _ _ _ _ _ _ _ _ _ _ [_]); try done;
      [by eapply Breaker.complete_inv|simpl; lia|].
    apply Forall_singleton. unfold Breaker.call_result, call_results. destruct err, counts; repeat constructor.
  - destruct (does_breaker_notification o x r) as (r1 & Hx1 & Hc1 & Hg1).
    rewrite Hx in Hx1. injection Hx1 as <-.
    exists (told ++ [x]), h. simpl. split_and!; try done.
    + rewrite <- Hp, <- app_assoc. apply Permutation_app_head. simpl. apply Permutation_middle.
    + intros Hord'. rewrite <- (Ho Hord'), (Hord Hord'), <- app_assoc. done.
    + intros s. rewrite Hc1, Hcount, bind_app, occurrences_app. cbn. rewrite app_nil_r. lia.
    + intros s. rewrite Hg1, Hgauge, bind_app. unfold latest. rewrite foldl_app. cbn. by rewrite app_nil_r.
Qed.

Lemma occurrences_told o h f t (c := series_of circuitTransitions (circuit_labels o [circuitStateName f; circuitStateName t])) :
  (forall u, occurrences (u, u) (changes h) = 0) -> occurrences c (h ≫= breaker_series o) = occurrences (f, t) (changes h).
Proof.
  intros Hne. subst c. induction h as [|[res|f' t'] h IH]; [done| |].
  - cbn [mbind list_bind breaker_series app]. rewrite occurrences_cons, decide_False, IH by (done || by apply series_of_ne). done.
  - assert (f' <> t') as Hft.
    { intros ->. specialize (Hne t'). change (changes (_ :: h)) with ((t', t') :: changes h) in Hne.
      rewrite occurrences_cons, decide_True in Hne by done. unfold occurrences in Hne. lia. }
    change (changes (_ :: h)) with ((f', t') :: changes h) in *. cbn [mbind list_bind breaker_series].
    rewrite bool_decide_true by done. cbn [app]. rewrite !occurrences_cons, IH.
    + f_equal. repeat case_decide; simplify_eq; try done. exfalso. destruct f, t, f', t'; simpl in *; naive_solver.
    + intros u. specialize (Hne u). rewrite occurrences_cons in Hne. unfold occurrences in *. case_decide; lia.
Qed.

Lemma occurrences_calls o h result :
  occurrences (series_of circuitCalls (circuit_labels o [result])) (h ≫= breaker_series o) = occurrences result (results h).
Proof.
  induction h as [|[res|f t] h IH]; [done| |].
  - change (results (_ :: h)) with (res :: results h). cbn [mbind list_bind breaker_series app]. rewrite !occurrences_cons, IH.
    f_equal. repeat case_decide; unfold series_of, circuit_labels in *; simplify_eq; done.
  - change (results (_ :: h)) with (results h). cbn [mbind list_bind breaker_series]. destruct (bool_decide _); cbn [app]; [|done].
    rewrite occurrences_cons, decide_False, IH by (by apply series_of_ne). done.
Qed.

Lemma sum_results (l : list string) : Forall (fun c => c ∈ call_results) l -> sum (fun c => occurrences c l) call_results = Z.of_nat (length l).
Proof.
  induction 1 as [|c l Hc Hl IH]; [done|]. unfold sum, call_results in *. cbn [foldr length] in *. rewrite !occurrences_cons.
  set_unfold in Hc. destruct Hc as [->|[->|[->|[->|[]]]]]; repeat (case_decide; try discriminate; try done); lia.
Qed.

Lemma path_gauge o h : forall s t, path s h t ->
  latest (series_of circuitState (circuit_labels o [])) (h ≫= breaker_gauge o) (state_value s) = state_value t.
Proof.
  unfold latest. induction h as [|[res|f v] h IH]; intros s t; cbn [path mbind list_bind breaker_gauge app foldl]; [by intros ->|apply IH|].
  intros (-> & _ & _ & Hp). rewrite decide_True by done. by apply IH.
Qed.


(** All collectors of the process have different names: creating them does not panic. *)
Lemma new_metrics_ok : exists r, NewMetrics = Ok r /\ forall s, count r s = 0.
Proof.
  unfold NewMetrics. destruct (register_new collectors) as (r & -> & Hr); [|by exists r].
  by apply (bool_decide_unpack _); vm_compute.
Qed.

(** Every decision of a bucket that is observed is counted under its own name. *)
Lemma decisions_counted o (ds : list bool) r : exists r',
  each (OnDecision o) ds r = (Ok tt, r') /\
  forall d, count r' (series_of rateLimitDecisions [scope o; decision_name d]) =
    count r (series_of rateLimitDecisions [scope o; decision_name d]) + occurrences d ds.
Proof.
  destruct (does_each (OnDecision o) ds (fun d => [series_of rateLimitDecisions [scope o; decision_name d]]) (fun _ => [])
    (fun d => does_inc rateLimitDecisions [scope o; decision_name d] eq_refl) r) as (r' & E & Hc & _).
  exists r'. split; [done|]. intros d. rewrite Hc. f_equal. clear. induction ds as [|x ds IH]; [done|].
  cbn [mbind list_bind app]. rewrite !occurrences_cons, IH. f_equal. destruct x, d; repeat case_decide; done.
Qed.

End metrics.

(** ** A registry in memory *)

Record memory := mkMemory { counts_of : gmap series Z; gauges_of : gmap series float64 }.
Definition labelled (c : collector) (lvs : list string) (r r' : memory) : res unit * memory :=
  if decide (length lvs = length (labelNames c)) then (Ok tt, r') else (Err (Text "inconsistent label cardinality"), r).
Definition bump (c : collector) (lvs : list string) (r : memory) : memory :=
  mkMemory (<[series_of c lvs := default 0 (counts_of r !! series_of c lvs) + 1]> (counts_of r)) (gauges_of r).

#[export] Instance memory_prometheus : Prometheus memory := {|
  NewRegistry := mkMemory ∅ ∅;
  MustRegister cs r := if decide (NoDup (fqName <$> cs)) then (Ok tt, r) else (Err (Text "duplicate metrics collector registration attempted"), r);
  Inc c lvs r := labelled c lvs r (bump c lvs r);
  Set_ c lvs x r := labelled c lvs r (mkMemory (counts_of r) (<[series_of c lvs := x]> (gauges_of r)));
  Observe c lvs x r := labelled c lvs r (bump c lvs r);
  count r s := default 0 (counts_of r !! s);
  gauge r s := default (f_of_Z 0) (gauges_of r !! s)
|}.

Lemma bump_count c lvs r s : count (bump c lvs r) s = count r s + hit s c lvs.
Proof.
  unfold hit. simpl. case_decide as E; [subst; rewrite lookup_insert_eq; simpl; lia|]. rewrite lookup_insert_ne by done. lia.
Qed.

#[export] Instance memory_laws : PrometheusLaws memory.
Proof.
  split; simpl; unfold labelled.
  - intros cs Hnd. eexists. rewrite decide_True by done. by split.
  - intros c lvs r Hl. eexists. rewrite decide_True by done. split_and!; [done|apply (bump_count c lvs r)|done].
  - intros c lvs x r Hl. eexists. rewrite decide_True by done. split_and!; [done|done|].
    intros s. simpl. case_decide; [subst; by rewrite lookup_insert_eq|by rewrite lookup_insert_ne].
  - intros c lvs x r Hl. eexists. rewrite decide_True by done. split_and!; [done|apply (bump_count c lvs r)|done].
Qed.

(** ** Runs *)

Section runs.
Definition auth : circuitObserver := mkCircuitObserver "gateway" "usercenter" "authenticate".
Definition auth_retry : retryObserver := mkRetryObserver "gateway" "usercenter" "authenticate" None.
Definition nothing : memory := mkMemory ∅ ∅.

(** A request that fails once and then succeeds. *)
Definition second_time (n : nat) : option error * nat := (match n with O => Some (Text "refused") | _ => None end, S n).
Definition three : Retry.RetryPolicy := Retry.mkPolicy 3 1 10 None true.

Lemma retry_metrics_account_witness :
  exists r', count r' (series_of requestAttempts (retry_labels auth_retry [])) = 2 /\
    count r' (series_of requestRetries (retry_labels auth_retry ["error"])) = 1.
Proof.
  destruct (retry_metrics_account second_time (fun _ => None) three 0%nat auth_retry 5 nothing eq_refl)
    as (err & w' & ran & log & r' & Hdo & Hrun & Ha & _).
  assert (Retry.Do (counted second_time) (fun _ => None) three (0%nat, 0%nat) =
    (None, (2%nat, 2%nat), [Retry.OnAttempt 1; Retry.OnRetry 1 (Text "refused"); Retry.Waits 1; Retry.OnAttempt 2; Retry.OnComplete 2 false None])) as E
    by (vm_compute; reflexivity).
  rewrite E in Hdo. injection Hdo as <- <- <- <-. exists r'. split; [exact (eq_trans (eq_sym (Z.sub_0_r _)) Ha)|].
  apply (f_equal (fun x => count x.2 (series_of requestRetries (retry_labels auth_retry ["error"])))) in Hrun.
  cbn [snd] in Hrun. rewrite <- Hrun. vm_compute. reflexivity.
Defined.

(** A breaker that opens at its first failure, observed in order. *)
Definition opened : Breaker.CircuitBreaker := Breaker.mkBreaker 1 1 11 10 Breaker.CircuitStateOpen true.
Definition told_opened : memory :=
  (each (breaker_notification auth) [Breaker.OnStateChange Breaker.CircuitStateClosed Breaker.CircuitStateOpen; Breaker.OnCall "failure"] nothing).2.


(** The notification of a caller may be delivered late: here the breaker opens, is probed
    and closes again before the first caller has told the observer that it opened. The
    breaker is closed, nothing is running and nothing is pending, and the gauge says open. *)
Definition closed_again : Breaker.CircuitBreaker := Breaker.mkBreaker 0 1 zero_time 10 Breaker.CircuitStateClosed true.

Lemma late_notification_leaves_stale_gauge : exists r,
  rtc (call_step auth false) (mkObserved (Breaker.NewCircuitBreaker 1 10 true) 0 0 [] nothing) (mkObserved closed_again 2 0 [] r) /\
  gauge r (series_of circuitState (circuit_labels auth [])) = state_value Breaker.CircuitStateOpen.
Proof.
  eexists. split.
  - eapply rtc_l; [by apply (call_admitted auth false _ _ _ _ _ 0)|].
    eapply rtc_l; [by eapply (call_completed auth false _ _ _ _ _ (Some (Text "refused")) true 1)|].
    eapply rtc_l; [by apply (call_admitted auth false _ _ _ _ _ 20)|].
    eapply rtc_l; [by eapply (call_told auth false _ _ _ [_; _] _ [])|].
    eapply rtc_l; [by eapply (call_completed auth false _ _ _ _ _ None true 21)|].
    eapply rtc_l; [by eapply (call_told auth false _ _ _ [_; _] _ [_])|].
    eapply rtc_l; [by eapply (call_told auth false _ _ _ [_; _] _ [])|].
    eapply rtc_l; [by eapply (call_told auth false _ _ _ [] _ [_])|].
    eapply rtc_l; [by eapply (call_told auth false _ _ _ [] _ [])|].
    apply rtc_refl.
  - vm_compute. reflexivity.
Qed.

End runs.
End Metrics.
