(* ===== verification/Indexes.v ===== *)
(** * Indexes: [indexes.go] of the user center, lobby and battle repositories

    The index models the services create when they start, and what they enforce. The
    repositories are verified against collections whose documents [conflict] in a given way;
    the theorem of this file shows that these relations are what the created indexes
    enforce. The fields of a document have the names of the tags in [documents.go]. *)

From S2P Require Import Prelude Mongo LobbyStore UserStore RoomSnapshots.
Import Mongo.
Open Scope Z_scope.

Module Indexes.

Inductive value := VString (s : string) | VInt (n : Z) | VBool (b : bool) | VDate (t : Z).
#[export] Instance value_eq_dec : EqDecision value.
Proof. solve_decision. Defined.

(** [driverMongo.IndexModel]: the keys with their directions and the options the code sets. *)
Record IndexModel := mkIndex {
  Keys : list (string * Z);
  Unique : bool;
  ExpireAfterSeconds : option Z;
  PartialFilterExpression : list (string * value)
}.
Definition plain (keys : list (string * Z)) : IndexModel := mkIndex keys false None [].
Definition SetUnique (i : IndexModel) : IndexModel := mkIndex (Keys i) true (ExpireAfterSeconds i) (PartialFilterExpression i).
Definition SetExpireAfterSeconds (n : Z) (i : IndexModel) : IndexModel := mkIndex (Keys i) (Unique i) (Some n) (PartialFilterExpression i).
Definition SetPartialFilterExpression (f : list (string * value)) (i : IndexModel) : IndexModel :=
  mkIndex (Keys i) (Unique i) (ExpireAfterSeconds i) f.

(** ** The models *)

Definition accountIndexes : list IndexModel := [SetUnique (plain [("account_id", 1)])].
Definition identityIndexes : list IndexModel :=
  [SetUnique (plain [("identity_id", 1)]); SetUnique (plain [("provider", 1); ("subject", 1)]); plain [("account_id", 1)]].
Definition refreshTokenIndexes : list IndexModel :=
  [SetUnique (plain [("token_id", 1)]); SetUnique (plain [("token_hash", 1)]); plain [("account_id", 1); ("install_id", 1)];
   SetExpireAfterSeconds 0 (plain [("expires_at", 1)])].
Definition idempotencyIndexes : list IndexModel :=
  [SetUnique (plain [("key", 1)]); SetExpireAfterSeconds 0 (plain [("expires_at", 1)]); plain [("operation", 1); ("created_at", -1)]].

Definition playerIndexes : list IndexModel :=
  [SetUnique (plain [("player_id", 1)]); plain [("account_id", 1); ("updated_at", -1)];
   SetPartialFilterExpression [("is_default", VBool true)] (SetUnique (plain [("account_id", 1); ("is_default", 1)]))].
Definition assetIndexes : list IndexModel := [SetUnique (plain [("player_id", 1)])].
Definition ledgerIndexes : list IndexModel := [SetUnique (plain [("settlement_id", 1)]); plain [("player_id", 1); ("created_at", -1)]].
Definition snapshotIndexes : list IndexModel := [SetUnique (plain [("player_id", 1)])].
Definition roomSnapshotIndexes : list IndexModel :=
  [SetUnique (plain [("room_id", 1)]); plain [("players.player_id", 1)]; plain [("updated_at", -1)]].

(** ** What they enforce

    Two documents clash under a unique index when both are in the index (a partial index
    holds the documents that match its filter) and agree on all of its keys; a field that
    a document does not have counts as null. *)

Class Fields (Doc : Type) := field : Doc -> string -> option value.

Section clash.
Context {Doc : Type} `{Fields Doc}.

Definition indexed (i : IndexModel) (d : Doc) : bool :=
  forallb (fun kv => bool_decide (field d kv.1 = Some kv.2)) (PartialFilterExpression i).
Definition same_keys (i : IndexModel) (d d' : Doc) : bool :=
  forallb (fun k => bool_decide (field d k.1 = field d' k.1)) (Keys i).
Definition index_clash (i : IndexModel) (d d' : Doc) : bool := Unique i && indexed i d && indexed i d' && same_keys i d d'.
Definition clash (models : list IndexModel) (d d' : Doc) : bool := existsb (fun i => index_clash i d d') models.

End clash.

(** The fields the indexes use, by their tags. *)
Fixpoint by_tag (fs : list (string * value)) (tag : string) : option value :=
  match fs with
  | [] => None
  | (t, v) :: fs => if bool_decide (t = tag) then Some v else by_tag fs tag
  end.

#[export] Instance account_fields : Fields UserStore.accountDocument := fun d =>
  by_tag [("account_id", VString (UserStore.acd_AccountID d)); ("created_at", VDate (UserStore.acd_CreatedAt d));
          ("updated_at", VDate (UserStore.acd_UpdatedAt d))].
#[export] Instance identity_fields : Fields UserStore.identityDocument := fun d =>
  by_tag [("identity_id", VString (UserStore.idd_IdentityID d)); ("account_id", VString (UserStore.idd_AccountID d));
          ("provider", VString (UserStore.idd_Provider d)); ("subject", VString (UserStore.idd_Subject d));
          ("linked_at", VDate (UserStore.idd_LinkedAt d))].
#[export] Instance token_fields : Fields UserStore.refreshTokenDocument := fun d =>
  by_tag [("token_id", VString (UserStore.td_TokenID d)); ("account_id", VString (UserStore.td_AccountID d));
          ("token_hash", VString (UserStore.td_TokenHash d)); ("install_id", VString (UserStore.td_InstallID d));
          ("created_at", VDate (UserStore.td_CreatedAt d)); ("expires_at", VDate (UserStore.td_ExpiresAt d))].
#[export] Instance idempotency_fields : Fields UserStore.idempotencyDocument := fun d =>
  by_tag [("key", VString (UserStore.im_Key d)); ("operation", VString (UserStore.im_Operation d));
          ("request_hash", VString (UserStore.im_RequestHash d)); ("state", VString (UserStore.im_State d));
          ("created_at", VDate (UserStore.im_CreatedAt d)); ("expires_at", VDate (UserStore.im_ExpiresAt d))].
#[export] Instance player_fields : Fields LobbyStore.playerDocument := fun d =>
  by_tag [("player_id", VString (LobbyStore.pd_PlayerID d)); ("account_id", VString (LobbyStore.pd_AccountID d));
          ("nickname", VString (LobbyStore.pd_Nickname d)); ("region", VString (LobbyStore.pd_Region d));
          ("is_default", VBool (LobbyStore.pd_IsDefault d)); ("profile_version", VInt (LobbyStore.pd_ProfileVersion d));
          ("created_at", VDate (LobbyStore.pd_CreatedAt d)); ("updated_at", VDate (LobbyStore.pd_UpdatedAt d))].
#[export] Instance assets_fields : Fields LobbyStore.assetsDocument := fun d =>
  by_tag [("player_id", VString (LobbyStore.ad_PlayerID d)); ("asset_version", VInt (LobbyStore.ad_AssetVersion d));
          ("updated_at", VDate (LobbyStore.ad_UpdatedAt d))].
#[export] Instance ledger_fields : Fields LobbyStore.ledgerDocument := fun d =>
  by_tag [("settlement_id", VString (LobbyStore.ld_SettlementID d)); ("player_id", VString (LobbyStore.ld_PlayerID d));
          ("asset_type", VString (LobbyStore.ld_AssetType d)); ("delta", VInt (LobbyStore.ld_Delta d));
          ("reason", VString (LobbyStore.ld_Reason d)); ("source", VString (LobbyStore.ld_Source d));
          ("created_at", VDate (LobbyStore.ld_CreatedAt d))].
#[export] Instance snapshot_fields : Fields LobbyStore.snapshotDocument := fun d =>
  by_tag [("player_id", VString (LobbyStore.sd_PlayerID d)); ("account_id", VString (LobbyStore.sd_AccountID d));
          ("nickname", VString (LobbyStore.sd_Nickname d)); ("region", VString (LobbyStore.sd_Region d));
          ("profile_version", VInt (LobbyStore.sd_ProfileVersion d)); ("asset_version", VInt (LobbyStore.sd_AssetVersion d));
          ("schema_version", VInt (LobbyStore.sd_SchemaVersion d)); ("created_at", VDate (LobbyStore.sd_CreatedAt d))].
#[export] Instance room_fields : Fields RoomSnapshots.roomSnapshotDocument := fun d =>
  by_tag [("room_id", VInt (RoomSnapshots.rsd_RoomID d)); ("tick", VInt (RoomSnapshots.rsd_Tick d));
          ("state_version", VInt (RoomSnapshots.rsd_StateVersion d)); ("status", VString (RoomSnapshots.rsd_Status d));
          ("updated_at", VDate (RoomSnapshots.rsd_UpdatedAt d))].

Lemma same_string (s t : string) : bool_decide (Some (VString s) = Some (VString t)) = bool_decide (s = t).
Proof. apply bool_decide_ext. naive_solver. Qed.
Lemma same_int (n m : Z) : bool_decide (Some (VInt n) = Some (VInt m)) = (n =? m).
Proof. rewrite (bool_decide_ext _ (n = m)) by naive_solver. by destruct (Z.eqb_spec n m); case_bool_decide. Qed.
Lemma same_bool (a b : bool) : bool_decide (Some (VBool a) = Some (VBool b)) = eqb a b.
Proof. by destruct a, b. Qed.

Lemma clash_cons {Doc} `{Fields Doc} i models (d d' : Doc) : clash (i :: models) d d' = index_clash i d d' || clash models d d'.
Proof. done. Qed.
Lemma clash_nil {Doc} `{Fields Doc} (d d' : Doc) : clash [] d d' = false.
Proof. done. Qed.
Lemma plain_clash {Doc} `{Fields Doc} keys (d d' : Doc) : index_clash (plain keys) d d' = false.
Proof. done. Qed.
Lemma expiring_clash {Doc} `{Fields Doc} n keys (d d' : Doc) : index_clash (SetExpireAfterSeconds n (plain keys)) d d' = false.
Proof. done. Qed.
Lemma unique_clash {Doc} `{Fields Doc} keys (d d' : Doc) :
  index_clash (SetUnique (plain keys)) d d' = forallb (fun k => bool_decide (field d k.1 = field d' k.1)) keys.
Proof. done. Qed.

Ltac clash_fields :=
  rewrite ?clash_cons, ?clash_nil, ?plain_clash, ?expiring_clash, ?unique_clash; cbn [forallb fst];
  rewrite ?andb_true_r, ?orb_false_r, ?orb_false_l.

(** C25 The unique indexes the repositories create are the conflicts the theorems about the
    collections rely on: for each of the nine collections, two documents clash on a unique
    index (partial indexes apply to the documents that match their filter) exactly when the
    conflict relation of the collection says so. *)
Theorem indexes_are_conflicts :
  (forall d d', clash accountIndexes d d' = conflict UserStore.accounts_collection d d') /\
  (forall d d', clash identityIndexes d d' = conflict UserStore.identities_collection d d') /\
  (forall d d', clash refreshTokenIndexes d d' = conflict UserStore.tokens_collection d d') /\
  (forall d d', clash idempotencyIndexes d d' = conflict UserStore.records_collection d d') /\
  (forall d d', clash playerIndexes d d' = conflict LobbyStore.players_collection d d') /\
  (forall d d', clash assetIndexes d d' = conflict LobbyStore.assets_collection d d') /\
  (forall d d', clash ledgerIndexes d d' = conflict LobbyStore.ledger_collection d d') /\
  (forall d d', clash snapshotIndexes d d' = conflict LobbyStore.snapshots_collection d d') /\
  (forall d d', clash roomSnapshotIndexes d d' = conflict RoomSnapshots.rooms_collection d d').
Proof.
  split_and!; intros d d'; cbn [conflict].
  - unfold accountIndexes. clash_fields. apply same_string.
  - unfold identityIndexes. clash_fields. unfold UserStore.same_subject.
    apply (f_equal2 orb); [apply same_string|]. apply (f_equal2 andb); apply same_string.
  - unfold refreshTokenIndexes. clash_fields. apply (f_equal2 orb); apply same_string.
  - unfold idempotencyIndexes. clash_fields. apply same_string.
  - unfold playerIndexes. clash_fields. apply (f_equal2 orb); [apply same_string|].
    unfold index_clash, indexed, same_keys. cbn [Unique PartialFilterExpression Keys SetPartialFilterExpression SetUnique plain forallb fst snd].
    rewrite !andb_true_r, andb_true_l.
    change (field d "account_id") with (Some (VString (LobbyStore.pd_AccountID d))).
    change (field d' "account_id") with (Some (VString (LobbyStore.pd_AccountID d'))).
    change (field d "is_default") with (Some (VBool (LobbyStore.pd_IsDefault d))).
    change (field d' "is_default") with (Some (VBool (LobbyStore.pd_IsDefault d'))).
    rewrite same_string, !same_bool. destruct (LobbyStore.pd_IsDefault d), (LobbyStore.pd_IsDefault d'), (bool_decide _); done.
  - unfold assetIndexes. clash_fields. apply same_string.
  - unfold ledgerIndexes. clash_fields. apply same_string.
  - unfold snapshotIndexes. clash_fields. apply same_string.
  - unfold roomSnapshotIndexes. clash_fields. apply same_int.
Qed.

End Indexes.
