(* ===== verification/ServiceClients.v ===== *)
(** * Calls from one service to another

    [services/common/authentication_client.go] (gateway to user center),
    [services/gateway/lobby_player_resolver.go] (gateway to lobby),
    [services/lobby/components/usercenter_linker.go] (lobby to user center) and
    [services/battle/lobby_settlement_client.go] (battle to lobby). Each looks a stream
    client up, marshals a message, sends it and checks the answer. The world [W] holds
    everything the calls can reach; the stream clients are the type class below. *)

From S2P Require Import Prelude Proto Retry Breaker Streaming Lobby Auth.
From stdpp Require Import pretty.
Import Proto Retry.
Open Scope Z_scope.

Module ServiceClients.

(** [client()] of a service (whether a stream client is connected) and the client's
    [Request]; [now] is what [time.Now()] reads. *)
Class Services (W : Type) := {
  client : string -> W -> bool;
  Request : string -> InternalEnvelope -> prog W InternalEnvelope;
  now : W -> Z
}.

Definition ErrAuthenticationServiceUnavailable :=
  Sentinel "common.ErrAuthenticationServiceUnavailable" "authentication service is unavailable".

Definition CLIENT_LOGIN_AUTHENTICATE_REQUEST : Z := 1006.
Definition CLIENT_REFRESH_AUTHENTICATE_REQUEST : Z := 1007.
Definition LINK_PLAYER_REQUEST : Z := 1005.
Definition ENSURE_PLAYER_REQUEST : Z := 3001.
Definition SETTLEMENT_REQUEST : Z := 3002.

(** [&internalpb.InternalEnvelope{TargetService: .., MessageId: .., PlayerId: .., Payload: ..}] *)
Definition call (target messageID : Z) (playerID payload : string) : InternalEnvelope :=
  mkEnvelope 0 0 0 target messageID playerID 0 payload 0 "".

(** [fmt.Errorf("<what> %d: %s", response.ErrorCode, response.ErrorMessage)] *)
Definition answer_error (what : string) (response : InternalEnvelope) : error :=
  Text (what +:+ " " +:+ pretty (ErrorCode response) +:+ ": " +:+ ErrorMessage response).

(** ** What the gateway needs of the other services *)

(** [AuthenticationGrant] of [services/common]. *)
Record AuthenticationGrant := mkAuthGrant {
  AccountID : string;
  RefreshToken : string;
  RefreshTokenExpireAt : Z
}.

Class AuthenticationService (W : Type) := {
  AuthenticateLogin : string -> prog W AuthenticationGrant;
  RefreshLogin : string -> prog W AuthenticationGrant
}.
Class PlayerResolver (W : Type) := { EnsurePlayer : string -> prog W string }.

(** A grant names an account and a refresh token; a resolved player has an id. *)
Class AuthenticationLaws (W : Type) `{AuthenticationService W} := {
  login_complete p w g w' : AuthenticateLogin p w = (Ok g, w') -> AccountID g <> "" /\ RefreshToken g <> "";
  refresh_complete p w g w' : RefreshLogin p w = (Ok g, w') -> AccountID g <> "" /\ RefreshToken g <> ""
}.
Class PlayerLaws (W : Type) `{PlayerResolver W} := {
  player_named account w p w' : EnsurePlayer account w = (Ok p, w') -> p <> ""
}.

(** [gateway.RejectingAuthenticator] *)
Definition RejectingAuthenticator {W} : AuthenticationService W := {|
  AuthenticateLogin _ := throw (Text "authentication service is not configured");
  RefreshLogin _ := throw (Text "authentication service is not configured")
|}.

(** ** The gateway's client of the user center *)

Section authentication.
Context {W : Type} `{Services W}.
Context `{ProtoMessage Auth.ClientLoginAuthenticateRequest, ProtoMessage Auth.ClientRefreshAuthenticateRequest,
          ProtoMessage Auth.ClientLoginAuthenticateResponse, ProtoMessage Auth.ClientRefreshAuthenticateResponse}.
(** The context of the request ends while an attempt waits to be retried. *)
Context (ctx : Z -> option error).

(** [configured]: neither the receiver nor its function [client] is nil. *)
Record StreamingAuthenticationClient := mkAuthClient {
  configured : bool;
  retry : RetryPolicy;
  breaker : option Breaker.CircuitBreaker
}.

Definition NewStreamingAuthenticationClient : StreamingAuthenticationClient :=
  mkAuthClient true (mkPolicy 1 0 0 None false) None.
Definition SetReliability (a : StreamingAuthenticationClient) (r : RetryPolicy) (b : option Breaker.CircuitBreaker) :
    StreamingAuthenticationClient := mkAuthClient (configured a) r b.

(** The function that is retried; the variable [response] is part of its world. *)
Definition request_once (messageID : Z) (payload : string) (x : W * option InternalEnvelope) :
    option error * (W * option InternalEnvelope) :=
  let '(w, response) := x in
  if negb (client "usercenter" w) then (Some ErrAuthenticationServiceUnavailable, x)
  else match Request "usercenter" (call SERVICE_TYPE_USERCENTER messageID "" payload) w with
       | (Err e, w') => (Some (Wrapf "user center request" e), (w', None))
       | (Ok r, w') => (None, (w', Some r))
       end.

(** The errors that count as failures of the user center. *)
Definition unavailable (e : error) : bool :=
  errors_Is e ErrAuthenticationServiceUnavailable || errors_Is e Streaming.ErrConnectionClosed ||
  errors_Is e Streaming.ErrRequestTimeout.
Definition counts (e : option error) : bool := match e with Some e => unavailable e | None => false end.

Definition operation (a : StreamingAuthenticationClient) (messageID : Z) (payload : string)
    (x : W * option InternalEnvelope) : option error * (W * option InternalEnvelope) :=
  let '(e, x', _) := Do (request_once messageID payload) ctx (retry a) x in (e, x').

(** What is made of the outcome of the operation. *)
Definition judge (e : option error) (response : option InternalEnvelope) : res InternalEnvelope :=
  match e with
  | Some e => Err e
  | None =>
      match response with
      | None => Err (Sentinel "runtime" "invalid memory address or nil pointer dereference")
      | Some r =>
          if Kind r =? KIND_ERROR then Err (answer_error "user center error" r)
          else if negb (Kind r =? KIND_RESPONSE) then Err (Text "user center returned invalid response envelope")
          else Ok r
      end
  end.

Definition request (a : StreamingAuthenticationClient) (messageID : Z) (payload : string) (w : W) :
    res InternalEnvelope * StreamingAuthenticationClient * W :=
  if negb (configured a) then (Err (Text "user center client is not configured"), a, w)
  else
    let op := operation a messageID payload in
    let '(e, b, (w', response), _) :=
      Breaker.ExecuteClassified_nil (breaker a) op (Some counts) (now w) (now (op (w, None)).2.1) (w, None) in
    (judge e response, mkAuthClient (configured a) (retry a) b, w').

Definition authenticationGrantFromProto (grant : option Auth.AuthenticationGrant) : res AuthenticationGrant :=
  match grant with
  | Some g =>
      if bool_decide (Auth.a_AccountId g = "") || bool_decide (Auth.a_RefreshToken g = "")
      then Err (Text "authentication service returned incomplete grant")
      else Ok (mkAuthGrant (Auth.a_AccountId g) (Auth.a_RefreshToken g) (Auth.a_ExpireAtUnix g * Second))
  | None => Err (Text "authentication service returned incomplete grant")
  end.

(** The client is shared by all requests: it is part of the state. *)
Notation state := (StreamingAuthenticationClient * W)%type.

(** [AuthenticateLogin] and [RefreshLogin]: the same steps on different messages. *)
Definition authenticate {Q R} `{ProtoMessage Q, ProtoMessage R} (messageID : Z) (marshals unmarshals : string) (q : Q)
    (grant : R -> option Auth.AuthenticationGrant) : prog state AuthenticationGrant := fun s =>
  match Marshal q with
  | Err e => (Err (Wrapf marshals e), s)
  | Ok payload =>
      let '(r, a, w) := request s.1 messageID payload s.2 in
      match r with
      | Err e => (Err e, (a, w))
      | Ok response =>
          match Unmarshal (Payload response) with
          | Err e => (Err (Wrapf unmarshals e), (a, w))
          | Ok message => (authenticationGrantFromProto (grant message), (a, w))
          end
      end
  end.

#[export] Instance streaming_authentication : AuthenticationService state := {|
  AuthenticateLogin loginRequest :=
    authenticate CLIENT_LOGIN_AUTHENTICATE_REQUEST "marshal client login authentication request"
      "unmarshal client login authentication response" (Auth.mkClientLogin loginRequest) Auth.cl_Grant;
  RefreshLogin refreshLoginRequest :=
    authenticate CLIENT_REFRESH_AUTHENTICATE_REQUEST "marshal client refresh authentication request"
      "unmarshal client refresh authentication response" (Auth.mkClientRefresh refreshLoginRequest) Auth.cr_Grant
|}.

Lemma grant_complete o g : authenticationGrantFromProto o = Ok g -> AccountID g <> "" /\ RefreshToken g <> "".
Proof.
  unfold authenticationGrantFromProto. destruct o as [x|]; [|done]. destruct (_ || _) eqn:E; [done|].
  intros [= <-]. simpl. breflect. done.
Qed.

Lemma authenticate_complete {Q R} `{ProtoMessage Q, ProtoMessage R} mid m u (q : Q) (grant : R -> _) s g s' :
  authenticate mid m u q grant s = (Ok g, s') -> AccountID g <> "" /\ RefreshToken g <> "".
Proof.
  unfold authenticate. intros E. repeat case_match; simplify_eq. by eapply grant_complete.
Qed.

#[export] Instance streaming_authentication_laws : AuthenticationLaws state.
Proof. split; intros ????; apply authenticate_complete. Qed.

(** A run of the retry loop that ends well ends with the attempt that succeeded. *)
Lemma attempts_ok {X} (op : X -> option error * X) p n k err x x' log :
  (n <> 0%nat \/ err <> None) -> attempts op ctx p n k err x = (None, x', log) -> exists x0, op x0 = (None, x').
Proof.
  revert k err x log. induction n as [|n IH]; intros k err x log Hn; cbn [attempts].
  { intros [= -> _ _]. by destruct Hn. }
  destruct (op x) as [e x1] eqn:E. destruct e as [e|]; [|intros [= <- _]; eauto].
  destruct (negb _); [done|]. destruct (ctx k); [done|].
  destruct (attempts _ _ _ n _ _ x1) as [[e' x2] l] eqn:Ea. intros [= -> <- _].
  eapply IH; [|exact Ea]. by right.
Qed.

Lemma operation_ok a mid payload x x' : operation a mid payload x = (None, x') ->
  exists w r w', x' = (w', Some r) /\ Request "usercenter" (call SERVICE_TYPE_USERCENTER mid "" payload) w = (Ok r, w').
Proof.
  unfold operation, Do. destruct (attempts _ _ _ _ _ _ x) as [[e x1] log] eqn:E. intros [= -> <-].
  pose proof (normalize_max (retry a)). apply attempts_ok in E as ([w o] & E); [|left; lia].
  unfold request_once in E. destruct (negb _); [done|].
  destruct (Request _ _ w) as [[r|e] w'] eqn:Er; simplify_eq. eauto 10.
Qed.

(** Requests to the user center. A request succeeds only with an envelope of kind
    response that the user center answered to exactly this message. While the circuit
    breaker turns requests away nothing is sent. The breaker hears of a failure only when
    the user center could not be reached; whatever the user center answers, errors such as
    a wrong password included, leaves the breaker closed without recorded failures. *)
Theorem usercenter_request_spec a mid payload w r a' w' b :
  configured a = true -> breaker a = Some b ->
  request a mid payload w = (r, a', w') ->
  configured a' = configured a /\ retry a' = retry a /\
  (forall e, r = Ok e -> Kind e = KIND_RESPONSE /\
     exists w0, Request "usercenter" (call SERVICE_TYPE_USERCENTER mid "" payload) w0 = (Ok e, w')) /\
  exists b', breaker a' = Some b' /\
    ((r = Err Breaker.ErrCircuitOpen /\ w' = w /\ b' = b) \/
     (exists e, r = Err e /\ unavailable e = true) \/
     (Breaker.state b' = Breaker.CircuitStateClosed /\ Breaker.failures b' = 0)).
Proof.
  intros Hconf Hb. unfold request. rewrite Hconf, Hb. cbn [negb Breaker.ExecuteClassified_nil].
  set (op := operation a mid payload). unfold Breaker.ExecuteClassified.
  destruct (Breaker.allow b (now w)) as [[allowed b1] n1] eqn:Ea. destruct allowed; cbn [negb].
  - destruct (op (w, None)) as [e [w1 o]] eqn:Eop. cbn [fst snd].
    destruct (Breaker.complete b1 _ _) as [b2 n2] eqn:Ec. intros [= <- <- <-]. cbn [configured retry breaker].
    split_and!; [done|done| |].
    + intros env Hj. unfold judge in Hj. destruct e as [e|]; [done|].
      apply operation_ok in Eop as (w0 & r0 & w0' & [= -> ->] & Hreq).
      destruct (Kind r0 =? KIND_ERROR); [done|]. destruct (Kind r0 =? KIND_RESPONSE) eqn:Ek; [|done].
      injection Hj as <-. breflect. eauto.
    + exists b2. split; [done|]. right. destruct (counts e) eqn:Ecnt.
      * left. destruct e as [e|]; [|done]. by exists e.
      * right. simpl in Ec. destruct (decide _); injection Ec as <- _; done.
  - assert (b1 = b) as -> by (unfold Breaker.allow in Ea; repeat case_match; by simplify_eq).
    intros [= <- <- <-]. cbn [configured retry breaker judge]. split_and!; [done|done|done|].
    exists b. split; [done|]. by left.
Qed.

End authentication.

(** ** The other clients *)

Section clients.
Context {W : Type} `{Services W}.

(** A request and the envelope it is answered with, errors told apart. *)
Definition ask {Q} `{ProtoMessage Q} (service : string) (target messageID : Z) (playerID : string) (q : Q)
    (unavailable : string) (fails : error -> error) (what : string) : prog W InternalEnvelope := fun w =>
  if negb (client service w) then (Err (Text unavailable), w)
  else
    match Marshal q with
    | Err e => (Err e, w)
    | Ok payload =>
        match Request service (call target messageID playerID payload) w with
        | (Err e, w') => (Err (fails e), w')
        | (Ok response, w') =>
            if Kind response =? KIND_ERROR then (Err (answer_error what response), w') else (Ok response, w')
        end
    end.

Context `{ProtoMessage Lobby.EnsurePlayerRequest, ProtoMessage Lobby.EnsurePlayerResponse,
          ProtoMessage Auth.LinkPlayerRequest, ProtoMessage Lobby.SettlementRequest,
          ProtoMessage Lobby.SettlementResponse}.

(** [LobbyPlayerResolver.EnsurePlayer]; [configured] as above. *)
Definition resolve_player (configured : bool) (accountID : string) : prog W string := fun w =>
  if negb configured || bool_decide (accountID = "") then (Err (Text "lobby player resolver is not configured"), w)
  else
    match ask "lobby" SERVICE_TYPE_LOBBY ENSURE_PLAYER_REQUEST "" (Lobby.mkEnsureRequest accountID)
            "lobby service is unavailable" (Wrapf "ensure lobby player") "lobby player error" w with
    | (Err e, w') => (Err e, w')
    | (Ok response, w') =>
        match Unmarshal (A := Lobby.EnsurePlayerResponse) (Payload response) with
        | Err e => (Err e, w')
        | Ok result =>
            if negb (bool_decide (Lobby.rp_AccountId result = accountID)) || bool_decide (Lobby.rp_EPlayerId result = "")
            then (Err (Text "lobby returned invalid player"), w')
            else (Ok (Lobby.rp_EPlayerId result), w')
        end
    end.

#[export] Instance lobby_player_resolver : PlayerResolver W := {| EnsurePlayer := resolve_player true |}.

#[export] Instance lobby_player_laws : PlayerLaws W.
Proof.
  split. intros account w p w'. simpl. unfold resolve_player. intros E.
  repeat case_match; simplify_eq. by breflect.
Qed.

Definition LinkPlayer (configured : bool) (accountID playerID : string) : prog W unit := fun w =>
  if negb configured || bool_decide (accountID = "") || bool_decide (playerID = "")
  then (Err (Text "usercenter player linker is not configured"), w)
  else
    match ask "usercenter" SERVICE_TYPE_USERCENTER LINK_PLAYER_REQUEST "" (Auth.mkLinkRequest accountID playerID)
            "usercenter service is unavailable" id "usercenter link player error" w with
    | (Err e, w') => (Err e, w')
    | (Ok _, w') => (Ok tt, w')
    end.

Record Settlement := mkSettlement {
  ID : string;
  PlayerID : string;
  AssetType : string;
  Delta : Z;
  Reason : string
}.
Record SettlementResult := mkSettlementResult {
  Balance : Z;
  AssetVersion : Z;
  Replayed : bool
}.

Definition Submit (configured : bool) (settlement : Settlement) : prog W SettlementResult := fun w =>
  if negb configured || bool_decide (ID settlement = "") || bool_decide (PlayerID settlement = "") ||
     bool_decide (AssetType settlement = "") || (Delta settlement =? 0) || bool_decide (Reason settlement = "")
  then (Err (Text "invalid battle settlement"), w)
  else
    match ask "lobby" SERVICE_TYPE_LOBBY SETTLEMENT_REQUEST (PlayerID settlement)
            (Lobby.mkSettlementRequest (ID settlement) (PlayerID settlement) (AssetType settlement) (Delta settlement)
               (Reason settlement) "battle")
            "lobby service is unavailable" (Wrapf "submit lobby settlement") "lobby settlement error" w with
    | (Err e, w') => (Err e, w')
    | (Ok response, w') =>
        match Unmarshal (A := Lobby.SettlementResponse) (Payload response) with
        | Err e => (Err e, w')
        | Ok r => (Ok (mkSettlementResult (Lobby.rp_Balance r) (Lobby.rp_AssetVersion r) (Lobby.rp_Replayed r)), w')
        end
    end.

End clients.

(** ** Runs *)

Section runs.

(** A world of scripted answers; without one the service cannot be reached. *)
#[local] Instance scripted : Services (list (res InternalEnvelope)) := {|
  client _ w := match w with [] => false | _ => true end;
  Request _ _ w := match w with [] => (Err Streaming.ErrConnectionClosed, []) | r :: w' => (r, w') end;
  now _ := 0
|}.

Definition reply_envelope : InternalEnvelope := mkEnvelope KIND_RESPONSE 1 3 1 1106 "" 0 "grant" 0 "".
Definition wrong_password : InternalEnvelope := mkEnvelope KIND_ERROR 2 3 1 0 "" 0 "" 3 "invalid username or password".
Definition twice : RetryPolicy := mkPolicy 2 1 10 (Some unavailable) false.
Definition one_failure : Breaker.CircuitBreaker := Breaker.NewCircuitBreaker 1 1000 false.
Definition auth_client : StreamingAuthenticationClient :=
  SetReliability NewStreamingAuthenticationClient twice (Some one_failure).
Definition no_end : Z -> option error := fun _ => None.

(** A lost connection is retried and answered; then a wrong password leaves the breaker closed. *)
Lemma usercenter_request_spec_witness :
  let w := [Err Streaming.ErrConnectionClosed; Ok reply_envelope; Ok wrong_password] in
  (request no_end auth_client 1006 "login" w).1.1 = Ok reply_envelope /\ Kind reply_envelope = KIND_RESPONSE /\
  (request no_end auth_client 1006 "login" [Ok wrong_password]).1.1 =
    Err (Text "user center error 3: invalid username or password").
Proof.
  split; [vm_compute; reflexivity|]. split; [|vm_compute; reflexivity].
  refine (proj1 (proj1 (proj2 (proj2 (usercenter_request_spec no_end auth_client 1006 "login"
    [Err Streaming.ErrConnectionClosed; Ok reply_envelope] (Ok reply_envelope) auth_client [] one_failure
    _ _ _))) reply_envelope _)); [reflexivity|reflexivity|vm_compute; reflexivity|reflexivity].
Defined.

End runs.

End ServiceClients.
