(* ===== verification/ClientProto.v ===== *)
(** * Messages between clients and the gateway: [proto/src/client]

    As for the internal messages, a message is the record of its fields and the codec is
    the type class [Proto.ProtoMessage]. *)

From S2P Require Import Prelude Proto.
Open Scope Z_scope.

Module ClientProto.

Definition MessageLoginRequest : Z := 1.
Definition MessageResumeRequest : Z := 2.
Definition MessageRefreshLoginRequest : Z := 3.
Definition MessageLoginResponse : Z := 101.
Definition MessageResumeResponse : Z := 102.
Definition MessageRefreshLoginResponse : Z := 103.
Definition MessageStateRestoreEvent : Z := 104.
Definition MessageSessionPreemptedEvent : Z := 105.
Definition MessageGatewayDrainingEvent : Z := 106.
Definition MessageErrorResponse : Z := 900.

Record Envelope := mkClientEnvelope {
  e_MessageId : Z;
  e_RequestId : Z;
  e_SessionId : string;
  e_Payload : string
}.
Record LoginResponse := mkLoginResponse {
  l_AccountId : string;
  l_SessionId : string;
  l_ResumeToken : string;
  l_ConnectionEpoch : Z;
  l_RefreshToken : string;
  l_RefreshTokenExpireAtUnix : Z;
  l_PlayerId : string
}.
Record RefreshLoginResponse := mkRefreshLoginResponse {
  f_AccountId : string;
  f_SessionId : string;
  f_ResumeToken : string;
  f_ConnectionEpoch : Z;
  f_RefreshToken : string;
  f_RefreshTokenExpireAtUnix : Z;
  f_PlayerId : string
}.
Record ResumeRequest := mkResumeRequest {
  r_SessionId : string;
  r_ResumeToken : string;
  r_StateVersions : gmap string Z
}.
Record ResumeResponse := mkResumeResponse {
  s_AccountId : string;
  s_SessionId : string;
  s_ResumeToken : string;
  s_ConnectionEpoch : Z;
  s_PlayerId : string
}.
Record ErrorResponse := mkErrorResponse {
  x_Code : Z;
  x_Message : string;
  x_Retryable : bool;
  x_RetryAfterMillis : Z
}.
Record SessionPreemptedEvent := mkPreemptedEvent {
  p_SessionId : string;
  p_ConnectionEpoch : Z;
  p_Reason : string
}.
Record GatewayDrainingEvent := mkDrainingEvent { d_ReconnectAfterMillis : Z }.
Record StateRestoreEvent := mkStateRestoreEvent {
  t_Service : string;
  t_PlayerId : string;
  t_StateVersion : Z;
  t_Snapshot : string;
  t_Available : bool;
  t_Mode : Z;
  t_BaseStateVersion : Z;
  t_PayloadType : Z;
  t_SchemaVersion : Z
}.

#[export] Instance Envelope_eq_dec : EqDecision Envelope.
Proof. solve_decision. Defined.
#[export] Instance LoginResponse_eq_dec : EqDecision LoginResponse.
Proof. solve_decision. Defined.
#[export] Instance ErrorResponse_eq_dec : EqDecision ErrorResponse.
Proof. solve_decision. Defined.

End ClientProto.
