(* ===== verification/WebSocket.v ===== *)
(** * Client connections: [services/gateway/websocket.go]

    The objects of type [Connection] live in a heap and keep their place when they are
    removed from the table of connections; goroutines hold their place. A buffered channel
    is the list of what it holds. The write pump and the goroutine that closes a
    superseded connection are steps of their own. *)

From S2P Require Import Prelude Proto ClientProto Session TokenBucket.
Import Proto ClientProto.
Open Scope Z_scope.

Module WebSocket.

(** [make(chan []byte, 64)] *)
Definition send_buffer : nat := 64.

Record Connection := mkConn {
  cID : string;
  send : list string;
  closed : bool;
  sessionID : string;
  sessionEpoch : Z;
  rateLimiter : option TokenBucket.TokenBucket
}.

Definition set_send (c : Connection) (q : list string) : Connection :=
  mkConn (cID c) q (closed c) (sessionID c) (sessionEpoch c) (rateLimiter c).

Definition Send (payload : string) (c : Connection) : res unit * Connection :=
  if closed c then (Err (Text "connection closed"), c)
  else if (length (send c) <? send_buffer)%nat then (Ok tt, set_send c (send c ++ [payload]))
  else (Err (Text "connection send buffer full"), c).

Definition Close (c : Connection) : Connection :=
  mkConn (cID c) (send c) true (sessionID c) (sessionEpoch c) (rateLimiter c).

Definition BindSession (sid : string) (epochs : list Z) (c : Connection) : Connection :=
  mkConn (cID c) (send c) (closed c) sid (default (sessionEpoch c) (head epochs)) (rateLimiter c).

(** [hex.EncodeToString] *)
Definition hex_digit (d : Z) : Z := if d <? 10 then 48 + d else 87 + d.
Definition EncodeToString (bytes : list Z) : string :=
  bytes_string (bytes ≫= fun b => [hex_digit (b / 16); hex_digit (b mod 16)]).
Definition newConnectionID (read : res (list Z)) : res string :=
  match read with Err e => Err e | Ok bytes => Ok (EncodeToString bytes) end.

(** The table of connections, the number of active ones, and the connections that a
    goroutine started by [Preempt] will close. *)
Record Handler := mkHandler {
  heap : list Connection;
  connections : gmap string nat;
  activeConnections : Z;
  closing : list nat
}.

Definition set_heap (h : Handler) (l : list Connection) : Handler :=
  mkHandler l (connections h) (activeConnections h) (closing h).
Definition update (l : nat) (f : Connection -> Connection) (h : Handler) : Handler := set_heap h (alter f l (heap h)).
Definition send_to (l : nat) (payload : string) (h : Handler) : res unit * Handler :=
  match heap h !! l with
  | None => (Err (Text "nil connection"), h)
  | Some c => ((Send payload c).1, update l (fun c => (Send payload c).2) h)
  end.

(** [Handle] up to the pumps: the new connection is entered in the table. *)
Definition open_connection (burst : Z) (rate : TokenBucket.float64) (observer : bool) (now : Z) (id : res string)
    (h : Handler) : option nat * Handler :=
  let conn id := mkConn id [] false "" 0 (Some (TokenBucket.NewTokenBucket burst rate observer now)) in
  match id with
  | Err _ => (None, set_heap h (heap h ++ [Close (conn "")]))
  | Ok id =>
      let l := length (heap h) in
      (Some l, mkHandler (heap h ++ [conn id]) (<[id := l]> (connections h)) (activeConnections h + 1) (closing h))
  end.

(** [Handle] after the read pump returned, up to [disconnectSession]. *)
Definition close_connection (l : nat) (h : Handler) : Handler :=
  let h := update l Close h in
  mkHandler (heap h)
    (match heap h !! l with Some c => delete (cID c) (connections h) | None => connections h end)
    (activeConnections h - 1) (closing h).

Section handler.
Context `{!MapRange string nat}.
Context `{ProtoMessage Envelope, ProtoMessage GatewayDrainingEvent, ProtoMessage SessionPreemptedEvent}.
(** The bytes [proto.Marshal] returns along with an error, which one caller ignores. *)
Context (leftover : Envelope -> string).

Definition marshalGatewayEvent (messageID : Z) (sid payload : string) : string :=
  let e := mkClientEnvelope messageID 0 sid payload in
  match Marshal e with Ok data => data | Err _ => leftover e end.

(** [time.Duration.Milliseconds], converted to [uint64]. *)
Definition uint64_millis (d : Z) : Z := uint64 (Z.quot d Millisecond).

Definition draining_payload (c : Connection) (payload : string) : string :=
  marshalGatewayEvent MessageGatewayDrainingEvent (sessionID c) payload.

Definition NotifyDraining (reconnectAfter : Z) (h : Handler) : Handler :=
  match Marshal (mkDrainingEvent (uint64_millis reconnectAfter)) with
  | Err _ => h
  | Ok payload =>
      foldl (fun h (x : string * nat) => update x.2 (fun c => (Send (draining_payload c payload) c).2) h) h
        (range (connections h))
  end.

Definition supersedes (r : Session.Record) (c : Connection) : bool :=
  negb (negb (bool_decide (sessionID c = Session.SessionID r)) ||
        (negb (Session.ConnectionEpoch r =? 0) && negb (sessionEpoch c =? Session.ConnectionEpoch r))).

Definition preempted_event (r : Session.Record) : SessionPreemptedEvent :=
  mkPreemptedEvent (Session.SessionID r) (Session.ConnectionEpoch r) "connection was superseded by a newer login".

Definition Preempt (r : Session.Record) (h : Handler) : Handler :=
  match connections h !! Session.ConnectionID r with
  | None => h
  | Some l =>
      match heap h !! l with
      | None => h
      | Some c =>
          if negb (supersedes r c) then h
          else
            let h := match Marshal (preempted_event r) with
                     | Err _ => h
                     | Ok payload =>
                         (send_to l (marshalGatewayEvent MessageSessionPreemptedEvent (Session.SessionID r) payload) h).2
                     end in
            mkHandler (heap h) (connections h) (activeConnections h) (closing h ++ [l])
      end
  end.

(** The goroutine of [Preempt], when its timer fires. *)
Definition close_superseded (h : Handler) : Handler :=
  match closing h with
  | [] => h
  | l :: q => let h := update l Close h in mkHandler (heap h) (connections h) (activeConnections h) q
  end.

Definition CloseAll (h : Handler) : Handler :=
  foldl (fun h (x : string * nat) => update x.2 Close h) h (range (connections h)).

End handler.

(** ** The write pump

    One turn of its [select]: a message is taken and written, a ping is written, or the
    pump sees that the connection is done. [wire] is what the client was sent. *)

Record pump := mkPump { conn : Connection; wire : list string; running : bool }.

Inductive turn := Takes (written : bool) | Ping (written : bool) | SeesDone.

Definition writePump_turn (t : turn) (p : pump) : option pump :=
  if negb (running p) then None
  else match t with
  | Takes written =>
      match send (conn p) with
      | [] => None
      | x :: q =>
          let c := set_send (conn p) q in
          Some (if written then mkPump c (wire p ++ [x]) true else mkPump (Close c) (wire p) false)
      end
  | Ping written => Some (if written then p else mkPump (Close (conn p)) (wire p) false)
  | SeesDone => if closed (conn p) then Some (mkPump (conn p) (wire p) false) else None
  end.

(** The pump together with the goroutines that send on the connection, close it or bind a
    session; [acc] are the payloads [Send] accepted, in order. *)
Inductive conn_step : pump * list string -> pump * list string -> Prop :=
  | c_send p acc x :
      conn_step (p, acc)
        (mkPump (Send x (conn p)).2 (wire p) (running p), if is_ok (Send x (conn p)).1 then acc ++ [x] else acc)
  | c_turn p acc t p' : writePump_turn t p = Some p' -> conn_step (p, acc) (p', acc)
  | c_close p acc : conn_step (p, acc) (mkPump (Close (conn p)) (wire p) (running p), acc)
  | c_bind p acc sid epochs : conn_step (p, acc) (mkPump (BindSession sid epochs (conn p)) (wire p) (running p), acc).

(** Turns of the pump taken one after the other. *)
Fixpoint turns (ts : list turn) (p : pump) : option pump :=
  match ts with
  | [] => Some p
  | t :: ts => writePump_turn t p ≫= turns ts
  end.

Definition pump_ok (x : pump * list string) : Prop :=
  let '(p, acc) := x in
  (length (send (conn p)) <= send_buffer)%nat /\ wire p `prefix_of` acc /\
  (running p = false -> closed (conn p) = true) /\
  (running p = true -> acc = wire p ++ send (conn p)).

Lemma Send_cases x c : 
  (exists e, Send x c = (Err e, c)) \/
  (closed c = false /\ (length (send c) < send_buffer)%nat /\ Send x c = (Ok tt, set_send c (send c ++ [x]))).
Proof.
  unfold Send. destruct (closed c); [left; eauto|]. destruct (Nat.ltb_spec (length (send c)) send_buffer); eauto.
Qed.

Lemma conn_step_ok x y : conn_step x y -> pump_ok x -> pump_ok y.
Proof.
  intros Hs Hok. destruct Hs as [p acc x|p acc t p' Ht|p acc|p acc sid eps]; simpl in *;
    destruct Hok as (Hlen & Hpre & Hdead & Hrun).
  - destruct (Send_cases x (conn p)) as [[e ->]|(Hc & Hroom & ->)]; simpl; [done|]. split_and!.
    + rewrite length_app. simpl. lia.
    + by apply prefix_app_r.
    + intros Hr. specialize (Hdead Hr). congruence.
    + intros Hr. rewrite (Hrun Hr). by rewrite app_assoc.
  - unfold writePump_turn in Ht. destruct (running p) eqn:Er; [|done]. simpl in Ht. specialize (Hrun eq_refl).
    destruct t as [written|written|].
    + destruct (send (conn p)) as [|x q] eqn:Eq; [done|]. destruct written; injection Ht as <-; simpl in *.
      * split_and!; [lia|rewrite Hrun; exists q; by rewrite <- app_assoc|done|]. intros _. by rewrite Hrun, <- app_assoc.
      * split_and!; [lia|done|done|done].
    + destruct written; injection Ht as <-; simpl; rewrite ?Er; split_and!; done.
    + destruct (closed (conn p)) eqn:Ec; [|done]. injection Ht as <-. simpl. split_and!; done.
  - split_and!; done.
  - split_and!; done.
Qed.

Lemma drain_queue p : running p = true ->
  exists p', turns (replicate (length (send (conn p))) (Takes true)) p = Some p' /\
    wire p' = wire p ++ send (conn p) /\ send (conn p') = [] /\ running p' = true.
Proof.
  remember (send (conn p)) as q eqn:Eq. revert p Eq. induction q as [|x q IH]; intros p Eq Hr; simpl.
  { exists p. by rewrite app_nil_r. }
  unfold writePump_turn. rewrite Hr, <- Eq. simpl.
  destruct (IH (mkPump (set_send (conn p) q) (wire p ++ [x]) true) eq_refl eq_refl) as (p' & Ht & Hw & Hs & Hr').
  exists p'. split; [exact Ht|]. rewrite Hw. simpl. by rewrite <- app_assoc.
Qed.

(** C21 What the gateway accepts for a client is delivered in order. However senders, the
    write pump and the goroutines that close the connection interleave: at most 64 payloads
    wait; the client has been sent a prefix of the accepted payloads, each once; a pump
    that has stopped has closed the connection, so later sends are refused; and while the
    pump runs no accepted payload is lost: as many successful writes as payloads wait
    deliver all of them. *)
Theorem accepted_payloads_delivered c p acc :
  send c = [] -> rtc conn_step (mkPump c [] true, []) (p, acc) ->
  (length (send (conn p)) <= send_buffer)%nat /\ wire p `prefix_of` acc /\
  (running p = false -> closed (conn p) = true) /\
  (running p = true ->
     exists p', turns (replicate (length (send (conn p))) (Takes true)) p = Some p' /\
       wire p' = acc /\ send (conn p') = []).
Proof.
  intros Hc Hrun.
  assert (pump_ok (p, acc)) as (Hlen & Hpre & Hdead & Hq).
  { assert (pump_ok (mkPump c [] true, [])) as H0.
    { simpl. rewrite Hc. unfold send_buffer. split_and!; [simpl; lia|done|done|done]. }
    revert H0. induction Hrun; eauto using conn_step_ok. }
  split_and!; [done|done|done|]. intros Hr. destruct (drain_queue p Hr) as (p' & Ht & Hw & Hs & _).
  exists p'. split_and!; [done| |done]. by rewrite Hw, Hq.
Qed.

(** ** The table of connections *)

Lemma heap_update l f h k :
  heap (update l f h) !! k = if bool_decide (k = l) then f <$> heap h !! k else heap h !! k.
Proof.
  simpl. case_bool_decide as E; [subst; apply list_lookup_alter_eq|by apply list_lookup_alter_ne].
Qed.

(** The loops over the table update every connection in it, each once. *)
Lemma heap_foldl f (xs : list (string * nat)) h k : NoDup xs.*2 ->
  let h' := foldl (fun h (x : string * nat) => update x.2 f h) h xs in
  heap h' !! k = (if bool_decide (k ∈ xs.*2) then f <$> heap h !! k else heap h !! k) /\
  connections h' = connections h /\ activeConnections h' = activeConnections h /\ closing h' = closing h.
Proof.
  cbn zeta. revert h. induction xs as [|x xs IH]; intros h Hnd; [done|].
  cbn [foldl]. rewrite fmap_cons in *.
  apply NoDup_cons in Hnd as [Hni Hnd]. destruct (IH (update x.2 f h) Hnd) as (IHk & -> & -> & ->).
  split; [|done]. rewrite IHk, heap_update. destruct (decide (k = x.2)) as [->|Hne].
  - rewrite (bool_decide_false (x.2 ∈ xs.*2)), !bool_decide_true by (done || set_solver). done.
  - rewrite (bool_decide_false (k = x.2)) by done. repeat case_bool_decide; done || set_solver.
Qed.

(** [serving] are the connections whose [Handle] has not returned yet. *)
Inductive handler_step `{!MapRange string nat} `{ProtoMessage Envelope, ProtoMessage GatewayDrainingEvent,
    ProtoMessage SessionPreemptedEvent} (leftover : Envelope -> string) :
    Handler * list nat -> Handler * list nat -> Prop :=
  | h_open h L burst rate ob now id l h' :
      (forall c, c ∈ heap h -> cID c <> id) ->
      open_connection burst rate ob now (Ok id) h = (Some l, h') -> handler_step leftover (h, L) (h', l :: L)
  | h_refuse h L burst rate ob now e r h' :
      open_connection burst rate ob now (Err e) h = (r, h') -> handler_step leftover (h, L) (h', L)
  | h_close h L1 l L2 : handler_step leftover (h, L1 ++ l :: L2) (close_connection l h, L1 ++ L2)
  | h_send h L l x : handler_step leftover (h, L) ((send_to l x h).2, L)
  | h_bind h L l sid epochs : handler_step leftover (h, L) (update l (BindSession sid epochs) h, L)
  | h_take h L l : handler_step leftover (h, L) (update l (fun c => set_send c (tail (send c))) h, L)
  | h_preempt h L r : handler_step leftover (h, L) (Preempt leftover r h, L)
  | h_superseded h L : handler_step leftover (h, L) (close_superseded h, L)
  | h_notify h L d : handler_step leftover (h, L) (NotifyDraining leftover d h, L)
  | h_close_all h L : handler_step leftover (h, L) (CloseAll h, L).

Section table.
Context `{!MapRange string nat}.
Context `{ProtoMessage Envelope, ProtoMessage GatewayDrainingEvent, ProtoMessage SessionPreemptedEvent}.
Context (leftover : Envelope -> string).

Record handler_ok (x : Handler * list nat) : Prop := {
  ok_entry id l : connections x.1 !! id = Some l <-> l ∈ x.2 /\ exists c, heap x.1 !! l = Some c /\ cID c = id;
  ok_serving : NoDup x.2;
  ok_served l : l ∈ x.2 -> is_Some (heap x.1 !! l);
  ok_ids l l' c c' : l ∈ x.2 -> l' ∈ x.2 -> heap x.1 !! l = Some c -> heap x.1 !! l' = Some c' -> cID c = cID c' -> l = l';
  ok_active : activeConnections x.1 = Z.of_nat (length x.2);
  ok_buffers c : c ∈ heap x.1 -> (length (send c) <= send_buffer)%nat
}.

(** An update that keeps identifiers and buffer bounds. *)
Definition tame (f : Connection -> Connection) : Prop := forall c,
  cID (f c) = cID c /\ ((length (send c) <= send_buffer)%nat -> (length (send (f c)) <= send_buffer)%nat).

Lemma tame_Send g : tame (fun c => (Send (g c) c).2).
Proof.
  intros c. destruct (Send_cases (g c) c) as [[e ->]|(_ & Hr & ->)]; simpl; [done|].
  split; [done|]. intros _. rewrite length_app. simpl. lia.
Qed.
Lemma tame_Close : tame Close.
Proof. done. Qed.

(** The heap after updates: as many objects, each the same or updated by [f]. *)
Definition updated (f : Connection -> Connection) (h h' : Handler) : Prop :=
  connections h' = connections h /\ activeConnections h' = activeConnections h /\
  forall l, heap h' !! l = heap h !! l \/ heap h' !! l = f <$> heap h !! l.

Lemma updated_ok f h h' L : tame f -> updated f h h' -> handler_ok (h, L) -> handler_ok (h', L).
Proof.
  intros Hf (Hc & Ha & Hl) [He Hn Hs Hi Hac Hb]. simpl in *.
  assert (forall l c', heap h' !! l = Some c' -> exists c, heap h !! l = Some c /\ cID c' = cID c /\ (c' = c \/ c' = f c)) as Hback.
  { intros l c' E. destruct (Hl l) as [E'|E']; rewrite E' in E; [eauto|].
    apply fmap_Some in E as (c & E & ->). exists c. split_and!; [done|apply Hf|by right]. }
  assert (forall l c, heap h !! l = Some c -> exists c', heap h' !! l = Some c' /\ cID c' = cID c) as Hfwd.
  { intros l c E. destruct (Hl l) as [E'|E']; rewrite E in E'; [eauto|]. exists (f c). split; [done|apply Hf]. }
  split; simpl; try done.
  - intros id l. rewrite Hc, He. split; intros (Hin & c & E & Hid); (split; [done|]).
    + destruct (Hfwd l c E) as (c' & ? & ?). exists c'. split; [done|congruence].
    + destruct (Hback l c E) as (c' & ? & ? & _). exists c'. split; [done|congruence].
  - intros l Hin. destruct (Hs l Hin) as [c E]. destruct (Hfwd l c E) as (c' & ? & _). eauto.
  - intros l l' c c' Hin Hin' E1 E2 Hid. destruct (Hback l c E1) as (d & ? & ? & _), (Hback l' c' E2) as (d' & ? & ? & _).
    eapply Hi; [done|done|done|done|congruence].
  - congruence.
  - intros c' (l & E)%list_elem_of_lookup. destruct (Hback l c' E) as (c & Ec & _ & [->| ->]).
    + apply Hb. by eapply list_elem_of_lookup_2.
    + apply Hf, Hb. by eapply list_elem_of_lookup_2.
Qed.

Lemma updated_update f l h : updated f h (update l f h).
Proof. split_and!; [done|done|]. intros k. rewrite heap_update. case_bool_decide; [by right|by left]. Qed.

Lemma updated_foldl f xs h : NoDup xs.*2 -> updated f h (foldl (fun h (x : string * nat) => update x.2 f h) h xs).
Proof.
  intros Hnd. split_and!; [by eapply (heap_foldl f xs h 0)..|]. intros k.
  rewrite (proj1 (heap_foldl f xs h k Hnd)). case_bool_decide; [by right|by left].
Qed.

Lemma range_locations h L : handler_ok (h, L) -> NoDup (range (connections h)).*2.
Proof.
  intros Hok. pose proof (NoDup_range_fst (connections h)) as Hnd.
  assert (forall id l, (id, l) ∈ range (connections h) -> exists c, heap h !! l = Some c /\ cID c = id) as Hin.
  { intros id l. rewrite elem_of_range. intros E. by apply (ok_entry _ Hok) in E as [_ ?]. }
  induction (range (connections h)) as [|[id l] xs IH]; simpl in *; [constructor|].
  apply NoDup_cons in Hnd as [Hni Hnd]. apply NoDup_cons. split; [|apply IH; [done|]; intros; apply Hin; by right].
  intros ([id' l'] & El & Hx)%list_elem_of_fmap. simpl in El. subst l'. apply Hni. apply list_elem_of_fmap.
  exists (id', l). split; [|done]. simpl.
  destruct (Hin id l) as (c & E & <-); [by left|]. destruct (Hin id' l) as (c' & E' & <-); [by right|]. congruence.
Qed.

Lemma appended_ok h L c A : handler_ok (h, L) -> send c = [] ->
  handler_ok (mkHandler (heap h ++ [c]) (connections h) (activeConnections h) A, L).
Proof.
  intros [He Hn Hs Hi Hac Hb] Hc. simpl in *.
  assert (forall l, l ∈ L -> (heap h ++ [c]) !! l = heap h !! l) as Hl.
  { intros l Hin. destruct (Hs l Hin) as [d E]. rewrite E. by apply lookup_app_l_Some. }
  split; simpl; try done.
  - intros id l. rewrite He. split; intros [Hin Hx]; (split; [done|]); by rewrite Hl in *.
  - intros l Hin. rewrite Hl by done. by apply Hs.
  - intros l l' d d' Hin Hin'. rewrite !Hl by done. by apply Hi.
  - intros d [Hd| ->%list_elem_of_singleton]%elem_of_app; [by apply Hb|]. rewrite Hc. simpl. unfold send_buffer. lia.
Qed.

Lemma served_ok h L c A : handler_ok (mkHandler (heap h ++ [c]) (connections h) (activeConnections h) A, L) ->
  length (heap h) ∉ L -> (forall d, d ∈ heap h -> cID d <> cID c) ->
  handler_ok (mkHandler (heap h ++ [c]) (<[cID c := length (heap h)]> (connections h)) (activeConnections h + 1) A,
              length (heap h) :: L).
Proof.
  intros [He Hn Hs Hi Hac Hb] Hl Hfresh. simpl in *.
  assert ((heap h ++ [c]) !! length (heap h) = Some c) as Hc by (by rewrite lookup_app_r, Nat.sub_diag by done).
  assert (forall l d, l ∈ L -> (heap h ++ [c]) !! l = Some d -> cID d <> cID c) as Hne.
  { intros l d Hin E. apply Hfresh. assert (l <> length (heap h)) by congruence.
    apply lookup_app_Some in E as [E|[Hge E]]; [by eapply list_elem_of_lookup_2|].
    apply list_lookup_singleton_Some in E as [? _]. lia. }
  split; simpl; try done.
  - intros id l. rewrite elem_of_cons. destruct (decide (id = cID c)) as [->|Hid].
    + rewrite lookup_insert_eq. split; [intros [= <-]; eauto|]. intros [[->|Hin] (d & E & Hd)]; [done|].
      by destruct (Hne l d Hin E).
    + rewrite lookup_insert_ne, He by done. split; [intros [? ?]; auto|].
      intros [[->|Hin] (d & E & Hd)]; [congruence|eauto].
  - by apply NoDup_cons.
  - intros l [->|Hin]%elem_of_cons; [by rewrite Hc|by apply Hs].
  - intros l l' d d' [->|Hin]%elem_of_cons [->|Hin']%elem_of_cons E E' Hid; [done|..|by eapply Hi].
    + destruct (Hne l' d' Hin' E'). congruence.
    + destruct (Hne l d Hin E). congruence.
  - lia.
Qed.

Lemma removed_ok h L1 l L2 c : handler_ok (h, L1 ++ l :: L2) -> heap h !! l = Some c ->
  handler_ok (mkHandler (heap h) (delete (cID c) (connections h)) (activeConnections h - 1) (closing h), L1 ++ L2).
Proof.
  intros [He Hn Hs Hi Hac Hb] Hc. simpl in *.
  assert (forall k, k ∈ L1 ++ L2 <-> k ∈ L1 ++ l :: L2 /\ k <> l) as HL.
  { intros k. apply NoDup_app in Hn as (_ & H12 & [Hl2 _]%NoDup_cons).
    specialize (H12 l). set_solver. }
  assert (l ∈ L1 ++ l :: L2) as Hl by set_solver.
  split; simpl; try done.
  - intros id k. rewrite HL, lookup_delete_Some, He. split.
    + intros (Hid & Hin & d & E & Hd). split; [split; [done|]|eauto]. intros ->. congruence.
    + intros ([Hin Hne] & d & E & Hd). split; [|eauto]. intros <-. apply Hne. by eapply Hi.
  - apply NoDup_app in Hn as (? & H12 & [_ ?]%NoDup_cons). apply NoDup_app. split_and!; [done| |done].
    intros k Hk. specialize (H12 k Hk). set_solver.
  - intros k [Hin _]%HL. by apply Hs.
  - intros k k' d d' [Hin _]%HL [Hin' _]%HL. by apply Hi.
  - rewrite Hac, !length_app. simpl. lia.
Qed.

Lemma handler_step_ok x y : handler_step leftover x y -> handler_ok x -> handler_ok y.
Proof.
  intros Hs Hok. destruct Hs as [h L burst rate ob now id l h' Hfresh Ho|h L burst rate ob now e r h' Ho|h L1 l L2|h L l z|h L l sid eps|h L l|h L r|h L|h L d|h L].
  - injection Ho as <- <-. apply (served_ok h L (mkConn id [] false "" 0 _)); [by apply appended_ok| |done].
    intros Hin. destruct (ok_served _ Hok _ Hin) as [c E]. apply lookup_lt_Some in E. simpl in E. lia.
  - injection Ho as _ <-. by apply appended_ok.
  - assert (handler_ok (update l Close h, L1 ++ l :: L2)) as Hok'
      by (eapply updated_ok; [apply tame_Close|apply updated_update|done]).
    destruct (ok_served _ Hok' l) as [c E]; [set_solver|]. simpl fst in E.
    unfold close_connection. rewrite E. by apply (removed_ok (update l Close h) L1 l L2 c).
  - unfold send_to. destruct (heap h !! l); [|done]. simpl.
    eapply updated_ok; [apply (tame_Send (fun _ => z))|apply updated_update|done].
  - eapply updated_ok; [|apply updated_update|done]. done.
  - eapply updated_ok; [|apply updated_update|done]. intros c. simpl. split; [done|]. destruct (send c); simpl; lia.
  - unfold Preempt. destruct (connections h !! _) as [l|]; [|done]. destruct (heap h !! l) as [c|] eqn:El; [|done].
    destruct (negb (supersedes r c)); [done|].
    eapply (updated_ok (fun c => (Send (match Marshal (preempted_event r) with Ok payload =>
      marshalGatewayEvent leftover MessageSessionPreemptedEvent (Session.SessionID r) payload | Err _ => "" end) c).2));
      [apply tame_Send| |done].
    destruct (Marshal (preempted_event r)) as [payload|]; [|split_and!; auto].
    unfold send_to. rewrite El. simpl. apply (updated_update _ l h).
  - unfold close_superseded. destruct (closing h) as [|l q]; [done|].
    eapply (updated_ok Close); [apply tame_Close|apply (updated_update Close l h)|done].
  - unfold NotifyDraining. destruct (Marshal _) as [payload|]; [|done].
    eapply updated_ok; [apply (tame_Send (fun c => draining_payload leftover c payload))|apply updated_foldl|done].
    by eapply range_locations.
  - unfold CloseAll. eapply updated_ok; [apply tame_Close|apply updated_foldl|done]. by eapply range_locations.
Qed.


(** Preemption is precise: a preempt notice touches at most one connection, the one
    registered under the notice's connection id, and only if it is bound to the session
    the notice names, at the epoch it names (when it names one); that connection is queued
    for closing and, if it can be sent to, told so. A connection that has meanwhile been
    bound to another session or epoch is left alone. *)
Theorem preempt_is_precise r h :
  let h' := Preempt leftover r h in
  connections h' = connections h /\ activeConnections h' = activeConnections h /\
  ((h' = h /\ forall l c, connections h !! Session.ConnectionID r = Some l -> heap h !! l = Some c ->
      sessionID c <> Session.SessionID r \/ (Session.ConnectionEpoch r <> 0 /\ sessionEpoch c <> Session.ConnectionEpoch r)) \/
   exists l c, connections h !! Session.ConnectionID r = Some l /\ heap h !! l = Some c /\
     sessionID c = Session.SessionID r /\
     (Session.ConnectionEpoch r = 0 \/ sessionEpoch c = Session.ConnectionEpoch r) /\
     closing h' = closing h ++ [l] /\
     (forall k, k <> l -> heap h' !! k = heap h !! k) /\
     (forall payload, Marshal (preempted_event r) = Ok payload ->
        heap h' !! l = Some (Send (marshalGatewayEvent leftover MessageSessionPreemptedEvent (Session.SessionID r) payload) c).2)).
Proof.
  cbn zeta. unfold Preempt. destruct (connections h !! _) as [l|] eqn:El; [|split_and!; [done|done|by left]].
  destruct (heap h !! l) as [c|] eqn:Ec; [|split_and!; [done|done|left; split; [done|]; congruence]].
  destruct (supersedes r c) eqn:Es; cbn [negb].
  - assert (sessionID c = Session.SessionID r /\ (Session.ConnectionEpoch r = 0 \/ sessionEpoch c = Session.ConnectionEpoch r)) as [Hs He].
    { unfold supersedes in Es. apply negb_true_iff, orb_false_iff in Es as [E1 E2]. breflect. split; [done|].
      apply andb_false_iff in E2 as [E2|E2]; breflect; auto. }
    destruct (Marshal (preempted_event r)) as [payload|e] eqn:Em.
    + unfold send_to. rewrite Ec. cbn [snd update set_heap connections activeConnections closing heap].
      split_and!; [done|done|]. right. exists l, c. split_and!; [done|done|done|done|done| |].
      * intros k Hk. by apply list_lookup_alter_ne.
      * intros p' [= ->]. rewrite list_lookup_alter_eq, Ec. done.
    + split_and!; [done|done|]. right. exists l, c. split_and!; done.
  - split_and!; [done|done|]. left. split; [done|]. intros l' c' [= <-] E. rewrite Ec in E. injection E as <-.
    unfold supersedes in Es. apply negb_false_iff, orb_true_iff in Es as [E1|E2]; breflect; auto.
Qed.

End table.

(** ** Runs *)

Section runs.
#[local] Existing Instance canonical_range.
#[local] Instance envelope_codec : ProtoMessage Envelope := {|
  Marshal e := Ok (e_SessionId e +:+ "/" +:+ e_Payload e);
  Unmarshal _ := Err (Text "unused")
|}.
#[local] Instance draining_codec : ProtoMessage GatewayDrainingEvent := {|
  Marshal _ := Ok "draining";
  Unmarshal _ := Err (Text "unused")
|}.
#[local] Instance preempted_codec : ProtoMessage SessionPreemptedEvent := {|
  Marshal _ := Ok "preempted";
  Unmarshal _ := Err (Text "unused")
|}.
Definition none_left (_ : Envelope) : string := "".

Definition fresh_conn : Connection := mkConn "c1" [] false "" 0 None.
(** Two payloads accepted, one written. *)
Definition one_written : pump := mkPump (set_send fresh_conn ["b"]) ["a"] true.

Lemma one_written_reached : rtc conn_step (mkPump fresh_conn [] true, []) (one_written, ["a"; "b"]).
Proof.
  eapply rtc_l; [apply (c_send _ _ "a")|]. eapply rtc_l; [apply (c_send _ _ "b")|].
  apply rtc_once. apply (c_turn _ _ (Takes true)). reflexivity.
Qed.

Lemma accepted_payloads_delivered_witness :
  wire one_written `prefix_of` ["a"; "b"] /\
  exists p', turns (replicate 1 (Takes true)) one_written = Some p' /\ wire p' = ["a"; "b"] /\ send (conn p') = [].
Proof.
  pose proof (accepted_payloads_delivered fresh_conn one_written ["a"; "b"] eq_refl one_written_reached) as (_ & Hp & _ & Hd).
  split; [exact Hp|]. exact (Hd eq_refl).
Defined.

Definition one_open : Handler :=
  (open_connection 3 (TokenBucket.f_of_Z 10) false 0 (Ok "c1") (mkHandler [] ∅ 0 [])).2.


End runs.

End WebSocket.
