(* ===== verification/Gateway.v ===== *)
(** * The gateway: [dispatcher.go], [error_mapper.go], [module.go] and the pumps of
    [websocket.go]

    The state holds the connections, the session manager with its store, and the services
    the gateway calls. A message of a client is dispatched in one go; the interleavings of
    the session operations of several gateways on one store are those of [SessionManager].
    What the session manager asks for (preempt notices, lifecycle events, expiry timers) is
    carried out as the module wires it. *)

From S2P Require Import Prelude Breaker Proto ClientProto Streaming Session SessionManager ServiceClients TokenBucket WebSocket.
Import Proto ClientProto Session SessionManager.
Open Scope Z_scope.

Module Gateway.

(** ** Errors a client may see *)

Definition ErrorInvalidEnvelope : Z := 1.
Definition ErrorAuthentication : Z := 2.
Definition ErrorResume : Z := 3.
Definition ErrorUnsupported : Z := 4.
Definition ErrorRefresh : Z := 5.
Definition ErrorPlayer : Z := 6.
Definition ErrorService : Z := 7.
Definition ErrorRateLimited : Z := 8.
Definition ErrorDraining : Z := 9.
Definition ErrorInternal : Z := 10.

Record PublicError := mkPublicError {
  Code : Z;
  EMessage : string;
  Retryable : bool;
  RetryAfter : Z
}.

Definition Response (e : PublicError) : ErrorResponse :=
  mkErrorResponse (Code e) (EMessage e) (Retryable e) (WebSocket.uint64_millis (RetryAfter e)).

(** The metrics of the mapper are not modelled. *)
Record ErrorMapper := mkMapper { serviceRetryAfter : Z }.
Definition NewErrorMapper : ErrorMapper := mkMapper Second.

Definition Known (m : ErrorMapper) (code : Z) (message : string) : PublicError :=
  if code =? ErrorService then mkPublicError code message true (serviceRetryAfter m)
  else if code =? ErrorRateLimited then mkPublicError code message true 0
  else mkPublicError code message false 0.

Definition Map (m : ErrorMapper) (err : error) (fallback : Z) (fallbackMessage : string) : PublicError :=
  if errors_Is err ServiceClients.ErrAuthenticationServiceUnavailable || errors_Is err Streaming.ErrConnectionClosed ||
     errors_Is err Streaming.ErrRequestTimeout || errors_Is err DeadlineExceeded
  then Known m ErrorService "required service is temporarily unavailable"
  else if errors_Is err ErrNotFound || errors_Is err ErrInvalidToken || errors_Is err ErrSessionExpiry ||
          errors_Is err ErrSessionConflict
  then Known m ErrorResume "session is invalid or expired"
  else if fallback =? ErrorInternal then Known m ErrorInternal "internal server error"
  else Known m fallback fallbackMessage.

Definition classifyUserCenterError (err : error) : string :=
  if errors_Is err ServiceClients.ErrAuthenticationServiceUnavailable then "service_unavailable"
  else if errors_Is err Streaming.ErrConnectionClosed then "connection_closed"
  else if errors_Is err Streaming.ErrRequestTimeout then "request_timeout"
  else if errors_Is err Canceled then "context_canceled"
  else if errors_Is err DeadlineExceeded then "context_deadline_exceeded"
  else "error".

(** ** The state *)

Record preemptEvent := mkPreemptEvent {
  v_ConnectionID : string;
  v_SessionID : string;
  v_AccountID : string;
  v_ConnectionEpoch : Z;
  v_GatewayInstanceID : string
}.

(** A call of [restoreState] that a goroutine will make. *)
Record restore_task := mkRestore {
  k_conn : nat;
  k_PlayerID : string;
  k_SessionID : string;
  k_StateVersions : gmap string Z
}.

Record Gateway (S W : Type) := mkGateway {
  handler : WebSocket.Handler;
  manager : Manager;
  sessions : S;
  services : W;
  restores : list restore_task;
  timers : list (Record * Z);
  published : list preemptEvent;
  announced : list LifecycleEvent;
  ready : bool;
  draining : bool
}.
Arguments mkGateway {S W}.
Arguments handler {S W}.
Arguments manager {S W}.
Arguments sessions {S W}.
Arguments services {S W}.
Arguments restores {S W}.
Arguments timers {S W}.
Arguments published {S W}.
Arguments announced {S W}.
Arguments ready {S W}.
Arguments draining {S W}.

(** What is read from the clock and the random source while a message is handled:
    [d.now()], the clock of the store, the new session id and the new resume token. *)
Record readings := mkReadings {
  r_now : Z;
  r_clock : Z;
  r_sid : res string;
  r_token : res string
}.

(** The dispatcher's optional parts: [players] and [restore] may be nil. *)
Record Dispatcher := mkDispatcher {
  has_players : bool;
  has_restore : bool;
  d_errors : ErrorMapper
}.

Definition NewDispatcher (players : bool) : Dispatcher := mkDispatcher players false NewErrorMapper.
Definition SetRestoreHandler (d : Dispatcher) (handler : bool) : Dispatcher := mkDispatcher (has_players d) handler (d_errors d).
Definition SetErrorMapper (d : Dispatcher) (mapper : option ErrorMapper) : Dispatcher :=
  match mapper with Some m => mkDispatcher (has_players d) (has_restore d) m | None => d end.

Section gateway.
Context {S W : Type} (st : Store S) (hash : string -> string).
Context `{!MapRange string string, !MapRange string nat}.
Context `{ServiceClients.AuthenticationService W, ServiceClients.PlayerResolver W, ServiceClients.Services W}.
Context `{ProtoMessage Envelope, ProtoMessage LoginResponse, ProtoMessage RefreshLoginResponse,
          ProtoMessage ResumeRequest, ProtoMessage ResumeResponse, ProtoMessage ErrorResponse,
          ProtoMessage SessionPreemptedEvent, ProtoMessage GatewayDrainingEvent, ProtoMessage StateRestoreEvent,
          ProtoMessage RestorePlayerStateRequest, ProtoMessage RestorePlayerStateResponse}.
Context (leftover : Envelope -> string).

Notation gw := (Gateway S W).

Definition set_handler (g : gw) (h : WebSocket.Handler) : gw :=
  mkGateway h (manager g) (sessions g) (services g) (restores g) (timers g) (published g) (announced g) (ready g) (draining g).
Definition set_services (g : gw) (w : W) : gw :=
  mkGateway (handler g) (manager g) (sessions g) w (restores g) (timers g) (published g) (announced g) (ready g) (draining g).
Definition set_sessions (g : gw) (m : Manager) (s : S) : gw :=
  mkGateway (handler g) m s (services g) (restores g) (timers g) (published g) (announced g) (ready g) (draining g).
Definition set_flags (g : gw) (r d : bool) : gw :=
  mkGateway (handler g) (manager g) (sessions g) (services g) (restores g) (timers g) (published g) (announced g) r d.

Definition preempt_event (r : Record) : preemptEvent :=
  mkPreemptEvent (ConnectionID r) (SessionID r) (AccountID r) (ConnectionEpoch r) (GatewayInstanceID r).

(** The handlers that [NewModule] sets on the session manager. *)
Definition perform (g : gw) (o : output) : gw :=
  match o with
  | SessionManager.Preempt r =>
      let g := set_handler g (WebSocket.Preempt leftover r (handler g)) in
      mkGateway (handler g) (manager g) (sessions g) (services g) (restores g) (timers g)
        (published g ++ [preempt_event r]) (announced g) (ready g) (draining g)
  | Lifecycle e =>
      mkGateway (handler g) (manager g) (sessions g) (services g) (restores g) (timers g) (published g)
        (announced g ++ [e]) (ready g) (draining g)
  | Expiry r at_ =>
      mkGateway (handler g) (manager g) (sessions g) (services g) (restores g) (timers g ++ [(r, at_)]) (published g)
        (announced g) (ready g) (draining g)
  end.

Definition connection_id (l : nat) (g : gw) : string :=
  default "" (WebSocket.cID <$> WebSocket.heap (handler g) !! l).

Definition Send (l : nat) (payload : string) : prog gw unit := fun g =>
  let '(r, h) := WebSocket.send_to l payload (handler g) in (r, set_handler g h).

Definition Bind (l : nat) (r : Record) (g : gw) : gw :=
  set_handler g (WebSocket.update l (WebSocket.BindSession (SessionID r) [ConnectionEpoch r]) (handler g)).

(** ** Dispatching the messages of a client *)

Definition send {M} `{ProtoMessage M} (l : nat) (messageID requestID : Z) (sid : string) (message : M) : prog gw unit :=
  fun g =>
  match Marshal message with
  | Err e => (Err e, g)
  | Ok payload =>
      match Marshal (mkClientEnvelope messageID requestID sid payload) with
      | Err e => (Err e, g)
      | Ok envelope => Send l envelope g
      end
  end.

Definition sendPublicError (l : nat) (requestID : Z) (e : PublicError) : prog gw unit :=
  send l MessageErrorResponse requestID "" (Response e).
Definition sendKnownError (d : Dispatcher) (l : nat) (requestID code : Z) (message : string) : prog gw unit :=
  sendPublicError l requestID (Known (d_errors d) code message).
Definition sendMappedError (d : Dispatcher) (l : nat) (requestID : Z) (err : error) (fallback : Z) (message : string) :
    prog gw unit := sendPublicError l requestID (Map (d_errors d) err fallback message).

Definition ensurePlayer (d : Dispatcher) (accountID : string) : prog gw string := fun g =>
  if negb (has_players d) then (Err (Text "lobby player resolver is not configured"), g)
  else let '(r, w) := ServiceClients.EnsurePlayer accountID (services g) in (r, set_services g w).

(** [if d.restore != nil { go d.restore(..) }] *)
Definition start_restore (d : Dispatcher) (l : nat) (r : Record) (versions : gmap string Z) (g : gw) : gw :=
  if has_restore d then
    mkGateway (handler g) (manager g) (sessions g) (services g)
      (restores g ++ [mkRestore l (PlayerID r) (SessionID r) versions]) (timers g) (published g) (announced g)
      (ready g) (draining g)
  else g.

(** [login] and [refreshLogin] after the authentication: [reply] builds the response. *)
Definition open_session {M} `{ProtoMessage M} (d : Dispatcher) (l : nat) (requestID : Z)
    (authentication : ServiceClients.AuthenticationGrant) (messageID : Z) (reply : Created -> M) (rd : readings) :
    prog gw unit := fun g =>
  match ensurePlayer d (ServiceClients.AccountID authentication) g with
  | (Err e, g) => sendMappedError d l requestID e ErrorPlayer "player initialization failed" g
  | (Ok playerID, g) =>
      let '(r, m, out, s) :=
        SessionManager.Create hash st (manager g) (ServiceClients.AccountID authentication) (connection_id l g)
          (r_now rd) [playerID] (r_sid rd) (r_token rd) (r_clock rd) (sessions g) in
      let g := foldl perform (set_sessions g m s) out in
      match r with
      | Err e => sendMappedError d l requestID e ErrorInternal "create session failed" g
      | Ok created =>
          let g := start_restore d l (CRecord created) ∅ (Bind l (CRecord created) g) in
          send l messageID requestID (SessionID (CRecord created)) (reply created) g
      end
  end.

Definition login_response (a : ServiceClients.AuthenticationGrant) (c : Created) : LoginResponse :=
  mkLoginResponse (AccountID (CRecord c)) (SessionID (CRecord c)) (ResumeToken c) (ConnectionEpoch (CRecord c))
    (ServiceClients.RefreshToken a) (time_Unix (ServiceClients.RefreshTokenExpireAt a)) (PlayerID (CRecord c)).
Definition refresh_response (a : ServiceClients.AuthenticationGrant) (c : Created) : RefreshLoginResponse :=
  mkRefreshLoginResponse (AccountID (CRecord c)) (SessionID (CRecord c)) (ResumeToken c) (ConnectionEpoch (CRecord c))
    (ServiceClients.RefreshToken a) (time_Unix (ServiceClients.RefreshTokenExpireAt a)) (PlayerID (CRecord c)).
Definition resume_response (c : Created) : ResumeResponse :=
  mkResumeResponse (AccountID (CRecord c)) (SessionID (CRecord c)) (ResumeToken c) (ConnectionEpoch (CRecord c))
    (PlayerID (CRecord c)).

Definition login (d : Dispatcher) (l : nat) (e : Envelope) (rd : readings) : prog gw unit := fun g =>
  match ServiceClients.AuthenticateLogin (e_Payload e) (services g) with
  | (Err err, w) =>
      sendMappedError d l (e_RequestId e) err ErrorAuthentication "authentication failed" (set_services g w)
  | (Ok a, w) =>
      open_session d l (e_RequestId e) a MessageLoginResponse (login_response a) rd (set_services g w)
  end.

Definition refreshLogin (d : Dispatcher) (l : nat) (e : Envelope) (rd : readings) : prog gw unit := fun g =>
  match ServiceClients.RefreshLogin (e_Payload e) (services g) with
  | (Err err, w) =>
      sendMappedError d l (e_RequestId e) err ErrorRefresh "refresh authentication failed" (set_services g w)
  | (Ok a, w) =>
      open_session d l (e_RequestId e) a MessageRefreshLoginResponse (refresh_response a) rd (set_services g w)
  end.

Definition resume (d : Dispatcher) (l : nat) (e : Envelope) (rd : readings) : prog gw unit := fun g =>
  match Unmarshal (A := ResumeRequest) (e_Payload e) with
  | Err _ => sendKnownError d l (e_RequestId e) ErrorInvalidEnvelope "invalid resume request" g
  | Ok request =>
      if bool_decide (r_SessionId request = "") || bool_decide (r_ResumeToken request = "")
      then sendKnownError d l (e_RequestId e) ErrorInvalidEnvelope "session credentials are required" g
      else
        let '(r, m, out, s) :=
          SessionManager.Resume hash st (manager g) (r_SessionId request) (r_ResumeToken request) (connection_id l g)
            (r_now rd) (r_token rd) (r_clock rd) (sessions g) in
        let g := foldl perform (set_sessions g m s) out in
        match r with
        | Err err => sendMappedError d l (e_RequestId e) err ErrorResume "session resume failed" g
        | Ok created =>
            let g := start_restore d l (CRecord created) (r_StateVersions request) (Bind l (CRecord created) g) in
            send l MessageResumeResponse (e_RequestId e) (SessionID (CRecord created)) (resume_response created) g
        end
  end.

Definition Dispatch (d : Dispatcher) (l : nat) (data : string) (rd : readings) : prog gw unit := fun g =>
  match Unmarshal (A := Envelope) data with
  | Err _ => sendKnownError d l 0 ErrorInvalidEnvelope "invalid envelope" g
  | Ok e =>
      if e_MessageId e =? 0 then sendKnownError d l 0 ErrorInvalidEnvelope "message id is required" g
      else if e_MessageId e =? MessageLoginRequest then login d l e rd g
      else if e_MessageId e =? MessageResumeRequest then resume d l e rd g
      else if e_MessageId e =? MessageRefreshLoginRequest then refreshLogin d l e rd g
      else sendKnownError d l (e_RequestId e) ErrorUnsupported "unsupported message" g
  end.

(** ** The life of a connection *)

(** The conversion of a float outside the range of [int64]. *)
Context (out_of_range : TokenBucket.float64 -> Z).
(** [time.Duration(float64(time.Second) / h.rateLimitRate)] *)
Definition retry_after (rate : TokenBucket.float64) : Z :=
  TokenBucket.int64_of_float out_of_range (SFdiv 53 1024 (TokenBucket.f_of_Z Second) rate).

Definition withRequestID (requestID : Z) (payload : string) : string :=
  match Marshal (mkClientEnvelope MessageErrorResponse requestID "" payload) with
  | Err _ => ""
  | Ok data => data
  end.

Definition sendRateLimited (m : ErrorMapper) (rate : TokenBucket.float64) (l : nat) (payload : string) (g : gw) : gw :=
  let requestID := match Unmarshal (A := Envelope) payload with Ok e => e_RequestId e | Err _ => 0 end in
  let known := Known m ErrorRateLimited "request rate limit exceeded" in
  let e := mkPublicError (Code known) (EMessage known) (Retryable known) (retry_after rate) in
  match Marshal (Response e) with
  | Err _ => g
  | Ok data => (Send l (withRequestID requestID data) g).2
  end.

(** A frame of the client: its type, its payload, and what is read while it is handled. *)
Record frame := mkFrame {
  f_binary : bool;
  f_payload : string;
  f_at : Z;
  f_readings : readings
}.

(** The limits of the handler and its (possibly nil) dispatcher. *)
Record limits := mkLimits {
  rateLimitBurst : Z;
  rateLimitRate : TokenBucket.float64;
  rateLimitObserver : bool;
  errorMapper : ErrorMapper;
  dispatch : option Dispatcher
}.

Definition NewHandler (dispatch : option Dispatcher) : limits :=
  mkLimits 30 (TokenBucket.f_of_Z 10) false NewErrorMapper dispatch.
Definition SetRateLimit (h : limits) (burst : Z) (perSecond : TokenBucket.float64) : limits :=
  mkLimits burst perSecond (rateLimitObserver h) (errorMapper h) (dispatch h).
Definition SetRateLimitObserver (h : limits) (observer : bool) : limits :=
  mkLimits (rateLimitBurst h) (rateLimitRate h) observer (errorMapper h) (dispatch h).
Definition Handler_SetErrorMapper (h : limits) (mapper : option ErrorMapper) : limits :=
  match mapper with
  | Some m => mkLimits (rateLimitBurst h) (rateLimitRate h) (rateLimitObserver h) m (dispatch h)
  | None => h
  end.

(** The dispatcher and the handler of [NewModule]. *)
Definition module_dispatcher : Dispatcher :=
  SetErrorMapper (SetRestoreHandler (NewDispatcher true) true) (Some NewErrorMapper).
Definition module_handler (burst : Z) (perSecond : TokenBucket.float64) : limits :=
  Handler_SetErrorMapper (SetRateLimitObserver (SetRateLimit (NewHandler (Some module_dispatcher)) burst perSecond) true)
    (Some NewErrorMapper).

(** [conn.rateLimiter.Allow()] *)
Definition allow (l : nat) (now : Z) (g : gw) : bool * gw :=
  match WebSocket.heap (handler g) !! l with
  | None => (true, g)
  | Some c =>
      let '(allowed, b, _) := TokenBucket.Allow (WebSocket.rateLimiter c) now in
      (allowed, set_handler g (WebSocket.update l
         (fun c => WebSocket.mkConn (WebSocket.cID c) (WebSocket.send c) (WebSocket.closed c) (WebSocket.sessionID c)
                     (WebSocket.sessionEpoch c) b) (handler g)))
  end.

(** The frames that arrive until reading fails. *)
Fixpoint readPump (h : limits) (l : nat) (frames : list frame) (g : gw) : gw :=
  match frames with
  | [] => g
  | f :: frames =>
      if negb (f_binary f) then g
      else
        let '(allowed, g) := allow l (f_at f) g in
        if negb allowed then readPump h l frames (sendRateLimited (errorMapper h) (rateLimitRate h) l (f_payload f) g)
        else match dispatch h with
             | None => readPump h l frames g
             | Some d =>
                 match Dispatch d l (f_payload f) (f_readings f) g with
                 | (Err _, g) => g
                 | (Ok _, g) => readPump h l frames g
                 end
             end
  end.

(** [disconnectSession]; the handler of a gateway always has a session manager. *)
Definition disconnectSession (l : nat) (now clock : Z) (g : gw) : gw :=
  match WebSocket.heap (handler g) !! l with
  | None => g
  | Some c =>
      if bool_decide (WebSocket.sessionID c = "") then g
      else
        let '(_, m, out, s) :=
          DisconnectConnection st (manager g) (WebSocket.sessionID c) (WebSocket.cID c) now [WebSocket.sessionEpoch c]
            clock (sessions g) in
        foldl perform (set_sessions g m s) out
  end.

Definition IsReady (g : gw) : bool := ready g && negb (draining g).

(** [Handle]: [upgraded] tells whether the upgrade succeeded, [now] and [clock] are read
    when the connection ends. *)
Definition Handle (h : limits) (upgraded : bool) (opened : Z) (id : res (list Z)) (frames : list frame) (now clock : Z)
    (g : gw) : gw :=
  if negb (IsReady g) || negb upgraded then g
  else
    match WebSocket.open_connection (rateLimitBurst h) (rateLimitRate h) (rateLimitObserver h) opened
            (WebSocket.newConnectionID id) (handler g) with
    | (None, h') => set_handler g h'
    | (Some l, h') =>
        let g := readPump h l frames (set_handler g h') in
        disconnectSession l now clock (set_handler g (WebSocket.close_connection l (handler g)))
    end.

(** ** Restoring the state of a player after login *)

Definition restore_targets : list (string * Z) := [("lobby", SERVICE_TYPE_LOBBY); ("battle", SERVICE_TYPE_BATTLE)].

Definition restore_event (name : string) (state : RestorePlayerStateResponse) : StateRestoreEvent :=
  mkStateRestoreEvent name (rp_PlayerId state) (rp_StateVersion state) (rp_Snapshot state) (rp_Available state)
    (rp_Mode state) (rp_BaseStateVersion state) (rp_PayloadType state) (rp_SchemaVersion state).

Definition restore_from (k : restore_task) (g : gw) (target : string * Z) : gw :=
  let '(name, service) := target in
  if negb (ServiceClients.client name (services g)) then g
  else
    match Marshal (mkRestoreRequest (k_PlayerID k) (k_SessionID k) (default 0 (k_StateVersions k !! name))
                     (bool_decide (name = "battle"))) with
    | Err _ => g
    | Ok payload =>
        let '(r, w) := ServiceClients.Request name
          (ServiceClients.call service RESTORE_PLAYER_STATE_REQUEST (k_PlayerID k) payload) (services g) in
        let g := set_services g w in
        match r with
        | Err _ => g
        | Ok response =>
            if negb (Kind response =? KIND_RESPONSE) then g
            else match Unmarshal (A := RestorePlayerStateResponse) (Payload response) with
                 | Err _ => g
                 | Ok state =>
                     match Marshal (restore_event name state) with
                     | Err _ => g
                     | Ok event =>
                         (Send (k_conn k)
                            (WebSocket.marshalGatewayEvent leftover MessageStateRestoreEvent (k_SessionID k) event) g).2
                     end
                 end
        end
    end.

Definition restoreState (k : restore_task) (g : gw) : gw :=
  if bool_decide (k_PlayerID k = "") then g else foldl (restore_from k) g restore_targets.

(** ** The module *)

(** [Start] once the module it embeds has started. *)
Definition Start (g : gw) : gw := set_flags g true (draining g).
(** The goroutine of [Start] when its context ends, and [Stop] up to the embedded module. *)
Definition Stop (g : gw) : gw := set_flags g false (draining g).
Definition BeginDrain (g : gw) : gw := if draining g then g else set_flags g false true.

(** [Drain] before and after it waited. *)
Definition Drain_notify (drainTimeout : Z) (g : gw) : gw :=
  set_handler g (WebSocket.NotifyDraining leftover drainTimeout (handler g)).
Definition Drain_close (g : gw) : gw := set_handler g (WebSocket.CloseAll (handler g)).
(** [ctx] is the context's error if it ended before the timer. *)
Definition Drain (drainTimeout : Z) (ctx : option error) (meanwhile : gw -> gw) (g : gw) : option error * gw :=
  if negb (draining g) then (None, g)
  else (ctx, Drain_close (meanwhile (Drain_notify drainTimeout g))).

(** One message of the preempt channel. *)
Definition watchPreempt_message (event : res preemptEvent) (g : gw) : gw :=
  match event with
  | Err _ => g
  | Ok v =>
      set_handler g (WebSocket.Preempt leftover
        (mkRecord (v_SessionID v) (v_AccountID v) "" "" (v_ConnectionID v) (v_ConnectionEpoch v) StateAuthenticated ""
           zero_time) (handler g))
  end.

(** ** Answers

    A message that can always be encoded. *)
Definition encodes {M} `{ProtoMessage M} (m : M) : Prop := is_ok (Marshal m) = true.

(** Every connection is in the table under its own id, if at all. *)
Definition entries_ok (h : WebSocket.Handler) : Prop := forall id k c,
  WebSocket.connections h !! id = Some k -> WebSocket.heap h !! k = Some c -> WebSocket.cID c = id.

Lemma preempt_elsewhere r h l c : entries_ok h -> WebSocket.heap h !! l = Some c -> ConnectionID r <> WebSocket.cID c ->
  WebSocket.heap (WebSocket.Preempt leftover r h) !! l = Some c /\ entries_ok (WebSocket.Preempt leftover r h).
Proof.
  intros He Hc Hne. unfold WebSocket.Preempt. destruct (WebSocket.connections h !! _) as [k|] eqn:Ek; [|done].
  destruct (WebSocket.heap h !! k) as [d|] eqn:Ed; [|done]. destruct (negb _); [done|].
  pose proof (He _ _ _ Ek Ed) as Hid. assert (l <> k) as Hlk by congruence.
  destruct (Marshal (WebSocket.preempted_event r)) as [payload|]; [|done].
  unfold WebSocket.send_to. rewrite Ed. simpl. split; [by rewrite list_lookup_alter_ne|].
  intros id i x Hi Hx. simpl in *. destruct (decide (i = k)) as [->|Hik].
  - rewrite list_lookup_alter_eq, Ed in Hx. injection Hx as <-. rewrite <- (He _ _ _ Hi Ed).
    by apply (WebSocket.tame_Send (fun _ => _)).
  - rewrite list_lookup_alter_ne in Hx by done. by eapply He.
Qed.

(** What the session manager asks for leaves the connection that caused it alone. *)
Lemma performs_elsewhere out g l c :
  entries_ok (handler g) -> WebSocket.heap (handler g) !! l = Some c ->
  (forall r, SessionManager.Preempt r ∈ out -> ConnectionID r <> WebSocket.cID c) ->
  let g' := foldl perform g out in
  entries_ok (handler g') /\ WebSocket.heap (handler g') !! l = Some c /\
  manager g' = manager g /\ sessions g' = sessions g /\ services g' = services g.
Proof.
  cbn zeta. revert g. induction out as [|o out IH]; intros g He Hc Hout; [done|]. simpl.
  assert (entries_ok (handler (perform g o)) /\ WebSocket.heap (handler (perform g o)) !! l = Some c) as [He' Hc'].
  { destruct o as [r|e|r a]; simpl; [|done|done]. destruct (preempt_elsewhere r (handler g) l c He Hc) as [? ?]; [|done].
    apply Hout. by left. }
  destruct (IH _ He' Hc') as (? & ? & -> & -> & ->); [intros r Hr; apply Hout; by right|]. by destruct o.
Qed.

Lemma send_done {M} `{ProtoMessage M} l mid rid sid (m : M) g c :
  encodes m -> (forall e : Envelope, encodes e) -> WebSocket.heap (handler g) !! l = Some c ->
  WebSocket.closed c = false -> (length (WebSocket.send c) < WebSocket.send_buffer)%nat ->
  exists payload data, Marshal m = Ok payload /\ Marshal (mkClientEnvelope mid rid sid payload) = Ok data /\
    (send l mid rid sid m g).1 = Ok tt /\ sessions (send l mid rid sid m g).2 = sessions g /\
    WebSocket.heap (handler (send l mid rid sid m g).2) !! l = Some (WebSocket.set_send c (WebSocket.send c ++ [data])).
Proof.
  unfold encodes. intros Hm He Hc Hopen Hroom. unfold send. destruct (Marshal m) as [payload|]; [|done].
  specialize (He (mkClientEnvelope mid rid sid payload)). destruct (Marshal (mkClientEnvelope _ _ _ _)) as [data|] eqn:Ed; [|done].
  exists payload, data. unfold Send, WebSocket.send_to. rewrite Hc. simpl. rewrite list_lookup_alter_eq, Hc. simpl.
  destruct (WebSocket.Send_cases data c) as [[e E]|(_ & _ & E)]; [|by rewrite E].
  unfold WebSocket.Send in E. rewrite Hopen in E. apply Nat.ltb_lt in Hroom. by rewrite Hroom in E.
Qed.

(** The errors a client may be sent. *)
Definition public_errors : list ErrorResponse :=
  [mkErrorResponse ErrorInvalidEnvelope "invalid envelope" false 0;
   mkErrorResponse ErrorInvalidEnvelope "message id is required" false 0;
   mkErrorResponse ErrorInvalidEnvelope "invalid resume request" false 0;
   mkErrorResponse ErrorInvalidEnvelope "session credentials are required" false 0;
   mkErrorResponse ErrorUnsupported "unsupported message" false 0;
   mkErrorResponse ErrorAuthentication "authentication failed" false 0;
   mkErrorResponse ErrorRefresh "refresh authentication failed" false 0;
   mkErrorResponse ErrorPlayer "player initialization failed" false 0;
   mkErrorResponse ErrorResume "session resume failed" false 0;
   mkErrorResponse ErrorResume "session is invalid or expired" false 0;
   mkErrorResponse ErrorService "required service is temporarily unavailable" true 1000;
   mkErrorResponse ErrorInternal "internal server error" false 0].

(** The fallbacks the dispatcher uses. *)
Definition fallbacks : list (Z * string) :=
  [(ErrorAuthentication, "authentication failed"); (ErrorRefresh, "refresh authentication failed");
   (ErrorPlayer, "player initialization failed"); (ErrorInternal, "create session failed");
   (ErrorResume, "session resume failed")].

Lemma mapped_public err f m : (f, m) ∈ fallbacks -> Response (Map NewErrorMapper err f m) ∈ public_errors.
Proof.
  intros Hf. unfold Map. destruct (_ || _ || _ || _); [vm_compute; set_solver|].
  destruct (_ || _ || _ || _); [vm_compute; set_solver|].
  repeat (apply elem_of_cons in Hf as [[= -> ->]|Hf]; [vm_compute; set_solver|]). by apply not_elem_of_nil in Hf.
Qed.

(** The connection [c] was answered: one envelope was appended to what it is sent. *)
Definition answered (rid : Z) (c c' : WebSocket.Connection) : Prop :=
  exists e data, Marshal e = Ok data /\ WebSocket.send c' = WebSocket.send c ++ [data] /\ e_RequestId e = rid /\
    ((e_MessageId e ∈ [MessageLoginResponse; MessageRefreshLoginResponse; MessageResumeResponse] /\
      WebSocket.sessionID c' = e_SessionId e) \/
     (e_MessageId e = MessageErrorResponse /\ e_SessionId e = "" /\
      WebSocket.sessionID c' = WebSocket.sessionID c /\ WebSocket.sessionEpoch c' = WebSocket.sessionEpoch c /\
      exists x, x ∈ public_errors /\ Marshal x = Ok (e_Payload e))).

Definition answers (l : nat) (rid : Z) (c : WebSocket.Connection) (x : res unit * gw) : Prop :=
  x.1 = Ok tt /\ exists c', WebSocket.heap (handler x.2) !! l = Some c' /\ WebSocket.closed c' = false /\ answered rid c c'.

(** The request id a client sees in the answer to what it sent. *)
Definition request_of (data : string) : Z :=
  match Unmarshal (A := Envelope) data with
  | Ok e => if e_MessageId e =? 0 then 0 else e_RequestId e
  | Err _ => 0
  end.

Section answering.
Context (He : forall e : Envelope, encodes e) (Hx : forall e : ErrorResponse, encodes e)
  (Hl : forall m : LoginResponse, encodes m) (Hf : forall m : RefreshLoginResponse, encodes m)
  (Hr : forall m : ResumeResponse, encodes m).
Context (d : Dispatcher) (Hd : d_errors d = NewErrorMapper) (l : nat).

Definition open_conn (c : WebSocket.Connection) (g : gw) : Prop :=
  WebSocket.heap (handler g) !! l = Some c /\ WebSocket.closed c = false /\
  (length (WebSocket.send c) < WebSocket.send_buffer)%nat.

Lemma error_answers rid e g c : open_conn c g -> Response e ∈ public_errors ->
  answers l rid c (sendPublicError l rid e g).
Proof.
  intros (Hc & Ho & Hroom) Hpub. unfold sendPublicError.
  destruct (send_done l MessageErrorResponse rid "" (Response e) g c) as (p & data & Hp & Hdata & Hok & _ & Hh); [done..|].
  split; [done|]. eexists. split; [exact Hh|]. split; [done|].
  exists (mkClientEnvelope MessageErrorResponse rid "" p), data. split_and!; [done|done|done|].
  right. split_and!; [done|done|done|done|]. by exists (Response e).
Qed.

Lemma known_answers rid code m g c : open_conn c g -> Response (Known NewErrorMapper code m) ∈ public_errors ->
  answers l rid c (sendKnownError d l rid code m g).
Proof. intros Hc Hp. unfold sendKnownError. rewrite Hd. by apply error_answers. Qed.

Lemma mapped_answers rid err f m g c : open_conn c g -> (f, m) ∈ fallbacks ->
  answers l rid c (sendMappedError d l rid err f m g).
Proof. intros Hc Hin. unfold sendMappedError. rewrite Hd. apply error_answers; [done|]. by apply mapped_public. Qed.

Lemma handler_restore r v g : handler (start_restore d l r v g) = handler g.
Proof. unfold start_restore. by destruct (has_restore d). Qed.

(** The end of a login or a resumption. *)
Lemma bound_answers {M} `{ProtoMessage M} rid mid r v (m : M) g c :
  open_conn c g -> encodes m -> mid ∈ [MessageLoginResponse; MessageRefreshLoginResponse; MessageResumeResponse] ->
  answers l rid c (send l mid rid (SessionID r) m (start_restore d l r v (Bind l r g))).
Proof.
  intros (Hc & Ho & Hroom) Hm Hmid. set (c1 := WebSocket.BindSession (SessionID r) [ConnectionEpoch r] c).
  destruct (send_done l mid rid (SessionID r) m (start_restore d l r v (Bind l r g)) c1)
    as (p & data & Hp & Hdata & Hok & _ & Hh); [done|done| |done|done|].
  { rewrite handler_restore. simpl. by rewrite list_lookup_alter_eq, Hc. }
  split; [done|]. eexists. split; [exact Hh|]. split; [done|].
  exists (mkClientEnvelope mid rid (SessionID r) p), data. split_and!; [done|done|done|]. by left.
Qed.

Lemma open_session_answers {M} `{ProtoMessage M} rid a mid (reply : Created -> M) rd g c :
  entries_ok (handler g) -> open_conn c g -> (forall m : M, encodes m) ->
  mid ∈ [MessageLoginResponse; MessageRefreshLoginResponse; MessageResumeResponse] ->
  answers l rid c (open_session d l rid a mid reply rd g).
Proof.
  intros Hent Hc Hm Hmid. unfold open_session.
  destruct (ensurePlayer d _ g) as [rp g1] eqn:Ep.
  assert (handler g1 = handler g) as Hg1.
  { unfold ensurePlayer in Ep. destruct (negb _); [by simplify_eq|].
    destruct (ServiceClients.EnsurePlayer _ _) as [? ?]. by simplify_eq. }
  assert (open_conn c g1) as Hc1 by (unfold open_conn; by rewrite Hg1).
  destruct rp as [playerID|e]; [|apply mapped_answers; [done|vm_compute; set_solver]].
  destruct (SessionManager.Create _ _ _ _ _ _ _ _ _ _ _) as [[[rc m] out] s] eqn:Ec.
  pose proof (Create_notices _ _ _ _ _ _ _ _ _ _ _ _ _ _ _ Ec) as Hout.
  unfold connection_id in Hout. rewrite (proj1 Hc1) in Hout. simpl in Hout.
  destruct (performs_elsewhere out (set_sessions g1 m s) l c) as (_ & Hh & _); [simpl; by rewrite Hg1|apply Hc1|done|].
  assert (open_conn c (foldl perform (set_sessions g1 m s) out)) as Hc2 by (split; [done|apply Hc1]).
  destruct rc as [created|e]; [by apply bound_answers|apply mapped_answers; [done|vm_compute; set_solver]].
Qed.

Lemma resume_answers e rd g c :
  entries_ok (handler g) -> open_conn c g -> answers l (e_RequestId e) c (resume d l e rd g).
Proof.
  intros Hent Hc. unfold resume. destruct (Unmarshal _) as [q|]; [|apply known_answers; [done|vm_compute; set_solver]].
  destruct (_ || _); [apply known_answers; [done|vm_compute; set_solver]|].
  destruct (SessionManager.Resume _ _ _ _ _ _ _ _ _ _) as [[[rc m] out] s] eqn:Ec.
  pose proof (Resume_notices _ _ _ _ _ _ _ _ _ _ _ _ _ _ Ec) as Hout.
  unfold connection_id in Hout. rewrite (proj1 Hc) in Hout. simpl in Hout.
  destruct (performs_elsewhere out (set_sessions g m s) l c) as (_ & Hh & _); [done|apply Hc|done|].
  assert (open_conn c (foldl perform (set_sessions g m s) out)) as Hc2 by (split; [done|apply Hc]).
  destruct rc as [created|err]; [apply bound_answers; [done|apply Hr|vm_compute; set_solver]|].
  apply mapped_answers; [done|vm_compute; set_solver].
Qed.

End answering.


(** ** The session a connection is bound to *)

Lemma send_keeps {M} `{ProtoMessage M} l mid rid sid (m : M) g c : WebSocket.heap (handler g) !! l = Some c ->
  sessions (send l mid rid sid m g).2 = sessions g /\
  exists c', WebSocket.heap (handler (send l mid rid sid m g).2) !! l = Some c' /\
    WebSocket.sessionID c' = WebSocket.sessionID c /\ WebSocket.sessionEpoch c' = WebSocket.sessionEpoch c.
Proof.
  intros Hc. unfold send. destruct (Marshal m) as [p|]; [|eauto]. destruct (Marshal _) as [data|]; [|eauto].
  unfold Send, WebSocket.send_to. rewrite Hc. simpl. split; [done|]. rewrite list_lookup_alter_eq, Hc. simpl.
  eexists. split; [done|]. destruct (WebSocket.Send_cases data c) as [[e ->]|(_ & _ & ->)]; done.
Qed.

Section binding.
Context `{!StoreView S, !StoreLaws st}.
Context (has_cas : is_Some (CompareAndSwap st)).
Context `{!ServiceClients.AuthenticationLaws W, !ServiceClients.PlayerLaws W}.

(** [rec] is the session of a login or of a resumption that the store [s] became [s'] by;
    [conn] is the connection. *)
Definition opened (rd : readings) (conn : string) (s s' : S) (rec : Record) : Prop :=
  session s' (SessionID rec) = Some rec /\ ConnectionID rec = conn /\
  (exists token, r_token rd = Ok token /\ ResumeTokenHash rec = hash token) /\
  ((session s (SessionID rec) = None /\ ConnectionEpoch rec = 1 /\ AccountID rec <> "" /\ PlayerID rec <> "") \/
   (exists old presented, session s (SessionID rec) = Some old /\ r_now rd < ExpireAt old /\
      hash presented = ResumeTokenHash old /\ ConnectionEpoch rec = uint64 (ConnectionEpoch old + 1) /\
      AccountID rec = AccountID old /\ PlayerID rec = PlayerID old)).

(** Either the binding is as before, or it is to a session that was opened. *)
Definition bound (rd : readings) (l : nat) (c : WebSocket.Connection) (s : S) (x : res unit * gw) : Prop :=
  exists c', WebSocket.heap (handler x.2) !! l = Some c' /\
    ((WebSocket.sessionID c' = WebSocket.sessionID c /\ WebSocket.sessionEpoch c' = WebSocket.sessionEpoch c) \/
     exists rec, opened rd (WebSocket.cID c) s (sessions x.2) rec /\
       WebSocket.sessionID c' = SessionID rec /\ WebSocket.sessionEpoch c' = ConnectionEpoch rec).

Lemma error_bound rd l rid e g c s : WebSocket.heap (handler g) !! l = Some c -> bound rd l c s (sendPublicError l rid e g).
Proof.
  intros Hc. unfold sendPublicError.
  destruct (send_keeps l MessageErrorResponse rid "" (Response e) g c Hc) as (_ & c' & ? & ? & ?). exists c'. auto.
Qed.

Lemma opened_bound {M} `{ProtoMessage M} rd d l mid rid r v (m : M) g c s :
  WebSocket.heap (handler g) !! l = Some c -> opened rd (WebSocket.cID c) s (sessions g) r ->
  bound rd l c s (send l mid rid (SessionID r) m (start_restore d l r v (Bind l r g))).
Proof.
  intros Hc Hop. set (g1 := start_restore d l r v (Bind l r g)).
  assert (sessions g1 = sessions g) as Hs by (unfold g1, start_restore; by destruct (has_restore d)).
  destruct (send_keeps l mid rid (SessionID r) m g1 (WebSocket.BindSession (SessionID r) [ConnectionEpoch r] c))
    as (Hss & c' & Hc' & Hsid & Hep).
  { unfold g1. rewrite handler_restore. simpl. by rewrite list_lookup_alter_eq, Hc. }
  exists c'. split; [done|]. right. exists r. rewrite Hss, Hs. done.
Qed.

Lemma open_session_bound {M} `{ProtoMessage M} rd d l rid a mid (reply : Created -> M) g c :
  entries_ok (handler g) -> WebSocket.heap (handler g) !! l = Some c ->
  (forall sid, r_sid rd = Ok sid -> sid_ok sid) -> ServiceClients.AccountID a <> "" ->
  bound rd l c (sessions g) (open_session d l rid a mid reply rd g).
Proof.
  intros Hent Hc Hsid Hacc. unfold open_session. destruct (ensurePlayer d _ g) as [rp g1] eqn:Ep.
  assert (handler g1 = handler g /\ sessions g1 = sessions g /\ (forall p, rp = Ok p -> p <> "")) as (Hg1 & Hs1 & Hp).
  { unfold ensurePlayer in Ep. destruct (negb _); [by simplify_eq|].
    destruct (ServiceClients.EnsurePlayer _ _) as [rp' w] eqn:E. simplify_eq. split_and!; [done|done|].
    intros p ->. by eapply ServiceClients.player_named. }
  destruct rp as [playerID|e]; [|apply error_bound; by rewrite Hg1].
  destruct (SessionManager.Create _ _ _ _ _ _ _ _ _ _ _) as [[[rc m] out] s] eqn:Ec.
  pose proof (Create_notices _ _ _ _ _ _ _ _ _ _ _ _ _ _ _ Ec) as Hout.
  unfold connection_id in Hout, Ec. rewrite Hg1, Hc in Hout, Ec. simpl in Hout, Ec.
  destruct (performs_elsewhere out (set_sessions g1 m s) l c) as (_ & Hh & _ & Hss & _); [simpl; by rewrite Hg1..|done|].
  destruct rc as [created|e]; [|by apply error_bound].
  destruct (r_sid rd) as [sid|e] eqn:Esid; [|done]. rewrite Hs1 in Ec.
  destruct (Create_done hash st _ _ _ _ _ _ _ _ _ _ _ _ _ (Hsid sid eq_refl) Ec) as (token & Htok & -> & Hnone & Hu & _).
  apply opened_bound; [done|]. rewrite Hss. simpl in *. split_and!; [done|done|eauto|]. left. simpl. eauto.
Qed.


End binding.

End gateway.

(** ** Runs *)

Section runs.
#[local] Existing Instance canonical_range.
Definition sha (s : string) : string := "#" +:+ s.

(** Services that answer everybody. *)
#[local] Instance open_house : ServiceClients.AuthenticationService unit := {|
  ServiceClients.AuthenticateLogin p := ret (ServiceClients.mkAuthGrant "acc" "refresh" 0);
  ServiceClients.RefreshLogin p := ret (ServiceClients.mkAuthGrant "acc" "refresh" 0)
|}.
#[local] Instance one_player : ServiceClients.PlayerResolver unit := {| ServiceClients.EnsurePlayer _ := ret "p1" |}.
#[local] Instance nobody_else : ServiceClients.Services unit := {|
  ServiceClients.client _ _ := false;
  ServiceClients.Request _ _ := throw Streaming.ErrConnectionClosed;
  ServiceClients.now _ := 0
|}.
#[local] Instance open_house_laws : ServiceClients.AuthenticationLaws unit.
Proof. split; intros p w g w' [= <- _]; done. Qed.
#[local] Instance one_player_laws : ServiceClients.PlayerLaws unit.
Proof. split. intros a w p w' [= <- _]; done. Qed.

Definition constant {M} (b : string) : ProtoMessage M := {| Marshal _ := Ok b; Unmarshal _ := Err (Text "unused") |}.
#[local] Instance login_envelope : ProtoMessage Envelope := {|
  Marshal e := Ok (e_SessionId e +:+ ":" +:+ e_Payload e);
  Unmarshal b := if decide (b = "login") then Ok (mkClientEnvelope MessageLoginRequest 7 "" "credentials")
                 else Err (Text "proto: cannot parse")
|}.
#[local] Instance login_reply : ProtoMessage LoginResponse := constant "login response".
#[local] Instance refresh_reply : ProtoMessage RefreshLoginResponse := constant "refresh response".
#[local] Instance resume_query : ProtoMessage ResumeRequest := constant "resume".
#[local] Instance resume_reply : ProtoMessage ResumeResponse := constant "resume response".
#[local] Instance error_reply : ProtoMessage ErrorResponse := constant "error".
#[local] Instance preempt_notice : ProtoMessage SessionPreemptedEvent := constant "preempted".

Definition c1 : WebSocket.Connection := WebSocket.mkConn "c1" [] false "" 0 None.
Definition one_client : Gateway MemoryStore unit :=
  mkGateway (WebSocket.mkHandler [c1] {["c1" := 0%nat]} 1 [])
    (SetLifecycleHandler (SetPreemptHandler (NewManager "gw" 1000 100) true) true) ∅ tt [] [] [] [] true false.
Definition plain : Dispatcher := mkDispatcher true false NewErrorMapper.
Definition first : readings := mkReadings 0 0 (Ok "s1") (Ok "t1").
Definition nothing (_ : Envelope) : string := "".

Lemma one_client_entries : entries_ok (handler one_client).
Proof.
  intros id k c. simpl. rewrite lookup_singleton_Some. intros [<- <-] [= <-]. done.
Qed.



(** A second login on the connection replaces its session without ending the first one:
    when the connection closes, only the second session is disconnected and will expire;
    the first stays authenticated in the store, with no timer and no lifecycle event. *)
Definition second : readings := mkReadings 10 10 (Ok "s2") (Ok "t2").
Definition after_two_logins : Gateway MemoryStore unit :=
  (Dispatch memory_store sha nothing plain 0 "login" second
     (Dispatch memory_store sha nothing plain 0 "login" first one_client).2).2.
Definition after_close : Gateway MemoryStore unit :=
  disconnectSession memory_store nothing 0 20 20
    (set_handler after_two_logins (WebSocket.close_connection 0 (handler after_two_logins))).

Lemma second_login_leaves_first_session :
  RState <$> (sessions after_close !! "s1") = Some StateAuthenticated /\
  RState <$> (sessions after_close !! "s2") = Some StateReconnecting /\
  (SessionID ∘ fst) <$> timers after_close = ["s2"] /\
  (fun e => (ESessionID e, Type_ e)) <$> announced after_close =
    [("s1", LifecycleConnected); ("s2", LifecycleConnected); ("s2", LifecycleDisconnected)].
Proof. vm_compute. done. Qed.

(** When the store has lost the record of an account's connection, the manager falls back
    on a record without session id: the connection that should be superseded is bound to a
    session, so the notice does not match it and it stays open beside the new one. *)
Definition bound_c1 : WebSocket.Connection := WebSocket.mkConn "c1" [] false "s1" 1 None.
Definition c2 : WebSocket.Connection := WebSocket.mkConn "c2" [] false "" 0 None.
Definition record_lost : Gateway MemoryStore unit :=
  mkGateway (WebSocket.mkHandler [bound_c1; c2] {["c1" := 0%nat; "c2" := 1%nat]} 2 [])
    (set_maps (SetLifecycleHandler (SetPreemptHandler (NewManager "gw" 1000 100) true) true)
       {["c1" := "s1"]} {["acc" := "c1"]}) ∅ tt [] [] [] [] true false.
Definition after_relogin : Gateway MemoryStore unit :=
  (Dispatch memory_store sha nothing plain 1 "login" second record_lost).2.

Lemma fallback_notice_is_ignored :
  v_ConnectionID <$> published after_relogin = ["c1"] /\
  WebSocket.closing (handler after_relogin) = [] /\
  WebSocket.heap (handler after_relogin) !! 0%nat = Some bound_c1.
Proof. vm_compute. done. Qed.

(** While the circuit breaker to the user center is open, a client that logs in is told that
    its authentication failed, and not to retry; when the user center cannot be reached it
    is told that the service is unavailable, and to retry. *)
Lemma open_circuit_looks_like_bad_credentials :
  Response (Map NewErrorMapper Breaker.ErrCircuitOpen ErrorAuthentication "authentication failed") =
    mkErrorResponse ErrorAuthentication "authentication failed" false 0 /\
  Response (Map NewErrorMapper ServiceClients.ErrAuthenticationServiceUnavailable ErrorAuthentication "authentication failed") =
    mkErrorResponse ErrorService "required service is temporarily unavailable" true 1000.
Proof. done. Qed.

End runs.

End Gateway.
