(* ===== verification/Documents.v ===== *)
(** * Documents with dirty tracking: [services/common/repository/dbmodel/md]

    A document is a tree of nodes; each node remembers the path it was attached at, and a
    changed node reports it to the root, which collects what the next update has to write.
    The pointers to the data are addresses. Reflection and type assertions that fail, nil
    dereferences and indices out of range are panics ([Err]). A node belongs to one place
    of one document: the parent pointer of an attached node is the node that holds it (or
    holds the list or map it is in). *)

From S2P Require Import Prelude.
From stdpp Require Import pretty.
Open Scope Z_scope.

Module Documents.

Definition panic {A} (msg : string) : res A := Err (Text msg).

(** ** The root: [node_root.go] *)

Notation NodeRoot := (gmap string Z).

Definition ResetDirty : NodeRoot := ∅.

Section root.
Context `{!MapRange string Z}.

(** The loop over the dirty paths; [None] when it returns early. *)
Fixpoint toDelete (path : string) (ps : list string) (toDeletePath : list string) : option (list string) :=
  match ps with
  | [] => Some toDeletePath
  | p :: ps =>
      if bool_decide (p = path) then toDelete path ps (toDeletePath ++ [p])
      else if HasPrefix path (p +:+ ".") then None
      else if HasPrefix p (path +:+ ".") then toDelete path ps (toDeletePath ++ [p])
      else toDelete path ps toDeletePath
  end.

Definition addDirty (path : string) (data : Z) (r : NodeRoot) : res NodeRoot :=
  if bool_decide (path = "") then panic "why empty path?"
  else match toDelete path (range r).*1 [] with
       | None => Ok r
       | Some ps => Ok (<[path := data]> (foldl (fun r p => delete p r) r ps))
       end.

End root.

(** [p] is the path of an ancestor of the node at [q]. *)
Definition ancestor (p q : string) : Prop := exists x, q = p +:+ "." +:+ x.

Lemma HasPrefix_ancestor p q : HasPrefix q (p +:+ ".") = true <-> ancestor p q.
Proof.
  rewrite HasPrefix_spec. unfold ancestor. by setoid_rewrite append_assoc.
Qed.

#[export] Instance ancestor_dec p q : Decision (ancestor p q).
Proof. refine (cast_if (decide (HasPrefix q (p +:+ ".") = true))); by rewrite <- HasPrefix_ancestor. Defined.

Lemma ancestor_trans p q r : ancestor p q -> ancestor q r -> ancestor p r.
Proof. intros [x ->] [y ->]. exists (x +:+ "." +:+ y). by rewrite !append_assoc. Qed.

Lemma length_append s t : String.length (s +:+ t) = (String.length s + String.length t)%nat.
Proof.
  induction s as [|a s IH]; [done|]. change (S (String.length (s +:+ t)) = S (String.length s + String.length t)).
  by rewrite IH.
Qed.

Lemma ancestor_irrefl p : ~ ancestor p p.
Proof. intros [x E]. apply (f_equal String.length) in E. rewrite !length_append in E. simpl in E. lia. Qed.

(** The reference: nothing to do when an ancestor is dirty; otherwise the path replaces
    itself and its descendants. *)
Definition mark (path : string) (data : Z) (r : NodeRoot) : NodeRoot :=
  if decide (exists p, p ∈ dom r /\ ancestor p path) then r
  else <[path := data]> (filter (fun x => ~ ancestor path x.1) r).

Section root_proofs.
Context `{!MapRange string Z}.

Lemma toDelete_spec path ps acc :
  match toDelete path ps acc with
  | None => exists p, p ∈ ps /\ ancestor p path
  | Some ds => (forall p, p ∈ ps -> ~ ancestor p path) /\
      forall p, p ∈ ds <-> p ∈ acc \/ (p ∈ ps /\ (p = path \/ ancestor path p))
  end.
Proof.
  revert acc. induction ps as [|q ps IH]; intros acc; simpl; [set_solver|].
  assert (forall acc', (forall p, p ∈ acc' <-> p ∈ acc \/ (p = q /\ (p = path \/ ancestor path p))) ->
    ~ ancestor q path ->
    match toDelete path ps acc' with
    | None => exists p, p ∈ q :: ps /\ ancestor p path
    | Some ds => (forall p, p ∈ q :: ps -> ~ ancestor p path) /\
        forall p, p ∈ ds <-> p ∈ acc \/ (p ∈ q :: ps /\ (p = path \/ ancestor path p))
    end) as Hgo.
  { intros acc' Hacc Hq. specialize (IH acc'). destruct (toDelete path ps acc') as [ds|].
    - destruct IH as [Hn Hds]. split; [set_solver|]. intros p. rewrite Hds, Hacc. set_solver.
    - destruct IH as (p & Hp & Ha). exists p. split; [by right|done]. }
  case_bool_decide as Heq.
  { subst q. apply Hgo; [|apply ancestor_irrefl]. intros p. rewrite elem_of_app, list_elem_of_singleton. naive_solver. }
  destruct (HasPrefix path (q +:+ ".")) eqn:E1.
  { apply HasPrefix_ancestor in E1. exists q. split; [by left|done]. }
  assert (~ ancestor q path) as Hq by (rewrite <- HasPrefix_ancestor; congruence).
  destruct (HasPrefix q (path +:+ ".")) eqn:E2; (apply Hgo; [|done]); intros p.
  - apply HasPrefix_ancestor in E2. rewrite elem_of_app, list_elem_of_singleton. naive_solver.
  - assert (~ ancestor path q) by (rewrite <- HasPrefix_ancestor; congruence). naive_solver.
Qed.

Lemma lookup_deletes (ds : list string) (r : NodeRoot) p :
  foldl (fun r p => delete p r) r ds !! p = if decide (p ∈ ds) then None else r !! p.
Proof.
  revert r. induction ds as [|d ds IH]; intros r; simpl.
  { destruct (decide (p ∈ [])) as [Hx|]; [by apply not_elem_of_nil in Hx|done]. }
  rewrite IH. destruct (decide (p = d)) as [->|Hne].
  - rewrite lookup_delete_eq. destruct (decide (d ∈ ds)), (decide (d ∈ d :: ds)); set_solver.
  - rewrite lookup_delete_ne by done. destruct (decide (p ∈ ds)), (decide (p ∈ d :: ds)); set_solver.
Qed.

Lemma dom_range (r : NodeRoot) p : p ∈ (range r).*1 <-> p ∈ dom r.
Proof.
  rewrite elem_of_dom. split.
  - intros ([q v] & -> & Hin)%list_elem_of_fmap. apply elem_of_range in Hin. by exists v.
  - intros [v Hv]. apply list_elem_of_fmap. exists (p, v). split; [done|]. by apply elem_of_range.
Qed.

Lemma addDirty_mark path data r : path <> "" -> addDirty path data r = Ok (mark path data r).
Proof.
  intros Hp. unfold addDirty, mark. rewrite bool_decide_false by done.
  pose proof (toDelete_spec path (range r).*1 []) as Hs. destruct (toDelete path _ []) as [ds|].
  - destruct Hs as [Hn Hds]. destruct (decide _) as [(p & Hin & Ha)|_].
    { destruct (Hn p); [by apply dom_range|done]. }
    f_equal. apply map_eq. intros q. destruct (decide (q = path)) as [->|Hq]; [by rewrite !lookup_insert_eq|].
    rewrite !lookup_insert_ne, lookup_deletes by done. symmetry. destruct (decide (q ∈ ds)) as [Hin|Hout].
    + apply map_lookup_filter_None. right. intros v _ Hx. simpl in Hx. apply Hds in Hin. set_solver.
    + destruct (r !! q) as [v|] eqn:Er; [|apply map_lookup_filter_None; by left].
      apply map_lookup_filter_Some. split; [done|]. simpl. intros Ha. apply Hout, Hds. right.
      split; [apply dom_range, elem_of_dom; by exists v|by right].
  - destruct (decide _) as [_|Hno]; [done|]. destruct Hno. destruct Hs as (p & Hin%dom_range & Ha). eauto.
Qed.

End root_proofs.

(** What an update with the dirty paths writes. *)
Definition covers (r : NodeRoot) (q : string) : Prop := exists p, p ∈ dom r /\ (p = q \/ ancestor p q).
(** No dirty path lies under another one: an update of the database may not have such paths. *)
Definition separate (r : NodeRoot) : Prop := forall p q, p ∈ dom r -> q ∈ dom r -> ~ ancestor p q.

Lemma mark_separate path data r : separate r -> separate (mark path data r).
Proof.
  intros Hs. unfold mark. destruct (decide _) as [|Hno]; [done|].
  assert (forall p, p ∈ dom (filter (fun x => ~ ancestor path x.1) r) -> p ∈ dom r /\ ~ ancestor path p) as Hd.
  { intros p [v Hv]%elem_of_dom. apply map_lookup_filter_Some in Hv as [Hv Hna]. split; [apply elem_of_dom; eauto|done]. }
  intros p q. rewrite dom_insert. intros [->%elem_of_singleton|Hp]%elem_of_union [->%elem_of_singleton|Hq]%elem_of_union Ha.
  - by apply ancestor_irrefl in Ha.
  - by apply Hd in Hq as [_ ?].
  - apply Hno. exists p. split; [by apply Hd in Hp as [? _]|done].
  - apply Hd in Hp as [? _], Hq as [? _]. by apply (Hs p q).
Qed.

Lemma mark_covers path data r q : covers (mark path data r) q <-> covers r q \/ path = q \/ ancestor path q.
Proof.
  unfold mark, covers. destruct (decide _) as [(p & Hp & Ha)|Hno].
  - split; [by left|]. intros [?|[<-|Hq]]; [done| |]; exists p; (split; [done|]); right; [done|by eapply ancestor_trans].
  - split.
    + intros (p & Hin & Hq). rewrite dom_insert in Hin.
      apply elem_of_union in Hin as [->%elem_of_singleton|Hp]; [by right|]. left. exists p. split; [|done]. apply elem_of_dom in Hp as [v Hv]. apply map_lookup_filter_Some in Hv as [Hv _].
      apply elem_of_dom. eauto.
    + setoid_rewrite dom_insert. intros [(p & Hp & Hq)|Hq].
      * destruct (decide (ancestor path p)) as [Ha|Hna].
        -- exists path. split; [set_solver|]. right. destruct Hq as [<-|Hq]; [done|by eapply ancestor_trans].
        -- exists p. split; [|done]. apply elem_of_union_r, elem_of_dom. apply elem_of_dom in Hp as [v Hv].
           exists v. by apply map_lookup_filter_Some.
      * exists path. split; [set_solver|done].
Qed.

(** ** Saving

    The root after a sequence of reports, each a path with the address of its data. *)
Section saves.
Context `{!MapRange string Z}.

Fixpoint reports (xs : list (string * Z)) (r : NodeRoot) : res NodeRoot :=
  match xs with
  | [] => Ok r
  | (path, data) :: xs => match addDirty path data r with Ok r' => reports xs r' | Err e => Err e end
  end.

(** C36 The dirty paths a document collects are the coarsest set of disjoint subtrees that
    holds everything saved since the last reset, in whatever order the runtime iterates
    over the map: after any saves of nodes with paths, no collected path lies under
    another (the database refuses updates with such paths), a place of the document is
    written if and only if it or an ancestor of it was saved, and every write is of the
    data some save of exactly this path reported. *)
Theorem dirty_paths_cover_saves xs :
  (forall x, x ∈ xs -> x.1 <> "") ->
  exists r, reports xs ResetDirty = Ok r /\ separate r /\
    (forall q, covers r q <-> exists x, x ∈ xs /\ (x.1 = q \/ ancestor x.1 q)) /\
    (forall p data, r !! p = Some data -> (p, data) ∈ xs).
Proof.
  intros Hne.
  assert (forall r, separate r -> exists r', reports xs r = Ok r' /\ separate r' /\
    (forall q, covers r' q <-> covers r q \/ exists x, x ∈ xs /\ (x.1 = q \/ ancestor x.1 q)) /\
    (forall p data, r' !! p = Some data -> r !! p = Some data \/ (p, data) ∈ xs)) as Hgen.
  { induction xs as [|[path data] xs IH]; intros r Hs; simpl.
    { exists r. split_and!; [done|done|set_solver|auto]. }
    rewrite addDirty_mark by (apply (Hne (path, data)); by left).
    destruct (IH (fun x Hx => Hne x (list_elem_of_further _ _ _ Hx)) (mark path data r) (mark_separate _ _ _ Hs))
      as (r' & Hr & Hs' & Hc & Hd).
    exists r'. split_and!; [done|done| |].
    - intros q. rewrite Hc, mark_covers. set_unfold. naive_solver.
    - intros p v Hv. apply Hd in Hv as [Hv|?]; [|right; by right]. unfold mark in Hv.
      destruct (decide _); [by left|]. apply lookup_insert_Some in Hv as [[<- <-]|[_ Hv]]; [right; by left|].
      left. by apply map_lookup_filter_Some in Hv as [? _]. }
  destruct (Hgen ResetDirty) as (r & Hr & Hs & Hc & Hd); [intros p q Hp; set_solver|].
  exists r. split_and!; [done|done| |].
  - intros q. rewrite Hc. unfold covers, ResetDirty. set_solver.
  - intros p data Hv. apply Hd in Hv as [Hv|?]; [|done]. unfold ResetDirty in Hv. by rewrite lookup_empty in Hv.
Qed.

End saves.

(** [addDirty] does what its reference says, whatever the order in which the runtime
    iterates over the dirty paths (the loop returns early in some orders only): a path
    under a dirty one is dropped, any other path replaces itself and everything under it;
    the empty path panics. *)
Lemma add_dirty_is_mark (order1 order2 : MapRange string Z) path data r :
  addDirty (MapRange0 := order1) path data r = addDirty (MapRange0 := order2) path data r /\
  addDirty (MapRange0 := order1) path data r =
    (if bool_decide (path = "") then panic "why empty path?" else Ok (mark path data r)).
Proof.
  case_bool_decide as Hp; [by subst|]. by rewrite !addDirty_mark.
Qed.

(** ** Nodes, lists and maps *)

(** [Node[T]]: the pointer to its data, the path, and whether its parent is set; the data
    is a struct at an address, of which the fields that hold nodes matter. *)
Inductive Node : Type :=
  | mkNode (data : option Data) (path : string) (parent : bool)
with Data : Type :=
  | mkData (addr : Z) (fields : list Field)
with Field : Type :=
  | Plain
  | NodeField (n : option Node)
  | ListField (l : option List)
  | MapField (m : option Map)
with List : Type :=
  | mkList (nodes : list Node) (schema : bool)
with Map : Type :=
  | mkMap (entries : list (string * Node)) (schema : bool).

Definition NewNode (data : option Data) : Node := mkNode data "" false.
Definition node_data (n : Node) : option Data := let '(mkNode d _ _) := n in d.
Definition node_path (n : Node) : string := let '(mkNode _ p _) := n in p.
Definition node_parent (n : Node) : bool := let '(mkNode _ _ b) := n in b.
Definition node_fields (n : Node) : list Field :=
  match node_data n with Some (mkData _ fs) => fs | None => [] end.
Definition node_addr (n : Node) : Z := match node_data n with Some (mkData a _) => a | None => 0 end.
Definition NewList : List := mkList [] false.
Definition NewMap : Map := mkMap [] false.
Definition list_nodes (l : List) : list Node := let '(mkList ns _) := l in ns.
Definition map_entries (m : Map) : list (string * Node) := let '(mkMap es _) := m in es.

(** [schema.go] *)
Inductive ContainerType := ContainerTypeNone | ContainerTypeMap | ContainerTypeList.
Inductive ModelNodeSchema : Type :=
  | mkSchema (BsonTagName : string) (container : ContainerType) (field : nat) (Children : list ModelNodeSchema).
Definition BsonTagName (s : ModelNodeSchema) : string := let '(mkSchema t _ _ _) := s in t.
Definition container (s : ModelNodeSchema) : ContainerType := let '(mkSchema _ c _ _) := s in c.
Definition field (s : ModelNodeSchema) : nat := let '(mkSchema _ _ i _) := s in i.
Definition Children (s : ModelNodeSchema) : list ModelNodeSchema := let '(mkSchema _ _ _ cs) := s in cs.

(** [strings.Join([]string{a, b}, ".")], [strconv.Itoa] *)
Definition dot (a b : string) : string := a +:+ "." +:+ b.
Definition Itoa (i : Z) : string := pretty i.

(** [for i := range list.nodes { list.initNode(i, node) }] from index [i] on. *)
Fixpoint init_nodes (initNode : string -> Node -> res Node) (tag : string) (i : nat) (ns : list Node) : res (list Node) :=
  match ns with
  | [] => Ok []
  | n :: ns =>
      match initNode (dot tag (Itoa (Z.of_nat i))) n with
      | Err e => Err e
      | Ok n' => match init_nodes initNode tag (S i) ns with Ok ns' => Ok (n' :: ns') | Err e => Err e end
      end
  end.
Fixpoint init_entries (initNode : string -> Node -> res Node) (tag : string) (es : list (string * Node)) :
    res (list (string * Node)) :=
  match es with
  | [] => Ok []
  | (k, n) :: es =>
      match initNode (dot tag k) n with
      | Err e => Err e
      | Ok n' => match init_entries initNode tag es with Ok es' => Ok ((k, n') :: es') | Err e => Err e end
      end
  end.

(** [setupNode]; [noder] tells whether the parent is a [Noder] (the root is not one) and
    [initChild] is [initChild] with the schema. *)
Definition setup_with (initChild : string -> Node -> res Node) (noder : bool) (s : ModelNodeSchema) (f : Field) : res Field :=
  match container s, f with
  | ContainerTypeList, ListField l =>
      if negb noder then panic "interface conversion: *md.NodeRoot is not md.Noder"
      else match init_nodes initChild (BsonTagName s) 0 (list_nodes (default NewList l)) with
           | Ok ns => Ok (ListField (Some (mkList ns true)))
           | Err e => Err e
           end
  | ContainerTypeMap, MapField m =>
      if negb noder then panic "interface conversion: *md.NodeRoot is not md.Noder"
      else match init_entries initChild (BsonTagName s) (map_entries (default NewMap m)) with
           | Ok es => Ok (MapField (Some (mkMap es true)))
           | Err e => Err e
           end
  | ContainerTypeNone, NodeField (Some n) =>
      match initChild (BsonTagName s) n with Ok n' => Ok (NodeField (Some n')) | Err e => Err e end
  | ContainerTypeNone, NodeField None => panic "invalid memory address or nil pointer dereference"
  | _, _ => panic "interface conversion"
  end.

(** [for bsonName := range schema.Children { .. }] *)
Definition setup_fields (setup : ModelNodeSchema -> Field -> res Field) : list ModelNodeSchema -> list Field -> res (list Field) :=
  fix go cs fs :=
    match cs with
    | [] => Ok fs
    | c :: cs =>
        match fs !! field c with
        | None => panic "reflect: Field index out of range"
        | Some f => match setup c f with Ok f' => go cs (<[field c := f']> fs) | Err e => Err e end
        end
    end.

Fixpoint initChild (s : ModelNodeSchema) (path : string) (n : Node) : res Node :=
  match s with
  | mkSchema _ _ _ cs =>
      match node_data n with
      | None => panic "reflect.Value.Set using unaddressable value"
      | Some (mkData a fs) =>
          match setup_fields (fun c => setup_with (initChild c) true c) cs fs with
          | Ok fs' => Ok (mkNode (Some (mkData a fs')) path true)
          | Err e => Err e
          end
      end
  end.
Definition setupNode (noder : bool) (s : ModelNodeSchema) : Field -> res Field := setup_with (initChild s) noder s.

(** [Init] on the fields of the model: the nodes of the root schema are set up, the dirty
    paths reset. Nothing in [setupNode] and [initChild] makes an error value: every failure
    is a panic, which the wrapping of errors does not touch. *)
Definition Init (nodes : list ModelNodeSchema) (fs : list Field) : res (list Field * NodeRoot) :=
  match setup_fields (setupNode false) nodes fs with
  | Ok fs' => Ok (fs', ResetDirty)
  | Err e => Err e
  end.

(** ** What a node reports

    The place of a node in a document: field by field, with an index or a key. *)
Inductive place := AtNode (i : nat) | AtList (i j : nat) | AtMap (i : nat) (k : string).

Definition child (fs : list Field) (a : place) : option Node :=
  match a with
  | AtNode i => match fs !! i with Some (NodeField n) => n | _ => None end
  | AtList i j => match fs !! i with Some (ListField (Some l)) => list_nodes l !! j | _ => None end
  | AtMap i k =>
      match fs !! i with
      | Some (MapField (Some m)) => snd <$> List.find (fun e => bool_decide (e.1 = k)) (map_entries m)
      | _ => None
      end
  end.

(** The path that reaches the root when the node at the place calls [Save]: every node on
    the way up puts its own path in front. [None] when a node without parent is met (then
    the call panics) or there is no such node. *)
Fixpoint report (fs : list Field) (a : place) (rest : list place) : option string :=
  n ← child fs a;
  if negb (node_parent n) then None
  else match rest with
       | [] => Some (node_path n)
       | b :: rest => dot (node_path n) <$> report (node_fields n) b rest
       end.

Fixpoint node_at (fs : list Field) (a : place) (rest : list place) : option Node :=
  n ← child fs a;
  match rest with
  | [] => Some n
  | b :: rest => node_at (node_fields n) b rest
  end.

(** [Save] on the node at a place. *)
Definition Save `{!MapRange string Z} (fs : list Field) (a : place) (rest : list place) (r : NodeRoot) : res NodeRoot :=
  match report fs a rest, node_at fs a rest with
  | Some path, Some n => addDirty path (node_addr n) r
  | _, _ => panic "invalid memory address or nil pointer dereference"
  end.

(** The name of a place in the stored document, according to the schema. *)
Definition with_field (i : nat) (k : ContainerType) (c : ModelNodeSchema) : bool :=
  (field c =? i)%nat &&
  match k, container c with
  | ContainerTypeNone, ContainerTypeNone | ContainerTypeList, ContainerTypeList | ContainerTypeMap, ContainerTypeMap => true
  | _, _ => false
  end.
Definition schema_at (cs : list ModelNodeSchema) (a : place) : option (string * ModelNodeSchema) :=
  match a with
  | AtNode i => (fun c => (BsonTagName c, c)) <$> List.find (with_field i ContainerTypeNone) cs
  | AtList i j => (fun c => (dot (BsonTagName c) (Itoa (Z.of_nat j)), c)) <$> List.find (with_field i ContainerTypeList) cs
  | AtMap i k => (fun c => (dot (BsonTagName c) k, c)) <$> List.find (with_field i ContainerTypeMap) cs
  end.
Fixpoint place_name (cs : list ModelNodeSchema) (a : place) (rest : list place) : option string :=
  x ← schema_at cs a;
  match rest with
  | [] => Some x.1
  | b :: rest => dot x.1 <$> place_name (Children x.2) b rest
  end.

(** Sibling fields have different indices, as the fields of a struct do. *)
Fixpoint wf_schema (s : ModelNodeSchema) : Prop :=
  match s with
  | mkSchema _ _ _ cs => NoDup (field <$> cs) /\ (fix all cs := match cs with [] => True | c :: cs => wf_schema c /\ all cs end) cs
  end.
Definition wf_schemas (cs : list ModelNodeSchema) : Prop := NoDup (field <$> cs) /\ Forall wf_schema cs.

Lemma wf_children s : wf_schema s -> wf_schemas (Children s).
Proof.
  destruct s as [t k i cs]. intros [Hnd Hall]. split; [done|]. simpl. clear Hnd.
  induction cs as [|c cs IH]; [constructor|]. destruct Hall as [Hc Hall]. constructor; [done|by apply IH].
Qed.

Lemma setup_fields_lookup setup cs fs fs' : NoDup (field <$> cs) -> setup_fields setup cs fs = Ok fs' ->
  (forall c, c ∈ cs -> exists f f', fs !! field c = Some f /\ setup c f = Ok f' /\ fs' !! field c = Some f') /\
  (forall i, i ∉ field <$> cs -> fs' !! i = fs !! i).
Proof.
  revert fs. induction cs as [|c cs IH]; intros fs Hnd; simpl.
  { intros [= <-]. split; [set_solver|done]. }
  apply NoDup_cons in Hnd as [Hni Hnd]. destruct (fs !! field c) as [f|] eqn:Ef; [|done].
  destruct (setup c f) as [f'|] eqn:Es; [|done]. intros Hgo. destruct (IH _ Hnd Hgo) as [Hin Hout]. split.
  - intros d [->|Hd]%elem_of_cons.
    + exists f, f'. split_and!; [done|done|]. rewrite Hout by done. apply list_lookup_insert_eq. by eapply lookup_lt_Some.
    + destruct (Hin d Hd) as (g & g' & Hg & ? & ?). exists g, g'. split_and!; [|done|done].
      rewrite list_lookup_insert_ne in Hg; [done|]. intros E. apply Hni. rewrite E. apply list_elem_of_fmap. by exists d.
  - intros i Hi. rewrite Hout by set_solver. apply list_lookup_insert_ne. set_solver.
Qed.

Lemma init_nodes_lookup ic tag i ns ns' j n' : init_nodes ic tag i ns = Ok ns' -> ns' !! j = Some n' ->
  exists n, ic (dot tag (Itoa (Z.of_nat (i + j)))) n = Ok n'.
Proof.
  revert i ns' j. induction ns as [|n ns IH]; intros i ns' j; simpl; [by intros [= <-]|].
  destruct (ic _ n) as [m|] eqn:E; [|done]. destruct (init_nodes _ _ _ ns) as [ms|] eqn:Er; [|done]. intros [= <-].
  destruct j as [|j]; simpl; [intros [= <-]; rewrite Nat.add_0_r; eauto|]. intros Hj.
  destruct (IH _ _ _ Er Hj) as [x Hx]. exists x. by rewrite <- Nat.add_succ_comm.
Qed.

Lemma init_entries_find ic tag es es' k e' : init_entries ic tag es = Ok es' ->
  List.find (fun e => bool_decide (e.1 = k)) es' = Some e' -> exists n, ic (dot tag k) n = Ok e'.2.
Proof.
  revert es'. induction es as [|[h n] es IH]; intros es'; simpl; [by intros [= <-]|].
  destruct (ic _ n) as [m|] eqn:E; [|done]. destruct (init_entries _ _ es) as [ms|] eqn:Er; [|done]. intros [= <-]. simpl.
  case_bool_decide as Hk; [intros [= <-]; subst; eauto|]. by apply IH.
Qed.

(** An attached node: its path is set, and its own fields are set up in turn. *)
Lemma initChild_ok s path n n' : initChild s path n = Ok n' ->
  node_path n' = path /\ node_parent n' = true /\
  exists fs, setup_fields (fun c => setup_with (initChild c) true c) (Children s) fs = Ok (node_fields n').
Proof.
  destruct s as [t k i cs]. simpl. destruct (node_data n) as [[a fs]|]; [|done].
  destruct (setup_fields _ cs fs) as [fs'|] eqn:E; [|done]. intros [= <-]. eauto.
Qed.

Lemma with_field_find i k cs c : List.find (with_field i k) cs = Some c -> c ∈ cs /\ field c = i /\ container c = k.
Proof.
  intros Hf. apply List.find_some in Hf as [Hin Hw]. unfold with_field in Hw. apply andb_true_iff in Hw as [Hi Hk].
  apply Nat.eqb_eq in Hi. split_and!; [by apply list_elem_of_In|done|]. by destruct k, (container c).
Qed.

(** The node at a place of a document that was set up was attached under that place's name. *)
Lemma setup_child noder cs fs fs' a nm c n :
  wf_schemas cs -> setup_fields (fun c => setup_with (initChild c) noder c) cs fs = Ok fs' ->
  schema_at cs a = Some (nm, c) -> child fs' a = Some n ->
  c ∈ cs /\ exists n0, initChild c nm n0 = Ok n.
Proof.
  intros [Hnd _] Hset Hs Hc. destruct (setup_fields_lookup _ _ _ _ Hnd Hset) as [Hin _].
  destruct a as [i|i j|i k]; simpl in Hs, Hc; apply fmap_Some in Hs as (c' & Hf & [= -> ->]);
    apply with_field_find in Hf as (Hcin & <- & Hk); (split; [done|]);
    destruct (Hin c' Hcin) as (f & f' & _ & Hsetup & Hf'); rewrite Hf' in Hc; unfold setup_with in Hsetup; rewrite Hk in Hsetup;
    destruct f as [|[m|]|l|m]; try done.
  - destruct (initChild c' _ m) as [n'|] eqn:E; [|done]. injection Hsetup as <-. injection Hc as <-. eauto.
  - destruct (negb noder); [done|]. destruct (init_nodes _ _ _ _) as [ns|] eqn:E; [|done]. injection Hsetup as <-.
    simpl in Hc. by apply (init_nodes_lookup _ _ _ _ _ _ _ E) in Hc.
  - destruct (negb noder); [done|]. destruct (init_entries _ _ _) as [es|] eqn:E; [|done]. injection Hsetup as <-.
    simpl in Hc. apply fmap_Some in Hc as (e & He & ->). by eapply init_entries_find.
Qed.

Lemma report_place noder cs fs fs' a rest n nm :
  wf_schemas cs -> setup_fields (fun c => setup_with (initChild c) noder c) cs fs = Ok fs' ->
  node_at fs' a rest = Some n -> place_name cs a rest = Some nm -> report fs' a rest = Some nm.
Proof.
  revert noder cs fs fs' a nm. induction rest as [|b rest IH]; intros noder cs fs fs' a nm Hwf Hset; simpl;
    intros (m & Hm & Hn)%bind_Some ([nm0 c] & Hs & Hnm)%bind_Some; rewrite Hm; simpl;
    destruct (setup_child _ _ _ _ _ _ _ _ Hwf Hset Hs Hm) as [Hcin [n0 Hi]];
    destruct (initChild_ok _ _ _ _ Hi) as (Hpath & -> & fs0 & Hfs); simpl in *.
  - by rewrite Hpath.
  - apply fmap_Some in Hnm as (nm1 & Hnm1 & ->). rewrite Hpath.
    erewrite (IH true (Children c)); [done|apply wf_children|done|done|done].
    destruct Hwf as [_ Hall]. rewrite Forall_forall in Hall. by apply Hall.
Qed.

(** Nodes report their own place: after [Init] of any document, the [Save] of a node at
    any depth, reached through fields, list indices and map keys, marks exactly the dotted
    path by which the stored document names this node, with this node's data. *)
Lemma nodes_report_their_place `{!MapRange string Z} nodes fs fs' r0 a rest n nm r :
  wf_schemas nodes -> Init nodes fs = Ok (fs', r0) ->
  node_at fs' a rest = Some n -> place_name nodes a rest = Some nm ->
  r0 = ∅ /\ report fs' a rest = Some nm /\ Save fs' a rest r = addDirty nm (node_addr n) r.
Proof.
  unfold Init. intros Hwf. destruct (setup_fields _ nodes fs) as [fs1|] eqn:E; [|done]. intros [= <- <-] Hn Hnm.
  assert (report fs1 a rest = Some nm) as Hr by by eapply (report_place false).
  split_and!; [done|done|]. unfold Save. by rewrite Hr, Hn.
Qed.

(** ** Which documents can be set up

    A document agrees with its schema: nodes are there with their data, containers have
    the right kind and do not hang on the root. *)
Definition typed_with (typed_node : Node -> Prop) (noder : bool) (s : ModelNodeSchema) (f : Field) : Prop :=
  match container s, f with
  | ContainerTypeList, ListField l => noder = true /\ Forall typed_node (list_nodes (default NewList l))
  | ContainerTypeMap, MapField m => noder = true /\ Forall (fun e => typed_node e.2) (map_entries (default NewMap m))
  | ContainerTypeNone, NodeField (Some n) => typed_node n
  | _, _ => False
  end.

Fixpoint typed_node (s : ModelNodeSchema) (n : Node) : Prop :=
  match s with
  | mkSchema _ _ _ cs =>
      match node_data n with
      | None => False
      | Some (mkData _ fs) =>
          (fix all cs := match cs with
                         | [] => True
                         | c :: cs => (exists f, fs !! field c = Some f /\ typed_with (typed_node c) true c f) /\ all cs
                         end) cs
      end
  end.
Definition typed_fields (noder : bool) (cs : list ModelNodeSchema) (fs : list Field) : Prop :=
  Forall (fun c => exists f, fs !! field c = Some f /\ typed_with (typed_node c) noder c f) cs.

Lemma typed_node_fields s n : typed_node s n <->
  exists a fs, node_data n = Some (mkData a fs) /\ typed_fields true (Children s) fs.
Proof.
  destruct s as [t k i cs]. simpl. destruct (node_data n) as [[a fs]|]; [|naive_solver].
  assert ((fix all cs := match cs with
                         | [] => True
                         | c :: cs => (exists f, fs !! field c = Some f /\ typed_with (typed_node c) true c f) /\ all cs
                         end) cs <-> typed_fields true cs fs) as ->; [|naive_solver].
  unfold typed_fields. induction cs as [|c cs IH]; [by rewrite Forall_nil|]. by rewrite Forall_cons, IH.
Qed.

(** Induction on schemas, through the lists of children. *)
Lemma schema_induction (P : ModelNodeSchema -> Prop) :
  (forall t k i cs, Forall P cs -> P (mkSchema t k i cs)) -> forall s, P s.
Proof.
  intros Hstep. fix IH 1. intros [t k i cs]. apply Hstep. induction cs; constructor; [apply IH|done].
Qed.

Lemma setup_fields_total setup cs fs : NoDup (field <$> cs) ->
  is_ok (setup_fields setup cs fs) = true <->
  Forall (fun c => exists f, fs !! field c = Some f /\ is_ok (setup c f) = true) cs.
Proof.
  revert fs. induction cs as [|c cs IH]; intros fs Hnd; simpl; [split; [constructor|done]|].
  apply NoDup_cons in Hnd as [Hni Hnd]. rewrite Forall_cons. destruct (fs !! field c) as [f|] eqn:Ef; [|naive_solver].
  destruct (setup c f) as [f'|e] eqn:Es; [|split; [done|]; intros [(x & [= <-] & Hx) _]; by rewrite Es in Hx].
  rewrite IH by done.
  assert (Forall (fun d => exists g, <[field c:=f']> fs !! field d = Some g /\ is_ok (setup d g) = true) cs <->
          Forall (fun d => exists g, fs !! field d = Some g /\ is_ok (setup d g) = true) cs) as ->.
  { rewrite !Forall_forall. split; intros Hall d Hd; specialize (Hall d Hd);
      (rewrite list_lookup_insert_ne in *; [done|]);
      intros E; apply Hni; rewrite E; apply list_elem_of_fmap; by exists d. }
  split; [intros Hall; split; [exists f; by rewrite Es|done]|by intros [_ ?]].
Qed.

Lemma init_nodes_total ic tag i ns (T : Node -> Prop) :
  (forall p n, is_ok (ic p n) = true <-> T n) -> is_ok (init_nodes ic tag i ns) = true <-> Forall T ns.
Proof.
  intros Hic. revert i. induction ns as [|n ns IH]; intros i; simpl; [split; [constructor|done]|].
  rewrite Forall_cons, <- (IH (S i)), <- (Hic (dot tag (Itoa (Z.of_nat i))) n).
  destruct (ic _ n); [|naive_solver]. destruct (init_nodes _ _ _ ns); naive_solver.
Qed.

Lemma init_entries_total ic tag es (T : Node -> Prop) :
  (forall p n, is_ok (ic p n) = true <-> T n) -> is_ok (init_entries ic tag es) = true <-> Forall (fun e => T e.2) es.
Proof.
  intros Hic. induction es as [|[k n] es IH]; simpl; [split; [constructor|done]|].
  rewrite Forall_cons, <- IH, <- (Hic (dot tag k) n). simpl.
  destruct (ic _ n); [|naive_solver]. destruct (init_entries _ _ es); naive_solver.
Qed.

Lemma setup_with_total ic noder s f (T : Node -> Prop) :
  (forall p n, is_ok (ic p n) = true <-> T n) -> is_ok (setup_with ic noder s f) = true <-> typed_with T noder s f.
Proof.
  intros Hic. unfold setup_with, typed_with. destruct (container s), f as [|[n|]|l|m]; try done.
  - rewrite <- (Hic (BsonTagName s) n). by destruct (ic _ n).
  - destruct noder; simpl; [|naive_solver]. rewrite <- (init_entries_total ic (BsonTagName s)) by done.
    destruct (init_entries _ _ _); naive_solver.
  - destruct noder; simpl; [|naive_solver]. rewrite <- (init_nodes_total ic (BsonTagName s) 0) by done.
    destruct (init_nodes _ _ _ _); naive_solver.
Qed.

Lemma initChild_total s : wf_schema s -> forall path n, is_ok (initChild s path n) = true <-> typed_node s n.
Proof.
  induction s as [t k i cs IH] using schema_induction. intros Hwf path n. rewrite typed_node_fields. simpl.
  destruct (node_data n) as [[a fs]|]; [|naive_solver]. destruct (wf_children _ Hwf) as [Hnd Hall]. simpl in *.
  assert (is_ok (setup_fields (fun c => setup_with (initChild c) true c) cs fs) = true <-> typed_fields true cs fs) as Hs.
  { rewrite setup_fields_total by done. unfold typed_fields. rewrite !Forall_forall in *.
    split; intros Hx c Hc; destruct (Hx c Hc) as (f & Hf & Hok); exists f; (split; [done|]);
      eapply (setup_with_total (initChild c) true c f (typed_node c)); eauto. }
  destruct (setup_fields _ cs fs) as [fs'|]; simpl in *; [split; [intros _; exists a, fs; naive_solver|done]|].
  split; [done|]. intros (a' & fs0 & [= <- <-] & Ht). by apply Hs.
Qed.

Lemma Init_total nodes fs :
  wf_schemas nodes -> is_ok (Init nodes fs) = true <-> typed_fields false nodes fs.
Proof.
  intros [Hnd Hall]. unfold Init.
  assert (is_ok (setup_fields (setupNode false) nodes fs) = true <-> typed_fields false nodes fs) as <-.
  { rewrite setup_fields_total by done. unfold typed_fields. rewrite !Forall_forall in *.
    split; intros Hx c Hc; destruct (Hx c Hc) as (f & Hf & Hok); exists f; (split; [done|]);
      eapply (setup_with_total (initChild c) false c f (typed_node c)); eauto; by apply initChild_total, Hall. }
  by destruct (setup_fields _ nodes fs).
Qed.


(** ** Operations of lists: [list.go]

    A list holds its nodes and, once set up, its schema; an operation changes the nodes and
    reports paths to the list's parent (the address of the data with each). When it panics
    what it did before remains. *)

Notation lists := (list Node * list (string * Z))%type.

(** [NewNode], then [initNode] and [Save] when the list has its schema. *)
Definition attach (s : option ModelNodeSchema) (suffix : string) (data : option Data) : prog lists Node := fun x =>
  match s with
  | None => (Ok (NewNode data), x)
  | Some s =>
      match initChild s (dot (BsonTagName s) suffix) (NewNode data) with
      | Err e => (Err e, x)
      | Ok n => (Ok n, (x.1, x.2 ++ [(node_path n, node_addr n)]))
      end
  end.

Definition in_range {A} (idx : Z) (l : list A) : bool := (0 <=? idx) && (idx <? Z.of_nat (length l)).
Definition out_of_range {A} : res A := panic "index out of range".

Definition List_Update (s : option ModelNodeSchema) (idx : Z) (data : option Data) : prog lists unit := fun x =>
  match attach s (Itoa idx) data x with
  | (Err e, x) => (Err e, x)
  | (Ok n, x) => if in_range idx x.1 then (Ok tt, (<[Z.to_nat idx := n]> x.1, x.2)) else (out_of_range, x)
  end.

(** The loop of [Append]: the next node gets index [idx]. *)
Fixpoint append_from (s : option ModelNodeSchema) (idx : Z) (datas : list (option Data)) : prog lists unit := fun x =>
  match datas with
  | [] => (Ok tt, x)
  | data :: datas =>
      match attach s (Itoa idx) data x with
      | (Err e, x) => (Err e, x)
      | (Ok n, x) => append_from s (idx + 1) datas (x.1 ++ [n], x.2)
      end
  end.
Definition List_Append (s : option ModelNodeSchema) (datas : list (option Data)) : prog lists unit := fun x =>
  append_from s (Z.of_nat (length x.1) - 1 + 0 + 1) datas x.

Definition List_Get (idx : Z) (l : list Node) : res Node :=
  if in_range idx l then match l !! Z.to_nat idx with Some n => Ok n | None => out_of_range end else out_of_range.
Definition List_Len (l : list Node) : Z := Z.of_nat (length l).
Definition List_Data2 (l : list Node) : list (option Data) := node_data <$> l.
(** [Find]: the index and the node, -1 and nil when there is none. *)
Fixpoint find_from (i : Z) (fn : Node -> bool) (l : list Node) : Z * option Node :=
  match l with
  | [] => (-1, None)
  | n :: l => if fn n then (i, Some n) else find_from (i + 1) fn l
  end.
Definition List_Find (fn : Node -> bool) (l : list Node) : Z * option Node := find_from 0 fn l.

Section deleting.
Context {A : Type}.

Definition List_Delete (idx : Z) : prog (list A) unit := fun l =>
  if in_range idx l then (Ok tt, take (Z.to_nat idx) l ++ drop (Z.to_nat idx + 1) l) else (out_of_range, l).

Fixpoint delete_each (idxs : list Z) : prog (list A) unit := fun l =>
  match idxs with
  | [] => (Ok tt, l)
  | idx :: idxs => match List_Delete idx l with (Ok _, l') => delete_each idxs l' | (Err e, l') => (Err e, l') end
  end.
(** [sort.Slice(idxs, idxs[i] > idxs[j])], then the deletions in that order. *)
Definition List_DeleteMore (idxs : list Z) : prog (list A) unit := delete_each (merge_sort Z.ge idxs).

(** The reference: keep the elements whose index is not listed. *)
Fixpoint keep_from (k : Z) (idxs : list Z) (l : list A) : list A :=
  match l with
  | [] => []
  | x :: l => if decide (k ∈ idxs) then keep_from (k + 1) idxs l else x :: keep_from (k + 1) idxs l
  end.

Lemma keep_from_app k idxs l1 l2 :
  keep_from k idxs (l1 ++ l2) = keep_from k idxs l1 ++ keep_from (k + Z.of_nat (length l1)) idxs l2.
Proof.
  revert k. induction l1 as [|x l1 IH]; intros k; simpl; [by rewrite Z.add_0_r|].
  rewrite IH. replace (k + 1 + Z.of_nat (length l1)) with (k + Z.of_nat (S (length l1))) by lia. by destruct (decide _).
Qed.

Lemma keep_from_ext k idxs idxs' l :
  (forall i, k <= i < k + Z.of_nat (length l) -> i ∈ idxs <-> i ∈ idxs') -> keep_from k idxs l = keep_from k idxs' l.
Proof.
  revert k. induction l as [|x l IH]; intros k Hi; simpl; [done|].
  rewrite (IH (k + 1)) by (intros i Hk; apply Hi; simpl; lia).
  assert (k ∈ idxs <-> k ∈ idxs') as Hk by (apply Hi; simpl; lia). destruct (decide (k ∈ idxs)), (decide (k ∈ idxs')); naive_solver.
Qed.

Lemma keep_from_nil k l : keep_from k [] l = l.
Proof.
  revert k. induction l as [|x l IH]; intros k; simpl; [done|].
  destruct (decide (k ∈ [])) as [Hx|]; [by apply not_elem_of_nil in Hx|by rewrite IH].
Qed.

(** Deleting from the highest index down does not move what is still to be deleted. *)
Lemma delete_each_keep idxs l :
  StronglySorted Z.gt idxs -> Forall (fun i => 0 <= i < Z.of_nat (length l)) idxs ->
  delete_each idxs l = (Ok tt, keep_from 0 idxs l).
Proof.
  revert l. induction idxs as [|i idxs IH]; intros l Hs Hr; simpl; [by rewrite keep_from_nil|].
  apply StronglySorted_cons in Hs as [Hgt Hs]. apply Forall_cons in Hr as [Hi Hr].
  unfold List_Delete, in_range. rewrite (proj2 (Z.leb_le 0 i)), (proj2 (Z.ltb_lt i _)) by lia. simpl.
  rewrite Nat.add_1_r. set (n := Z.to_nat i).
  assert (n < length l)%nat as Hn by lia. destruct (lookup_lt_is_Some_2 l n Hn) as [x Hx].
  pose proof (take_drop_middle l n x Hx) as Hl. assert (length (take n l) = n) as Hlen by (rewrite length_take; lia).
  rewrite IH; [|done|].
  2:{ rewrite Forall_forall in *. intros j Hj. specialize (Hgt j Hj). specialize (Hr j Hj).
      rewrite length_app, length_take, length_drop. lia. }
  f_equal. rewrite <- Hl at 3. rewrite !keep_from_app, Hlen. simpl.
  f_equal.
  - apply keep_from_ext. intros j Hj. rewrite elem_of_cons. assert (j <> i) by (rewrite Hlen in Hj; lia). naive_solver.
  - destruct (decide _) as [_|Hno]; [|destruct Hno; apply elem_of_cons; left; lia].
    rewrite (keep_from_ext _ idxs []), (keep_from_ext _ (i :: idxs) []); [by rewrite !keep_from_nil|..];
      intros j Hj; rewrite Forall_forall in Hgt; split; intros Hin;
      [|by apply not_elem_of_nil in Hin| |by apply not_elem_of_nil in Hin]; exfalso.
    + apply elem_of_cons in Hin as [->|Hin]; [lia|]. specialize (Hgt j Hin). lia.
    + specialize (Hgt j Hin). lia.
Qed.

Lemma sorted_strictly idxs : NoDup idxs -> StronglySorted Z.gt (merge_sort Z.ge idxs).
Proof.
  intros Hnd. assert (StronglySorted Z.ge (merge_sort Z.ge idxs)) as Hs.
  { apply StronglySorted_merge_sort; [intros x y z; lia|intros x y; lia]. }
  assert (NoDup (merge_sort Z.ge idxs)) as Hnd' by by rewrite merge_sort_Permutation.
  induction Hs as [|i l Hs IH Hall]; [constructor|]. apply NoDup_cons in Hnd' as [Hni Hnd']. constructor; [by apply IH|].
  rewrite Forall_forall in *. intros j Hj. specialize (Hall j Hj). assert (i <> j) by congruence. lia.
Qed.

(** Deleting several elements one by one from the highest index down removes exactly the
    elements that had the given indices and keeps the others in their order, for distinct
    indices inside the list, in whatever order the caller gives them. *)
Theorem delete_more_removes_indices idxs l :
  NoDup idxs -> Forall (fun i => 0 <= i < Z.of_nat (length l)) idxs ->
  List_DeleteMore idxs l = (Ok tt, keep_from 0 idxs l).
Proof.
  intros Hnd Hr. unfold List_DeleteMore. rewrite delete_each_keep.
  - f_equal. apply keep_from_ext. intros i _. by rewrite merge_sort_Permutation.
  - by apply sorted_strictly.
  - by rewrite merge_sort_Permutation.
Qed.

End deleting.

(** ** Operations of maps: [map.go]

    The entries as a list without repeated keys; keys are what [fmt.Sprint] prints. *)
Notation maps := (list (string * Node) * list (string * Z))%type.

Definition put_entry (k : string) (n : Node) (es : list (string * Node)) : list (string * Node) :=
  filter (fun e => e.1 <> k) es ++ [(k, n)].

(** The entry is put before the node is set up; [NewNode] is one object. *)
Definition Map_Set (s : option ModelNodeSchema) (k : string) (v : option Data) : prog maps unit := fun x =>
  match s with
  | None => (Ok tt, (put_entry k (NewNode v) x.1, x.2))
  | Some s =>
      match initChild s (dot (BsonTagName s) k) (NewNode v) with
      | Err e => (Err e, (put_entry k (NewNode v) x.1, x.2))
      | Ok n => (Ok tt, (put_entry k n x.1, x.2 ++ [(node_path n, node_addr n)]))
      end
  end.
Definition Map_Delete (k : string) (es : list (string * Node)) : list (string * Node) := filter (fun e => e.1 <> k) es.
Definition Map_Clear (es : list (string * Node)) : list (string * Node) := [].
Definition Map_Get2 (k : string) (es : list (string * Node)) : option Node :=
  snd <$> List.find (fun e => bool_decide (e.1 = k)) es.
Definition Map_Len (es : list (string * Node)) : Z := Z.of_nat (length es).
Definition Map_GetKeys (es : list (string * Node)) : list string := es.*1.
Definition Map_GetValueSlice (es : list (string * Node)) : list (option Data) := node_data <$> es.*2.

(** ** Containers keep the paths of their nodes *)

Definition named (tag suffix : string) (n : Node) : Prop := node_path n = dot tag suffix /\ node_parent n = true.
Definition list_named (tag : string) (l : list Node) : Prop := forall i n, l !! i = Some n -> named tag (Itoa (Z.of_nat i)) n.
Definition map_named (tag : string) (es : list (string * Node)) : Prop := forall k n, (k, n) ∈ es -> named tag k n.

Lemma attach_ok s suffix data x n x' : attach (Some s) suffix data x = (Ok n, x') ->
  named (BsonTagName s) suffix n /\ x' = (x.1, x.2 ++ [(dot (BsonTagName s) suffix, node_addr n)]).
Proof.
  simpl. destruct (initChild s _ _) as [m|] eqn:E; [|done]. intros [= <- <-].
  apply initChild_ok in E as (Hp & Hb & _). split; [by split|]. by rewrite Hp.
Qed.

Lemma list_named_snoc tag l n : list_named tag l -> named tag (Itoa (Z.of_nat (length l))) n -> list_named tag (l ++ [n]).
Proof.
  intros Hl Hn i m [Hm|[Hle Hm]]%lookup_app_Some; [by apply Hl|].
  apply list_lookup_singleton_Some in Hm as [Hi <-]. by replace i with (length l) by lia.
Qed.

Lemma append_from_named s datas l reps : forall res x',
  list_named (BsonTagName s) l -> append_from (Some s) (Z.of_nat (length l)) datas (l, reps) = (res, x') ->
  list_named (BsonTagName s) x'.1 /\ l `prefix_of` x'.1 /\
  exists new, x'.2 = reps ++ new /\ (forall i a, new !! i = Some a -> a.1 = dot (BsonTagName s) (Itoa (Z.of_nat (length l + i)))) /\
    (res = Ok tt -> length x'.1 = (length l + length datas)%nat /\ length new = length datas).
Proof.
  revert l reps. induction datas as [|data datas IH]; intros l reps res x' Hl; cbn [append_from].
  { intros [= <- <-]. split_and!; [done|done|]. exists []. rewrite app_nil_r. split_and!; [done|done|simpl; lia]. }
  destruct (attach (Some s) _ data (l, reps)) as [[n|e] x1] eqn:Ea.
  - apply attach_ok in Ea as [Hn ->]. cbn [fst snd].
    replace (Z.of_nat (length l) + 1) with (Z.of_nat (length (l ++ [n]))) by (rewrite length_app; simpl; lia).
    intros Hgo. apply IH in Hgo as (Hnamed & Hpre & new & Hx & Hnew & Hlen); [|by apply list_named_snoc].
    split_and!; [done|by eapply prefix_app_l|].
    exists ((dot (BsonTagName s) (Itoa (Z.of_nat (length l))), node_addr n) :: new). split_and!.
    + by rewrite Hx, <- app_assoc.
    + intros [|i] a; simpl; [intros [= <-]; by rewrite Nat.add_0_r|]. intros Ha. rewrite (Hnew i a Ha), length_app.
      simpl. do 3 f_equal. lia.
    + intros Hok. destruct (Hlen Hok) as [-> Hnl]. rewrite length_app. simpl. lia.
  - unfold attach in Ea. destruct (initChild s _ _); simplify_eq. intros [= <- <-].
    split_and!; [done|done|]. exists []. rewrite app_nil_r. by split_and!.
Qed.

(** Lists and maps that are set up keep their nodes named by their place: appending,
    replacing an element and setting a key attach the new node under its own index or key
    and report exactly that place to the parent; all other nodes stay named. *)
Lemma containers_keep_names s :
  (forall datas l reps res x', list_named (BsonTagName s) l ->
     List_Append (Some s) datas (l, reps) = (res, x') ->
     list_named (BsonTagName s) x'.1 /\ l `prefix_of` x'.1 /\
     exists new, x'.2 = reps ++ new /\
       (forall i a, new !! i = Some a -> a.1 = dot (BsonTagName s) (Itoa (Z.of_nat (length l + i)))) /\
       (res = Ok tt -> length x'.1 = (length l + length datas)%nat /\ length new = length datas)) /\
  (forall idx data l reps x', list_named (BsonTagName s) l ->
     List_Update (Some s) idx data (l, reps) = (Ok tt, x') ->
     list_named (BsonTagName s) x'.1 /\ length x'.1 = length l /\
     exists addr, x'.2 = reps ++ [(dot (BsonTagName s) (Itoa idx), addr)]) /\
  (forall k v es reps x', map_named (BsonTagName s) es ->
     Map_Set (Some s) k v (es, reps) = (Ok tt, x') ->
     map_named (BsonTagName s) x'.1 /\ (exists n, (k, n) ∈ x'.1) /\
     exists addr, x'.2 = reps ++ [(dot (BsonTagName s) k, addr)]).
Proof.
  split_and!.
  - intros datas l reps res x' Hl. unfold List_Append. cbn [fst].
    replace (Z.of_nat (length l) - 1 + 0 + 1) with (Z.of_nat (length l)) by lia. by apply append_from_named.
  - intros idx data l reps x' Hl. unfold List_Update. destruct (attach (Some s) _ data (l, reps)) as [[n|e] x1] eqn:Ea; [|done].
    apply attach_ok in Ea as [Hn ->]. cbn [fst snd]. destruct (in_range idx l) eqn:Er; [|done]. intros [= <-].
    unfold in_range in Er. breflect. cbn [fst snd]. split_and!; [|apply length_insert|eauto].
    intros i m Hm. destruct (decide (i = Z.to_nat idx)) as [->|Hne].
    + rewrite list_lookup_insert_eq in Hm by lia. injection Hm as <-. by rewrite Z2Nat.id by lia.
    + rewrite list_lookup_insert_ne in Hm by done. by apply Hl.
  - intros k v es reps x' Hes. simpl. destruct (initChild s _ _) as [n|] eqn:Ei; [|done]. intros [= <-]. cbn [fst snd].
    apply initChild_ok in Ei as (Hp & Hb & _). rewrite Hp. split_and!; [|exists n; unfold put_entry; set_solver|eauto].
    intros k' m. unfold put_entry. rewrite elem_of_app, list_elem_of_filter, list_elem_of_singleton.
    intros [[_ Hin]|[= -> ->]]; [by apply Hes|by split].
Qed.

(** Deleting an element does not rename the elements behind it, and reports nothing: the
    node that has become element 0 still reports the path of element 1. *)
Lemma delete_leaves_stale_names :
  let s := mkSchema "items" ContainerTypeList 0 [] in
  let data a := Some (mkData a []) in
  let l := (List_Append (Some s) [data 1; data 2] ([], [])).2.1 in
  node_path <$> (List_Delete 0 l).2 = ["items.1"].
Proof. done. Qed.

(** ** Reading the schema off a model type: [schema_parser.go], [schema.go]

    The fields of a struct type, as reflection and the tag parser of the driver show them:
    name, whether it is exported, the name and the skip flag of its tag, and what it holds.
    The data type of a node is a pointer to a struct. *)
Inductive GoField : Type :=
  | mkGoField (Name : string) (exported : bool) (tag : string) (skip : bool) (holds : Holds)
with Holds : Type :=
  | OtherType
  | RootType
  | NodeType (fields : list GoField)
  | ListType (fields : list GoField)
  | MapType (key : Z) (fields : list GoField).

Definition is_root (f : GoField) : bool := match f with mkGoField _ _ _ _ RootType => true | _ => false end.

(** [reflect.Kind]: Int to Int64 are 2 to 6, Uint to Uint64 are 7 to 11, String is 24. *)
Definition checkMapKey (kind : Z) : res unit :=
  if (kind =? 24) || ((2 <=? kind) && (kind <=? 11)) then Ok tt else Err (Text "map key must be int/uint or string").

(** [schema.Children[Schema2.BsonTagName] = Schema2] *)
Definition put_schema (c : ModelNodeSchema) (cs : list ModelNodeSchema) : list ModelNodeSchema :=
  filter (fun d => BsonTagName d <> BsonTagName c) cs ++ [c].

(** The loops over the fields of a struct; [wrap] is what is made of an error. *)
Definition parse_fields (parse : nat -> GoField -> res (option ModelNodeSchema)) (wrap : GoField -> error -> error) :
    nat -> list GoField -> list ModelNodeSchema -> res (list ModelNodeSchema) :=
  fix go i fs cs :=
    match fs with
    | [] => Ok cs
    | f :: fs =>
        match parse i f with
        | Err e => Err (wrap f e)
        | Ok None => go (S i) fs cs
        | Ok (Some c) => go (S i) fs (put_schema c cs)
        end
    end.

Definition field_Name (f : GoField) : string := let '(mkGoField n _ _ _ _) := f in n.

Fixpoint parseStructField (i : nat) (f : GoField) : res (option ModelNodeSchema) :=
  let failed e := Err (Wrapf "parse mode node schema failed" e) in
  match f with
  | mkGoField _ exported tag skip holds =>
      if negb exported then Ok None
      else
        let children k fields :=
          match parse_fields parseStructField (fun g => Wrapf ("parse child failed: " +:+ field_Name g)) 0 fields [] with
          | Err e => failed e
          | Ok cs => Ok (Some (mkSchema tag k i cs))
          end in
        match holds with
        | OtherType | RootType => Ok None
        | NodeType fields => if skip then Ok None else children ContainerTypeNone fields
        | ListType fields => if skip then Ok None else children ContainerTypeList fields
        | MapType key fields =>
            if skip then Ok None
            else match checkMapKey key with Err e => failed e | Ok _ => children ContainerTypeMap fields end
        end
  end.

Definition findModelNodeRootField (fields : list GoField) : res unit :=
  if existsb is_root fields then Ok tt else Err (Text "no model root field").

(** [ParseSchema] of a pointer to a struct with these fields. *)
Definition ParseSchema (fields : list GoField) : res (list ModelNodeSchema) :=
  match findModelNodeRootField fields with
  | Err e => Err (Wrapf "parse model schema failed" e)
  | Ok _ =>
      match parse_fields parseStructField (fun _ e => e) 0 fields [] with
      | Err e => Err (Wrapf "parse model schema failed" e)
      | Ok nodes => Ok nodes
      end
  end.

(** [SchemaManager]: the schemas of the registered types, by the name of the type. *)
Notation SchemaManager := (gmap string (list ModelNodeSchema)).
Definition Register (mgr : SchemaManager) (rt : string) (fields : list GoField) : res SchemaManager :=
  match ParseSchema fields with Err e => Err e | Ok nodes => Ok (<[rt := nodes]> mgr) end.
Definition Parse (mgr : SchemaManager) (rt : string) : res (list ModelNodeSchema) :=
  match mgr !! rt with
  | Some nodes => Ok nodes
  | None => Err (Text ("not register this model: " +:+ rt))
  end.
(** [Init2]; a panic of [Init] is not wrapped. *)
Definition Init2 (mgr : SchemaManager) (rt : string) (fs : list Field) : res (list Field * NodeRoot) :=
  match Parse mgr rt with
  | Err e => Err (Wrapf "parse schema" e)
  | Ok nodes => Init nodes fs
  end.

(** Induction on the fields of types, through the fields of the data they hold. *)
Definition holds_fields (h : Holds) : list GoField :=
  match h with NodeType fs | ListType fs | MapType _ fs => fs | _ => [] end.

Lemma field_induction (P : GoField -> Prop) :
  (forall n e t s h, Forall P (holds_fields h) -> P (mkGoField n e t s h)) -> forall f, P f.
Proof.
  intros Hstep. fix IH 1. intros [n e t s h]. apply Hstep.
  assert (forall fs, Forall P fs) as Hall by (induction fs; constructor; [apply IH|done]).
  by destruct h; simpl; [constructor|constructor|..].
Qed.

(** Parsed fields have different indices, and are well-formed if their parts are. *)
Lemma parse_fields_wf parse wrap fs :
  Forall (fun f => forall i c, parse i f = Ok (Some c) -> field c = i /\ wf_schema c) fs ->
  forall i cs cs', wf_schemas cs -> Forall (fun c => field c < i)%nat cs -> parse_fields parse wrap i fs cs = Ok cs' -> wf_schemas cs'.
Proof.
  induction 1 as [|f fs Hf Hfs IH]; intros i cs cs' Hwf Hlt; simpl; [by intros [= <-]|].
  destruct (parse i f) as [[c|]|e] eqn:E; [| |done].
  - destruct (Hf _ _ E) as [Hi Hc]. apply IH.
    + destruct Hwf as [Hnd Hall]. split.
      * unfold put_schema. apply NoDup_fmap_snoc; [eapply NoDup_fmap_sublist; [apply sublist_filter|done]|].
        intros d [_ Hd]%list_elem_of_filter. rewrite Forall_forall in Hlt. specialize (Hlt d Hd). simpl in Hlt. lia.
      * apply Forall_app. split; [|by constructor]. rewrite !Forall_forall in *. intros d [_ Hd]%list_elem_of_filter. auto.
    + apply Forall_app. split; [|constructor; [lia|constructor]].
      rewrite !Forall_forall in *. intros d [_ Hd]%list_elem_of_filter. specialize (Hlt d Hd). simpl in Hlt. lia.
  - apply IH; [done|]. eapply Forall_impl; [exact Hlt|]. simpl. lia.
Qed.

Lemma parseStructField_wf f : forall i c, parseStructField i f = Ok (Some c) -> field c = i /\ wf_schema c.
Proof.
  induction f as [n e t s h IH] using field_induction. intros i c.
  assert (forall k cs, parse_fields parseStructField (fun g => Wrapf ("parse child failed: " +:+ field_Name g)) 0 (holds_fields h) [] = Ok cs ->
    field (mkSchema t k i cs) = i /\ wf_schema (mkSchema t k i cs)) as Hgo.
  { intros k cs Hp. assert (wf_schemas cs) as [Hnd Hall].
    { eapply (parse_fields_wf parseStructField); [exact IH| | |exact Hp]; [split; constructor|constructor]. }
    split; [done|]. simpl. split; [done|]. clear Hp Hnd. induction Hall; [done|]. by split. }
  simpl. destruct e; [|done]. simpl.
  destruct h as [| |fs|fs|key fs]; simpl in *; [done|done|..]; (destruct s; [done|]);
    try (destruct (checkMapKey key); [|done]);
    (destruct (parse_fields _ _ _ fs []) as [cs|] eqn:E; [|done]); intros [= <-]; by apply (Hgo ContainerTypeNone).
Qed.

(** The schema read off a model type is well-formed: so for every registered model, any
    document set up with [Init2] has nodes that report their own place. *)
Theorem parsed_models_report_places `{!MapRange string Z} mgr rt fields mgr' fs fs' r0 a rest n nm r :
  Register mgr rt fields = Ok mgr' -> Init2 mgr' rt fs = Ok (fs', r0) ->
  node_at fs' a rest = Some n ->
  (nodes ← mgr' !! rt; place_name nodes a rest) = Some nm ->
  Save fs' a rest r = addDirty nm (node_addr n) r.
Proof.
  unfold Register, Init2, Parse. destruct (ParseSchema fields) as [nodes|] eqn:Ep; [|done]. intros [= <-].
  rewrite lookup_insert_eq. simpl. unfold Init. destruct (setup_fields _ nodes fs) as [fs1|] eqn:E; [|done].
  intros [= <- <-] Hn Hnm.
  assert (wf_schemas nodes) as Hwf.
  { unfold ParseSchema in Ep. destruct (findModelNodeRootField fields); [|done].
    destruct (parse_fields _ _ _ fields []) as [cs|] eqn:Ef; [|done]. injection Ep as <-.
    refine (parse_fields_wf parseStructField _ _ _ 0 [] _ _ _ Ef); [|split; constructor|constructor].
    rewrite Forall_forall. intros f _. apply parseStructField_wf. }
  unfold Save. by rewrite (report_place false nodes fs fs1 a rest n nm), Hn.
Qed.

(** ** Runs *)

Section runs.
#[local] Existing Instance canonical_range.

(** A hero with a list of items. *)
Definition hero_model : list GoField :=
  [mkGoField "Root" true "root" false RootType;
   mkGoField "Hero" true "hero" false (NodeType [mkGoField "Items" true "items" false (ListType [])])].
Definition item (a : Z) : Node := NewNode (Some (mkData a [])).
Definition hero : list Field :=
  [Plain; NodeField (Some (NewNode (Some (mkData 1 [ListField (Some (mkList [item 2; item 3] false))]))))].
Definition items_schema : ModelNodeSchema := mkSchema "items" ContainerTypeList 0 [].
Definition hero_schema : list ModelNodeSchema := [mkSchema "hero" ContainerTypeNone 1 [items_schema]].
Definition attached_item (i : string) (a : Z) : Node := mkNode (Some (mkData a [])) i true.
Definition attached_hero : list Field :=
  [Plain; NodeField (Some (mkNode (Some (mkData 1 [ListField (Some (mkList
     [attached_item "items.0" 2; attached_item "items.1" 3] true))])) "hero" true))].

Lemma parsed_models_report_places_witness :
  Save attached_hero (AtNode 1) [AtList 0 1] ∅ = addDirty "hero.items.1" 3 ∅ /\
  Save attached_hero (AtNode 1) [AtList 0 1] ∅ = Ok {["hero.items.1" := 3]}.
Proof.
  split; [|vm_compute; reflexivity].
  exact (parsed_models_report_places ∅ "Hero" hero_model {["Hero" := hero_schema]} hero attached_hero ∅ (AtNode 1) [AtList 0 1]
    (attached_item "items.1" 3) "hero.items.1" ∅ eq_refl eq_refl eq_refl eq_refl).
Defined.

Lemma hero_schema_wf : wf_schemas hero_schema.
Proof.
  split; [apply NoDup_singleton|]. constructor; [|constructor]. simpl. split; [apply NoDup_singleton|].
  split; [|done]. split; [constructor|done].
Qed.


Lemma dirty_paths_cover_saves_witness :
  exists r, reports [("a.b", 1); ("a.c", 2); ("a", 3)] ResetDirty = Ok r /\ separate r /\ covers r "a.b".
Proof.
  destruct (dirty_paths_cover_saves [("a.b", 1); ("a.c", 2); ("a", 3)]) as (r & Hr & Hs & Hc & _).
  { intros x Hx. repeat (apply elem_of_cons in Hx as [->|Hx]; [done|]). by apply not_elem_of_nil in Hx. }
  exists r. split_and!; [exact Hr|exact Hs|]. apply Hc. exists ("a.b", 1). split; [by left|by left].
Defined.

Lemma delete_more_removes_indices_witness :
  List_DeleteMore [0; 3; 1] ["a"; "b"; "c"; "d"] = (Ok tt, ["c"]).
Proof.
  refine (delete_more_removes_indices [0; 3; 1] ["a"; "b"; "c"; "d"] _ _).
  - apply (bool_decide_unpack _). vm_compute. exact I.
  - repeat constructor; simpl; lia.
Defined.

End runs.

End Documents.
