(* ===== verification/DocumentCodec.v ===== *)
(** * Storing and copying documents: the marshalling methods, [DeepCopy] and the iterators of
    [services/common/repository/dbmodel/md]

    The marshalling libraries are parameters: they turn the data of a node into a tree (the
    value that JSON text or BSON bytes denote) and back; [content] is what of the data is
    stored (not its address, nor where it hangs). Lists and maps wrap this data in nodes. *)

From S2P Require Import Prelude Documents.
Import Documents.
Open Scope Z_scope.

Module DocumentCodec.

(** ** Iterating: [Foreach], [Foreach2]

    The function says whether to stop; it works on a state [S]. *)
Section iterating.
Context {S : Type}.

Fixpoint foreach {A} (fn : A -> S -> bool * S) (l : list A) (s : S) : S :=
  match l with
  | [] => s
  | a :: l => let '(isBreak, s) := fn a s in if isBreak then s else foreach fn l s
  end.
Definition List_Foreach (fn : nat -> S -> bool * S) (l : list Node) (s : S) : S := foreach fn (seq 0 (length l)) s.
Definition List_Foreach2 (fn : nat -> option Node -> S -> bool * S) (l : list Node) (s : S) : S :=
  foreach (fun i => fn i (l !! i)) (seq 0 (length l)) s.
(** The entries in the order the runtime takes them. *)
Definition Map_Foreach (fn : string -> S -> bool * S) (es : list (string * Node)) (s : S) : S := foreach fn es.*1 s.
Definition Map_Foreach2 (fn : string -> Node -> S -> bool * S) (es : list (string * Node)) (s : S) : S :=
  foreach (fun e => fn e.1 e.2) es s.

(** A function that never breaks folds over all elements. *)
Lemma foreach_all {A} (f : S -> A -> S) (l : list A) s : foreach (fun a s => (false, f s a)) l s = foldl f s l.
Proof. revert s. induction l as [|a l IH]; intros s; simpl; [done|]. apply IH. Qed.

(** A function that breaks at the first element that satisfies [P] has seen the elements up to it. *)
Lemma foreach_until {A} (P : A -> bool) (f : S -> A -> S) (l : list A) s :
  foreach (fun a s => (P a, f s a)) l s =
  foldl f s (match list_find (fun a => P a = true) l with Some (i, _) => take (Datatypes.S i) l | None => l end).
Proof.
  revert s. induction l as [|a l IH]; intros s; simpl; [done|]. destruct (P a) eqn:E; simpl; [done|].
  rewrite IH. by destruct (list_find _ l) as [[i b]|].
Qed.
End iterating.

(** [GetKeys] and [GetValueSlice] collect with the iterators. *)
Lemma get_keys_iterates es : Map_GetKeys es = Map_Foreach (fun (k : string) (keys : list string) => (false, keys ++ [k])) es [].
Proof.
  unfold Map_GetKeys, Map_Foreach. rewrite foreach_all.
  assert (forall l acc : list string, foldl (fun keys k => keys ++ [k]) acc l = acc ++ l) as Hf.
  { induction l as [|k l IH]; intros acc; simpl; [by rewrite app_nil_r|]. by rewrite IH, <- app_assoc. }
  by rewrite Hf.
Qed.

Definition List_Data (l : list Node) : list Node := l.
Definition Map_Data (es : list (string * Node)) : list (string * Node) := es.
Definition Map_Data2 (es : list (string * Node)) : list (string * option Data) := (fun e => (e.1, node_data e.2)) <$> es.
Definition Map_Get (k : string) (es : list (string * Node)) : option Node := Map_Get2 k es.

(** ** Trees *)

Inductive tree :=
  | Null
  | Leaf (s : string)
  | Arr (l : list tree)
  | Obj (l : list (string * tree)).

Definition traverse {A B} (f : A -> res B) : list A -> res (list B) :=
  fix go l :=
    match l with
    | [] => Ok []
    | a :: l =>
        match f a with
        | Err e => Err e
        | Ok b => match go l with Ok bs => Ok (b :: bs) | Err e => Err e end
        end
    end.

(** One of the libraries on the data of nodes: a struct behind a pointer. [zero] is what
    [reflect.New] makes. *)
Class Library := {
  Marshal : Data -> res tree;
  Unmarshal : tree -> Data -> res Data;
  zero : Data
}.
Class LibraryLaws {C} (content : Data -> C) `{Library} := {
  marshal_not_null d t : Marshal d = Ok t -> t <> Null;
  unmarshal_marshal d t : Marshal d = Ok t -> exists d', Unmarshal t zero = Ok d' /\ content d' = content d
}.

Definition keyed {A B} (f : A -> res B) (e : string * A) : res (string * B) :=
  match f e.2 with Ok b => Ok (e.1, b) | Err x => Err x end.

Section json.
Context `{Library}.

(** A nil pointer is written as null; null is read into a pointer as nil. *)
Definition marshal_pointer (d : option Data) : res tree := match d with None => Ok Null | Some d => Marshal d end.
Definition unmarshal_pointer (t : tree) : res (option Data) :=
  match t with
  | Null => Ok None
  | _ => match Unmarshal t zero with Ok d => Ok (Some d) | Err e => Err e end
  end.

Definition Node_MarshalJSON (n : option Node) : res tree :=
  match n with None => Ok Null | Some n => marshal_pointer (node_data n) end.
(** Null leaves the new struct as it is. *)
Definition Node_UnmarshalJSON (t : tree) (n : Node) : res Node :=
  match t with
  | Null => Ok (mkNode (Some zero) (node_path n) (node_parent n))
  | _ => match Unmarshal t zero with Ok d => Ok (mkNode (Some d) (node_path n) (node_parent n)) | Err e => Err e end
  end.

(** The list or its slice of nodes may be nil. *)
Definition List_MarshalJSON (l : option (option (list Node))) : res tree :=
  match l with
  | Some (Some ns) => match traverse (fun n => Node_MarshalJSON (Some n)) ns with Ok ts => Ok (Arr ts) | Err e => Err e end
  | _ => Ok (Arr [])
  end.
Definition List_UnmarshalJSON (t : tree) : res (list Node) :=
  match t with
  | Null => Ok []
  | Arr ts => match traverse unmarshal_pointer ts with Ok ds => Ok (NewNode <$> ds) | Err e => Err e end
  | _ => Err (Text "json: cannot unmarshal into Go value of type []T")
  end.
Definition Map_MarshalJSON (m : option (option (list (string * Node)))) : res tree :=
  match m with
  | Some (Some es) => match traverse (keyed (fun n => Node_MarshalJSON (Some n))) es with Ok ts => Ok (Obj ts) | Err e => Err e end
  | _ => Ok (Obj [])
  end.
Definition new_entries (ds : list (string * option Data)) : list (string * Node) := (fun e => (e.1, NewNode e.2)) <$> ds.
Definition Map_UnmarshalJSON (t : tree) : res (list (string * Node)) :=
  match t with
  | Null => Ok []
  | Obj ts => match traverse (keyed unmarshal_pointer) ts with Ok ds => Ok (new_entries ds) | Err e => Err e end
  | _ => Err (Text "json: cannot unmarshal into Go value of type map[K]T")
  end.
End json.

Section bson.
Context `{Library}.

Definition Node_MarshalBSONValue (n : option Node) : res tree :=
  match n with
  | None => Ok Null
  | Some n => match node_data n with None => Ok Null | Some d => Marshal d end
  end.
Definition Node_UnmarshalBSON (t : tree) (n : Node) : res Node :=
  match Unmarshal t zero with Ok d => Ok (mkNode (Some d) (node_path n) (node_parent n)) | Err e => Err e end.

Definition List_MarshalBSONValue (l : option (list Node)) : res tree :=
  match l with
  | None | Some [] => Ok (Arr [])
  | Some ns => match traverse (fun n => Node_MarshalBSONValue (Some n)) ns with Ok ts => Ok (Arr ts) | Err e => Err e end
  end.
(** Every element is read as a document, null too. *)
Definition List_UnmarshalBSONValue (t : tree) : res (list Node) :=
  match t with
  | Arr ts => match traverse (fun t => Unmarshal t zero) ts with Ok ds => Ok ((fun d => NewNode (Some d)) <$> ds) | Err e => Err e end
  | Obj ts => match traverse (fun e => Unmarshal e.2 zero) ts with Ok ds => Ok ((fun d => NewNode (Some d)) <$> ds) | Err e => Err e end
  | _ => Err (Text "length read exceeds number of bytes available")
  end.
Definition Map_MarshalBSONValue (m : option (list (string * Node))) : res tree :=
  match m with
  | None | Some [] => Ok (Obj [])
  | Some es => match traverse (keyed (fun n => Node_MarshalBSONValue (Some n))) es with Ok ts => Ok (Obj ts) | Err e => Err e end
  end.
Definition Map_UnmarshalBSONValue (t : tree) : res (list (string * Node)) :=
  match t with
  | Obj ts => match traverse (keyed unmarshal_pointer) ts with Ok ds => Ok (new_entries ds) | Err e => Err e end
  | _ => Err (Text "length read exceeds number of bytes available")
  end.
End bson.

(** ** Round trips *)

Section roundtrip.
Context {C : Type} (content : Data -> C) `{LibraryLaws C content}.

(** What of a node is stored: whether it has data, and the content of the data. *)
Definition stored (n : Node) : option C := content <$> node_data n.
(** A node as [NewNode] makes it: it belongs to no document yet. *)
Definition detached (n : Node) : Prop := node_path n = "" /\ node_parent n = false.

Lemma traverse_roundtrip {A B D} (f : A -> res B) (g : B -> res D) (R : A -> D -> Prop) l ts :
  (forall a b, a ∈ l -> f a = Ok b -> exists d, g b = Ok d /\ R a d) -> traverse f l = Ok ts ->
  exists ds, traverse g ts = Ok ds /\ Forall2 R l ds.
Proof.
  revert ts. induction l as [|a l IH]; intros ts Hfg; simpl; [intros [= <-]; exists []; split; [done|constructor]|].
  destruct (f a) as [b|] eqn:Ea; [|done]. destruct (traverse f l) as [bs|] eqn:El; [|done]. intros [= <-].
  destruct (Hfg a b) as (d & Hd & HR); [by left|done|]. destruct (IH bs) as (ds & Hds & Hall); [|done|].
  { intros a' b' Hin. apply Hfg. by right. }
  exists (d :: ds). simpl. rewrite Hd, Hds. split; [done|by constructor].
Qed.

Lemma pointer_roundtrip d t : marshal_pointer d = Ok t -> exists d', unmarshal_pointer t = Ok d' /\ content <$> d' = content <$> d.
Proof.
  destruct d as [d|]; simpl; [|intros [= <-]; by exists None]. intros Hm. pose proof (marshal_not_null _ _ Hm) as Hn.
  destruct (unmarshal_marshal _ _ Hm) as (d' & Hu & Hc). exists (Some d'). simpl. rewrite Hc. split; [|done].
  unfold unmarshal_pointer. destruct t; [done|by rewrite Hu..].
Qed.

Lemma keyed_roundtrip (n : string * Node) t : keyed (fun n => marshal_pointer (node_data n)) n = Ok t ->
  exists d, keyed unmarshal_pointer t = Ok d /\ (n.1 = d.1 /\ stored n.2 = content <$> d.2).
Proof.
  unfold keyed. destruct (marshal_pointer (node_data n.2)) as [t'|] eqn:E; [|done]. intros [= <-]. simpl.
  apply pointer_roundtrip in E as (d & -> & Hd). eexists. split; [done|]. simpl. split; [done|by rewrite Hd].
Qed.

Lemma new_nodes (l : list Node) (ds : list (option Data)) : Forall2 (fun n d => stored n = content <$> d) l ds ->
  stored <$> (NewNode <$> ds) = stored <$> l /\ Forall detached (NewNode <$> ds).
Proof.
  induction 1 as [|n d l ds Hn Hl [IH1 IH2]]; [done|]. split; [|by constructor].
  rewrite !fmap_cons, IH1. f_equal. unfold stored at 1. simpl. by rewrite Hn.
Qed.

Lemma new_entries_ok (es : list (string * Node)) ds : Forall2 (fun e d => e.1 = d.1 /\ stored e.2 = content <$> d.2) es ds ->
  (fun e => (e.1, stored e.2)) <$> new_entries ds = (fun e => (e.1, stored e.2)) <$> es /\ Forall (fun e => detached e.2) (new_entries ds).
Proof.
  induction 1 as [|e d es ds [Hk He] Hl [IH1 IH2]]; [done|]. unfold new_entries in *. rewrite !fmap_cons. split; [|by constructor].
  rewrite IH1. f_equal. simpl. unfold stored at 1. simpl. by rewrite Hk, He.
Qed.

(** Writing and reading entries, in either format. *)
Lemma entries_roundtrip (es : list (string * Node)) ts : traverse (keyed (fun n => marshal_pointer (node_data n))) es = Ok ts ->
  exists ds, traverse (keyed unmarshal_pointer) ts = Ok ds /\
    (fun e => (e.1, stored e.2)) <$> new_entries ds = (fun e => (e.1, stored e.2)) <$> es /\ Forall (fun e => detached e.2) (new_entries ds).
Proof.
  intros Ht. destruct (traverse_roundtrip (keyed (fun n => marshal_pointer (node_data n))) (keyed unmarshal_pointer) (fun e d => e.1 = d.1 /\ stored e.2 = content <$> d.2) es ts)
    as (ds & Hds & Hall); [intros e t _; apply keyed_roundtrip|done|].
  exists ds. split; [done|]. by apply new_entries_ok.
Qed.

(** The empty container is no special case. *)
Lemma Map_MarshalBSON_all es : Map_MarshalBSONValue (Some es) =
  match traverse (keyed (fun n => marshal_pointer (node_data n))) es with Ok ts => Ok (Obj ts) | Err e => Err e end.
Proof. by destruct es. Qed.
Lemma List_MarshalBSON_all l : List_MarshalBSONValue (Some l) =
  match traverse (fun n => marshal_pointer (node_data n)) l with Ok ts => Ok (Arr ts) | Err e => Err e end.
Proof. by destruct l. Qed.


End roundtrip.
(** ** Copying: [DeepCopy]

    The library copies data recursively, to new addresses, and uses the [DeepCopy] methods
    of the values that have one: those drop path, parent and schema. [calls_nil] tells
    whether it calls them on nil pointers, which dereferences the pointer. *)

Section copying.
Context (fresh : Z -> Z) (calls_nil : bool).

Definition copy_pointer {A} (copy : A -> res A) (p : option A) : res (option A) :=
  match p with
  | None => if calls_nil then panic "invalid memory address or nil pointer dereference" else Ok None
  | Some a => match copy a with Ok b => Ok (Some b) | Err e => Err e end
  end.

Fixpoint Node_DeepCopy (n : Node) : res Node :=
  match n with
  | mkNode None _ _ => Ok (NewNode None)
  | mkNode (Some d) _ _ => match copy_data d with Ok d => Ok (NewNode (Some d)) | Err e => Err e end
  end
with copy_data (d : Data) : res Data :=
  match d with
  | mkData a fs => match traverse copy_field fs with Ok fs => Ok (mkData (fresh a) fs) | Err e => Err e end
  end
with copy_field (f : Field) : res Field :=
  match f with
  | Plain => Ok Plain
  | NodeField n => match copy_pointer Node_DeepCopy n with Ok n => Ok (NodeField n) | Err e => Err e end
  | ListField l => match copy_pointer List_DeepCopy l with Ok l => Ok (ListField l) | Err e => Err e end
  | MapField m => match copy_pointer Map_DeepCopy m with Ok m => Ok (MapField m) | Err e => Err e end
  end
with List_DeepCopy (l : List) : res List :=
  match l with
  | mkList ns _ => match traverse Node_DeepCopy ns with Ok ns => Ok (mkList ns false) | Err e => Err e end
  end
with Map_DeepCopy (m : Map) : res Map :=
  match m with
  | mkMap es _ => match traverse (keyed Node_DeepCopy) es with Ok es => Ok (mkMap es false) | Err e => Err e end
  end.
Definition NodeRoot_DeepCopy (r : NodeRoot) : NodeRoot := ∅.

Lemma traverse_Forall2 {A B} (f : A -> res B) l bs : traverse f l = Ok bs <-> Forall2 (fun a b => f a = Ok b) l bs.
Proof.
  split.
  - revert bs. induction l as [|a l IH]; intros bs; simpl; [intros [= <-]; constructor|]. destruct (f a) as [b|] eqn:Ea; [|done].
    destruct (traverse f l) as [cs|] eqn:El; [|done]. intros [= <-]. constructor; [done|by apply IH].
  - induction 1 as [|a b l bs Ha _ IH]; [done|]. simpl. by rewrite Ha, IH.
Qed.

Definition copy_fields : list Field -> res (list Field) := traverse copy_field.

(** The copy of a node is detached, at a new address, with copied fields. *)
Lemma node_copy n n' : Node_DeepCopy n = Ok n' ->
  match node_data n with
  | None => n' = NewNode None
  | Some (mkData a fs) => exists fs', copy_fields fs = Ok fs' /\ n' = NewNode (Some (mkData (fresh a) fs'))
  end.
Proof.
  destruct n as [[[a fs]|] p b]; simpl; [|by intros [= <-]]. fold copy_fields.
  destruct (copy_fields fs) as [fs'|]; [|done]. intros [= <-]. eauto.
Qed.

Lemma copy_detached n n' : Node_DeepCopy n = Ok n' -> detached n'.
Proof. intros E%node_copy. destruct (node_data n) as [[a fs]|]; [destruct E as (fs' & _ & ->)|subst]; done. Qed.

(** Kinds of fields, and their nodes with the copies of these. *)
Definition copied_field (R : Node -> Node -> Prop) (f f' : Field) : Prop :=
  match f, f' with
  | Plain, Plain => True
  | NodeField n, NodeField n' => option_Forall2 R n n'
  | ListField l, ListField l' => option_Forall2 (fun l l' => Forall2 R (list_nodes l) (list_nodes l')) l l'
  | MapField m, MapField m' => option_Forall2 (fun m m' => Forall2 (fun e e' => e.1 = e'.1 /\ R e.2 e'.2) (map_entries m) (map_entries m')) m m'
  | _, _ => False
  end.
Notation copied := (fun n n' => Node_DeepCopy n = Ok n').

Lemma copy_pointer_ok {A} (copy : A -> res A) p p' : copy_pointer copy p = Ok p' -> option_Forall2 (fun a b => copy a = Ok b) p p'.
Proof.
  destruct p as [a|]; simpl; [|destruct calls_nil; [done|]; intros [= <-]; constructor].
  destruct (copy a) as [b|] eqn:E; [|done]. intros [= <-]. by constructor.
Qed.

Lemma field_copy f f' : copy_field f = Ok f' -> copied_field copied f f'.
Proof.
  destruct f as [|n|l|m]; simpl; [by intros [= <-]|..];
    (destruct (copy_pointer _ _) as [x|] eqn:E; [|done]); intros [= <-]; apply copy_pointer_ok in E; simpl; [done|..].
  - destruct E as [l l' E|]; constructor. destruct l as [ns b]. simpl in E. destruct (traverse _ ns) as [ns'|] eqn:En; [|done].
    injection E as <-. by apply traverse_Forall2.
  - destruct E as [m m' E|]; constructor. destruct m as [es b]. simpl in E. destruct (traverse _ es) as [es'|] eqn:En; [|done].
    injection E as <-. apply traverse_Forall2 in En. eapply Forall2_impl; [exact En|]. intros [k n] [k' n']. unfold keyed. simpl.
    destruct (Node_DeepCopy n); [|done]. by intros [= <- <-].
Qed.

Lemma child_copy fs fs' a : copy_fields fs = Ok fs' -> option_Forall2 copied (child fs a) (child fs' a).
Proof.
  intros Hc%traverse_Forall2.
  assert (forall i, option_Forall2 (copied_field copied) (fs !! i) (fs' !! i)) as Hi.
  { intros i. rewrite Forall2_lookup in Hc. destruct (Hc i) as [f f' E|]; constructor. by apply field_copy. }
  destruct a as [i|i j|i k]; simpl; specialize (Hi i); destruct Hi as [f f' Hf|]; try constructor;
    destruct f as [|n|l|m], f' as [|n'|l'|m']; try done; try constructor; simpl in Hf;
    destruct Hf as [x x' Hx|]; try constructor.
  - by apply Forall2_lookup.
  - induction Hx as [|[h n] [h' n'] es es' [Hk Hn] Hes IH]; simpl; [constructor|]. simpl in Hk, Hn. subst h'.
    destruct (bool_decide (h = k)); [by constructor|exact IH].
Qed.

Lemma typed_with_copy T noder s f f' : copied_field copied f f' -> (forall n n', Node_DeepCopy n = Ok n' -> T n' <-> T n) ->
  typed_with T noder s f' <-> typed_with T noder s f.
Proof.
  intros Hf HT. unfold typed_with. destruct (container s), f as [|n|l|m], f' as [|n'|l'|m']; try done; simpl in Hf.
  - destruct Hf as [n n' E|]; [by apply HT|done].
  - destruct Hf as [x x' Hx|]; [simpl|done]. apply and_iff_compat_l.
    induction Hx as [|e e' es es' [_ He] Hes IH]; [by rewrite !Forall_nil|]. by rewrite !Forall_cons, IH, (HT _ _ He).
  - destruct Hf as [x x' Hx|]; [simpl|done]. apply and_iff_compat_l.
    induction Hx as [|n n' ns ns' Hn Hns IH]; [by rewrite !Forall_nil|]. by rewrite !Forall_cons, IH, (HT _ _ Hn).
Qed.

Lemma typed_fields_copy noder cs fs fs' : copy_fields fs = Ok fs' ->
  (forall c, c ∈ cs -> forall n n', Node_DeepCopy n = Ok n' -> typed_node c n' <-> typed_node c n) ->
  typed_fields noder cs fs' <-> typed_fields noder cs fs.
Proof.
  intros Hc%traverse_Forall2 HT. unfold typed_fields. rewrite !Forall_forall. split; intros Hx c Hin; destruct (Hx c Hin) as (f & Hf & Ht).
  - destruct (Forall2_lookup_r _ _ _ _ _ Hc Hf) as (g & Hg & E). exists g. split; [done|]. exact (proj1 (typed_with_copy _ noder c g f (field_copy _ _ E) (HT c Hin)) Ht).
  - destruct (Forall2_lookup_l _ _ _ _ _ Hc Hf) as (g & Hg & E). exists g. split; [done|]. exact (proj2 (typed_with_copy _ noder c f g (field_copy _ _ E) (HT c Hin)) Ht).
Qed.

Lemma typed_node_copy s : forall n n', Node_DeepCopy n = Ok n' -> typed_node s n' <-> typed_node s n.
Proof.
  induction s as [t k i cs IH] using schema_induction. intros n n' E%node_copy. rewrite !typed_node_fields. cbn [Children].
  destruct (node_data n) as [[a fs]|]; [|subst; simpl; naive_solver]. destruct E as (fs' & Hfs & ->). simpl.
  rewrite Forall_forall in IH. pose proof (typed_fields_copy true cs fs fs' Hfs IH) as Ht.
  split; intros (a' & gs & [= <- <-] & Hg); do 2 eexists; (split; [done|]); by apply Ht.
Qed.

Lemma node_fields_copy n n' : Node_DeepCopy n = Ok n' -> copy_fields (node_fields n) = Ok (node_fields n').
Proof.
  intros E%node_copy. unfold node_fields. destruct (node_data n) as [[a fs]|]; [|by subst]. by destruct E as (fs' & Hfs & ->).
Qed.

Lemma node_at_copy rest : forall fs fs' a, copy_fields fs = Ok fs' -> option_Forall2 copied (node_at fs a rest) (node_at fs' a rest).
Proof.
  induction rest as [|b rest IH]; intros fs fs' a Hc; simpl; destruct (child_copy fs fs' a Hc) as [n n' E|]; simpl; try constructor; [done|].
  by apply IH, node_fields_copy.
Qed.

(** A copy of a document is its detached twin: every place of the document holds a node
    in the copy exactly when it does in the original, with data at another address or none
    like it, no node of the copy reports to a document, and the copy can be initialised as a
    document exactly when the original can. *)
Theorem deep_copy_is_detached_twin nodes fs fs' :
  wf_schemas nodes -> copy_fields fs = Ok fs' ->
  (forall a rest, report fs' a rest = None) /\
  (forall a rest, option_Forall2 (fun n n' => detached n' /\
     match node_data n, node_data n' with
     | Some (mkData addr _), Some (mkData addr' _) => addr' = fresh addr
     | None, None => True
     | _, _ => False
     end) (node_at fs a rest) (node_at fs' a rest)) /\
  is_ok (Init nodes fs') = is_ok (Init nodes fs).
Proof.
  intros Hwf Hc. split_and!.
  - intros a rest. destruct rest; simpl; destruct (child_copy fs fs' a Hc) as [n n' E|]; simpl; try done;
      by destruct (copy_detached _ _ E) as [_ ->].
  - intros a rest. destruct (node_at_copy rest fs fs' a Hc) as [n n' E|]; constructor. split; [by eapply copy_detached|].
    apply node_copy in E. destruct (node_data n) as [[addr gs]|]; [destruct E as (gs' & _ & ->)|subst]; done.
  - apply eq_true_iff_eq. rewrite !Init_total by done. apply typed_fields_copy; [done|]. intros c _. apply typed_node_copy.
Qed.

End copying.
(** ** Runs *)

Section runs.

(** A library that knows one value. *)
#[local] Instance one_value : Library := {|
  Marshal d := match d with mkData 1 [] => Ok (Leaf "1") | _ => Err (Text "unsupported") end;
  Unmarshal t _ := match t with Leaf _ => Ok (mkData 1 []) | _ => Err (Text "EOF") end;
  zero := mkData 0 []
|}.
#[local] Instance one_value_laws : LibraryLaws (fun d => d).
Proof.
  assert (forall d t, Marshal d = Ok t -> d = mkData 1 [] /\ t = Leaf "1") as Hm.
  { intros [a fs] t. simpl. destruct a as [|[]|]; try done. destruct fs; [|done]. by intros [= <-]. }
  split; intros d t [-> ->]%Hm; [done|eauto].
Qed.

Definition one : Node := mkNode (Some (mkData 1 [])) "items.0" true.

(** A node without data is written to the array as null, which no list can be read from. *)
Lemma null_element_is_unreadable :
  List_MarshalBSONValue (Some [one; NewNode None]) = Ok (Arr [Leaf "1"; Null]) /\
  is_ok (List_UnmarshalBSONValue (Arr [Leaf "1"; Null])) = false.
Proof. done. Qed.

Lemma deep_copy_is_detached_twin_witness :
  exists fs', copy_fields (fun a => a + 100) true attached_hero = Ok fs' /\ report fs' (AtNode 1) [AtList 0 1] = None /\
    is_ok (Init hero_schema fs') = true.
Proof.
  destruct (copy_fields (fun a => a + 100) true attached_hero) as [fs'|] eqn:E; [|discriminate E].
  destruct (deep_copy_is_detached_twin (fun a => a + 100) true hero_schema attached_hero fs' hero_schema_wf E) as (Hr & _ & Hi).
  exists fs'. split_and!; [reflexivity|apply Hr|]. rewrite Hi. reflexivity.
Defined.

End runs.
End DocumentCodec.
