(* ===== verification/Discovery.v ===== *)
(** * Service discovery: [common/discovery/registry.go] and the registry in memory,
    [common/discovery/static/registry.go]

    A registry holds the instances of the services and tells watchers of changes, each over
    a channel with room for 16 events. Every operation runs under the registry's lock and is
    one step; a watcher takes events from its channel at any time. *)

From S2P Require Import Prelude.
Open Scope Z_scope.

Module Discovery.

Record Registration := mkRegistration {
  Service : string;
  Instance_ : string;
  Address : string;
  Version : string;
  Weight : Z;
  Zone : string
}.
#[export] Instance Registration_eq_dec : EqDecision Registration.
Proof. solve_decision. Defined.

Inductive EventType := EventPut | EventDelete.
Record Event := mkEvent { Type_ : EventType; eRegistration : Registration }.

Definition key (service instance : string) : string := service +:+ "/" +:+ instance.
Definition item_key (item : Registration) : string := key (Service item) (Instance_ item).

(** A channel; [w_service], [base], [got] and [lost] are history: the service it was made
    for, the items of that service when it was made, the events taken from it so far, and
    whether an event found it full. *)
Record channel := mkChannel {
  queue : list Event;
  c_closed : bool;
  w_service : string;
  base : gmap string Registration;
  got : list Event;
  lost : bool
}.

Record Registry := mkRegistry {
  items : gmap string Registration;
  watches : gmap string (list nat);
  channels : list channel
}.

Definition channel_room : nat := 16.

Definition New (l : list Registration) : Registry :=
  mkRegistry (foldl (fun m item => <[item_key item := item]> m) ∅ l) ∅ [].

(** [select { case ch <- event: default: }] *)
Definition offer (e : Event) (c : channel) : channel :=
  if (length (queue c) <? channel_room)%nat
  then mkChannel (queue c ++ [e]) (c_closed c) (w_service c) (base c) (got c) (lost c)
  else mkChannel (queue c) (c_closed c) (w_service c) (base c) (got c) true.

Definition watchers (service : string) (r : Registry) : list nat := default [] (watches r !! service).

Definition publishLocked (service : string) (e : Event) (r : Registry) : Registry :=
  mkRegistry (items r) (watches r) (foldl (fun cs l => alter (offer e) l cs) (channels r) (watchers service r)).

Definition set_items (r : Registry) (m : gmap string Registration) : Registry := mkRegistry m (watches r) (channels r).

Definition Register (item : Registration) (r : Registry) : Registry :=
  publishLocked (Service item) (mkEvent EventPut item) (set_items r (<[item_key item := item]> (items r))).
(** The function [Register] returns. *)
Definition close_registration (item : Registration) (r : Registry) : Registry :=
  publishLocked (Service item) (mkEvent EventDelete item) (set_items r (delete (item_key item) (items r))).

Definition Discover `{!MapRange string Registration} (service : string) (r : Registry) : list Registration :=
  filter (fun item => Service item = service) (range (items r)).*2.

(** The items of a service. *)
Definition service_items (service : string) (m : gmap string Registration) : gmap string Registration :=
  filter (fun kv => Service kv.2 = service) m.

Definition Watch (service : string) (r : Registry) : nat * Registry :=
  let l := length (channels r) in
  (l, mkRegistry (items r) (<[service := watchers service r ++ [l]]> (watches r))
        (channels r ++ [mkChannel [] false service (service_items service (items r)) [] false])).

(** The goroutine of [Watch] when its context ends. *)
Definition close_channel (c : channel) : channel :=
  mkChannel (queue c) true (w_service c) (base c) (got c) (lost c).
Fixpoint remove_first (l : nat) (ls : list nat) : list nat :=
  match ls with [] => [] | k :: ls => if (k =? l)%nat then ls else k :: remove_first l ls end.
Definition unwatch (service : string) (l : nat) (r : Registry) : Registry :=
  mkRegistry (items r) (<[service := remove_first l (watchers service r)]> (watches r)) (alter close_channel l (channels r)).

(** The watcher takes an event. *)
Definition take_event (c : channel) : channel :=
  match queue c with
  | [] => c
  | e :: q => mkChannel q (c_closed c) (w_service c) (base c) (got c ++ [e]) (lost c)
  end.
Definition receive (l : nat) (r : Registry) : Registry := mkRegistry (items r) (watches r) (alter take_event l (channels r)).

(** ** What a watcher knows *)

(** What an event means for someone who keeps the items of the service. *)
Definition learn (m : gmap string Registration) (e : Event) : gmap string Registration :=
  match Type_ e with
  | EventPut => <[item_key (eRegistration e) := eRegistration e]> m
  | EventDelete => delete (item_key (eRegistration e)) m
  end.

Definition slash : Ascii.ascii := Ascii.Ascii true true true true false true false false.

(** Service names have no slash, so that keys tell services apart. *)
Fixpoint plain_name (s : string) : Prop :=
  match s with String.EmptyString => True | String.String a s => a <> slash /\ plain_name s end.

Inductive registry_step : Registry -> Registry -> Prop :=
  | s_register item r : plain_name (Service item) -> registry_step r (Register item r)
  | s_close item r : plain_name (Service item) -> registry_step r (close_registration item r)
  | s_watch service l r r' : Watch service r = (l, r') -> registry_step r r'
  | s_unwatch service l r : l ∈ watchers service r -> registry_step r (unwatch service l r)
  | s_receive l r : registry_step r (receive l r).

Lemma key_service s s' i i' : plain_name s -> plain_name s' -> key s i = key s' i' -> s = s'.
Proof.
  unfold key. revert s'. induction s as [|a s IH]; intros [|b s'] Hs Hs' E; [done| | |].
  - change (String.String slash i = String.String b (s' +:+ "/" +:+ i')) in E. by injection E as <- E; destruct Hs'.
  - change (String.String a (s +:+ "/" +:+ i) = String.String slash i') in E. by injection E as -> E; destruct Hs.
  - change (String.String a (s +:+ "/" +:+ i) = String.String b (s' +:+ "/" +:+ i')) in E.
    injection E as -> E. f_equal. destruct Hs, Hs'. by eapply IH.
Qed.

(** Items are under their keys, and have plain service names. *)
Definition items_ok (m : gmap string Registration) : Prop :=
  map_Forall (fun k item => k = item_key item /\ plain_name (Service item)) m.

Lemma service_items_put service item m :
  items_ok m -> plain_name (Service item) ->
  service_items service (<[item_key item := item]> m) =
  if decide (Service item = service) then learn (service_items service m) (mkEvent EventPut item) else service_items service m.
Proof.
  intros Hm Hp. unfold service_items, learn. cbn [Type_ eRegistration]. destruct (decide _) as [E|E].
  - by rewrite map_filter_insert_True.
  - rewrite map_filter_insert_False by done. apply map_filter_delete_not. intros old Hold.
    destruct (Hm _ _ Hold) as [Hk Hp']. intros Ho. simpl in Ho. apply E. rewrite <- Ho. eapply key_service; [done| |exact Hk]. done.
Qed.

Lemma service_items_del service item m :
  items_ok m -> plain_name (Service item) ->
  service_items service (delete (item_key item) m) =
  if decide (Service item = service) then learn (service_items service m) (mkEvent EventDelete item) else service_items service m.
Proof.
  intros Hm Hp. unfold service_items, learn. cbn [Type_ eRegistration]. rewrite map_filter_delete.
  destruct (decide _) as [E|E]; [done|]. apply delete_id, map_lookup_filter_None. right. intros old Hold Ho.
  destruct (Hm _ _ Hold) as [Hk Hp']. simpl in Ho. apply E. rewrite <- Ho. eapply key_service; [done| |exact Hk]. done.
Qed.

(** A watcher that lost nothing: its base with all events, taken and waiting, is the items. *)
Definition tracks (m : gmap string Registration) (c : channel) : Prop :=
  (length (queue c) <= channel_room)%nat /\
  (forall e, e ∈ got c ++ queue c -> Service (eRegistration e) = w_service c) /\
  (c_closed c = false -> lost c = false -> service_items (w_service c) m = foldl learn (base c) (got c ++ queue c)).

Record registry_ok (r : Registry) : Prop := {
  k_items : items_ok (items r);
  k_watchers : forall service l, l ∈ watchers service r <->
    exists c, channels r !! l = Some c /\ w_service c = service /\ c_closed c = false;
  k_once : forall service, NoDup (watchers service r);
  k_tracks : forall l c, channels r !! l = Some c -> tracks (items r) c
}.

Lemma alter_each (f : channel -> channel) (ls : list nat) (cs : list channel) (l : nat) :
  NoDup ls -> foldl (fun cs l => alter f l cs) cs ls !! l = if decide (l ∈ ls) then f <$> cs !! l else cs !! l.
Proof.
  revert cs. induction ls as [|k ls IH]; intros cs Hnd; simpl.
  { done. }
  apply NoDup_cons in Hnd as [Hk Hnd]. rewrite IH by done. destruct (decide (l = k)) as [->|Hne].
  - rewrite decide_False, decide_True by (done || by left). by rewrite list_lookup_alter_eq.
  - rewrite list_lookup_alter_ne by done. destruct (decide (l ∈ ls)); [rewrite decide_True by (by right); done|].
    rewrite decide_False; [done|]. by intros [?|?]%elem_of_cons.
Qed.

Lemma offer_tracks m e c m' :
  tracks m c -> Service (eRegistration e) = w_service c ->
  service_items (w_service c) m' = learn (service_items (w_service c) m) e -> tracks m' (offer e c).
Proof.
  intros (Hlen & Hev & Ht) He Hm. unfold offer. destruct (Nat.ltb_spec (length (queue c)) channel_room); split_and!; simpl.
  - rewrite length_app. simpl. lia.
  - intros e'. rewrite app_assoc. intros [?|E%list_elem_of_singleton]%elem_of_app; [by apply Hev|by subst].
  - intros Hc Hl. rewrite app_assoc, foldl_app. simpl. by rewrite Hm, Ht.
  - done.
  - done.
  - done.
Qed.

Lemma offer_same e c : w_service (offer e c) = w_service c /\ c_closed (offer e c) = c_closed c.
Proof. unfold offer. by destruct (_ <? _)%nat. Qed.

(** A change of the items together with the event that tells of it. *)
Lemma publish_ok r m e :
  registry_ok r -> items_ok m ->
  (forall service, service_items service m =
     if decide (Service (eRegistration e) = service) then learn (service_items service (items r)) e
     else service_items service (items r)) ->
  registry_ok (publishLocked (Service (eRegistration e)) e (set_items r m)).
Proof.
  intros [Hi Hw Ho Ht] Hm Hmi. pose proof (Ho (Service (eRegistration e))) as Hnd.
  assert (forall l, channels (publishLocked (Service (eRegistration e)) e (set_items r m)) !! l =
    if decide (l ∈ watchers (Service (eRegistration e)) r) then offer e <$> channels r !! l else channels r !! l) as Hch.
  { intros l. simpl. by apply alter_each. }
  split; [done| |done|].
  - intros service l. change (watchers service _) with (watchers service r). rewrite Hw, Hch.
    destruct (decide _); [|done]. destruct (channels r !! l) as [c|]; simpl; [|done].
    pose proof (offer_same e c) as [E1 E2].
    split; intros (c' & [= <-] & ? & ?); eexists; (split; [done|]); rewrite ?E1, ?E2 in *; done.
  - intros l c. rewrite Hch. change (items (publishLocked _ _ _)) with m. destruct (decide _) as [Hl|Hl].
    + destruct (channels r !! l) as [c0|] eqn:E; [|done]. intros [= <-].
      apply Hw in Hl as (c1 & Hc1 & Hs & _). rewrite E in Hc1. injection Hc1 as <-.
      eapply offer_tracks; [by eapply Ht|done|]. rewrite Hmi. by rewrite decide_True.
    + intros E. destruct (Ht l c E) as (Hlen & Hev & Hfold). split_and!; [done|done|]. intros Hc Hlo.
      rewrite Hmi, decide_False; [by apply Hfold|]. intros Hs. apply Hl, Hw. eauto.
Qed.

Lemma items_ok_put item m : plain_name (Service item) -> items_ok m -> items_ok (<[item_key item := item]> m).
Proof. intros Hp Hm k v [[<- <-]|[_ Hv]]%lookup_insert_Some; [done|by apply Hm]. Qed.

Lemma remove_first_elem l k ls : NoDup ls -> k ∈ remove_first l ls <-> k ∈ ls /\ k <> l.
Proof.
  induction ls as [|a ls IH]; intros Hnd; [set_solver|]. apply NoDup_cons in Hnd as [Ha Hnd]. simpl.
  destruct (Nat.eqb_spec a l) as [->|]; [set_solver|]. rewrite !elem_of_cons, IH by done. set_solver.
Qed.

Lemma remove_first_NoDup l ls : NoDup ls -> NoDup (remove_first l ls).
Proof.
  induction ls as [|a ls IH]; intros Hnd; [done|]. pose proof Hnd as Hnd'. apply NoDup_cons in Hnd as [Ha Hnd]. simpl.
  destruct (_ =? _)%nat; [done|]. constructor; [|by apply IH]. by rewrite remove_first_elem; [intros [? _]|].
Qed.

Lemma watchers_insert service service' ws r m cs :
  watchers service' (mkRegistry m (<[service := ws]> (watches r)) cs) = if decide (service' = service) then ws else watchers service' r.
Proof.
  unfold watchers. simpl. destruct (decide _) as [->|?]; [by rewrite lookup_insert_eq|by rewrite lookup_insert_ne].
Qed.

Lemma watch_ok service l r r' : Watch service r = (l, r') -> registry_ok r -> registry_ok r'.
Proof.
  intros [= <- <-] [Hi Hw Ho Ht]. set (c0 := mkChannel _ _ _ _ _ _).
  assert (forall k s, k ∈ watchers s r -> (k < length (channels r))%nat) as Hlt.
  { intros k s (c & Hc & _)%Hw. by eapply lookup_lt_Some. }
  assert (forall k s, (exists c, (channels r ++ [c0]) !! k = Some c /\ w_service c = s /\ c_closed c = false) <->
    (k ∈ watchers s r \/ (k = length (channels r) /\ s = service))) as Hk.
  { intros k s. rewrite Hw. split.
    - intros (c & Hc & Hs & Hcl). apply lookup_app_Some in Hc as [Hc|[Hge Hc]]; [eauto|].
      apply list_lookup_singleton_Some in Hc as [Hz <-]. right. split; [lia|done].
    - intros [(c & Hc & ?)|[-> ->]]; [exists c; split; [by apply lookup_app_l_Some|done]|].
      exists c0. split; [|done]. by rewrite lookup_app_r, Nat.sub_diag. }
  split; [done| | |].
  - intros s k. rewrite watchers_insert. cbn [channels]. rewrite Hk. destruct (decide _) as [->|Hne]; set_solver.
  - intros s. rewrite watchers_insert. destruct (decide _) as [->|]; [|done]. apply NoDup_app. split_and!; [done| |apply NoDup_singleton].
    intros k Hin Hk'%list_elem_of_singleton. apply Hlt in Hin. lia.
  - intros k c Hc. apply lookup_app_Some in Hc as [Hc|[_ Hc]]; [by eapply Ht|].
    apply list_lookup_singleton_Some in Hc as [_ <-]. split_and!; simpl; [lia|set_solver|done].
Qed.

Lemma unwatch_ok service l r : l ∈ watchers service r -> registry_ok r -> registry_ok (unwatch service l r).
Proof.
  intros Hl [Hi Hw Ho Ht]. apply Hw in Hl as (c0 & Hc0 & Hs0 & Hcl0).
  assert (forall k, alter close_channel l (channels r) !! k = if decide (k = l) then Some (close_channel c0) else channels r !! k) as Hch.
  { intros k. destruct (decide _) as [->|]; [by rewrite list_lookup_alter_eq, Hc0|by apply list_lookup_alter_ne]. }
  split; [done| | |].
  - intros s k. unfold unwatch. rewrite watchers_insert. cbn [channels]. rewrite Hch.
    assert (k ∈ (if decide (s = service) then remove_first l (watchers service r) else watchers s r) <->
      k ∈ watchers s r /\ k <> l) as ->.
    { destruct (decide _) as [->|Hne]; [by rewrite remove_first_elem|]. split; [|by intros [? _]]. intros Hk. split; [done|].
      intros ->. apply Hw in Hk as (c & Hc & Hs & _). congruence. }
    rewrite Hw. destruct (decide (k = l)) as [->|]; [|naive_solver]. split; [by intros [_ ?]|]. by intros (c & [= <-] & _ & ?).
  - intros s. unfold unwatch. rewrite watchers_insert. destruct (decide _); [by apply remove_first_NoDup|done].
  - intros k c. simpl. rewrite Hch. destruct (decide _) as [->|]; [|by apply Ht]. intros [= <-].
    destruct (Ht l c0 Hc0) as (? & ? & ?). by split_and!.
Qed.

Lemma receive_ok l r : registry_ok r -> registry_ok (receive l r).
Proof.
  intros [Hi Hw Ho Ht].
  assert (forall k, alter take_event l (channels r) !! k = (fun c => if decide (k = l) then take_event c else c) <$> channels r !! k) as Hch.
  { intros k. destruct (decide (k = l)) as [->|]; [by rewrite list_lookup_alter_eq|].
    rewrite list_lookup_alter_ne by done. by destruct (channels r !! k). }
  assert (forall c, w_service (take_event c) = w_service c /\ c_closed (take_event c) = c_closed c /\
     lost (take_event c) = lost c /\ base (take_event c) = base c /\
     got (take_event c) ++ queue (take_event c) = got c ++ queue c /\ (length (queue (take_event c)) <= length (queue c))%nat) as Hsame.
  { intros c. unfold take_event. destruct (queue c) eqn:E; simpl; rewrite ?E; [|rewrite <- app_assoc; simpl]; split_and!; auto; simpl; lia. }
  split; [done| |done|].
  - intros s k. change (watchers s _) with (watchers s r). rewrite Hw. simpl. rewrite Hch.
    destruct (channels r !! k) as [c|]; simpl; [|done]. destruct (Hsame c) as (E1 & E2 & _).
    split; intros (c' & [= <-] & ? & ?); eexists; (split; [done|]); destruct (decide _); rewrite ?E1, ?E2 in *; done.
  - intros k c. simpl. rewrite Hch. destruct (channels r !! k) as [c0|] eqn:E; [|done]. intros [= <-].
    destruct (decide _); [|by eapply Ht]. destruct (Ht k c0 E) as (? & ? & ?).
    destruct (Hsame c0) as (E1 & E2 & E3 & E4 & E5 & ?). unfold tracks. rewrite E1, E2, E3, E4, E5. split_and!; [lia|done|done].
Qed.

Lemma registry_step_ok r r' : registry_step r r' -> registry_ok r -> registry_ok r'.
Proof.
  intros Hs Hr. pose proof (k_items _ Hr) as Hi. destruct Hs; eauto using watch_ok, unwatch_ok, receive_ok.
  - apply (publish_ok r _ (mkEvent EventPut item)); [done|by apply items_ok_put|].
    intros service. by apply service_items_put.
  - apply (publish_ok r _ (mkEvent EventDelete item)); [done| |intros service; by apply service_items_del].
    intros k v [_ Hv]%lookup_delete_Some. by apply Hi.
Qed.

Lemma New_ok l : Forall (fun item => plain_name (Service item)) l -> registry_ok (New l).
Proof.
  intros Hl.
  assert (forall m, items_ok m -> items_ok (foldl (fun m item => <[item_key item := item]> m) m l)) as Hgen.
  { induction Hl as [|item l Hp Hl IH]; intros m Hm; simpl; [done|]. by apply IH, items_ok_put. }
  split; simpl; [by apply Hgen| | |done].
  - intros service k. unfold watchers. simpl. rewrite lookup_empty. simpl. split; [by intros ?%not_elem_of_nil|].
    by intros (c & ? & _).
  - intros service. unfold watchers. simpl. rewrite lookup_empty. constructor.
Qed.

(** C26 What watching promises. In every run of a registry whose service names have no
    slash: a watcher gets events of its own service only and at most 16 wait for it; and
    one that applies the events, taken and waiting, to what [Discover] showed at the moment
    it began to watch knows exactly the instances [Discover] shows now, unless one of the
    events found its channel full. *)
Theorem watch_tracks_items `{!MapRange string Registration} l0 r l c :
  Forall (fun item => plain_name (Service item)) l0 ->
  rtc registry_step (New l0) r -> channels r !! l = Some c ->
  (length (queue c) <= channel_room)%nat /\
  (forall e, e ∈ got c ++ queue c -> Service (eRegistration e) = w_service c) /\
  (c_closed c = false -> lost c = false ->
     Discover (w_service c) r ≡ₚ (map_to_list (foldl learn (base c) (got c ++ queue c))).*2) /\
  (forall service r', Watch service r' = (l, r) -> base c = service_items service (items r')).
Proof.
  intros Hl0 Hrun Hc. pose proof (New_ok l0 Hl0) as Hinit.
  assert (registry_ok r) as Hok. { clear -Hrun Hinit. induction Hrun; [done|]. eauto using registry_step_ok. }
  destruct (k_tracks _ Hok l c Hc) as (Hlen & Hev & Hfold). split_and!; [done|done| |].
  - intros Ho Hl. rewrite <- Hfold by done. unfold Discover, service_items.
    rewrite range_perm. clear. induction (items r) as [|k v m Hk IH] using map_ind; [done|].
    rewrite map_to_list_insert by done. rewrite fmap_cons. cbn [snd].
    destruct (decide (Service v = w_service c)).
    + rewrite filter_cons_True, map_filter_insert_True, IH by done. rewrite map_to_list_insert; [done|].
      apply map_lookup_filter_None. by left.
    + rewrite filter_cons_False, map_filter_insert_False, IH by done. by rewrite delete_id.
  - intros service r' [= E <-]. simpl in Hc. subst l. rewrite lookup_app_r, Nat.sub_diag in Hc by done. by injection Hc as <-.
Qed.

(** ** Runs *)

Section runs.
#[local] Existing Instance canonical_range.

Definition lobby1 : Registration := mkRegistration "lobby" "l1" "host1:9000" "" 0 "".
Definition lobby2 : Registration := mkRegistration "lobby" "l2" "host2:9000" "" 0 "".
Definition watched : Registry := (Watch "lobby" (New [lobby1])).2.
Definition changed : Registry := close_registration lobby1 (receive 0 (Register lobby2 watched)).
Definition lobby_view : channel :=
  mkChannel [mkEvent EventDelete lobby1] false "lobby" {[ "lobby/l1" := lobby1 ]} [mkEvent EventPut lobby2] false.

Lemma watch_tracks_items_witness :
  channels changed !! 0%nat = Some lobby_view /\
  Discover "lobby" changed ≡ₚ (map_to_list (foldl learn (base lobby_view) (got lobby_view ++ queue lobby_view))).*2.
Proof.
  assert (channels changed !! 0%nat = Some lobby_view) as Hc by (vm_compute; reflexivity).
  split; [exact Hc|].
  assert (plain_name "lobby") as Hp by (vm_compute; repeat split; discriminate).
  apply (watch_tracks_items [lobby1] changed 0%nat lobby_view).
  - by constructor.
  - eapply rtc_l; [exact (s_watch "lobby" 0 (New [lobby1]) watched eq_refl)|].
    eapply rtc_l; [by apply (s_register lobby2)|]. eapply rtc_l; [apply (s_receive 0)|].
    apply rtc_once. by apply (s_close lobby1).
  - exact Hc.
  - reflexivity.
  - reflexivity.
Defined.

(** An instance that registers between [Discover] and [Watch] is in neither. *)
Lemma between_discover_and_watch :
  Discover "lobby" (New []) = [] /\
  let '(l, r) := Watch "lobby" (Register lobby1 (New [])) in
  (queue <$> channels r !! l) = Some [] /\ Discover "lobby" r = [lobby1].
Proof. vm_compute. done. Qed.

End runs.

End Discovery.
