(* ===== verification/ClientManager.v ===== *)
(** * The streams to other services: [common/streaming/manager.go], and how [client.go]
    opens one

    A manager watches the registry and keeps a stream to every instance of the services it
    needs. Its critical sections are the functions of the first part; the goroutines that
    run them, and the blocking calls in between, are the threads of a transition system. A
    gRPC connection and the client on it are created together and have one number. *)

From S2P Require Import Prelude Proto Streaming Discovery.
Import Proto Discovery.
Open Scope Z_scope.

Module ClientManager.

Record managedClient := mkManaged { registration : Registration; stream : nat }.

(** [ctx_done]: the context of the watchers has ended. The registry, the event handler and
    the dial function are arguments of what uses them. *)
Record ClientManager := mkManager {
  serviceName : string;
  instanceID : string;
  known : gmap string Registration;
  clients : gmap string managedClient;
  ctx_done : bool
}.

Definition NewClientManager (name instance : string) : ClientManager := mkManager name instance ∅ ∅ false.

Definition managerKey (service instance : string) : string := service +:+ "/" +:+ instance.

Definition set_known (m : ClientManager) (k : gmap string Registration) : ClientManager :=
  mkManager (serviceName m) (instanceID m) k (clients m) (ctx_done m).
Definition set_clients (m : ClientManager) (c : gmap string managedClient) : ClientManager :=
  mkManager (serviceName m) (instanceID m) (known m) c (ctx_done m).
Definition cancel (m : ClientManager) : ClientManager :=
  mkManager (serviceName m) (instanceID m) (known m) (clients m) true.

(** [upsert] up to [connect]; the flag says whether it is called. *)
Definition upsert (service : string) (r : Registration) (m : ClientManager) : bool * ClientManager :=
  let key := managerKey service (Instance_ r) in
  let m := set_known m (<[key := r]> (known m)) in
  match clients m !! key with Some _ => (false, m) | None => (true, m) end.

(** The guard of [connect]: a process does not connect to itself. *)
Definition own (m : ClientManager) (r : Registration) : bool :=
  bool_decide (Instance_ r = instanceID m) && bool_decide (Service r = serviceName m).

(** The critical section of [connect]; [false] when there is a client already. *)
Definition register (key : string) (r : Registration) (n : nat) (m : ClientManager) : bool * ClientManager :=
  match clients m !! key with
  | Some _ => (false, m)
  | None => (true, set_clients m (<[key := mkManaged r n]> (clients m)))
  end.

(** The critical section of [monitor]: what to connect to again, if anything. *)
Definition monitor_ended (key : string) (n : nat) (m : ClientManager) : option Registration * ClientManager :=
  let m' := match clients m !! key with
            | Some current => if (stream current =? n)%nat then set_clients m (delete key (clients m)) else m
            | None => m
            end in
  (known m' !! key, m').

(** [remove] up to the closing of the client it returns. *)
Definition remove (service instance : string) (m : ClientManager) : option managedClient * ClientManager :=
  let key := managerKey service instance in
  (clients m !! key, set_clients (set_known m (delete key (known m))) (delete key (clients m))).

(** [Close] of a started manager, after it cancelled the context: the streams it closes. *)
Definition Close `{!MapRange string managedClient} (m : ClientManager) : list nat * ClientManager :=
  (stream <$> (range (clients m)).*2, set_clients m ∅).

Definition Client (service instance : string) (m : ClientManager) : option nat :=
  stream <$> clients m !! managerKey service instance.

Fixpoint first_with_prefix (p : string) (l : list (string * managedClient)) : option nat :=
  match l with
  | [] => None
  | (key, c) :: l => if HasPrefix key p then Some (stream c) else first_with_prefix p l
  end.
Definition AnyClient `{!MapRange string managedClient} (service : string) (m : ClientManager) : option nat :=
  first_with_prefix (service +:+ "/") (range (clients m)).

(** ** Opening a stream: [NewClient], [sendHello] *)

Section opening.
Context `{ProtoMessage Streaming.Hello}.

Definition sendHello (service : Z) (instance : string) (sent : option error) (c : Streaming.Client) :
    option error * Streaming.Client :=
  match Marshal (Streaming.mkHello service instance) with
  | Err e => (Some e, c)
  | Ok payload => Streaming.send (mkEnvelope KIND_HELLO 0 service 0 0 "" 0 payload 0 "") sent c
  end.

(** [opened] is the error of [Connect], [sent] that of sending the hello. *)
Definition NewClient (service : Z) (instance : string) (opened sent : option error) : res Streaming.Client :=
  match opened with
  | Some e => Err e
  | None =>
      match sendHello service instance sent Streaming.NewClient with
      | (Some e, _) => Err e
      | (None, c) => Ok c
      end
  end.

(** A new stream is open, and said who it comes from before anything else. *)
Lemma new_client_says_hello service instance opened sent c :
  NewClient service instance opened sent = Ok c ->
  Streaming.done_ c = false /\ Streaming.requests c = ∅ /\
  exists payload, Marshal (Streaming.mkHello service instance) = Ok payload /\
    Streaming.trace c = [Streaming.Sent (mkEnvelope KIND_HELLO 0 service 0 0 "" 0 payload 0 "")].
Proof.
  unfold NewClient, sendHello, Streaming.send. destruct opened; [done|].
  destruct (Marshal _) as [payload|]; [|done]. simpl. destruct sent; [done|]. intros [= <-]. simpl. eauto.
Qed.

End opening.

(** ** Goroutines *)

(** A connection, opened for an instance: its client once [NewClient] returned, and whether
    [connection.Close] was called. *)
Record connection := mkConnection {
  for_key : string;
  s_client : option Streaming.Client;
  s_closed : bool
}.
Definition close_connection (s : connection) : connection :=
  mkConnection (for_key s) (Streaming.Client_Close <$> s_client s) true.
(** [connection.Close] alone; the client notices through its stream. *)
Definition drop_connection (s : connection) : connection := mkConnection (for_key s) (s_client s) true.

Inductive thread :=
  | Connecting (key : string) (r : Registration)             (** in [connect], before [dial] returns *)
  | Opening (key : string) (r : Registration) (n : nat)      (** in [NewClient] *)
  | Opened (key : string) (r : Registration) (n : nat)       (** before the critical section of [connect] *)
  | Closing (n : nat)                                        (** about to close a client and its connection *)
  | Monitoring (key : string) (n : nat)                      (** in [monitor], waiting *)
  | Reconnecting (key : string) (n : nat) (r : option Registration)  (** after the critical section of [monitor] *)
  | Waiting (key : string) (r : Registration).               (** in [wait] *)

(** [failed] is history: the instances an attempt to connect to failed since the registry
    last named them. *)
Record config := mkConfig {
  manager : ClientManager;
  connections : list connection;
  threads : list thread;
  failed : gset string
}.

(** A step of one goroutine: from a thread to the threads that go on. *)
Inductive thread_step : ClientManager * list connection * gset string -> thread ->
    ClientManager * list connection * gset string -> list thread -> Prop :=
  | t_own m ss F key r : own m r = true -> thread_step (m, ss, F) (Connecting key r) (m, ss, F) []
  | t_dial_fails m ss F key r : own m r = false -> thread_step (m, ss, F) (Connecting key r) (m, ss, {[key]} ∪ F) []
  | t_dials m ss F key r :
      own m r = false ->
      thread_step (m, ss, F) (Connecting key r) (m, ss ++ [mkConnection key None false], F) [Opening key r (length ss)]
  | t_no_client m ss F key r n :
      thread_step (m, ss, F) (Opening key r n) (m, alter drop_connection n ss, {[key]} ∪ F) []
  | t_client m ss F key r n c :
      Streaming.done_ c = false ->
      thread_step (m, ss, F) (Opening key r n)
        (m, alter (fun s => mkConnection (for_key s) (Some c) (s_closed s)) n ss, F) [Opened key r n]
  | t_registers m ss F key r n m' :
      register key r n m = (true, m') -> thread_step (m, ss, F) (Opened key r n) (m', ss, F) [Monitoring key n]
  | t_second m ss F key r n m' :
      register key r n m = (false, m') -> thread_step (m, ss, F) (Opened key r n) (m', ss, F) [Closing n]
  | t_closes m ss F n : thread_step (m, ss, F) (Closing n) (m, alter close_connection n ss, F) []
  | t_ended m ss F key n s c r m' :
      ss !! n = Some s -> s_client s = Some c -> Streaming.done_ c = true -> monitor_ended key n m = (r, m') ->
      thread_step (m, ss, F) (Monitoring key n) (m', ss, F) [Reconnecting key n r]
  | t_stops m ss F key n : ctx_done m = true -> thread_step (m, ss, F) (Monitoring key n) (m, ss, F) []
  | t_waits m ss F key n r :
      ctx_done m = false ->
      thread_step (m, ss, F) (Reconnecting key n (Some r)) (m, alter drop_connection n ss, F) [Waiting key r]
  | t_leaves m ss F key n r :
      r = None \/ ctx_done m = true ->
      thread_step (m, ss, F) (Reconnecting key n r) (m, alter drop_connection n ss, F) []
  | t_again m ss F key r : thread_step (m, ss, F) (Waiting key r) (m, ss, F) [Connecting key r]
  | t_gives_up m ss F key r : ctx_done m = true -> thread_step (m, ss, F) (Waiting key r) (m, ss, F) [].

(** All goroutines, the watchers of the registry, the users of the clients and [Close]. *)
Inductive step `{!MapRange string managedClient} : config -> config -> Prop :=
  | s_put service r m ss T F m' :
      upsert service r m = (false, m') ->
      step (mkConfig m ss T F) (mkConfig m' ss T (F ∖ {[managerKey service (Instance_ r)]}))
  | s_put_new service r m ss T F m' :
      upsert service r m = (true, m') ->
      step (mkConfig m ss T F)
        (mkConfig m' ss (T ++ [Connecting (managerKey service (Instance_ r)) r]) (F ∖ {[managerKey service (Instance_ r)]}))
  | s_remove service instance m ss T F m' :
      remove service instance m = (None, m') -> step (mkConfig m ss T F) (mkConfig m' ss T F)
  | s_remove_client service instance m ss T F mc m' :
      remove service instance m = (Some mc, m') ->
      step (mkConfig m ss T F) (mkConfig m' ss (T ++ [Closing (stream mc)]) F)
  | s_thread m ss T1 t T2 F m' ss' F' ts :
      thread_step (m, ss, F) t (m', ss', F') ts ->
      step (mkConfig m ss (T1 ++ t :: T2) F) (mkConfig m' ss' (T1 ++ ts ++ T2) F')
  | s_use n s c c' m ss T F :
      ss !! n = Some s -> s_client s = Some c -> Streaming.client_step c c' ->
      step (mkConfig m ss T F) (mkConfig m (<[n := mkConnection (for_key s) (Some c') (s_closed s)]> ss) T F)
  | s_cancel m ss T F : step (mkConfig m ss T F) (mkConfig (cancel m) ss T F)
  | s_close m ss T F ns m' :
      ctx_done m = true -> Close m = (ns, m') ->
      step (mkConfig m ss T F) (mkConfig m' (foldl (fun ss n => alter close_connection n ss) ss ns) T F).

(** ** What holds at every moment *)

(** The connection a thread opens; the connections it is about to close. *)
Definition opener (t : thread) : option nat :=
  match t with Opening _ _ n | Opened _ _ n => Some n | _ => None end.
Definition closer (n : nat) (t : thread) : Prop :=
  match t with Closing k | Reconnecting _ k _ => k = n | _ => False end.
(** The thread tries to connect to the instance, or will. *)
Definition attempts (m : ClientManager) (key : string) (t : thread) : Prop :=
  match t with
  | Connecting k r | Opening k r _ | Opened k r _ | Waiting k r | Reconnecting k _ (Some r) => k = key /\ own m r = false
  | _ => False
  end.

Definition openers (T : list thread) : list nat := omap opener T.

(** What holds of a connection while a thread has it; [O] are the connections being opened. *)
Definition thread_ok (m : ClientManager) (ss : list connection) (O : list nat) (t : thread) : Prop :=
  match t with
  | Connecting _ _ | Waiting _ _ => True
  | Opening key r n => own m r = false /\ exists s, ss !! n = Some s /\ for_key s = key /\ s_closed s = false
  | Opened key r n =>
      own m r = false /\ exists s, ss !! n = Some s /\ for_key s = key /\ s_closed s = false /\ is_Some (s_client s)
  | Monitoring key n => n ∉ O /\ exists s, ss !! n = Some s /\ for_key s = key
  | Closing n | Reconnecting _ n _ => n ∉ O /\ (n < length ss)%nat
  end.

(** What holds of a registered client: its connection is open and was made for this
    instance, no thread closes it, and it is monitored. *)
Definition registered_ok (m : ClientManager) (ss : list connection) (T : list thread) (key : string) (mc : managedClient) : Prop :=
  own m (registration mc) = false /\
  (exists s, ss !! stream mc = Some s /\ for_key s = key /\ s_closed s = false /\ is_Some (s_client s)) /\
  stream mc ∉ openers T /\ (forall t, t ∈ T -> ~ closer (stream mc) t) /\
  (ctx_done m = false -> Monitoring key (stream mc) ∈ T).

Definition has_owner (m : ClientManager) (T : list thread) (n : nat) (s : connection) : Prop :=
  (exists mc, clients m !! for_key s = Some mc /\ stream mc = n) \/ n ∈ openers T \/ exists t, t ∈ T /\ closer n t.

Definition pursued (m : ClientManager) (T : list thread) (F : gset string) (key : string) : Prop :=
  is_Some (clients m !! key) \/ key ∈ F \/ exists t, t ∈ T /\ attempts m key t.

Record config_ok (x : config) : Prop := {
  o_once : NoDup (openers (threads x));
  o_threads : forall t, t ∈ threads x -> thread_ok (manager x) (connections x) (openers (threads x)) t;
  o_registered : forall key mc, clients (manager x) !! key = Some mc ->
    registered_ok (manager x) (connections x) (threads x) key mc;
  o_owned : ctx_done (manager x) = false -> forall n s, connections x !! n = Some s -> s_closed s = false ->
    has_owner (manager x) (threads x) n s;
  o_known : ctx_done (manager x) = false -> forall key r, known (manager x) !! key = Some r -> own (manager x) r = false ->
    pursued (manager x) (threads x) (failed x) key
}.

Lemma elem_openers n T : n ∈ openers T <-> exists t, t ∈ T /\ opener t = Some n.
Proof. apply list_elem_of_omap. Qed.

Lemma openers_app T T' : openers (T ++ T') = openers T ++ openers T'.
Proof. apply omap_app. Qed.

(** The connections a step changes: their keys and clients remain, and the ones it closes
    satisfy [closing]. *)
Definition touched (ss ss' : list connection) (closing : nat -> Prop) : Prop :=
  (length ss <= length ss')%nat /\
  forall n s, ss !! n = Some s -> exists s', ss' !! n = Some s' /\ for_key s' = for_key s /\
    (is_Some (s_client s) -> is_Some (s_client s')) /\ (s_closed s' = s_closed s \/ (s_closed s' = true /\ closing n)).

Lemma touched_alter f k ss (closing : nat -> Prop) :
  (forall s, for_key (f s) = for_key s /\ (is_Some (s_client s) -> is_Some (s_client (f s))) /\
     (s_closed (f s) = s_closed s \/ (s_closed (f s) = true /\ closing k))) ->
  touched ss (alter f k ss) closing.
Proof.
  intros Hf. split; [by rewrite length_alter|]. intros n s Hs. destruct (decide (n = k)) as [->|Hne].
  - rewrite list_lookup_alter_eq, Hs. simpl. eexists. split; [done|]. apply Hf.
  - rewrite list_lookup_alter_ne by done. eauto 10.
Qed.

Lemma touched_refl ss closing : touched ss ss closing.
Proof. split; eauto 10. Qed.

Lemma touched_trans ss ss1 ss2 (P Q : nat -> Prop) :
  touched ss ss1 P -> touched ss1 ss2 Q -> touched ss ss2 (fun n => P n \/ Q n).
Proof.
  intros [Hl1 Hs1] [Hl2 Hs2]. split; [lia|]. intros n s Hs. destruct (Hs1 n s Hs) as (s1 & Hn1 & ? & ? & Hc1).
  destruct (Hs2 n s1 Hn1) as (s2 & Hn2 & ? & ? & Hc2). exists s2. split_and!; [done|congruence|auto|].
  destruct Hc1 as [E|[E ?]], Hc2 as [E'|[E' ?]]; rewrite E', ?E; auto.
Qed.

Lemma touched_weaken ss ss' (P Q : nat -> Prop) : (forall n, P n -> Q n) -> touched ss ss' P -> touched ss ss' Q.
Proof. intros HPQ [Hl Hs]. split; [done|]. intros n s Hn. destruct (Hs n s Hn) as (s' & ? & ? & ? & [?|[? ?]]); eauto 10. Qed.

Lemma touched_each ns ss : touched ss (foldl (fun ss n => alter close_connection n ss) ss ns) (fun n => n ∈ ns).
Proof.
  revert ss. induction ns as [|k ns IH]; intros ss; simpl; [apply touched_refl|].
  eapply touched_weaken; [|eapply touched_trans; [apply (touched_alter close_connection k ss (fun n => n = k))|apply IH]].
  - intros n [->|?]; [by left|by right].
  - intros s. simpl. split_and!; [done| |auto]. intros [c E]. by rewrite E.
Qed.

Lemma thread_ok_touched m m' ss ss' closing O O' t :
  thread_ok m ss O t -> touched ss ss' closing -> (forall r, own m' r = own m r) ->
  (forall n, n ∈ O' -> n ∈ O \/ (length ss <= n)%nat) -> (forall n, opener t = Some n -> ~ closing n) ->
  thread_ok m' ss' O' t.
Proof.
  intros Ht [Hlen Hss] Hown HO Hcl.
  assert (forall n, n ∉ O -> (n < length ss)%nat -> n ∉ O') as HO'.
  { intros n Hn Hlt [Hx|Hx]%HO; [done|lia]. }
  destruct t as [| key r n | key r n | n | key n | key n r |]; simpl in *; rewrite ?Hown; [done| | | | | |done].
  1,2: destruct Ht as (Hr & s & Hs & Hk & Hc); (split; [done|]); destruct (Hss n s Hs) as (s' & Hs' & Hk' & Hcl' & [Hx|[_ Hx]]);
    [|by destruct (Hcl n)]; exists s'; rewrite Hk', Hx; naive_solver.
  - destruct Ht. split; [auto|lia].
  - destruct Ht as (Hn & s & Hs & Hk). split; [apply HO'; [done|by eapply lookup_lt_Some]|].
    destruct (Hss n s Hs) as (s' & Hs' & Hk' & _). exists s'. by rewrite Hk'.
  - destruct Ht. split; [auto|lia].
Qed.

Lemma openers_middle T1 ts T2 : openers (T1 ++ ts ++ T2) = openers T1 ++ openers ts ++ openers T2.
Proof. by rewrite !openers_app. Qed.

(** Who is in the lists when one thread is replaced by others. *)
Lemma local_facts m ss T1 t T2 ts :
  NoDup (openers (T1 ++ t :: T2)) ->
  (forall t', t' ∈ T1 ++ t :: T2 -> thread_ok m ss (openers (T1 ++ t :: T2)) t') ->
  (openers ts = [] \/ openers ts = openers [t] \/ (openers ts = [length ss] /\ opener t = None)) ->
  (forall y, y ∈ T1 ++ t :: T2 <-> y = t \/ y ∈ T1 ++ T2) /\
  (forall y, y ∈ T1 ++ ts ++ T2 <-> y ∈ ts \/ y ∈ T1 ++ T2) /\
  (forall t' n, t' ∈ T1 ++ T2 -> opener t = Some n -> opener t' <> Some n) /\
  NoDup (openers (T1 ++ ts ++ T2)) /\
  (forall n, n ∈ openers (T1 ++ ts ++ T2) -> n ∈ openers (T1 ++ t :: T2) \/ (length ss <= n)%nat) /\
  (forall t' n, t' ∈ T1 ++ T2 -> opener t' = Some n -> (n < length ss)%nat).
Proof.
  intros Hnd Hok Hops.
  assert (forall y, y ∈ T1 ++ t :: T2 <-> y = t \/ y ∈ T1 ++ T2) as Ht by set_solver.
  assert (forall t' n, t' ∈ T1 ++ T2 -> opener t' = Some n -> (n < length ss)%nat) as Hlt.
  { intros t' n Ht' Hn. pose proof (Hok t' (proj2 (Ht t') (or_intror Ht'))) as Hx.
    destruct t'; simpl in *; try done; injection Hn as ->; destruct Hx as (_ & s & Hs & _); by eapply lookup_lt_Some. }
  change (t :: T2) with ([t] ++ T2) in *. rewrite !openers_middle in *.
  assert (forall n, n ∈ openers T1 \/ n ∈ openers T2 <-> exists t', t' ∈ T1 ++ T2 /\ opener t' = Some n) as Hin.
  { intros n. rewrite <- elem_openers, openers_app. set_solver. }
  apply NoDup_app in Hnd as (Hnd1 & Hd1 & Hnd). apply NoDup_app in Hnd as (Hnd0 & Hd2 & Hnd2).
  split_and!; [done|set_solver| | | |done].
  - intros t' n Ht' Hn Hn'. assert (n ∈ openers [t]) as Hx by (apply elem_openers; exists t; set_solver).
    destruct (proj2 (Hin n) (ex_intro _ t' (conj Ht' Hn'))); set_solver.
  - apply NoDup_app. split; [done|]. destruct Hops as [->|[->|[-> _]]].
    + simpl. split; [set_solver|done].
    + split; [set_solver|by apply NoDup_app].
    + assert (forall n, n ∈ openers T1 \/ n ∈ openers T2 -> n <> length ss) as Hne.
      { intros n (t' & Ht' & Hn)%Hin ->. apply (Hlt t') in Hn; [lia|done]. }
      split; [set_solver|]. simpl. constructor; [set_solver|done].
  - intros n. destruct Hops as [->|[->|[-> _]]]; rewrite ?elem_of_app; [set_solver|set_solver|].
    intros [?|[->%list_elem_of_singleton|?]]; auto.
Qed.

(** The connections a thread may close. *)
Definition held (t : thread) (n : nat) : Prop := opener t = Some n \/ closer n t.

(** A step of a goroutine is local. *)
Lemma local_step_ok m ss T1 t T2 F m' ss' F' ts :
  config_ok (mkConfig m ss (T1 ++ t :: T2) F) ->
  (forall r, own m' r = own m r) -> ctx_done m' = ctx_done m -> known m' = known m -> F ⊆ F' ->
  touched ss ss' (held t) ->
  (openers ts = [] \/ openers ts = openers [t] \/ (openers ts = [length ss] /\ opener t = None)) ->
  (forall t', t' ∈ ts -> thread_ok m' ss' (openers (T1 ++ ts ++ T2)) t') ->
  (forall key mc, clients m' !! key = Some mc ->
     (clients m !! key = Some mc /\ (forall t', t' ∈ ts -> ~ closer (stream mc) t') /\
      (ctx_done m = false -> t <> Monitoring key (stream mc))) \/
     registered_ok m' ss' (T1 ++ ts ++ T2) key mc) ->
  (forall key mc, clients m !! key = Some mc -> clients m' !! key = Some mc \/
     (clients m' !! key = None /\ (exists t', t' ∈ ts /\ closer (stream mc) t') /\ 
      (forall r, known m !! key = Some r -> own m r = false -> exists t', t' ∈ ts /\ attempts m' key t'))) ->
  (forall n s', ctx_done m = false -> ss' !! n = Some s' -> s_closed s' = false ->
     opener t = Some n \/ closer n t \/ (length ss <= n)%nat -> 
     (exists mc, clients m' !! for_key s' = Some mc /\ stream mc = n) \/ n ∈ openers ts \/ exists t', t' ∈ ts /\ closer n t') ->
  (forall key, ctx_done m = false -> attempts m key t -> pursued m' ts F' key) ->
  config_ok (mkConfig m' ss' (T1 ++ ts ++ T2) F').
Proof.
  intros [Honce Hthreads Hreg Howned Hknown] Hown Hctx Hkn HF Htouch Hops Hnew Hreg' Hgone Hown' Hatt.
  simpl in *. destruct (local_facts _ _ _ _ _ _ Honce Hthreads Hops) as (Ht & Hts & Huniq & Honce' & Hop & Hkeep).
  destruct Htouch as [Hlen Hss]. split; simpl; [done| | | |].
  - intros t' Ht'. apply Hts in Ht' as [Ht'|Ht']; [by apply Hnew|].
    eapply thread_ok_touched; [apply Hthreads, Ht; by right|split; done|done|done|].
    intros n Hn [Hx|Hx]; [by eapply Huniq|].
    assert (n ∉ openers (T1 ++ t :: T2)) as Hno.
    { pose proof (Hthreads t (proj2 (Ht t) (or_introl eq_refl))) as Hok. by destruct t; simpl in *; subst; destruct Hok. }
    apply Hno, elem_openers. exists t'. split; [apply Ht; by right|done].
  - intros key mc Hmc. apply Hreg' in Hmc as [(Hmc & Hcl & Hmon)|Hmc]; [|done].
    destruct (Hreg _ _ Hmc) as (Ho & (s & Hs & Hk & Hc & Hsome) & Hno & Hnc & Hm). unfold registered_ok. rewrite Hown, Hctx.
    split_and!; [done| | | |].
    + destruct (Hss _ s Hs) as (s' & Hs' & Hk' & Hsome' & Hc'). exists s'. split_and!; [done|congruence| |auto].
      destruct Hc' as [->|[_ [Hx|Hx]]]; [done| |].
      * destruct Hno. apply elem_openers. exists t. split; [apply Ht; by left|done].
      * destruct (Hnc t); [apply Ht; by left|done].
    + intros [Hx|Hx]%Hop; [done|]. apply lookup_lt_Some in Hs. lia.
    + intros t' [Hx|Hx]%Hts; [by apply Hcl|]. apply Hnc, Ht. by right.
    + intros Hd. specialize (Hm Hd). apply Hts. right. apply Ht in Hm as [Hx|Hx]; [|done]. by destruct (Hmon Hd).
  - intros Hd n s' Hs' Hc'. rewrite Hctx in Hd.
    assert ((exists mc, clients m' !! for_key s' = Some mc /\ stream mc = n) \/ n ∈ openers ts \/
      (exists t', t' ∈ ts /\ closer n t') -> has_owner m' (T1 ++ ts ++ T2) n s') as Hlift.
    { intros [?|[Hx|(t' & ? & ?)]]; [by left|right; left|right; right; exists t'; split; [apply Hts; by left|done]].
      apply elem_openers in Hx as (t' & ? & ?). apply elem_openers. exists t'. split; [apply Hts; by left|done]. }
    destruct (decide (length ss <= n)%nat) as [Hge|Hlt]; [by eapply Hlift, Hown'; eauto|].
    destruct (lookup_lt_is_Some_2 ss n ltac:(lia)) as [s Hs]. destruct (Hss n s Hs) as (s2 & Hs2 & Hk & _ & Hc2).
    rewrite Hs' in Hs2. injection Hs2 as <-. assert (s_closed s = false) as Hc by (destruct Hc2 as [|[? _]]; congruence).
    destruct (Howned Hd n s Hs Hc) as [(mc & Hmc & <-)|[Hx|(t' & Hx & Hcl)]].
    + rewrite <- Hk in Hmc. destruct (Hgone _ _ Hmc) as [Hmc'|(_ & Hcl & _)]; [left; eauto|].
      apply Hlift. by right; right.
    + apply elem_openers in Hx as (t' & Hx & Hn). apply Ht in Hx as [->|Hx]; [by eapply Hlift, Hown'; eauto|].
      right. left. apply elem_openers. exists t'. split; [apply Hts; by right|done].
    + apply Ht in Hx as [->|Hx]; [by eapply Hlift, Hown'; eauto|].
      right. right. exists t'. split; [apply Hts; by right|done].
  - intros Hd key r Hr Ho. rewrite Hctx in Hd. rewrite Hkn in Hr. rewrite Hown in Ho.
    assert (pursued m' ts F' key -> pursued m' (T1 ++ ts ++ T2) F' key) as Hlift.
    { intros [?|[?|(t' & ? & ?)]]; [by left|by right; left|]. right. right. exists t'. split; [apply Hts; by left|done]. }
    destruct (Hknown Hd key r Hr Ho) as [[mc Hmc]|[Hx|(t' & Hx & Ha)]].
    + destruct (Hgone _ _ Hmc) as [Hmc'|(_ & _ & Ha)]; [left; eauto|]. apply Hlift. right. right. eauto.
    + right. left. by apply HF.
    + apply Ht in Hx as [->|Hx]; [by apply Hlift, Hatt|]. right. right. exists t'. split; [apply Hts; by right|].
      destruct t' as [| | | | |? ? [|]|]; simpl in *; rewrite ?Hown; done.
Qed.

Lemma acting T1 t T2 m ss F :
  config_ok (mkConfig m ss (T1 ++ t :: T2) F) -> thread_ok m ss (openers (T1 ++ t :: T2)) t.
Proof. intros Hok. apply (o_threads _ Hok). simpl. set_solver. Qed.

(** A connection that a thread opens or closes is not a registered one. *)
Lemma not_registered T1 t T2 m ss F key mc :
  config_ok (mkConfig m ss (T1 ++ t :: T2) F) -> clients m !! key = Some mc ->
  opener t <> Some (stream mc) /\ ~ closer (stream mc) t.
Proof.
  intros Hok Hmc. destruct (o_registered _ Hok key mc Hmc) as (_ & _ & Hno & Hnc & _). simpl in *.
  split; [|apply Hnc; set_solver]. intros Ho. apply Hno, elem_openers. exists t. split; [set_solver|done].
Qed.

Lemma closes_open f k (ss : list connection) n s' :
  (forall s, s_closed (f s) = true) -> alter f k ss !! n = Some s' -> s_closed s' = false -> n <> k.
Proof.
  intros Hf Hs' Hc ->. rewrite list_lookup_alter_eq in Hs'. destruct (ss !! k); [|done]. injection Hs' as <-. by rewrite Hf in Hc.
Qed.

Lemma touched_same (ss : list connection) n s' : ss !! n = Some s' -> (length ss <= n)%nat -> False.
Proof. intros Hs%lookup_lt_Some. lia. Qed.

Lemma touched_closed f k (ss : list connection) n s' :
  (forall s, s_closed (f s) = true) -> alter f k ss !! n = Some s' -> s_closed s' = false ->
  (k = n \/ (length ss <= n)%nat) -> False.
Proof.
  intros Hf Hs' Hc [->|Hge]; [by eapply closes_open|]. apply lookup_lt_Some in Hs'. rewrite length_alter in Hs'. lia.
Qed.

(** Steps that leave the manager alone. *)
Lemma quiet_step_ok m ss T1 t T2 F ss' F' ts :
  config_ok (mkConfig m ss (T1 ++ t :: T2) F) -> F ⊆ F' -> touched ss ss' (held t) ->
  (openers ts = [] \/ openers ts = openers [t] \/ (openers ts = [length ss] /\ opener t = None)) ->
  (forall t', t' ∈ ts -> thread_ok m ss' (openers (T1 ++ ts ++ T2)) t') ->
  (forall t' n, t' ∈ ts -> ~ closer n t') ->
  (ctx_done m = false -> forall key n, t <> Monitoring key n) ->
  (forall n s', ss' !! n = Some s' -> s_closed s' = false ->
     opener t = Some n \/ closer n t \/ (length ss <= n)%nat -> n ∈ openers ts) ->
  (forall key, ctx_done m = false -> attempts m key t -> pursued m ts F' key) ->
  config_ok (mkConfig m ss' (T1 ++ ts ++ T2) F').
Proof.
  intros Hok HF Htouch Hops Hnew Hnc Hmon Hown Hatt.
  eapply (local_step_ok m ss T1 t T2 F m ss' F' ts); try done; eauto.
  intros key mc Hmc. left. split_and!; eauto.
Qed.

Lemma touched_close f k ss t :
  held t k -> (forall s, for_key (f s) = for_key s /\ (is_Some (s_client s) -> is_Some (s_client (f s))) /\ s_closed (f s) = true) ->
  touched ss (alter f k ss) (held t).
Proof. intros Hk Hf. apply touched_alter. intros s. destruct (Hf s) as (? & ? & ?). auto. Qed.

Lemma close_keeps s :
  for_key (close_connection s) = for_key s /\
  (is_Some (s_client s) -> is_Some (s_client (close_connection s))) /\ s_closed (close_connection s) = true.
Proof. split_and!; try done. intros [c E]. simpl. by rewrite E. Qed.

Ltac quiet :=
  try solve
    [ done | set_solver | apply touched_refl | by left | by right; left
    | intros ? ? [= <-]
    | intros ? ? ? _; simpl; intros [?|[[]|?]]; [done|by edestruct touched_same]
    | intros ? ? ? ? Hx; exfalso; eapply touched_closed; [|eassumption|eassumption|destruct Hx as [[= <-]|[[]|?]]; auto]; done
    | intros ? ? ? ? Hx; exfalso; eapply touched_closed; [|eassumption|eassumption|destruct Hx as [?|[?|?]]; [done|auto|auto]]; done
    | intros ? _ [-> ?]; right; right; eexists; (split; [by left|done])
    | intros ? _ [-> ?]; right; left; set_solver
    | intros; congruence
    | apply touched_close; [by left|by intros s]
    | apply touched_close; [by right|by intros s]
    | apply touched_close; [by right|apply close_keeps] ].

Lemma dials_ok T1 T2 m ss F key r :
  own m r = false -> config_ok (mkConfig m ss (T1 ++ Connecting key r :: T2) F) ->
  config_ok (mkConfig m (ss ++ [mkConnection key None false]) (T1 ++ [Opening key r (length ss)] ++ T2) F).
Proof.
  intros Hr Hok. eapply (quiet_step_ok _ _ _ _ _ _ _ _ _ Hok); quiet.
  - split; [rewrite length_app; lia|]. intros n s Hs. exists s. split; [by apply lookup_app_l_Some|]. auto.
  - intros t' ->%list_elem_of_singleton. split; [done|]. eexists. by rewrite lookup_app_r, Nat.sub_diag.
  - intros n s' Hs' _ [?|[[]|Hge]]; [done|]. apply lookup_lt_Some in Hs'. rewrite length_app in Hs'. simpl in *.
    assert (n = length ss) as -> by lia. set_solver.
Qed.

Lemma opens_ok T1 T2 m ss F key r n c :
  config_ok (mkConfig m ss (T1 ++ Opening key r n :: T2) F) ->
  config_ok (mkConfig m (alter (fun s => mkConnection (for_key s) (Some c) (s_closed s)) n ss) (T1 ++ [Opened key r n] ++ T2) F).
Proof.
  intros Hok. destruct (acting _ _ _ _ _ _ Hok) as (Hr & s & Hs & Hk & Hc).
  eapply (quiet_step_ok _ _ _ _ _ _ _ _ _ Hok); quiet.
  - apply touched_alter. intros s0. simpl. eauto.
  - intros t' ->%list_elem_of_singleton. split; [done|]. rewrite list_lookup_alter_eq, Hs. simpl. eauto 10.
  - intros k s' Hs' _ [[= <-]|[[]|Hge]]; [set_solver|]. apply lookup_lt_Some in Hs'. rewrite length_alter in Hs'. lia.
Qed.

Lemma registers_ok T1 T2 m ss F key r n m' :
  register key r n m = (true, m') -> config_ok (mkConfig m ss (T1 ++ Opened key r n :: T2) F) ->
  config_ok (mkConfig m' ss (T1 ++ [Monitoring key n] ++ T2) F).
Proof.
  unfold register. destruct (clients m !! key) as [|] eqn:Ek; [done|]. intros [= <-] Hok.
  destruct (acting _ _ _ _ _ _ Hok) as (Hr & s & Hs & Hk & Hc & Hsome).
  assert (n ∉ openers (T1 ++ [Monitoring key n] ++ T2)) as Hno.
  { pose proof (o_once _ Hok) as Hnd. simpl in Hnd. change (Opened key r n :: T2) with ([Opened key r n] ++ T2) in Hnd.
    rewrite openers_middle in *. simpl in *. apply NoDup_app in Hnd as (_ & Hd & Hnd). apply NoDup_cons in Hnd as [Hn _]. set_solver. }
  assert (forall t, t ∈ T1 ++ T2 -> ~ closer n t) as Hnc.
  { intros t Ht Hcl. pose proof (o_threads _ Hok t ltac:(simpl; set_solver)) as Hx. simpl in Hx.
    assert (n ∈ openers (T1 ++ Opened key r n :: T2)) by (apply elem_openers; exists (Opened key r n); set_solver).
    destruct t; simpl in *; subst; naive_solver. }
  eapply local_step_ok; [exact Hok|done..| | | | | | | |]; quiet.
  - intros key' mc Hmc. simpl in Hmc. destruct (decide (key' = key)) as [->|Hne].
    + rewrite lookup_insert_eq in Hmc. injection Hmc as <-. right. unfold registered_ok. simpl.
      split_and!; [done|eauto 10|done| |set_solver]. intros t Ht. assert (t = Monitoring key n \/ t ∈ T1 ++ T2) as [->|?] by set_solver; [by intros []|by apply Hnc].
    + rewrite lookup_insert_ne in Hmc by done. left. split_and!; [done|set_solver|done].
  - intros key' mc Hmc. left. simpl. rewrite lookup_insert_ne; [done|congruence].
  - intros k s' _ Hs' _ [[= <-]|[[]|Hge]]; [|by edestruct touched_same]. left. rewrite Hs in Hs'. injection Hs' as <-.
    exists (mkManaged r n). subst key. simpl. by rewrite lookup_insert_eq.
  - intros key' _ [-> _]. left. simpl. rewrite lookup_insert_eq. eauto.
Qed.

Lemma second_ok T1 T2 m ss F key r n m' :
  register key r n m = (false, m') -> config_ok (mkConfig m ss (T1 ++ Opened key r n :: T2) F) ->
  config_ok (mkConfig m' ss (T1 ++ [Closing n] ++ T2) F).
Proof.
  unfold register. destruct (clients m !! key) as [mc0|] eqn:Ek; [|done]. intros [= <-] Hok.
  destruct (acting _ _ _ _ _ _ Hok) as (Hr & s & Hs & Hk & Hc & Hsome).
  assert (n ∉ openers (T1 ++ [Closing n] ++ T2)) as Hno.
  { pose proof (o_once _ Hok) as Hnd. simpl in Hnd. change (Opened key r n :: T2) with ([Opened key r n] ++ T2) in Hnd.
    rewrite openers_middle in *. simpl in *. apply NoDup_app in Hnd as (_ & Hd & Hnd). apply NoDup_cons in Hnd as [Hn _]. set_solver. }
  eapply local_step_ok; [exact Hok|done..| | | | | | | |]; quiet.
  - intros t' ->%list_elem_of_singleton. split; [done|by eapply lookup_lt_Some].
  - intros key' mc Hmc. left. split_and!; [done| |done]. intros t' ->%list_elem_of_singleton Hx. simpl in Hx. subst n.
    by destruct (not_registered _ _ _ _ _ _ _ _ Hok Hmc).
  - intros k s' _ Hs' _ [[= <-]|[[]|Hge]]; [|by edestruct touched_same]. right. right. exists (Closing n). set_solver.
  - intros key' _ [-> _]. left. eauto.
Qed.

Lemma ended_ok T1 T2 m ss F key n r m' :
  monitor_ended key n m = (r, m') -> config_ok (mkConfig m ss (T1 ++ Monitoring key n :: T2) F) ->
  config_ok (mkConfig m' ss (T1 ++ [Reconnecting key n r] ++ T2) F).
Proof.
  intros He Hok. destruct (acting _ _ _ _ _ _ Hok) as (Hno & s & Hs & Hk).
  assert (forall key' mc, clients m !! key' = Some mc -> stream mc = n -> key' = key) as Hkey.
  { intros key' mc Hmc Hn. destruct (o_registered _ Hok _ _ Hmc) as (_ & (s' & Hs' & Hk' & _) & _). simpl in *. congruence. }
  assert (m' = m /\ (forall mc, clients m !! key = Some mc -> stream mc <> n) \/
    m' = set_clients m (delete key (clients m)) /\ exists mc, clients m !! key = Some mc /\ stream mc = n) as Hm.
  { unfold monitor_ended in He. destruct (clients m !! key) as [mc|] eqn:Ek; [|left; split; [by injection He|done]].
    destruct (Nat.eqb_spec (stream mc) n); injection He as <- <-; [right; eauto|left; split; [done|congruence]]. }
  assert (r = known m !! key) as Hr by (unfold monitor_ended in He; injection He as <- <-; by repeat case_match).
  eapply local_step_ok; [exact Hok|by destruct Hm as [[-> _]|[-> _]]..| | | | | | | |]; quiet.
  - intros t' ->%list_elem_of_singleton. split; [|by eapply lookup_lt_Some].
    change (Monitoring key n :: T2) with ([Monitoring key n] ++ T2) in Hno. rewrite openers_middle in *. done.
  - intros key' mc Hmc. left.
    assert (clients m !! key' = Some mc /\ stream mc <> n) as [Hmc' Hne].
    { destruct Hm as [[-> Hm]|[-> (mc0 & Hmc0 & Hn)]].
      - split; [done|]. intros Hn. eapply Hm; [|exact Hn]. by rewrite <- (Hkey _ _ Hmc Hn).
      - simpl in Hmc. apply lookup_delete_Some in Hmc as [Hne Hmc]. split; [done|]. intros Hn'. by apply Hne, eq_sym, (Hkey _ _ Hmc). }
    split_and!; [done| |congruence]. intros t' ->%list_elem_of_singleton Hx. by simpl in Hx.
  - intros key' mc Hmc. destruct Hm as [[-> Hm]|[-> (mc0 & Hmc0 & Hn)]]; [by left|]. simpl.
    destruct (decide (key' = key)) as [->|Hne]; [|left; by rewrite lookup_delete_ne].
    right. rewrite lookup_delete_eq. split_and!; [done| |].
    + exists (Reconnecting key n r). split; [by left|]. simpl. congruence.
    + intros r0 Hr0 Ho. exists (Reconnecting key n (Some r0)). split; [rewrite Hr, Hr0; by left|]. split; done.
  - intros k s' _ Hs' _ [?|[[]|?]]; [done|by edestruct touched_same].
Qed.

Lemma thread_step_ok T1 t T2 m ss F m' ss' F' ts :
  thread_step (m, ss, F) t (m', ss', F') ts ->
  config_ok (mkConfig m ss (T1 ++ t :: T2) F) -> config_ok (mkConfig m' ss' (T1 ++ ts ++ T2) F').
Proof.
  intros Hs Hok. inversion Hs; subst; clear Hs; eauto using dials_ok, opens_ok, registers_ok, second_ok, ended_ok.
  all: eapply (quiet_step_ok _ _ _ _ _ _ _ _ _ Hok); quiet.
  - intros key' _ [_ Hx]. congruence.
  - intros key' Hd Ha. match goal with Hx : r = None \/ _ |- _ => destruct Hx as [->|?] end; [done|congruence].
Qed.

(** Steps that keep the connections and the threads, or add a thread. *)
Lemma opener_none_app T t : opener t = None -> openers (T ++ [t]) = openers T.
Proof. intros Ht. rewrite openers_app. simpl. rewrite Ht. apply app_nil_r. Qed.

Lemma managed_below x key mc :
  config_ok x -> clients (manager x) !! key = Some mc -> (stream mc < length (connections x))%nat.
Proof. intros Hok Hmc. destruct (o_registered _ Hok _ _ Hmc) as (_ & (s & Hs & _) & _). by eapply lookup_lt_Some. Qed.

Lemma thread_ok_same m m' ss O t : (forall r, own m' r = own m r) -> thread_ok m ss O t -> thread_ok m' ss O t.
Proof. intros Ho. destruct t; simpl; rewrite ?Ho; done. Qed.

Lemma attempts_same m m' key t : (forall r, own m' r = own m r) -> attempts m key t -> attempts m' key t.
Proof. intros Ho. destruct t as [| | | | |? ? [|]|]; simpl; rewrite ?Ho; done. Qed.

Lemma upsert_ok service r m ss T F b m' :
  upsert service r m = (b, m') -> config_ok (mkConfig m ss T F) ->
  let key := managerKey service (Instance_ r) in
  config_ok (mkConfig m' ss (T ++ if b then [Connecting key r] else []) (F ∖ {[key]})).
Proof.
  intros Hu [Honce Hthreads Hreg Howned Hknown]. cbn zeta. simpl in *. set (key := managerKey service (Instance_ r)) in *.
  assert (m' = set_known m (<[key := r]> (known m)) /\ (b = true \/ is_Some (clients m !! key))) as [-> Hb].
  { unfold upsert in Hu. fold key in Hu. simpl in Hu. destruct (clients m !! key); injection Hu as <- <-; eauto. }
  set (ts := if b then _ else _).
  assert (openers (T ++ ts) = openers T) as Hops by (rewrite openers_app; subst ts; destruct b; apply app_nil_r).
  assert (forall n t, t ∈ ts -> closer n t -> False) as Hnc by (subst ts; destruct b; set_solver).
  split; simpl; rewrite ?Hops; [done| | | |].
  - intros t [Ht|Ht]%elem_of_app; [eapply thread_ok_same; [|by apply Hthreads]; done|].
    subst ts. destruct b; [by apply list_elem_of_singleton in Ht as ->|by apply not_elem_of_nil in Ht].
  - intros key' mc Hmc. destruct (Hreg _ _ Hmc) as (? & ? & ? & Hcl & ?). unfold registered_ok. rewrite Hops. simpl.
    split_and!; [done|done|done| |set_solver]. intros t [Ht|Ht]%elem_of_app; [by apply Hcl|]. intros Hx. by eapply Hnc.
  - intros Hd n s Hs Hc. destruct (Howned Hd n s Hs Hc) as [?|[?|(t & ? & ?)]]; [by left|right; left; by rewrite Hops|].
    right. right. exists t. set_solver.
  - intros Hd key' r' Hr' Ho. destruct (decide (key' = key)) as [->|Hne].
    + rewrite lookup_insert_eq in Hr'. injection Hr' as <-. destruct Hb as [->|?]; [|by left].
      right. right. exists (Connecting key r). subst ts. set_solver.
    + rewrite lookup_insert_ne in Hr' by done. destruct (Hknown Hd key' r' Hr' Ho) as [?|[?|(t & ? & ?)]]; [by left|right; left; set_solver|].
      right. right. exists t. split; [set_solver|by eapply attempts_same].
Qed.

Lemma remove_ok service instance m ss T F o m' :
  remove service instance m = (o, m') -> config_ok (mkConfig m ss T F) ->
  config_ok (mkConfig m' ss (T ++ match o with Some mc => [Closing (stream mc)] | None => [] end) F).
Proof.
  intros Hr Hok. pose proof Hok as [Honce Hthreads Hreg Howned Hknown]. simpl in *.
  unfold remove in Hr. set (key := managerKey service instance) in *. injection Hr as <- <-.
  set (ts := match _ with Some _ => _ | None => _ end).
  assert (forall t, t ∈ ts <-> exists mc, clients m !! key = Some mc /\ t = Closing (stream mc)) as Hts.
  { intros t. subst ts. destruct (clients m !! key) as [mc|]; [rewrite list_elem_of_singleton; naive_solver|set_solver]. }
  assert (openers (T ++ ts) = openers T) as Hops by (rewrite openers_app; subst ts; destruct (clients m !! key); apply app_nil_r).
  split; simpl; rewrite ?Hops; [done| | | |].
  - intros t [Ht|(mc & Hmc & ->)%Hts]%elem_of_app; [eapply thread_ok_same; [|by apply Hthreads]; done|].
    split; [apply (Hreg _ _ Hmc)|apply (managed_below _ _ _ Hok Hmc)].
  - intros key' mc Hmc. apply lookup_delete_Some in Hmc as [Hne Hmc].
    destruct (Hreg _ _ Hmc) as (? & (s & Hs & Hk & ?) & ? & Hcl & ?). unfold registered_ok. rewrite Hops. simpl.
    split_and!; [done|eauto 10|done| |set_solver]. intros t [Ht|(mc' & Hmc' & ->)%Hts]%elem_of_app; [by apply Hcl|].
    simpl. intros E. destruct (Hreg _ _ Hmc') as (_ & (s' & Hs' & Hk' & _) & _). congruence.
  - intros Hd n s Hs Hc. destruct (Howned Hd n s Hs Hc) as [(mc & Hmc & <-)|[?|(t & ? & ?)]].
    + destruct (decide (for_key s = key)) as [E|Hne].
      * right. right. exists (Closing (stream mc)). split; [|done]. apply elem_of_app. right. apply Hts. exists mc. by rewrite <- E.
      * left. exists mc. simpl. by rewrite lookup_delete_ne by done.
    + right. left. by rewrite Hops.
    + right. right. exists t. set_solver.
  - intros Hd key' r' Hr' Ho. apply lookup_delete_Some in Hr' as [Hne Hr'].
    destruct (Hknown Hd key' r' Hr' Ho) as [[mc ?]|[?|(t & ? & ?)]]; [left|by right; left|].
    + simpl. rewrite lookup_delete_ne by done. eauto.
    + right. right. exists t. split; [set_solver|by eapply attempts_same].
Qed.

Lemma use_ok n s c c' m ss T F :
  ss !! n = Some s -> s_client s = Some c -> config_ok (mkConfig m ss T F) ->
  config_ok (mkConfig m (<[n := mkConnection (for_key s) (Some c') (s_closed s)]> ss) T F).
Proof.
  intros Hs Hc [Honce Hthreads Hreg Howned Hknown]. simpl in *. set (s1 := mkConnection _ _ _).
  assert (touched ss (<[n := s1]> ss) (fun _ => False)) as Htouch.
  { split; [by rewrite length_insert|]. intros k s0 Hs0. destruct (decide (k = n)) as [->|Hne].
    - rewrite Hs in Hs0. injection Hs0 as <-. exists s1. rewrite list_lookup_insert_eq by (by eapply lookup_lt_Some). simpl. eauto 10.
    - rewrite list_lookup_insert_ne by done. eauto 10. }
  split; simpl; [done| | | |done].
  - intros t Ht. eapply thread_ok_touched; [by apply Hthreads|exact Htouch|done|by left|tauto].
  - intros key mc Hmc. destruct (Hreg _ _ Hmc) as (? & (s0 & Hs0 & Hk & Hcl & Hsome) & ?). split; [done|]. split; [|done].
    destruct (proj2 Htouch _ _ Hs0) as (s' & Hs' & Hk' & Hsome' & [E|[_ []]]). exists s'. split_and!; [done|congruence|congruence|auto].
  - intros Hd k s' Hs' Hcl. destruct (decide (k = n)) as [->|Hne].
    + rewrite list_lookup_insert_eq in Hs' by (by eapply lookup_lt_Some). injection Hs' as <-. by apply (Howned Hd n s).
    + rewrite list_lookup_insert_ne in Hs' by done. by apply (Howned Hd k s').
Qed.

Lemma manager_step_ok `{!MapRange string managedClient} x x' : step x x' -> config_ok x -> config_ok x'.
Proof.
  intros Hs Hok. destruct Hs.
  - apply (upsert_ok _ _ _ _ _ _ _ _ H) in Hok. simpl in Hok. by rewrite app_nil_r in Hok.
  - by apply (upsert_ok _ _ _ _ _ _ _ _ H) in Hok.
  - apply (remove_ok _ _ _ _ _ _ _ _ H) in Hok. by rewrite app_nil_r in Hok.
  - by apply (remove_ok _ _ _ _ _ _ _ _ H) in Hok.
  - by eapply thread_step_ok.
  - by eapply use_ok.
  - destruct Hok as [? Hthreads Hreg ? ?]. split; simpl in *; [done| | |done|done].
    + intros t Ht. eapply thread_ok_same; [|by apply Hthreads]. done.
    + intros key mc Hmc. destruct (Hreg _ _ Hmc) as (? & ? & ? & ? & _). by split_and!.
  - destruct Hok as [? Hthreads Hreg ? ?]. unfold Close in H0. injection H0 as <- <-. simpl in *.
    split; simpl; [done| |intros key mc Hmc; by rewrite lookup_empty in Hmc|congruence|congruence].
    intros t Ht. specialize (Hthreads t Ht). clear -Hthreads Hreg Ht.
    assert (forall n, n ∈ openers T -> n ∉ stream <$> (range (clients m)).*2) as Hn.
    { intros n Hn (mc & -> & ([key mc'] & -> & Hmc%elem_of_range)%list_elem_of_fmap)%list_elem_of_fmap.
      by destruct (Hreg _ _ Hmc) as (_ & _ & ? & _). }
    set (ns := stream <$> _) in *. 
    assert (touched ss (foldl (fun ss n => alter close_connection n ss) ss ns) (fun n => n ∈ ns)) as Htouch.
    { clear. revert ss. generalize ns. intros l. apply touched_each. }
    eapply (thread_ok_touched m); [exact Hthreads|exact Htouch|done|by left|].
    intros n Hon Hin. eapply Hn; [|exact Hin]. apply elem_openers. eauto.
Qed.

Definition started (name instance : string) : config := mkConfig (NewClientManager name instance) [] [] ∅.

Lemma started_ok name instance : config_ok (started name instance).
Proof. split; simpl; try done; try constructor; intros; set_solver. Qed.

Lemma reached_config_ok `{!MapRange string managedClient} name instance x : rtc step (started name instance) x -> config_ok x.
Proof.
  intros Hrun. assert (config_ok (started name instance)) as H0 by apply started_ok. revert H0.
  induction Hrun; eauto using manager_step_ok.
Qed.

Lemma first_with_prefix_elem p l n :
  first_with_prefix p l = Some n -> exists key c, (key, c) ∈ l /\ stream c = n /\ HasPrefix key p = true.
Proof.
  induction l as [|[key c] l IH]; [done|]. simpl. destruct (HasPrefix key p) eqn:E.
  - intros [= <-]. exists key, c. split_and!; [by left|done|done].
  - intros (key' & c' & ? & ?)%IH. exists key', c'. split; [by right|done].
Qed.

Lemma AnyClient_of_service `{!MapRange string managedClient} service m n :
  AnyClient service m = Some n -> exists instance mc, clients m !! managerKey service instance = Some mc /\ stream mc = n.
Proof.
  intros (key & mc & Hin & Hn & [q ->]%HasPrefix_spec)%first_with_prefix_elem. apply elem_of_range in Hin.
  exists q, mc. unfold managerKey. split; [|done]. by rewrite append_assoc.
Qed.


(** ** Runs *)

Section runs.
#[local] Existing Instance canonical_range.

Definition gateway0 : config := started "gateway" "g1".
Definition lobby_key : string := "lobby/l1".
Definition named : ClientManager := (upsert "lobby" lobby1 (manager gateway0)).2.
Definition hello_sent : Streaming.Client := Streaming.mkClient ∅ 0 false [].
Definition lobby_connected : config :=
  mkConfig (register lobby_key lobby1 0 named).2 [mkConnection lobby_key (Some hello_sent) false] [Monitoring lobby_key 0] ∅.

Lemma named_reached : rtc step gateway0 (mkConfig named [] [Connecting lobby_key lobby1] ∅).
Proof. apply rtc_once. exact (s_put_new "lobby" lobby1 (manager gateway0) [] [] ∅ named eq_refl). Qed.

Lemma connected_reached : rtc step gateway0 lobby_connected.
Proof.
  etrans; [exact named_reached|].
  eapply rtc_l; [exact (s_thread named [] [] _ [] ∅ _ _ _ _ (t_dials named [] ∅ lobby_key lobby1 eq_refl))|].
  eapply rtc_l; [exact (s_thread named _ [] _ [] ∅ _ _ _ _ (t_client named _ ∅ lobby_key lobby1 0 hello_sent eq_refl))|].
  apply rtc_once. exact (s_thread named _ [] _ [] ∅ _ _ _ _ (t_registers named _ ∅ lobby_key lobby1 0 _ eq_refl)).
Qed.


(** One failed attempt, and nothing is under way any more: the instance stays without a
    stream until the registry names it again. *)
Lemma failed_dial_abandons_instance :
  exists x, rtc step gateway0 x /\ known (manager x) !! lobby_key = Some lobby1 /\
    AnyClient "lobby" (manager x) = None /\ threads x = [].
Proof.
  eexists. split.
  - eapply rtc_r; [exact named_reached|].
    exact (s_thread named [] [] _ [] ∅ _ _ _ _ (t_dial_fails named [] ∅ lobby_key lobby1 eq_refl)).
  - split_and!; vm_compute; reflexivity.
Qed.

(** An instance that is withdrawn while a connection to it is being opened is connected
    all the same, and stays so. *)
Lemma removal_misses_open_attempt :
  exists x, rtc step gateway0 x /\ known (manager x) !! lobby_key = None /\ AnyClient "lobby" (manager x) = Some 0%nat.
Proof.
  set (gone := (remove "lobby" "l1" named).2). eexists. split.
  - etrans; [exact named_reached|].
    eapply rtc_l; [exact (s_remove "lobby" "l1" named [] _ ∅ gone eq_refl)|].
    eapply rtc_l; [exact (s_thread gone [] [] _ [] ∅ _ _ _ _ (t_dials gone [] ∅ lobby_key lobby1 eq_refl))|].
    eapply rtc_l; [exact (s_thread gone _ [] _ [] ∅ _ _ _ _ (t_client gone _ ∅ lobby_key lobby1 0 hello_sent eq_refl))|].
    apply rtc_once. exact (s_thread gone _ [] _ [] ∅ _ _ _ _ (t_registers gone _ ∅ lobby_key lobby1 0 _ eq_refl)).
  - split; vm_compute; reflexivity.
Qed.

End runs.

End ClientManager.
