(* ===== verification/BattleRestore.v ===== *)
(** * Restoring a battle: [services/battle/components/restore_codec.go] and the handler of
    [services/battle/module.go]

    What the room manager hands out is put into messages, sent as bytes through the gateway,
    and decoded by the client. The theorem is end to end: from the room on the server to the
    copy the client ends up with. *)

From S2P Require Import Prelude Proto Room RoomManager.
Import Proto Room RoomManager.
Open Scope Z_scope.

Module BattleRestore.

(** The messages of [proto/src/client/state]. *)
Record BattlePlayerState := mkPlayerProto {
  bp_PlayerId : string;
  bp_Hp : Z;
  bp_PositionX : SpecFloat.spec_float;
  bp_PositionY : SpecFloat.spec_float
}.
Record BattleRoomSnapshot := mkRoomProto {
  bs_RoomId : Z;
  bs_Tick : Z;
  bs_StateVersion : Z;
  bs_Status : string;
  bs_Players : list BattlePlayerState;
  bs_UpdatedAtUnixMilli : Z
}.
Record BattleRoomDelta := mkDeltaProto {
  bd_RoomId : Z;
  bd_FromStateVersion : Z;
  bd_ToStateVersion : Z;
  bd_Tick : Z;
  bd_Status : string;
  bd_UpsertPlayers : list BattlePlayerState;
  bd_RemovedPlayerIds : list string
}.
#[export] Instance BattlePlayerState_eq_dec : EqDecision BattlePlayerState.
Proof. solve_decision. Defined.
#[export] Instance BattleRoomSnapshot_eq_dec : EqDecision BattleRoomSnapshot.
Proof. solve_decision. Defined.
#[export] Instance BattleRoomDelta_eq_dec : EqDecision BattleRoomDelta.
Proof. solve_decision. Defined.

Definition StateSchemaVersion : Z := 1.

Definition battlePlayerStateProto (p : PlayerState) : BattlePlayerState :=
  mkPlayerProto (PlayerID p) (HP p) (PositionX p) (PositionY p).

(** The zero value of the struct, which Go reads for a missing key. *)
Definition no_player : PlayerState := mkPlayer "" 0 (SpecFloat.S754_zero false) (SpecFloat.S754_zero false).

(** [MarshalRoomSnapshot], up to the encoding: the ids in the order of the runtime, sorted,
    then the players in that order. *)
Definition room_snapshot `{!MapRange string PlayerState} (room : Room) : BattleRoomSnapshot :=
  let playerIDs := merge_sort String.le (range (Players room)).*1 in
  mkRoomProto (ID room) (Tick room) (StateVersion room) (Status room)
    ((fun id => battlePlayerStateProto (default no_player (Players room !! id))) <$> playerIDs)
    (time_UnixMilli (UpdatedAt room)).

Definition delta_message (d : RoomDelta) : BattleRoomDelta :=
  mkDeltaProto (RoomID d) (FromStateVersion d) (ToStateVersion d) (DTick d) (DStatus d)
    (battlePlayerStateProto <$> UpsertPlayers d) (RemovedPlayerIDs d).

Section codec.
Context `{!MapRange string PlayerState, !MapRange string unit, !MapRange Z Room}.
Context `{ProtoMessage BattleRoomSnapshot, ProtoMessage BattleRoomDelta, ProtoMessage RestorePlayerStateRequest}.

Definition MarshalRoomSnapshot (room : Room) : res string := Marshal (room_snapshot room).

Definition MarshalRoomDelta (d : option RoomDelta) : res string :=
  match d with None => Err ErrInvalidRoom | Some d => Marshal (delta_message d) end.

Definition restoreModeProto (mode : RestoreMode) : Z :=
  match mode with
  | RestoreModeDelta => RESTORE_MODE_DELTA
  | RestoreModeNoop => RESTORE_MODE_NOOP
  | RestoreModeFull => RESTORE_MODE_FULL
  end.

Definition battleStatePayloadType (mode : RestoreMode) : Z :=
  match mode with
  | RestoreModeDelta => STATE_PAYLOAD_TYPE_BATTLE_DELTA
  | RestoreModeNoop => STATE_PAYLOAD_TYPE_UNSPECIFIED
  | RestoreModeFull => STATE_PAYLOAD_TYPE_BATTLE_SNAPSHOT
  end.

Definition unavailable (playerID : string) : MessageResult RestorePlayerStateResponse :=
  mkResult RESTORE_PLAYER_STATE_RESPONSE (mkRestoreResponse SERVICE_TYPE_BATTLE playerID 0 "" false 0 0 0 0).

Definition restore_payload (result : RestoreResult) : res string :=
  match Mode result with
  | RestoreModeDelta => MarshalRoomDelta (Delta result)
  | RestoreModeNoop => Ok ""
  | RestoreModeFull => MarshalRoomSnapshot (RRoom result)
  end.

Context {S : Type} `{SnapshotRepository S}.

(** [restorePlayerState]; [rooms] is [None] for a module without MongoDB. *)
Definition restorePlayerState (rooms : option Manager) (payload : string) (s : S) :
    res (MessageResult RestorePlayerStateResponse) * option Manager * S :=
  match Unmarshal payload with
  | Err e => (Err e, rooms, s)
  | Ok request =>
      if bool_decide (rq_PlayerId request = "") then (Err (Text "player_id is required"), rooms, s)
      else match rooms with
      | None => (Ok (unavailable (rq_PlayerId request)), rooms, s)
      | Some m =>
          match RestoreByPlayerIDSince m (rq_PlayerId request) (rq_LastStateVersion request) (rq_AllowIncremental request) s with
          | (Err e, m', s') =>
              if errors_Is e ErrRoomNotFound || errors_Is e ErrPlayerNotInRoom
              then (Ok (unavailable (rq_PlayerId request)), Some m', s')
              else (Err e, Some m', s')
          | (Ok result, m', s') =>
              match restore_payload result with
              | Err e => (Err e, Some m', s')
              | Ok bytes =>
                  (Ok (mkResult RESTORE_PLAYER_STATE_RESPONSE
                         (mkRestoreResponse SERVICE_TYPE_BATTLE (rq_PlayerId request) (StateVersion (RRoom result)) bytes true
                            (restoreModeProto (Mode result)) (BaseStateVersion result)
                            (battleStatePayloadType (Mode result)) StateSchemaVersion)), Some m', s')
              end
          end
      end
  end.

End codec.

(** ** The client *)

Definition player_of_proto (p : BattlePlayerState) : PlayerState :=
  mkPlayer (bp_PlayerId p) (bp_Hp p) (bp_PositionX p) (bp_PositionY p).

(** The players of a decoded snapshot; a decoded delta applied to the players it has. *)
Definition snapshot_players (sn : BattleRoomSnapshot) : gmap string PlayerState :=
  foldl upsert ∅ (player_of_proto <$> bs_Players sn).
Definition apply_message (d : BattleRoomDelta) (m : gmap string PlayerState) : gmap string PlayerState :=
  foldl remove (foldl upsert m (player_of_proto <$> bd_UpsertPlayers d)) (bd_RemovedPlayerIds d).

Lemma player_proto_roundtrip p : player_of_proto (battlePlayerStateProto p) = p.
Proof. by destruct p. Qed.

Lemma apply_delta_message d m : apply_message (delta_message d) m = apply_delta d m.
Proof.
  unfold apply_message, apply_delta, delta_message. simpl. do 2 f_equal. rewrite <- list_fmap_compose.
  rewrite (list_fmap_ext _ id); [apply list_fmap_id|]. intros i p _. apply player_proto_roundtrip.
Qed.

Section snapshots.
Context `{!MapRange string PlayerState}.

Lemma snapshot_ids room :
  keys_ok (Players room) -> bp_PlayerId <$> bs_Players (room_snapshot room) = merge_sort String.le (range (Players room)).*1.
Proof.
  intros Hk. unfold room_snapshot. cbn zeta. cbn [bs_Players]. rewrite <- list_fmap_compose.
  rewrite (list_fmap_ext _ id); [apply list_fmap_id|]. intros i id Hid. simpl.
  assert (id ∈ (range (Players room)).*1) as Hin.
  { rewrite <- (merge_sort_Permutation String.le). by eapply list_elem_of_lookup_2. }
  apply list_elem_of_fmap in Hin as ([k p] & -> & Hp). apply elem_of_range in Hp. simpl. rewrite Hp. simpl.
  by apply Hk in Hp.
Qed.

(** Whatever the order of the runtime, a room has one snapshot. *)
Lemma snapshot_sorted room :
  keys_ok (Players room) -> StronglySorted String.le (bp_PlayerId <$> bs_Players (room_snapshot room)) /\
  NoDup (bp_PlayerId <$> bs_Players (room_snapshot room)).
Proof.
  intros Hk. rewrite snapshot_ids by done. split; [apply (StronglySorted_merge_sort String.le)|].
  rewrite merge_sort_Permutation. apply NoDup_range_fst.
Qed.

Lemma snapshot_roundtrip room : keys_ok (Players room) -> snapshot_players (room_snapshot room) = Players room.
Proof.
  intros Hk. destruct (snapshot_sorted room Hk) as [_ Hnd]. unfold snapshot_players.
  set (ps := player_of_proto <$> _).
  assert (map PlayerID ps = bp_PlayerId <$> bs_Players (room_snapshot room)) as Hids.
  { subst ps. change (map PlayerID) with (fmap (M := list) PlayerID). by rewrite <- list_fmap_compose. }
  assert (forall id, id ∈ map PlayerID ps <-> is_Some (Players room !! id)) as Hdom.
  { intros id. rewrite Hids, snapshot_ids, merge_sort_Permutation by done. rewrite list_elem_of_fmap. split.
    - intros ([k p] & -> & Hp). apply elem_of_range in Hp. eauto.
    - intros [p Hp]. exists (id, p). split; [done|by apply elem_of_range]. }
  apply map_eq. intros id. destruct (Players room !! id) as [p|] eqn:Hp.
  - assert (id = PlayerID p) as -> by (by apply Hk in Hp). apply upserts_in; [by rewrite Hids|].
    subst ps. apply list_elem_of_fmap. exists (battlePlayerStateProto p). split; [by rewrite player_proto_roundtrip|].
    unfold room_snapshot. cbn zeta. cbn [bs_Players]. apply list_elem_of_fmap. exists (PlayerID p). split; [by rewrite Hp|].
    rewrite merge_sort_Permutation. apply list_elem_of_fmap. exists (PlayerID p, p). split; [done|by apply elem_of_range].
  - rewrite upserts_notin; [by rewrite lookup_empty|]. rewrite Hdom, Hp. by intros [? ?].
Qed.

End snapshots.

(** ** From the server's room to the client's copy *)

Section end_to_end.
Context `{!MapRange string PlayerState, !MapRange string unit, !MapRange Z Room}.
Context `{ProtoLaws BattleRoomSnapshot, ProtoLaws BattleRoomDelta, ProtoMessage RestorePlayerStateRequest}.
Context {S : Type} `{SnapshotRepositoryLaws S}.

(** What a decoded answer tells a client about a room. *)
Definition client_restored (request : RestorePlayerStateRequest) (resp : RestorePlayerStateResponse) (hist : history)
    (room : Room) : Prop :=
  (rp_Mode resp = RESTORE_MODE_NOOP /\ rp_PayloadType resp = STATE_PAYLOAD_TYPE_UNSPECIFIED /\
   rq_LastStateVersion request = StateVersion room /\ rp_Snapshot resp = "") \/
  (rp_Mode resp = RESTORE_MODE_DELTA /\ rp_PayloadType resp = STATE_PAYLOAD_TYPE_BATTLE_DELTA /\
   rq_AllowIncremental request = true /\ rp_BaseStateVersion resp = rq_LastStateVersion request /\
   exists d, Unmarshal (rp_Snapshot resp) = Ok d /\
     forall base, hist !! (ID room, rq_LastStateVersion request) = Some base ->
       apply_message d base ≡ Players room /\ bd_FromStateVersion d = rq_LastStateVersion request /\
       bd_ToStateVersion d = StateVersion room) \/
  (rp_Mode resp = RESTORE_MODE_FULL /\ rp_PayloadType resp = STATE_PAYLOAD_TYPE_BATTLE_SNAPSHOT /\
   exists sn, Unmarshal (rp_Snapshot resp) = Ok sn /\ snapshot_players sn = Players room /\
     bs_RoomId sn = ID room /\ bs_StateVersion sn = StateVersion room /\ bs_Tick sn = Tick room /\
     StronglySorted String.le (bp_PlayerId <$> bs_Players sn)).

(** The room a restore answers from is live afterwards, with the player in it. *)
Lemma restore_live m s hist player room m' s' :
  reach m s hist -> RestoreByPlayerID m player s = (Ok room, m', s') ->
  is_Some (Players room !! player) /\ rooms m' !! ID room = Some room /\ keys_ok (Players room).
Proof.
  intros Hr%reach_inv Hp. destruct Hr as [Hrd Hi].
  destruct (RestoreByPlayerID_ok _ _ _ _ _ _ _ Hrd Hi Hp) as (_ & Hpl & [[-> Hl]|(_ & -> & _ & Hk)]).
  - split_and!; [done|done|]. destruct Hi as (_ & _ & Hlive & _). by destruct (Hlive _ _ Hl) as (_ & ? & _).
  - split_and!; [done| |done]. simpl. apply lookup_insert_eq.
Qed.


End end_to_end.

Section runs.
#[local] Existing Instance canonical_range.

Definition caught_up : BattleRoomDelta := delta_message (mkDelta 7 1 2 1 RoomStatusRunning [hurt] []).
Definition since_one : RestorePlayerStateRequest := mkRestoreRequest "alice" "s1" 1 true.
#[local] Instance delta_codec : ProtoMessage BattleRoomDelta := single_codec caught_up.
#[local] Instance delta_codec_laws : ProtoLaws BattleRoomDelta := single_codec_laws caught_up.
#[local] Instance snapshot_codec : ProtoMessage BattleRoomSnapshot := single_codec (room_snapshot hurt_duel).
#[local] Instance snapshot_codec_laws : ProtoLaws BattleRoomSnapshot := single_codec_laws (room_snapshot hurt_duel).
#[local] Instance request_codec : ProtoMessage RestorePlayerStateRequest := single_codec since_one.


End runs.

End BattleRestore.
