(* ===== verification/Config.v ===== *)
(** * The configuration: [common/config/config.go]

    Defaults, overridden by a file, overridden by environment variables, then validated.
    The file system, the YAML library and the environment are arguments. The theorem says
    what the other components rely on once a configuration was loaded. *)

From Stdlib Require Import Floats.SpecFloat.
From S2P Require Import Prelude Snowflake Breaker Retry Idempotency TokenBucket.
Open Scope Z_scope.

Module Config.

Record AppConfig := mkApp { Name : string; InstanceID : string; Environment : string; ShutdownTimeout : Z }.
Record HTTPConfig := mkHTTP { HTTP_Address : string; ReadTimeout : Z; WriteTimeout : Z }.
Record GRPCConfig := mkGRPC { ListenAddress : string; AdvertiseAddress : string }.
Record GatewayConfig := mkGatewayConfig {
  SessionTTL : Z;
  ReconnectGrace : Z;
  HeartbeatInterval : Z;
  HeartbeatTimeout : Z;
  RateLimitBurst : Z;
  RateLimitPerSecond : TokenBucket.float64;
  RetryAttempts : Z;
  CircuitFailures : Z;
  CircuitReset : Z;
  DrainTimeout : Z
}.
Record UserCenterConfig := mkUserCenter { RefreshTokenTTL : Z; IdempotencyTTL : Z }.
Record RedisConfig := mkRedis { Redis_Address : string; Redis_Password : string; DB : Z }.
Record MongoConfig := mkMongo {
  URI : string;
  Database : string;
  ConnectTimeout : Z;
  AuthMechanism : string;
  AuthSource : string;
  Username : string;
  Password : string
}.
Record DiscoveryConfig := mkDiscovery { Provider : string; Endpoints : list string; Namespace : string; LeaseTTL : Z }.
Record IDGeneratorConfig := mkIDGenerator { NodeID : Z }.
Record ServiceConfig := mkService { Enabled : bool }.
Record BattleConfig := mkBattle { TickRate : Z; MaxPlayersPerRoom : Z }.

Record Config := mkConfig {
  App : AppConfig;
  HTTP : HTTPConfig;
  GRPC : GRPCConfig;
  Gateway : GatewayConfig;
  UserCenter : UserCenterConfig;
  Redis : RedisConfig;
  Mongo : MongoConfig;
  Discovery : DiscoveryConfig;
  IDGenerator : IDGeneratorConfig;
  Services : gmap string ServiceConfig;
  Battle : BattleConfig
}.

Definition Hour : Z := 3600 * Second.

Definition Defaults : Config :=
  mkConfig
    (mkApp "game-server" "game-server-local" "local" (15 * Second))
    (mkHTTP ":8080" (10 * Second) (10 * Second))
    (mkGRPC ":9090" "127.0.0.1:9090")
    (mkGatewayConfig (24 * Hour) (30 * Second) (10 * Second) (30 * Second) 30 (TokenBucket.f_of_Z 10) 3 3 (5 * Second) (10 * Second))
    (mkUserCenter (30 * 24 * Hour) (24 * Hour))
    (mkRedis "127.0.0.1:6379" "" 0)
    (mkMongo "mongodb://127.0.0.1:27017" "game01" (5 * Second) "" "" "" "")
    (mkDiscovery "static" ["http://127.0.0.1:2379"] "/services/game01" 10)
    (mkIDGenerator 1)
    {[ "gateway" := mkService true; "usercenter" := mkService true; "lobby" := mkService true; "battle" := mkService true ]}
    (mkBattle 20 8).

(** ** [strconv] and [strings] *)

(** The value of a string of decimal digits. *)
Fixpoint digits (value : Z) (l : list Z) : option Z :=
  match l with
  | [] => Some value
  | b :: l => if (48 <=? b) && (b <=? 57) then digits (value * 10 + (b - 48)) l else None
  end.
Definition decimal (l : list Z) : option Z := match l with [] => None | _ => digits 0 l end.

Definition invalid_syntax : error := Text "invalid syntax".
Definition out_of_range : error := Text "value out of range".

(** [strconv.ParseUint(s, 10, bits)] *)
Definition ParseUint (s : string) (bits : Z) : res Z :=
  match decimal (string_bytes s) with
  | None => Err invalid_syntax
  | Some n => if n <? 2 ^ bits then Ok n else Err out_of_range
  end.

(** [strconv.Atoi]: a sign (43 is plus, 45 is minus), then digits. *)
Definition Atoi (s : string) : res Z :=
  let parse sign l :=
    match decimal l with
    | None => Err invalid_syntax
    | Some n => if (- 2 ^ 63 <=? sign * n) && (sign * n <? 2 ^ 63) then Ok (sign * n) else Err out_of_range
    end in
  match string_bytes s with
  | 43 :: l => parse 1 l
  | 45 :: l => parse (-1) l
  | l => parse 1 l
  end.

(** [strings.Split(s, ",")]; 44 is the comma. *)
Fixpoint split_bytes (word : list Z) (l : list Z) : list (list Z) :=
  match l with
  | [] => [word]
  | b :: l => if b =? 44 then word :: split_bytes [] l else split_bytes (word ++ [b]) l
  end.
Definition Split (s : string) : list string := bytes_string <$> split_bytes [] (string_bytes s).

Example Atoi_ex : (Atoi "-12", Atoi "+", Atoi "1x", ParseUint "70000" 16) =
  (Ok (-12), Err invalid_syntax, Err invalid_syntax, Err out_of_range).
Proof. vm_compute. reflexivity. Qed.
Example Split_ex : Split "a,,b" = ["a"; ""; "b"].
Proof. vm_compute. reflexivity. Qed.

(** ** The environment *)

Definition set_App (c : Config) (x : AppConfig) : Config :=
  mkConfig x (HTTP c) (GRPC c) (Gateway c) (UserCenter c) (Redis c) (Mongo c) (Discovery c) (IDGenerator c) (Services c) (Battle c).
Definition set_HTTP (c : Config) (x : HTTPConfig) : Config :=
  mkConfig (App c) x (GRPC c) (Gateway c) (UserCenter c) (Redis c) (Mongo c) (Discovery c) (IDGenerator c) (Services c) (Battle c).
Definition set_GRPC (c : Config) (x : GRPCConfig) : Config :=
  mkConfig (App c) (HTTP c) x (Gateway c) (UserCenter c) (Redis c) (Mongo c) (Discovery c) (IDGenerator c) (Services c) (Battle c).
Definition set_Redis (c : Config) (x : RedisConfig) : Config :=
  mkConfig (App c) (HTTP c) (GRPC c) (Gateway c) (UserCenter c) x (Mongo c) (Discovery c) (IDGenerator c) (Services c) (Battle c).
Definition set_Mongo (c : Config) (x : MongoConfig) : Config :=
  mkConfig (App c) (HTTP c) (GRPC c) (Gateway c) (UserCenter c) (Redis c) x (Discovery c) (IDGenerator c) (Services c) (Battle c).
Definition set_Discovery (c : Config) (x : DiscoveryConfig) : Config :=
  mkConfig (App c) (HTTP c) (GRPC c) (Gateway c) (UserCenter c) (Redis c) (Mongo c) x (IDGenerator c) (Services c) (Battle c).
Definition set_IDGenerator (c : Config) (x : IDGeneratorConfig) : Config :=
  mkConfig (App c) (HTTP c) (GRPC c) (Gateway c) (UserCenter c) (Redis c) (Mongo c) (Discovery c) x (Services c) (Battle c).
Definition set_Battle (c : Config) (x : BattleConfig) : Config :=
  mkConfig (App c) (HTTP c) (GRPC c) (Gateway c) (UserCenter c) (Redis c) (Mongo c) (Discovery c) (IDGenerator c) (Services c) x.

(** [if v := os.Getenv(name); v != "" { set }] *)
Definition override (v : string) (set : Config -> Config) (c : Config) : Config :=
  if bool_decide (v = "") then c else set c.

Definition applyEnv (Getenv : string -> string) (c : Config) : Config :=
  let env name (set : string -> Config -> Config) c := override (Getenv name) (set (Getenv name)) c in
  let c := env "GAME_HTTP_ADDRESS" (fun v c => set_HTTP c (mkHTTP v (ReadTimeout (HTTP c)) (WriteTimeout (HTTP c)))) c in
  let c := env "GAME_GRPC_LISTEN_ADDRESS" (fun v c => set_GRPC c (mkGRPC v (AdvertiseAddress (GRPC c)))) c in
  let c := env "GAME_GRPC_ADVERTISE_ADDRESS" (fun v c => set_GRPC c (mkGRPC (ListenAddress (GRPC c)) v)) c in
  let c := env "GAME_ENVIRONMENT" (fun v c => set_App c (mkApp (Name (App c)) (InstanceID (App c)) v (ShutdownTimeout (App c)))) c in
  let c := env "GAME_INSTANCE_ID" (fun v c => set_App c (mkApp (Name (App c)) v (Environment (App c)) (ShutdownTimeout (App c)))) c in
  let c := env "GAME_ID_NODE_ID" (fun v c =>
             match ParseUint v 16 with Ok nodeID => set_IDGenerator c (mkIDGenerator (uint16 nodeID)) | Err _ => c end) c in
  let c := env "GAME_BATTLE_TICK_RATE" (fun v c =>
             match Atoi v with Ok n => set_Battle c (mkBattle n (MaxPlayersPerRoom (Battle c))) | Err _ => c end) c in
  let c := env "GAME_REDIS_ADDR" (fun v c => set_Redis c (mkRedis v (Redis_Password (Redis c)) (DB (Redis c)))) c in
  let c := env "GAME_REDIS_PASSWORD" (fun v c => set_Redis c (mkRedis (Redis_Address (Redis c)) v (DB (Redis c)))) c in
  let c := env "GAME_MONGO_URI" (fun v c => let m := Mongo c in
             set_Mongo c (mkMongo v (Database m) (ConnectTimeout m) (AuthMechanism m) (AuthSource m) (Username m) (Password m))) c in
  let c := env "GAME_MONGO_DATABASE" (fun v c => let m := Mongo c in
             set_Mongo c (mkMongo (URI m) v (ConnectTimeout m) (AuthMechanism m) (AuthSource m) (Username m) (Password m))) c in
  let c := env "GAME_MONGO_AUTH_MECHANISM" (fun v c => let m := Mongo c in
             set_Mongo c (mkMongo (URI m) (Database m) (ConnectTimeout m) v (AuthSource m) (Username m) (Password m))) c in
  let c := env "GAME_MONGO_AUTH_SOURCE" (fun v c => let m := Mongo c in
             set_Mongo c (mkMongo (URI m) (Database m) (ConnectTimeout m) (AuthMechanism m) v (Username m) (Password m))) c in
  let c := env "GAME_MONGO_USERNAME" (fun v c => let m := Mongo c in
             set_Mongo c (mkMongo (URI m) (Database m) (ConnectTimeout m) (AuthMechanism m) (AuthSource m) v (Password m))) c in
  let c := env "GAME_MONGO_PASSWORD" (fun v c => let m := Mongo c in
             set_Mongo c (mkMongo (URI m) (Database m) (ConnectTimeout m) (AuthMechanism m) (AuthSource m) (Username m) v)) c in
  let c := env "GAME_DISCOVERY_PROVIDER" (fun v c => let d := Discovery c in
             set_Discovery c (mkDiscovery v (Endpoints d) (Namespace d) (LeaseTTL d))) c in
  env "GAME_DISCOVERY_ENDPOINTS" (fun v c => let d := Discovery c in
             set_Discovery c (mkDiscovery (Provider d) (Split v) (Namespace d) (LeaseTTL d))) c.

(** ** Validation *)

Definition is_empty (s : string) : bool := bool_decide (s = "").

Definition Validate (c : Config) : option error :=
  let g := Gateway c in
  if is_empty (HTTP_Address (HTTP c)) then Some (Text "http.address is required")
  else if is_empty (ListenAddress (GRPC c)) || is_empty (AdvertiseAddress (GRPC c))
  then Some (Text "grpc.listen_address and grpc.advertise_address are required")
  else if ShutdownTimeout (App c) <=? 0 then Some (Text "app.shutdown_timeout must be positive")
  else if is_empty (InstanceID (App c)) then Some (Text "app.instance_id is required")
  else if (SessionTTL g <=? 0) || (ReconnectGrace g <=? 0) || (HeartbeatInterval g <=? 0) || (HeartbeatTimeout g <=? 0)
  then Some (Text "gateway session and heartbeat durations must be positive")
  else if (RateLimitBurst g <=? 0) || SFleb (RateLimitPerSecond g) (TokenBucket.f_of_Z 0) || (RetryAttempts g <=? 0) ||
          (CircuitFailures g <=? 0) || (CircuitReset g <=? 0) || (DrainTimeout g <=? 0)
  then Some (Text "gateway reliability settings must be positive")
  else if ShutdownTimeout (App c) <=? DrainTimeout g
  then Some (Text "gateway.drain_timeout must be shorter than app.shutdown_timeout")
  else if (RefreshTokenTTL (UserCenter c) <=? 0) || (IdempotencyTTL (UserCenter c) <=? 0)
  then Some (Text "usercenter.refresh_token_ttl and usercenter.idempotency_ttl must be positive")
  else if is_empty (Redis_Address (Redis c)) then Some (Text "redis.address is required")
  else if is_empty (URI (Mongo c)) || is_empty (Database (Mongo c)) then Some (Text "mongo.uri and mongo.database are required")
  else if ConnectTimeout (Mongo c) <=? 0 then Some (Text "mongo.connect_timeout must be positive")
  else if negb (bool_decide (Provider (Discovery c) = "static")) && negb (bool_decide (Provider (Discovery c) = "etcd"))
  then Some (Text "discovery.provider must be static or etcd")
  else if bool_decide (Provider (Discovery c) = "etcd") && (length (Endpoints (Discovery c)) =? 0)%nat
  then Some (Text "discovery.endpoints is required for etcd")
  else if 1023 <? NodeID (IDGenerator c) then Some (Text "id_generator.node_id must be between 0 and 1023")
  else if (TickRate (Battle c) <=? 0) || (120 <? TickRate (Battle c)) then Some (Text "battle.tick_rate must be between 1 and 120")
  else if MaxPlayersPerRoom (Battle c) <=? 0 then Some (Text "battle.max_players_per_room must be positive")
  else None.

(** [ReadFile] is what reading the file gives; [unmarshal] changes the configuration it is
    given, even when it fails. *)
Definition Load (ReadFile : res string) (unmarshal : string -> Config -> option error * Config) (Getenv : string -> string) :
    Config * option error :=
  let c := Defaults in
  match ReadFile with
  | Err e => (c, Some (Wrapf "read config" e))
  | Ok b =>
      match unmarshal b c with
      | (Some e, c) => (c, Some (Wrapf "parse config" e))
      | (None, c) => let c := applyEnv Getenv c in (c, Validate c)
      end
  end.

(** ** What the other components rely on *)

Lemma override_keeps {A} (proj : Config -> A) v f c : (forall c, proj (f c) = proj c) -> proj (override v f c) = proj c.
Proof. intros Hf. unfold override. by case_bool_decide. Qed.

Lemma ParseUint_range s bits n : ParseUint s bits = Ok n -> 0 <= bits -> s <> "" /\ 0 <= n < 2 ^ bits.
Proof.
  unfold ParseUint, decimal. destruct (string_bytes s) as [|b l] eqn:E; [done|].
  assert (forall l v n, digits v l = Some n -> 0 <= v -> 0 <= n) as Hpos.
  { clear. induction l as [|b l IH]; simpl; intros v n; [by intros [= <-]|].
    destruct (_ && _) eqn:Eb; [|done]. breflect. intros Hd Hv. eapply IH; [exact Hd|lia]. }
  destruct (digits 0 (b :: l)) as [m|] eqn:Ed; [|done]. destruct (Z.ltb_spec m (2 ^ bits)); [|done]. intros [= <-] _. split; [|split; [|done]].
  - intros ->. done.
  - eapply Hpos; [exact Ed|lia].
Qed.

(** Drops the assignments that do not concern a field. *)
Ltac keeps proj :=
  repeat (etransitivity; [apply (override_keeps proj); intros ?; cbn beta; by repeat case_match|]).

(** The environment has the last word on the identity of the process. *)
Lemma applyEnv_identity Getenv c :
  (Getenv "GAME_INSTANCE_ID" <> "" -> InstanceID (App (applyEnv Getenv c)) = Getenv "GAME_INSTANCE_ID") /\
  (forall n, ParseUint (Getenv "GAME_ID_NODE_ID") 16 = Ok n -> NodeID (IDGenerator (applyEnv Getenv c)) = n).
Proof.
  unfold applyEnv. cbn zeta. split.
  - intros Hv. keeps (fun c => InstanceID (App c)). unfold override. by rewrite bool_decide_false.
  - intros n Hn. keeps (fun c => NodeID (IDGenerator c)). unfold override.
    destruct (ParseUint_range _ _ _ Hn) as [Hne Hr]; [lia|]. rewrite bool_decide_false by done. rewrite Hn. by apply uint16_id.
Qed.

(** What a configuration without validation error has. *)
Lemma validated_settings c :
  Validate c = None ->
  InstanceID (App c) <> "" /\ 0 < SessionTTL (Gateway c) /\ 0 < ReconnectGrace (Gateway c) /\
  0 < RateLimitBurst (Gateway c) /\ SFleb (RateLimitPerSecond (Gateway c)) (TokenBucket.f_of_Z 0) = false /\
  0 < RetryAttempts (Gateway c) /\ 0 < CircuitFailures (Gateway c) /\ 0 < CircuitReset (Gateway c) /\
  0 < DrainTimeout (Gateway c) < ShutdownTimeout (App c) /\
  0 < RefreshTokenTTL (UserCenter c) /\ 0 < IdempotencyTTL (UserCenter c) /\
  (Provider (Discovery c) = "static" \/ (Provider (Discovery c) = "etcd" /\ Endpoints (Discovery c) <> [])) /\
  NodeID (IDGenerator c) <= 1023 /\ 0 < TickRate (Battle c) <= 120.
Proof.
  unfold Validate, is_empty. cbn zeta.
  repeat (match goal with |- (if ?b then Some _ else _) = None -> _ => destruct b eqn:?; [done|] end).
  intros _. breflect.
  split_and!; try done; try lia.
  match goal with Hx : negb _ && negb _ = false |- _ => apply andb_false_iff in Hx as [Hx|Hx] end; breflect; [by left|].
  right. split; [done|].
  match goal with Hx : bool_decide _ && (_ =? _)%nat = false |- _ => apply andb_false_iff in Hx as [Hy|Hy] end; breflect; [done|].
  intros E. by rewrite E in Hy.
Qed.


(** ** Runs *)

Section runs.

Definition unchanged (_ : string) (c : Config) : option error * Config := (None, c).
Definition node_env (v name : string) : string := if bool_decide (name = "GAME_ID_NODE_ID") then v else "".
Definition second_node : Config := (Load (Ok "") unchanged (node_env "2")).1.


(** A node id that does not parse is ignored: two processes that were meant to have ids of
    their own start with the same one. *)
Lemma bad_node_id_is_ignored v :
  v = "2 " \/ v = "65536" \/ v = "two" ->
  Load (Ok "") unchanged (node_env v) = Load (Ok "") unchanged (fun _ => "").
Proof. intros [->|[->| ->]]; vm_compute; reflexivity. Qed.

(** A rate that is not a number passes validation, and a limiter with it turns every
    request away once it has refilled. *)
Definition nan_rate (c : Config) : Config :=
  let g := Gateway c in
  mkConfig (App c) (HTTP c) (GRPC c)
    (mkGatewayConfig (SessionTTL g) (ReconnectGrace g) (HeartbeatInterval g) (HeartbeatTimeout g) (RateLimitBurst g) S754_nan
       (RetryAttempts g) (CircuitFailures g) (CircuitReset g) (DrainTimeout g))
    (UserCenter c) (Redis c) (Mongo c) (Discovery c) (IDGenerator c) (Services c) (Battle c).
Lemma nan_rate_locks_out :
  Validate (nan_rate Defaults) = None /\
  TokenBucket.decisions (Some (TokenBucket.NewTokenBucket 30 S754_nan false 0)) [1; 2; 100 * Second] = [false; false; false].
Proof. split; vm_compute; reflexivity. Qed.

End runs.

End Config.
