(* ===== verification/GatewayModule.v ===== *)
(** * Assembling the gateway: [NewModule], routes and life cycle of [services/gateway/module.go]

    The parts of the gateway are modelled in [Gateway], [ServiceClients], [SessionManager],
    [Lifecycle] and [Metrics]; here are the settings [NewModule] builds them with, the HTTP
    routes, the subscription to preempt events and the flags of the module. The theorems
    connect configuration, retry policy, error classes and metrics. *)

From S2P Require Import Prelude Proto Breaker Retry Session SessionManager Streaming TokenBucket Metrics.
From S2P Require Import ServiceClients ClientProto WebSocket Gateway Config.
Open Scope Z_scope.

Module GatewayModule.

(** ** [NewModule] *)

Definition temporary (err : error) : bool :=
  errors_Is err ServiceClients.ErrAuthenticationServiceUnavailable || errors_Is err Streaming.ErrConnectionClosed ||
  errors_Is err Streaming.ErrRequestTimeout.

Section settings.
Context {R : Type} (metrics : option R).
Definition authentication_observer : option (Metrics.retryObserver) :=
  Metrics.RetryObserver metrics "gateway" "usercenter" "authenticate" (Some Gateway.classifyUserCenterError).
Definition authentication_policy (c : Config.Config) : Retry.RetryPolicy :=
  Retry.mkPolicy (Config.RetryAttempts (Config.Gateway c)) (50 * Millisecond) (500 * Millisecond) (Some temporary)
    (bool_decide (is_Some authentication_observer)).
Definition lifecycle_policy (c : Config.Config) : Retry.RetryPolicy :=
  Retry.mkPolicy (Config.RetryAttempts (Config.Gateway c)) (50 * Millisecond) (500 * Millisecond) (Some (fun _ => true)) false.
End settings.

Definition authentication_breaker (c : Config.Config) (observer : option Metrics.circuitObserver) : Breaker.CircuitBreaker :=
  Breaker.NewCircuitBreaker (Config.CircuitFailures (Config.Gateway c)) (Config.CircuitReset (Config.Gateway c))
    (bool_decide (is_Some observer)).
Definition session_manager (c : Config.Config) : SessionManager.Manager :=
  SessionManager.SetPreemptHandler (SessionManager.SetLifecycleHandler
    (SessionManager.NewManager (Config.InstanceID (Config.App c)) (Config.SessionTTL (Config.Gateway c)) (Config.ReconnectGrace (Config.Gateway c)))
    true) true.
Definition limits (c : Config.Config) : Gateway.limits :=
  Gateway.module_handler (Config.RateLimitBurst (Config.Gateway c)) (Config.RateLimitPerSecond (Config.Gateway c)).
Definition drainTimeout (c : Config.Config) : Z := Config.DrainTimeout (Config.Gateway c).

(** ** Routes and life cycle *)

Section module.
Context {S W : Type}.
Notation gw := (Gateway.Gateway S W).

Definition StatusOK : Z := 200.
Definition StatusNoContent : Z := 204.
Definition StatusServiceUnavailable : Z := 503.

(** The routes of [RegisterRoutes] that answer with a status. *)
Definition routes : list (string * (gw -> Z)) :=
  [("/ping", fun _ => StatusOK);
   ("/readyz", fun g => if negb (Gateway.IsReady g) then StatusServiceUnavailable else StatusNoContent)].

Context `{!Proto.ProtoMessage ClientProto.Envelope, !Proto.ProtoMessage ClientProto.SessionPreemptedEvent} (leftover : ClientProto.Envelope -> string).

(** [watchPreempt] over what it selects; [None] is the end of the context or of the channel. *)
Fixpoint watchPreempt (redis : bool) (messages : list (option (res Gateway.preemptEvent))) (g : gw) : gw :=
  if negb redis then g
  else
    match messages with
    | [] | None :: _ => g
    | Some event :: messages => watchPreempt redis messages (Gateway.watchPreempt_message leftover event g)
    end.

(** The atomic changes of the two flags, by [Start], its goroutine, [Stop] and [BeginDrain]. *)
Inductive change := Started | ContextEnded | Stopped | DrainBegun.
Definition apply_change (g : gw) (c : change) : gw :=
  match c with
  | Started => Gateway.Start g
  | ContextEnded | Stopped => Gateway.Stop g
  | DrainBegun => Gateway.BeginDrain g
  end.

(** Once draining has begun the gateway is not ready again, whatever is called, and says so. *)
Lemma draining_is_final cs (g : gw) : Gateway.draining g = true ->
  Gateway.IsReady (foldl apply_change g cs) = false /\
  forall answer, ("/readyz", answer) ∈ routes -> answer (foldl apply_change g cs) = StatusServiceUnavailable.
Proof.
  intros Hd. enough (Gateway.draining (foldl apply_change g cs) = true) as Hall.
  { assert (Gateway.IsReady (foldl apply_change g cs) = false) as Hn by (unfold Gateway.IsReady; by rewrite Hall, andb_false_r).
    split; [done|]. intros answer [[=]|[[= ->]|Hin]%elem_of_cons]%elem_of_cons; [by rewrite Hn|by apply not_elem_of_nil in Hin]. }
  revert g Hd. induction cs as [|c cs IH]; intros g Hd; simpl; [done|]. apply IH. destruct c; simpl; [done..|].
  unfold Gateway.BeginDrain. by rewrite Hd.
Qed.
Lemma ready_between_start_and_drain cs (g : gw) : Gateway.draining g = false -> Forall (fun c => c = Started) cs ->
  Gateway.IsReady (foldl apply_change (Gateway.Start g) cs) = true /\ Gateway.IsReady (Gateway.BeginDrain (foldl apply_change (Gateway.Start g) cs)) = false.
Proof.
  intros Hd Hcs.
  enough (forall g : gw, Gateway.ready g = true -> Gateway.draining g = false ->
    let g' := foldl apply_change g cs in Gateway.ready g' = true /\ Gateway.draining g' = false) as Hall.
  { destruct (Hall (Gateway.Start g)) as [H1 H2]; [done|done|]. unfold Gateway.IsReady at 1. rewrite H1, H2. split; [done|].
    unfold Gateway.BeginDrain. by rewrite H2. }
  clear g Hd. induction Hcs as [|c cs -> _ IH]; intros g Hr Hd; simpl; [done|]. apply IH; done.
Qed.
End module.

(** ** Authentication requests *)

Section authentication.
Context {R : Type} `{Metrics.PrometheusLaws R}.

(** The entries of a retry log: only errors worth it are retried, after a wait of the policy. *)
Definition entry_ok (p : Retry.RetryPolicy) (e : Retry.entry) : Prop :=
  match e with
  | Retry.OnRetry _ err => match Retry.ShouldRetry p with None => true | Some f => f err end = true
  | Retry.Waits d => exists i, 0 <= i < Retry.MaxAttempts p - 1 /\ d = Retry.backoff p i
  | _ => True
  end.
Lemma attempts_entries {V} (op : V -> option error * V) ctx p n k err w : 0 <= k -> k + Z.of_nat n <= Retry.MaxAttempts p ->
  Forall (entry_ok p) (Retry.attempts op ctx p n k err w).2.
Proof.
  revert k err w. induction n as [|n IH]; intros k err w Hk Hn; cbn [Retry.attempts].
  { unfold Retry.tell. destruct (Retry.Observed p); repeat constructor. }
  destruct (op w) as [[e|] w1]; [|unfold Retry.tell; destruct (Retry.Observed p); repeat constructor].
  destruct (_ && _) eqn:E; cbn [negb]; [|unfold Retry.tell; destruct (Retry.Observed p); repeat constructor].
  apply andb_true_iff in E as [Hmax Hshould]. apply Z.ltb_lt in Hmax.
  assert (Forall (entry_ok p)
    (Retry.tell p (Retry.OnAttempt (k + 1)) ++ Retry.tell p (Retry.OnRetry (k + 1) e) ++ [Retry.Waits (Retry.backoff p k)])) as Hpre.
  { unfold Retry.tell. destruct (Retry.Observed p); repeat constructor; try done; exists k; (split; [lia|done]). }
  destruct (ctx k) as [ce|].
  - cbn [snd]. apply Forall_app_2; [done|]. unfold Retry.tell. destruct (Retry.Observed p); repeat constructor.
  - specialize (IH (k + 1) (Some e) w1 ltac:(lia) ltac:(lia)). destruct (Retry.attempts op ctx p n (k + 1) (Some e) w1) as [[err' w'] log].
    cbn [snd] in *. by apply Forall_app_2.
Qed.

(** A temporary error has one of three reasons. *)
Definition temporary_reasons : list string := ["service_unavailable"; "connection_closed"; "request_timeout"].
Lemma temporary_reason err : temporary err = true ->
  Metrics.errorReason (Some err) (Some Gateway.classifyUserCenterError) ∈ temporary_reasons.
Proof.
  unfold temporary. intros Ht. simpl. unfold Gateway.classifyUserCenterError, temporary_reasons.
  destruct (errors_Is err ServiceClients.ErrAuthenticationServiceUnavailable); [simpl; set_solver|].
  destruct (errors_Is err Streaming.ErrConnectionClosed); [simpl; set_solver|].
  destruct (errors_Is err Streaming.ErrRequestTimeout); [simpl; set_solver|done].
Qed.

Lemma occurrences_none {A} `{EqDecision A} (x : A) l : x ∉ l -> Metrics.occurrences x l = 0.
Proof.
  intros Hx. unfold Metrics.occurrences. enough (filter (fun y => y = x) l = []) as -> by done.
  apply elem_of_nil_inv. intros y [-> Hy]%list_elem_of_filter. done.
Qed.

Lemma attempts_ran {V} (op : V -> option error * V) ctx p n k err w from :
  let '(_, (_, ran), _) := Retry.attempts (Metrics.counted op) ctx p n k err (w, from) in
  (from <= ran <= from + n /\ (0 < n -> from < ran))%nat.
Proof.
  revert k err w from. induction n as [|n IH]; intros k err w from; cbn [Retry.attempts]; [lia|].
  unfold Metrics.counted at 1. cbn [fst snd]. destruct (op w) as [[e|] w1]; [|lia]. destruct (negb _); [lia|].
  destruct (ctx k); [lia|]. specialize (IH (k + 1) (Some e) w1 (S from)).
  destruct (Retry.attempts _ _ _ _ _ _ _) as [[err' [w' ran]] log]. lia.
Qed.

Lemma wait_bounds c i (metrics : option R) : let p := Retry.normalize (authentication_policy metrics c) in
  0 <= i <= 37 -> 50 * Millisecond <= Retry.backoff p i <= 500 * Millisecond.
Proof.
  intros p Hi. unfold Retry.backoff. change (Retry.InitialDelay p) with 50000000. change (Retry.MaxDelay p) with 500000000.
  change (50 * Millisecond) with 50000000. change (500 * Millisecond) with 500000000. rewrite Z.shiftl_mul_pow2 by lia.
  assert (2 ^ 0 <= 2 ^ i <= 2 ^ 37) as Hp by (split; apply Z.pow_le_mono_r; lia).
  rewrite int64_id by (unfold in_int64; lia). destruct (Z.ltb_spec 500000000 (50000000 * 2 ^ i)); lia.
Qed.

End authentication.

#[local] Existing Instance Metrics.memory_prometheus.
#[local] Existing Instance Metrics.memory_laws.
(** A service that is unavailable once. *)
Definition back_soon (n : nat) : option error * nat :=
  (match n with O => Some ServiceClients.ErrAuthenticationServiceUnavailable | _ => None end, S n).
End GatewayModule.
