(* ===== verification/Etcd.v ===== *)
(** * The registry in etcd: [common/discovery/etcd/registry.go], and the choice between the
    registries, [common/discovery/bootstrap/bootstrap.go]

    A registration is a key under the namespace, attached to a lease of its own. The client
    of etcd is a type class over the world [W] of which [store] shows the keys with their
    values and leases; a call that fails may have been carried out. *)

From S2P Require Import Prelude Discovery Config.
Import Discovery.
Open Scope Z_scope.

Module Etcd.

(** ** Strings: [strings.Split(s, "/")], [strings.TrimRight(s, "/")], [path.Join] *)

Fixpoint Split (s : string) : list string :=
  match s with
  | String.EmptyString => [""]
  | String.String a s =>
      if decide (a = slash) then "" :: Split s
      else match Split s with
           | p :: ps => String.String a p :: ps
           | [] => [String.String a ""]
           end
  end.

Fixpoint TrimRight (s : string) : string :=
  match s with
  | String.EmptyString => ""
  | String.String a s =>
      let t := TrimRight s in
      if decide (t = "" /\ a = slash) then "" else String.String a t
  end.

Fixpoint join (l : list string) : string :=
  match l with
  | [] => ""
  | [s] => s
  | s :: l => s +:+ "/" +:+ join l
  end.

(** One element of a path; the elements kept so far, the last one first. *)
Definition clean_step (rooted : bool) (kept : list string) (e : string) : list string :=
  if decide (e = "" \/ e = ".") then kept
  else if decide (e = "..") then
    match kept with
    | [] => if rooted then [] else [".."]
    | k :: rest => if decide (k = "..") then ".." :: kept else rest
    end
  else e :: kept.
Definition clean_elements (s : string) : list string := foldl (clean_step (HasPrefix s "/")) [] (Split s).
Definition path_Clean (s : string) : string :=
  let out := join (reverse (clean_elements s)) in
  if HasPrefix s "/" then "/" +:+ out else if decide (out = "") then "." else out.
Definition path_Join (elems : list string) : string :=
  match filter (fun e => e <> "") elems with
  | [] => ""
  | es => path_Clean (join es)
  end.

Example path_Join_ex : path_Join ["/services//game01/./x/.."; "lobby"] = "/services/game01/lobby".
Proof. vm_compute. reflexivity. Qed.

(** ** The registry *)

Record Registry := mkRegistry { namespace : string; leaseTTL : Z }.
Definition New (namespace : string) (leaseTTL : Z) : Registry := mkRegistry (TrimRight namespace) leaseTTL.
Definition prefix (r : Registry) (service : string) : string := path_Join [namespace r; service] +:+ "/".
Definition key (r : Registry) (service instance : string) : string := prefix r service +:+ instance.
Definition reg_key (r : Registry) (item : Registration) : string := key r (Service item) (Instance_ item).

(** The client of etcd. *)
Class Client (W : Type) := {
  Grant : Z -> prog W Z;
  Put : string -> string -> Z -> prog W unit;
  Revoke : Z -> prog W unit;
  KeepAlive : Z -> prog W unit;
  Get : string -> prog W (list (string * string));
  store : W -> gmap string (string * Z)
}.

(** [encoding/json] on registrations. *)
Class RegistrationJson := {
  json_Marshal : Registration -> res string;
  json_Unmarshal : string -> res Registration
}.

Section registry.
Context {W : Type} `{Client W} `{RegistrationJson} (r : Registry).

(** The function that ends the registration is given by the lease it revokes. *)
Definition Register (item : Registration) : prog W Z := fun w =>
  if decide (Service item = "" \/ Instance_ item = "" \/ Address item = "")
  then (Err (Text "service, instance and address are required"), w)
  else match json_Marshal item with
       | Err e => (Err e, w)
       | Ok data =>
           match Grant (leaseTTL r) w with
           | (Err e, w) => (Err e, w)
           | (Ok lease, w) =>
               match Put (reg_key r item) data lease w with
               | (Err e, w) => (Err e, (Revoke lease w).2)
               | (Ok _, w) =>
                   match KeepAlive lease w with
                   | (Err e, w) => (Err e, w)
                   | (Ok _, w) => (Ok lease, w)
                   end
               end
           end
       end.
Definition close_registration (lease : Z) : prog W unit := Revoke lease.

Fixpoint decode_all (kvs : list (string * string)) (result : list Registration) : res (list Registration) :=
  match kvs with
  | [] => Ok result
  | (_, value) :: kvs =>
      match json_Unmarshal value with
      | Err e => Err e
      | Ok item => decode_all kvs (result ++ [item])
      end
  end.
Definition Discover (service : string) : prog W (list Registration) := fun w =>
  match Get (prefix r service) w with
  | (Err e, w) => (Err e, w)
  | (Ok kvs, w) => (decode_all kvs [], w)
  end.

(** What a watch of etcd reports. *)
Inductive etcd_event := EtcdPut (k value : string) | EtcdDelete (k : string).

(** The event sent on for one of etcd, if any. *)
Definition watch_event (service : string) (e : etcd_event) : option Event :=
  match e with
  | EtcdDelete k =>
      let parts := Split k in
      Some (mkEvent EventDelete
        (if decide (0 < length parts)%nat
         then mkRegistration service (default "" (last parts)) "" "" 0 "" else mkRegistration "" "" "" "" 0 ""))
  | EtcdPut _ value =>
      match json_Unmarshal value with
      | Err _ => None
      | Ok item => Some (mkEvent EventPut item)
      end
  end.
(** The loop over the events of the responses; each sending ends with the event taken or with the
    context done. *)
Fixpoint watch_loop (service : string) (events : list etcd_event) (sends : list bool) : list Event :=
  match events with
  | [] => []
  | e :: events =>
      match watch_event service e with
      | None => watch_loop service events sends
      | Some x =>
          match sends with
          | true :: sends => x :: watch_loop service events sends
          | _ => []
          end
      end
  end.
Definition Watch (service : string) (responses : list (list etcd_event)) (sends : list bool) : list Event :=
  watch_loop service (concat responses) sends.

End registry.

(** ** Keys *)

(** A name that is one element of a path. *)
Definition element (s : string) : Prop := plain_name s /\ s <> "" /\ s <> "." /\ s <> "..".

Lemma Split_plain s : plain_name s -> Split s = [s].
Proof. induction s as [|a s IH]; [done|]. intros [Ha Hs]. simpl. rewrite decide_False by done. by rewrite IH. Qed.

Lemma Split_nonempty s : Split s <> [].
Proof. destruct s as [|a s]; simpl; [done|]. case_decide; [done|]. by destruct (Split s). Qed.

Lemma Split_app s t : plain_name t -> Split (s +:+ "/" +:+ t) = Split s ++ [t].
Proof.
  intros Ht. induction s as [|a s IH].
  - change (Split (String.String slash t) = [""; t]). cbn [Split]. rewrite decide_True by done. by rewrite Split_plain.
  - change (Split (String.String a (s +:+ "/" +:+ t)) = Split (String.String a s) ++ [t]). cbn [Split]. rewrite IH.
    case_decide; [done|]. destruct (Split s) as [|p ps] eqn:E; [by apply Split_nonempty in E|done].
Qed.

Lemma join_snoc l s : join (l ++ [s]) = match l with [] => s | _ => join l +:+ "/" +:+ s end.
Proof.
  induction l as [|a l IH]; [done|]. destruct l as [|b l]; [done|].
  change (join ((a :: b :: l) ++ [s])) with (a +:+ "/" +:+ join ((b :: l) ++ [s])). rewrite IH.
  change (join (a :: b :: l)) with (a +:+ "/" +:+ join (b :: l)). by rewrite !append_assoc.
Qed.

Lemma HasPrefix_app s t : s <> "" -> HasPrefix (s +:+ t) "/" = HasPrefix s "/".
Proof. destruct s as [|a s]; [done|]. intros _. unfold HasPrefix. simpl. case_match; [|done]. by destruct s, t. Qed.

(** The part of a key in front of the name of the service. *)
Definition dir (r : Registry) : string :=
  if decide (namespace r = "") then ""
  else
    let kept := clean_elements (namespace r) in
    (if HasPrefix (namespace r) "/" then "/" else "") +:+ (match kept with [] => "" | _ => join (reverse kept) +:+ "/" end).

Lemma clean_elements_snoc s t : s <> "" -> element t -> clean_elements (s +:+ "/" +:+ t) = t :: clean_elements s.
Proof.
  intros Hs (Hp & H0 & H1 & H2). unfold clean_elements. rewrite Split_app, foldl_app, HasPrefix_app by done. simpl.
  unfold clean_step at 1. by rewrite !decide_False by naive_solver.
Qed.

Lemma prefix_dir r service : element service -> prefix r service = dir r +:+ service +:+ "/".
Proof.
  intros He. pose proof He as (Hp & H0 & H1 & H2). unfold prefix, path_Join, dir. destruct (decide (namespace r = "")) as [Hn|Hn].
  - rewrite filter_cons_False by naive_solver. rewrite filter_cons_True by done. unfold path_Clean, clean_elements.
    change (join (service :: filter (fun e => e <> "") [])) with service. rewrite Split_plain by done. cbn [foldl].
    unfold clean_step. rewrite !(decide_False (A := list string)) by naive_solver. change (join (reverse [service])) with service.
    destruct (HasPrefix service "/") eqn:E; [|by rewrite decide_False].
    destruct service as [|a service]; [done|]. apply HasPrefix_spec in E as [x E]. injection E as -> _. by destruct Hp.
  - rewrite filter_cons_True, filter_cons_True by done. simpl. unfold path_Clean.
    rewrite clean_elements_snoc, HasPrefix_app by done.
    rewrite reverse_cons, join_snoc.
    assert (forall x, x +:+ service <> "") as Hne.
    { intros x E. destruct x; [done|discriminate]. }
    destruct (clean_elements (namespace r)) as [|k ks] eqn:Ek.
    + change (reverse (@nil string)) with (@nil string). cbv beta iota. rewrite decide_False by done. by destruct (HasPrefix _ _).
    + destruct (reverse (k :: ks)) as [|k' ks'] eqn:Er; [by rewrite reverse_cons in Er; destruct (reverse ks)|].
      rewrite decide_False by (rewrite append_assoc; apply Hne). destruct (HasPrefix _ _); by rewrite !append_assoc.
Qed.

Lemma append_inj_l (s t u : string) : s +:+ t = s +:+ u -> t = u.
Proof. induction s as [|a s IH]; [done|]. intros E. injection E as E. by apply IH. Qed.

(** The keys of a service are exactly the keys with its prefix, whatever the instances are
    called, and a key determines its service and its instance. *)
Lemma prefix_key r s s' i : element s -> element s' -> HasPrefix (key r s' i) (prefix r s) = true <-> s = s'.
Proof.
  intros Hs Hs'. unfold key. rewrite HasPrefix_spec, !prefix_dir, <- !append_assoc by done. split; [|intros ->; exists i; by rewrite ?append_assoc].
  intros [x E]. rewrite <- !append_assoc in E. apply append_inj_l in E. symmetry. apply (key_service _ _ i x); [apply Hs'|apply Hs|]. exact E.
Qed.

Lemma etcd_key_inj r s s' i i' : element s -> element s' -> key r s i = key r s' i' -> s = s' /\ i = i'.
Proof.
  intros Hs Hs' E. assert (s = s') as <-.
  { apply (prefix_key r s s' i' Hs Hs'). rewrite <- E. unfold key. apply HasPrefix_spec. eauto. }
  split; [done|]. unfold key in E. by apply append_inj_l in E.
Qed.

(** The last part of a key is the instance, when its name has no slash. *)
Lemma last_part r s i : element s -> plain_name i -> last (Split (key r s i)) = Some i.
Proof.
  intros Hs Hi. unfold key. rewrite prefix_dir, (append_assoc (dir r) s), <- (append_assoc (dir r +:+ s)) by done.
  by rewrite Split_app, last_snoc.
Qed.

(** ** The registry against its specification

    What etcd documents about the calls. A call that fails may have been carried out. *)

Definition without (lease : Z) (s : gmap string (string * Z)) : gmap string (string * Z) := filter (fun kv => kv.2.2 <> lease) s.

Class ClientLaws (W : Type) `{Client W} := {
  grant_ok ttl w lease w' : Grant ttl w = (Ok lease, w') -> store w' = store w /\ forall k v, store w !! k <> Some (v, lease);
  grant_err ttl w e w' : Grant ttl w = (Err e, w') -> store w' = store w;
  put_ok k v lease w w' : Put k v lease w = (Ok tt, w') -> store w' = <[k := (v, lease)]> (store w);
  put_err k v lease w e w' : Put k v lease w = (Err e, w') -> store w' = store w \/ store w' = <[k := (v, lease)]> (store w);
  revoke_ok lease w w' : Revoke lease w = (Ok tt, w') -> store w' = without lease (store w);
  revoke_err lease w e w' : Revoke lease w = (Err e, w') -> store w' = store w \/ store w' = without lease (store w);
  keep_alive lease w res w' : KeepAlive lease w = (res, w') -> store w' = store w;
  get_ok p w kvs w' : Get p w = (Ok kvs, w') -> store w' = store w /\
    kvs ≡ₚ (fun kv => (kv.1, kv.2.1)) <$> map_to_list (filter (fun kv => HasPrefix kv.1 p = true) (store w));
  get_err p w e w' : Get p w = (Err e, w') -> store w' = store w
}.
Class JsonLaws `{RegistrationJson} := {
  json_roundtrip item data : json_Marshal item = Ok data -> json_Unmarshal data = Ok item
}.

(** The specification: a table of registrations with their leases. *)
Notation table := (gmap string (Registration * Z)).
Inductive op := OpRegister (item : Registration) | OpClose (lease : Z).
Definition put_item (item : Registration) (lease : Z) (m : table) : table := <[item_key item := (item, lease)]> m.
Definition end_lease (lease : Z) (m : table) : table := filter (fun kv => kv.2.2 <> lease) m.
Definition fresh (lease : Z) (m : table) : Prop := forall k item, m !! k <> Some (item, lease).

Inductive spec_step : op -> res Z -> table -> table -> Prop :=
  | spec_registered item lease m : fresh lease m -> spec_step (OpRegister item) (Ok lease) m (put_item item lease m)
  | spec_not_registered item e m : spec_step (OpRegister item) (Err e) m m
  | spec_left_behind item e lease m : fresh lease m -> spec_step (OpRegister item) (Err e) m (put_item item lease m)
  | spec_withdrawn item e m : spec_step (OpRegister item) (Err e) m (delete (item_key item) m)
  | spec_closed lease m : spec_step (OpClose lease) (Ok lease) m (end_lease lease m)
  | spec_not_closed lease e m : spec_step (OpClose lease) (Err e) m m
  | spec_closed_unheard lease e m : spec_step (OpClose lease) (Err e) m (end_lease lease m).

Definition known (item : Registration) : Prop := element (Service item) /\ plain_name (Instance_ item).
Definition op_known (o : op) : Prop := match o with OpRegister item => known item | OpClose _ => True end.

Section refinement.
Context {W : Type} `{ClientLaws W} `{JsonLaws} (r : Registry).

Definition perform (o : op) : prog W Z :=
  match o with
  | OpRegister item => Register r item
  | OpClose lease => (_ <- close_registration lease;; ret lease)%go
  end.

(** The keys under the prefixes of the services are those of the table, with their values
    and leases. *)
Definition represents (s : gmap string (string * Z)) (m : table) : Prop :=
  (forall service k v lease, element service -> HasPrefix k (prefix r service) = true -> s !! k = Some (v, lease) ->
     exists item, k = reg_key r item /\ json_Unmarshal v = Ok item /\ m !! item_key item = Some (item, lease)) /\
  (forall ik item lease, m !! ik = Some (item, lease) -> ik = item_key item /\ known item /\
     exists v, s !! reg_key r item = Some (v, lease) /\ json_Unmarshal v = Ok item).

Lemma item_keys i1 i2 : known i1 -> known i2 -> reg_key r i1 = reg_key r i2 <-> item_key i1 = item_key i2.
Proof.
  intros [He1 Hp1] [He2 Hp2]. unfold reg_key, item_key. split; intros E.
  - apply etcd_key_inj in E as [E1 E2]; [|done..]. by rewrite E1, E2.
  - pose proof (key_service _ _ _ _ (proj1 He1) (proj1 He2) E) as Es. rewrite Es in *. unfold Discovery.key in E.
    apply append_inj_l in E. injection E as E. change (Instance_ i1 = Instance_ i2) in E. by rewrite E.
Qed.

Lemma represents_put s m item data lease : known item -> json_Marshal item = Ok data ->
  represents s m -> represents (<[reg_key r item := (data, lease)]> s) (put_item item lease m).
Proof.
  intros Hk Hj [Hs Hm]. unfold put_item. split.
  - intros service k v l He Hpre [[<- [= <- <-]]|[Hne Hl]]%lookup_insert_Some.
    + exists item. split_and!; [done|by apply json_roundtrip|apply lookup_insert_eq].
    + destruct (Hs _ _ _ _ He Hpre Hl) as (item' & -> & Hj' & Hi'). exists item'. split_and!; [done|done|].
      rewrite lookup_insert_ne; [done|]. destruct (Hm _ _ _ Hi') as (_ & Hk' & _). by rewrite <- item_keys.
  - intros ik item' l [[<- [= <- <-]]|[Hne Hl]]%lookup_insert_Some.
    + split_and!; [done|done|]. exists data. split; [apply lookup_insert_eq|by apply json_roundtrip].
    + destruct (Hm _ _ _ Hl) as (-> & Hk' & v & Hv & Hj'). split_and!; [done|done|]. exists v. split; [|done].
      rewrite lookup_insert_ne; [done|]. by rewrite item_keys.
Qed.

Lemma represents_revoke s m lease : represents s m -> represents (without lease s) (end_lease lease m).
Proof.
  intros [Hs Hm]. split.
  - intros service k v l He Hpre [Hl Hne]%map_lookup_filter_Some. destruct (Hs _ _ _ _ He Hpre Hl) as (item & ? & ? & ?).
    exists item. split_and!; [done|done|]. by apply map_lookup_filter_Some.
  - intros ik item l [Hl Hne]%map_lookup_filter_Some. destruct (Hm _ _ _ Hl) as (? & ? & v & ? & ?). split_and!; [done|done|].
    exists v. split; [|done]. by apply map_lookup_filter_Some.
Qed.

Lemma represents_fresh s m lease : represents s m -> (forall k v, s !! k <> Some (v, lease)) -> fresh lease m.
Proof. intros [_ Hm] Hf k item Hl. destruct (Hm _ _ _ Hl) as (_ & _ & v & Hv & _). by apply Hf in Hv. Qed.

Lemma fresh_end lease m : fresh lease m -> end_lease lease m = m.
Proof. intros Hf. apply map_filter_id. intros k [i l] Hl E. simpl in E. subst. by apply Hf in Hl. Qed.

Lemma end_put item lease m : fresh lease m -> end_lease lease (put_item item lease m) = delete (item_key item) m.
Proof.
  intros Hf. unfold put_item. rewrite <- (fresh_end lease m Hf) at 2. unfold end_lease.
  rewrite map_filter_insert_False by naive_solver. apply map_filter_delete.
Qed.

(** One call of the registry is one step of the specification. *)
Lemma perform_simulates o w res w' m : op_known o -> represents (store w) m -> perform o w = (res, w') ->
  exists m', spec_step o res m m' /\ represents (store w') m'.
Proof.
  intros Hk Hr. destruct o as [item|lease]; simpl in *.
  - unfold Register. case_decide; [intros [= <- <-]; eexists; split; [constructor|done]|].
    destruct (json_Marshal item) as [data|e] eqn:Hj; [|intros [= <- <-]; eexists; split; [constructor|done]].
    destruct (Grant _ w) as [[lease|e] w1] eqn:Eg.
    2: { intros [= <- <-]. exists m. split; [constructor|]. by rewrite (grant_err _ _ _ _ Eg). }
    destruct (grant_ok _ _ _ _ Eg) as [Hg Hf]. pose proof (represents_fresh _ _ _ Hr Hf) as Hfm.
    destruct (Put _ data lease w1) as [[[]|e] w2] eqn:Ep.
    + apply put_ok in Ep. rewrite Hg in Ep.
      assert (represents (store w2) (put_item item lease m)) as Hr2 by (rewrite Ep; by apply represents_put).
      destruct (KeepAlive lease w2) as [[[]|e] w3] eqn:Ek; intros [= <- <-]; (exists (put_item item lease m));
        (split; [by constructor|]); by rewrite (keep_alive _ _ _ _ Ek).
    + intros [= <- <-]. apply put_err in Ep. rewrite Hg in Ep.
      assert (represents (store w2) m \/ represents (store w2) (put_item item lease m)) as Hr2.
      { destruct Ep as [->| ->]; [by left|right; by apply represents_put]. }
      assert (represents (store (Revoke lease w2).2) m \/ represents (store (Revoke lease w2).2) (put_item item lease m) \/
              represents (store (Revoke lease w2).2) (delete (item_key item) m)) as Hr3.
      { rewrite <- (end_put item lease) by done. rewrite <- (fresh_end lease m Hfm) at 1.
        destruct (Revoke lease w2) as [[[]|e'] w3] eqn:Er; simpl; [apply revoke_ok in Er as ->|apply revoke_err in Er as [-> | ->]];
          rewrite ?(fresh_end lease m Hfm) by done; destruct Hr2 as [Hr2|Hr2]; eauto using represents_revoke;
          apply (represents_revoke _ _ lease) in Hr2; rewrite ?(fresh_end lease m Hfm) in Hr2 by done; eauto. }
      destruct Hr3 as [?|[?|?]]; eexists; (split; [|done]); by constructor.
  - unfold bind, close_registration. destruct (Revoke lease w) as [[[]|e] w1] eqn:Er; intros [= <- <-].
    + apply revoke_ok in Er as ->. eexists; split; [constructor|by apply represents_revoke].
    + apply revoke_err in Er as [-> | ->]; eexists; (split; [|first [exact Hr|by apply represents_revoke]]); constructor.
Qed.

Fixpoint run (os : list op) (w : W) : list (res Z) * W :=
  match os with
  | [] => ([], w)
  | o :: os => let '(x, w) := perform o w in let '(xs, w) := run os w in (x :: xs, w)
  end.
Inductive spec_run : list op -> list (res Z) -> table -> table -> Prop :=
  | spec_done m : spec_run [] [] m m
  | spec_more o x m1 m2 os xs m3 : spec_step o x m1 m2 -> spec_run os xs m2 m3 -> spec_run (o :: os) (x :: xs) m1 m3.

Lemma run_simulates os : forall w m xs w', Forall op_known os -> represents (store w) m -> run os w = (xs, w') ->
  exists m', spec_run os xs m m' /\ represents (store w') m'.
Proof.
  induction os as [|o os IH]; intros w m xs w' Hk Hr; simpl.
  { intros [= <- <-]. exists m. split; [constructor|done]. }
  apply Forall_cons in Hk as [Ho Hk]. destruct (perform o w) as [x w1] eqn:Ex. destruct (run os w1) as [xs1 w2] eqn:Er. intros [= <- <-].
  destruct (perform_simulates _ _ _ _ _ Ho Hr Ex) as (m1 & Hs & Hr1). destruct (IH _ _ _ _ Hk Hr1 Er) as (m2 & Hs2 & Hr2).
  exists m2. split; [by econstructor|done].
Qed.

(** The registrations of a service in the table. *)
Definition entries (service : string) (m : table) : list Registration :=
  filter (fun item => Service item = service) (map_to_list m).*2.*1.

Lemma decode_all_ok kvs acc items : Forall2 (fun kv item => json_Unmarshal kv.2 = Ok item) kvs items ->
  decode_all kvs acc = Ok (acc ++ items).
Proof.
  intros Hf. revert acc. induction Hf as [|[k v] item kvs items Hv Hf IH]; intros acc; simpl; [by rewrite app_nil_r|].
  simpl in Hv. rewrite Hv, IH. by rewrite <- app_assoc.
Qed.

(** The keys with the prefix of a service decode to the registrations of this service. *)
Lemma prefix_entries s m service : represents s m -> element service ->
  exists items, items ≡ₚ entries service m /\
    Forall2 (fun kv item => json_Unmarshal kv.2.1 = Ok item)
      (map_to_list (filter (fun kv => HasPrefix kv.1 (prefix r service) = true) s)) items.
Proof.
  intros [Hs Hm] He. set (under := filter _ s).
  assert (forall k vl, (k, vl) ∈ map_to_list under -> exists item, json_Unmarshal vl.1 = Ok item /\ k = reg_key r item /\
    m !! item_key item = Some (item, vl.2) /\ Service item = service) as Hdec.
  { intros k [v l] Hin. apply elem_of_map_to_list, map_lookup_filter_Some in Hin as [Hl Hp]. simpl in Hp.
    destruct (Hs _ _ _ _ He Hp Hl) as (item & -> & Hj & Hi). exists item. split_and!; [done|done|done|].
    destruct (Hm _ _ _ Hi) as (_ & [Hei _] & _). symmetry. eapply prefix_key; [done|exact Hei|exact Hp]. }
  assert (exists items, Forall2 (fun kv item => json_Unmarshal kv.2.1 = Ok item /\ kv.1 = reg_key r item /\
    m !! item_key item = Some (item, kv.2.2) /\ Service item = service) (map_to_list under) items) as [items Hf].
  { clear -Hdec. induction (map_to_list under) as [|[k vl] l IH]; [by exists []|]. destruct IH as [items Hi].
    - intros k' vl' Hin. apply Hdec. by right.
    - destruct (Hdec k vl) as (item & ? & ? & ? & ?); [by left|]. exists (item :: items). by constructor. }
  exists items. split; [|eapply Forall2_impl; [exact Hf|naive_solver]].
  assert (NoDup items) as Hnd.
  { pose proof (NoDup_fst_map_to_list under) as Hk. clear -Hf Hk. induction Hf as [|[k vl] item kvs items (_ & E & _) Hf IH]; [constructor|].
    cbn [fst] in E. subst k. rewrite fmap_cons in Hk. apply NoDup_cons in Hk as [Hni Hk]. constructor; [|by apply IH]. intros Hin. apply Hni.
    apply list_elem_of_lookup in Hin as [j Hj]. destruct (Forall2_lookup_r _ _ _ _ _ Hf Hj) as ([k' vl'] & Hl & _ & Ek & _).
    simpl in Ek. rewrite <- Ek. apply list_elem_of_fmap. exists (k', vl'). split; [done|]. by eapply list_elem_of_lookup_2. }
  apply NoDup_Permutation; [done| |].
  - apply NoDup_filter. apply (NoDup_fmap_1 item_key). rewrite <- !list_fmap_compose.
    erewrite (Forall_fmap_ext_1 _ fst); [apply NoDup_fst_map_to_list|]. apply Forall_forall.
    intros [ik [item l]] Hin. apply elem_of_map_to_list in Hin. simpl. by apply Hm in Hin as (-> & _).
  - intros item. unfold entries. rewrite list_elem_of_filter. split.
    + intros [j Hj]%list_elem_of_lookup. destruct (Forall2_lookup_r _ _ _ _ _ Hf Hj) as (kv & _ & _ & _ & Hi & Hsv).
      split; [done|]. rewrite <- list_fmap_compose. apply list_elem_of_fmap. exists (item_key item, (item, kv.2.2)). split; [done|].
      by apply elem_of_map_to_list.
    + rewrite <- list_fmap_compose. intros [Hsv ([ik [item' l]] & -> & Hin)%list_elem_of_fmap]. simpl in *.
      apply elem_of_map_to_list in Hin. destruct (Hm _ _ _ Hin) as (-> & [Hei Hpi] & v & Hv & Hj).
      assert ((reg_key r item', (v, l)) ∈ map_to_list under) as Hu.
      { apply elem_of_map_to_list, map_lookup_filter_Some. split; [done|]. simpl. apply prefix_key; [done|exact Hei|done]. }
      apply list_elem_of_lookup in Hu as [j Hu]. destruct (Forall2_lookup_l _ _ _ _ _ Hf Hu) as (item2 & Hi2 & Hj2 & _).
      simpl in Hj2. rewrite Hj in Hj2. injection Hj2 as <-. by eapply list_elem_of_lookup_2.
Qed.

(** C18 The registry in etcd refines the abstract registry, a table of instances with their
    leases: over every run of registrations and closings, whatever requests of the client
    fail, each result is one the abstract registry allows, with its table as the effect, and
    discovering a service afterwards returns exactly the instances of that service in the
    table, or the error of the read; the names of services are path elements and those of
    instances have no slash. *)
Theorem etcd_registry_refines os w m xs w' :
  Forall op_known os -> represents (store w) m -> run os w = (xs, w') ->
  exists m', spec_run os xs m m' /\
    forall service, element service ->
      match Discover r service w' with
      | (Ok items, w2) => items ≡ₚ entries service m' /\ store w2 = store w'
      | (Err e, w2) => Get (prefix r service) w' = (Err e, w2) /\ store w2 = store w'
      end.
Proof.
  intros Hk Hr Hrun. destruct (run_simulates _ _ _ _ _ Hk Hr Hrun) as (m' & Hs & Hr'). exists m'. split; [done|].
  intros service He. unfold Discover. destruct (Get _ w') as [[kvs|e] w2] eqn:Eg; [|split; [done|by eapply get_err]].
  destruct (get_ok _ _ _ _ Eg) as [Hst Hkvs]. destruct (prefix_entries _ _ _ Hr' He) as (items & Hperm & Hf).
  assert (Forall2 (fun kv item => json_Unmarshal kv.2 = Ok item)
    ((fun kv => (kv.1, kv.2.1)) <$> map_to_list (filter (fun kv => HasPrefix kv.1 (prefix r service) = true) (store w'))) items) as Hf'
    by by apply Forall2_fmap_l.
  symmetry in Hkvs. destruct (Permutation_Forall2 Hkvs Hf') as (items' & Hp' & Hf2).
  rewrite (decode_all_ok _ [] items') by done. split; [|done]. by rewrite <- Hperm, Hp'.
Qed.

(** ** Watching *)

(** A change of the registrations of a service, and the event of etcd that tells it. *)
Inductive change := Came (item : Registration) | Went (instance : string).
Definition change_event (service : string) (c : change) (e : etcd_event) : Prop :=
  match c with
  | Came item => Service item = service /\ exists data, json_Marshal item = Ok data /\ e = EtcdPut (reg_key r item) data
  | Went instance => plain_name instance /\ e = EtcdDelete (key r service instance)
  end.
Definition apply_change (service : string) (m : gmap string Registration) (c : change) : gmap string Registration :=
  match c with
  | Came item => <[item_key item := item]> m
  | Went instance => delete (Discovery.key service instance) m
  end.

Lemma watch_event_change service c e m : element service -> change_event service c e ->
  exists x, watch_event service e = Some x /\ learn m x = apply_change service m c.
Proof.
  intros He Hc. destruct c as [item|instance]; simpl in Hc.
  - destruct Hc as (Hs & data & Hj & ->). simpl. rewrite (json_roundtrip _ _ Hj). eauto.
  - destruct Hc as [Hp ->]. eexists. split; [done|]. rewrite decide_True.
    + unfold learn. simpl. by rewrite last_part.
    + destruct (Split (key r service instance)) eqn:E; [by apply Split_nonempty in E|]. simpl. lia.
Qed.

(** A watcher of etcd that applies the events it is sent knows the instances as of some
    prefix of the changes, all of them when no send is cut short by the end of its context. *)
Theorem etcd_watch_tracks service cs responses sends m :
  element service -> Forall2 (change_event service) cs (concat responses) ->
  exists n, foldl learn m (Watch service responses sends) = foldl (apply_change service) m (take n cs) /\
    (Forall (fun s => s = true) sends -> (length cs <= length sends)%nat -> n = length cs).
Proof.
  intros He Hf. unfold Watch. revert sends m. induction Hf as [|c e cs es Hc Hf IH]; intros sends m; simpl.
  { by exists 0%nat. }
  destruct (watch_event_change service c e m He Hc) as (x & -> & Hx). destruct sends as [|[] sends].
  - exists 0%nat. split; [done|]. simpl. lia.
  - destruct (IH sends (learn m x)) as (n & Hn & Hall). exists (S n). simpl. rewrite Hn, Hx. split; [done|].
    intros Ht%Forall_cons_1 Hlen. f_equal. apply Hall; [apply Ht|lia].
  - exists 0%nat. split; [done|]. intros Ht%Forall_cons_1. by destruct Ht.
Qed.

End refinement.

(** ** Choosing a registry: [bootstrap.Open] *)

(** [clientv3.New], [Sync] and [Close]. *)
Class Dial (W : Type) := {
  New_client : list string -> prog W unit;
  Sync : prog W unit;
  Close_client : prog W unit
}.
Inductive opened := OpenedStatic (reg : Discovery.Registry) | OpenedEtcd (reg : Registry).

Definition Open {W} `{Dial W} (cfg : Config.DiscoveryConfig) : prog W opened := fun w =>
  if bool_decide (Config.Provider cfg = "static") then (Ok (OpenedStatic (Discovery.New [])), w)
  else match New_client (Config.Endpoints cfg) w with
       | (Err e, w) => (Err (Wrapf "create etcd client" e), w)
       | (Ok _, w) =>
           match Sync w with
           | (Err e, w) => (Err (Wrapf "sync etcd endpoints" e), (Close_client w).2)
           | (Ok _, w) => (Ok (OpenedEtcd (New (Config.Namespace cfg) (Config.LeaseTTL cfg))), w)
           end
       end.
(** [Resources.Close] *)
Definition Close {W} `{Dial W} (o : opened) : prog W unit :=
  match o with OpenedStatic _ => ret tt | OpenedEtcd _ => Close_client end.

(** ** etcd in memory *)

Record memory := mkMemory { m_store : gmap string (string * Z); keeps_alive : bool }.
Definition next_lease (s : gmap string (string * Z)) : Z := above (map_to_list s).*2.*2.
#[export] Instance memory_client : Client memory := {|
  Grant _ w := (Ok (next_lease (m_store w)), w);
  Put k v lease w := (Ok tt, mkMemory (<[k := (v, lease)]> (m_store w)) (keeps_alive w));
  Revoke lease w := (Ok tt, mkMemory (without lease (m_store w)) (keeps_alive w));
  KeepAlive _ w := (if keeps_alive w then Ok tt else Err (Text "etcdserver: requested lease not found"), w);
  Get p w := (Ok ((fun kv => (kv.1, kv.2.1)) <$> map_to_list (filter (fun kv => HasPrefix kv.1 p = true) (m_store w))), w);
  store := m_store
|}.

Lemma next_lease_fresh s k v : s !! k <> Some (v, next_lease s).
Proof.
  intros Hl%elem_of_map_to_list. apply (above_fresh (map_to_list s).*2.*2). apply list_elem_of_fmap. exists (v, next_lease s). split; [done|].
  apply list_elem_of_fmap. by exists (k, (v, next_lease s)).
Qed.

#[export] Instance memory_laws : ClientLaws memory.
Proof.
  split; simpl.
  - intros _ w lease w' [= <- <-]. split; [done|]. intros k v. apply next_lease_fresh.
  - done.
  - by intros k v lease w w' [= <-].
  - done.
  - by intros lease w w' [= <-].
  - done.
  - by intros lease w res w' [= _ <-].
  - by intros p w kvs w' [= <- <-].
  - done.
Qed.

(** ** Runs *)

Section runs.

(** A codec for two registrations, of which one has a slash in its name. *)
Definition rack : Registration := mkRegistration "lobby" "rack/7" "host7:9000" "" 0 "".
#[local] Instance two_items : RegistrationJson := {|
  json_Marshal item := if decide (item = lobby1) then Ok "1" else if decide (item = rack) then Ok "7" else Err (Text "unsupported");
  json_Unmarshal data := if decide (data = "1") then Ok lobby1 else if decide (data = "7") then Ok rack else Err (Text "unexpected end")
|}.
#[local] Instance two_items_laws : JsonLaws.
Proof.
  split. intros item data. simpl. destruct (decide (item = lobby1)) as [->|]; [by intros [= <-]|].
  destruct (decide (item = rack)) as [->|]; [by intros [= <-]|done].
Qed.

Definition game : Registry := New "/services/game01/" 10.
Definition empty : memory := mkMemory ∅ true.
Lemma lobby_element : element "lobby".
Proof. split_and!; [by vm_compute|done..]. Qed.
Lemma lobby1_known : known lobby1.
Proof. split; [exact lobby_element|by vm_compute]. Qed.

Lemma etcd_registry_refines_witness :
  exists m', spec_run [OpRegister lobby1] [Ok 1] ∅ m' /\
    (Discover game "lobby" (run game [OpRegister lobby1] empty).2).1 = Ok [lobby1].
Proof.
  destruct (etcd_registry_refines game [OpRegister lobby1] empty ∅ [Ok 1] (run game [OpRegister lobby1] empty).2)
    as (m' & Hs & _).
  - constructor; [exact lobby1_known|constructor].
  - split; [intros service k v lease _ _ Hl; discriminate Hl|intros ik item lease Hl; discriminate Hl].
  - vm_compute. reflexivity.
  - exists m'. split; [exact Hs|vm_compute; reflexivity].
Defined.

Lemma etcd_watch_tracks_witness : exists n,
  foldl learn ∅ (Watch "lobby" [[EtcdPut "/services/game01/lobby/l1" "1"]; [EtcdDelete "/services/game01/lobby/l1"]] [true; true]) =
  foldl (apply_change "lobby") ∅ (take n [Came lobby1; Went "l1"]) /\ n = 2%nat.
Proof.
  destruct (etcd_watch_tracks game "lobby" [Came lobby1; Went "l1"]
    [[EtcdPut "/services/game01/lobby/l1" "1"]; [EtcdDelete "/services/game01/lobby/l1"]] [true; true] ∅) as (n & Hn & Hall).
  - exact lobby_element.
  - constructor; [|constructor; [|constructor]].
    + split; [reflexivity|]. exists "1". split; vm_compute; reflexivity.
    + split; [vm_compute; repeat split; discriminate|vm_compute; reflexivity].
  - exists n. split; [exact Hn|]. apply Hall; [repeat constructor|simpl; lia].
Defined.

(** When keeping the lease alive fails, [Register] reports an error and leaves the instance
    registered until the lease expires. *)
Lemma failed_keep_alive_leaves_registration :
  let '(x, w) := Register game lobby1 (mkMemory ∅ false) in
  is_ok x = false /\ (Discover game "lobby" w).1 = Ok [lobby1].
Proof. vm_compute. done. Qed.

(** An instance whose name has a slash is never removed by a watcher: the event of its
    removal names another instance. *)
Lemma slash_in_instance_is_not_removed :
  foldl learn ∅ (Watch "lobby" [[EtcdPut (reg_key game rack) "7"; EtcdDelete (reg_key game rack)]] [true; true]) = {[ item_key rack := rack ]}.
Proof. vm_compute. done. Qed.

(** One value that is no registration makes the discovery of its service fail. *)
Lemma bad_value_blocks_discovery :
  is_ok (Discover game "lobby" (mkMemory {[ "/services/game01/lobby/l1" := ("1", 1); "/services/game01/lobby/l2" := ("?", 2) ]} true)).1 = false.
Proof. vm_compute. done. Qed.

(** Opening a registry either gives one or leaves no client of etcd behind. *)
Record dialer := mkDialer { open_clients : nat; reachable : bool }.
#[local] Instance test_dial : Dial dialer := {|
  New_client _ w := (Ok tt, mkDialer (S (open_clients w)) (reachable w));
  Sync w := (if reachable w then Ok tt else Err (Text "context deadline exceeded"), w);
  Close_client w := (Ok tt, mkDialer (pred (open_clients w)) (reachable w))
|}.
Lemma failed_open_leaks_nothing provider endpoints ns ttl : provider <> "static" ->
  open_clients (Open (Config.mkDiscovery provider endpoints ns ttl) (mkDialer 0 false)).2 = 0%nat.
Proof. intros Hp. unfold Open. simpl. by rewrite bool_decide_false. Qed.

End runs.
End Etcd.
