(* ===== verification/Modules.v ===== *)
(** * The modules of the services: [services/usercenter/module.go], [services/lobby/module.go],
    [services/battle/module.go], [services/common/module.go], and the connection to MongoDB,
    [common/mongodb/mongo_mod.go]

    How a module is built from the connection, what it does when it is started, and which
    messages it handles. The driver, the index administration of the database and the
    streams of the module's client manager are parameters. *)

From S2P Require Import Prelude Proto Streaming Config Indexes ServiceClients.
Import Proto Indexes.
Open Scope Z_scope.

Module Modules.

(** ** The connection: [mongo_mod.go] *)

Record Credential := mkCredential { AuthMechanism : string; AuthSource : string; Username : string; Password : string }.
Record ClientOptions := mkOptions { ApplyURI : string; ConnectTimeout : Z; Auth : option Credential }.

(** The driver: clients are handles; [connected] are the clients that hold resources. *)
Class Driver (W : Type) := {
  Connect : ClientOptions -> prog W Z;
  Ping : Z -> Z -> prog W unit;
  Disconnect : Z -> prog W unit;
  connected : W -> gset Z
}.
Class DriverLaws (W : Type) `{Driver W} := {
  connect_ok o w c w' : Connect o w = (Ok c, w') -> c ∉ connected w /\ connected w' = {[c]} ∪ connected w;
  connect_err o w e w' : Connect o w = (Err e, w') -> connected w' = connected w;
  ping c t w res w' : Ping c t w = (res, w') -> connected w' = connected w;
  disconnect_ok c w w' : Disconnect c w = (Ok tt, w') -> connected w' = connected w ∖ {[c]}
}.

Record MongoModule := mkMongo { dbConf : Config.MongoConfig; driverClient : option Z; driverDB : option (Z * string) }.
Definition NewMongoModule (conf : Config.Config) : MongoModule := mkMongo (Config.Mongo conf) None None.

(** The getters on a pointer that may be nil. *)
Definition DriverClient (m : option MongoModule) : option Z := m ≫= driverClient.
Definition DriverDatabase (m : option MongoModule) : option (Z * string) := m ≫= driverDB.
Definition DriverCollection (m : option MongoModule) (name : string) : option (Z * string * string) :=
  (fun db => (db, name)) <$> DriverDatabase m.

Definition client_options (c : Config.MongoConfig) : ClientOptions :=
  mkOptions (Config.URI c) (Config.ConnectTimeout c)
    (if negb (bool_decide (Config.Username c = "")) || negb (bool_decide (Config.Password c = ""))
     then Some (mkCredential (Config.AuthMechanism c) (Config.AuthSource c) (Config.Username c) (Config.Password c)) else None).

Section mongo.
Context {W : Type} `{Driver W}.

Definition Init (m : MongoModule) : prog W MongoModule := fun w =>
  match Connect (client_options (dbConf m)) w with
  | (Err e, w) => (Err (Wrapf "connect mongodb" e), w)
  | (Ok c, w) =>
      match Ping c (Config.ConnectTimeout (dbConf m)) w with
      | (Err e, w) => (Err (Wrapf "ping mongodb" e), (Disconnect c w).2)
      | (Ok _, w) => (Ok (mkMongo (dbConf m) (Some c) (Some (c, Config.Database (dbConf m)))), w)
      end
  end.
Definition Shutdown (m : option MongoModule) : prog W unit :=
  match DriverClient m with Some c => Disconnect c | None => ret tt end.

Context `{!DriverLaws W}.

(** The module owns exactly the client it keeps: whatever [Init] returns, as long as giving
    a client back succeeds, the connections that remain are the old ones and the one of the
    module; after [Shutdown] the old ones are left. *)
Lemma mongo_module_owns_client m w res w' :
  (forall c w, is_ok (Disconnect c w).1 = true) -> Init m w = (res, w') ->
  match res with
  | Err _ => connected w' = connected w
  | Ok m' => exists c, DriverClient (Some m') = Some c /\ DriverDatabase (Some m') = Some (c, Config.Database (dbConf m)) /\
      connected w' = {[c]} ∪ connected w /\ connected (Shutdown (Some m') w').2 = connected w
  end.
Proof.
  intros Hd. unfold Init. destruct (Connect _ w) as [[c|e] w1] eqn:Ec; [|intros [= <- <-]; by eapply connect_err].
  destruct (connect_ok _ _ _ _ Ec) as [Hn Hc].
  assert (forall w2, connected w2 = {[c]} ∪ connected w -> connected (Disconnect c w2).2 = connected w) as Hback.
  { intros w2 H2. specialize (Hd c w2). destruct (Disconnect c w2) as [[[]|e] w3] eqn:E; [|done]. simpl.
    rewrite (disconnect_ok _ _ _ E), H2. set_solver. }
  destruct (Ping _ _ w1) as [[[]|e] w2] eqn:Ep; intros [= <- <-]; pose proof (ping _ _ _ _ _ Ep) as Hp.
  - exists c. split_and!; [done|done|congruence|]. apply Hback. congruence.
  - apply Hback. congruence.
Qed.

End mongo.

(** ** Redis: [common/redis/client.go] *)

Record RedisOptions := mkRedisOptions { Addr : string; RedisPassword : string; RedisDB : Z }.
Class RedisDriver (W : Type) := {
  NewClient : RedisOptions -> W -> Z * W;
  RedisPing : Z -> prog W unit;
  RedisClose : Z -> prog W unit
}.
Definition redis_New {W} `{RedisDriver W} (cfg : Config.RedisConfig) : prog W Z := fun w =>
  let '(client, w) := NewClient (mkRedisOptions (Config.Redis_Address cfg) (Config.Redis_Password cfg) (Config.DB cfg)) w in
  match RedisPing client w with
  | (Err e, w) => (Err (Wrapf "redis ping" e), (RedisClose client w).2)
  | (Ok _, w) => (Ok client, w)
  end.

(** ** Starting a module *)

Definition resources_required : error := Text "official MongoDB Driver resources are required".
Notation collection := (Z * string * string)%type.

Record UserCenterModule := mkUserCenterModule {
  domainAccounts : option collection; domainIdentities : option collection; domainTokens : option collection;
  idempotency : option collection; domainAuth : bool; clientAuth : bool; uc_initErr : option error
}.
Definition usercenter_NewModule (mongo : option MongoModule) : UserCenterModule :=
  match DriverClient mongo, DriverDatabase mongo with
  | Some _, Some _ =>
      mkUserCenterModule (DriverCollection mongo "accounts") (DriverCollection mongo "account_identities")
        (DriverCollection mongo "refresh_tokens") (DriverCollection mongo "idempotency_records") true true None
  | _, _ => mkUserCenterModule None None None None false false (Some resources_required)
  end.

Record LobbyModule := mkLobbyModule {
  players : option collection; assets : option collection; ledger : option collection; snapshots : option collection;
  component : bool; lb_lifecycle : bool; lb_initErr : option error
}.
Definition lobby_NewModule (mongo : option MongoModule) : LobbyModule :=
  match DriverClient mongo, DriverDatabase mongo with
  | Some _, Some _ =>
      mkLobbyModule (DriverCollection mongo "players") (DriverCollection mongo "player_assets")
        (DriverCollection mongo "asset_ledger") (DriverCollection mongo "player_snapshots") true true None
  | _, _ => mkLobbyModule None None None None false true (Some resources_required)
  end.

Record BattleModule := mkBattleModule { rooms : option collection; settlements : bool; bt_lifecycle : bool; bt_initErr : option error }.
Definition battle_NewModule (mongo : option MongoModule) : BattleModule :=
  match DriverDatabase mongo with
  | Some _ => mkBattleModule (DriverCollection mongo "battle_room_snapshots") true true None
  | None => mkBattleModule None true true (Some resources_required)
  end.

(** Index administration, the recovery of idempotency records (modelled with the user
    center), and the start of a module's streams. *)
Class Services (W : Type) := {
  CreateMany : collection -> list IndexModel -> prog W unit;
  RecoverExpired : Z -> prog W Z;
  streaming_Start : string -> W -> W;
  indexes : W -> collection -> list IndexModel;
  streaming : W -> gset string
}.
Class ServicesLaws (W : Type) `{Services W} := {
  create_ok c l w w' : CreateMany c l w = (Ok tt, w') -> l ⊆ indexes w' c;
  create_keeps c l w res w' : CreateMany c l w = (res, w') -> streaming w' = streaming w /\ forall c', indexes w c' ⊆ indexes w' c';
  recover_keeps now w res w' : RecoverExpired now w = (res, w') -> streaming w' = streaming w /\ forall c', indexes w c' ⊆ indexes w' c';
  start_streams name w : streaming (streaming_Start name w) = {[name]} ∪ streaming w /\
    forall c', indexes w c' ⊆ indexes (streaming_Start name w) c'
}.

Section start.
Context {W : Type} `{Services W}.

Definition ErrCollectionRequired : error := Sentinel "mongo.ErrCollectionRequired" "mongo collection is required".
Definition ensureIndexes (c : option collection) (models : list IndexModel) : prog W unit :=
  match c with None => throw ErrCollectionRequired | Some c => CreateMany c models end.
Definition common_Start (name : string) : prog W unit := fun w => (Ok tt, streaming_Start name w).

Definition usercenter_Start (m : UserCenterModule) (now : Z) : prog W unit :=
  match uc_initErr m with
  | Some e => throw e
  | None =>
      (_ <- with_context "ensure accounts indexes" (ensureIndexes (domainAccounts m) accountIndexes);;
       _ <- with_context "ensure account identities indexes" (ensureIndexes (domainIdentities m) identityIndexes);;
       _ <- with_context "ensure refresh token indexes" (ensureIndexes (domainTokens m) refreshTokenIndexes);;
       _ <- with_context "ensure idempotency indexes" (ensureIndexes (idempotency m) idempotencyIndexes);;
       _ <- with_context "recover expired idempotency records" (RecoverExpired now);;
       common_Start "usercenter")%go
  end.

(** The loop of the lobby's [Start]. *)
Fixpoint ensure_each (items : list (string * option collection * list IndexModel)) : prog W unit :=
  match items with
  | [] => ret tt
  | (name, c, models) :: items =>
      (_ <- with_context ("ensure " +:+ name +:+ " indexes") (ensureIndexes c models);; ensure_each items)%go
  end.
Definition lobby_Start (m : LobbyModule) : prog W unit :=
  match lb_initErr m with
  | Some e => throw e
  | None =>
      (_ <- ensure_each [("players", players m, playerIndexes); ("assets", assets m, assetIndexes);
                         ("ledger", ledger m, ledgerIndexes); ("snapshots", snapshots m, snapshotIndexes)];;
       common_Start "lobby")%go
  end.

(** [RoomManager.EnsureIndexes] *)
Definition rooms_EnsureIndexes (snapshots : option collection) : prog W unit :=
  match snapshots with
  | None => throw (Text "battle room snapshot repository is not configured")
  | Some c => ensureIndexes (Some c) roomSnapshotIndexes
  end.
Definition battle_Start (m : BattleModule) : prog W unit :=
  match bt_initErr m with
  | Some e => throw e
  | None =>
      (_ <- with_context "ensure battle room snapshot indexes" (rooms_EnsureIndexes (rooms m));;
       common_Start "battle")%go
  end.

Context `{!ServicesLaws W}.

(** Programs that start no stream and drop no index. *)
Definition prepares {A} (p : prog W A) : Prop := forall w res w', p w = (res, w') ->
  streaming w' = streaming w /\ forall c, indexes w c ⊆ indexes w' c.
Definition builds {A} (p : prog W A) (c : collection) (models : list IndexModel) : Prop := forall w a w',
  p w = (Ok a, w') -> models ⊆ indexes w' c.
(** Programs that build indexes and, when all is built, start the streams of a module. *)
Definition starts (p : prog W unit) (name : string) (built : list (collection * list IndexModel)) : Prop := forall w res w',
  p w = (res, w') ->
  match res with
  | Ok _ => name ∈ streaming w' /\ (forall c models, (c, models) ∈ built -> models ⊆ indexes w' c) /\
      forall c, indexes w c ⊆ indexes w' c
  | Err _ => streaming w' = streaming w
  end.

Lemma prepares_bind {A B} (p : prog W A) (k : A -> prog W B) : prepares p -> (forall a, prepares (k a)) -> prepares (bind p k).
Proof.
  intros Hp Hk w res w'. unfold bind. destruct (p w) as [[a|e] w1] eqn:E; apply Hp in E as [Hs Hi].
  - intros [Hs' Hi']%Hk. split; [congruence|]. intros c. by rewrite Hi, Hi'.
  - by intros [= <- <-].
Qed.

Lemma prepares_context {A} ctx (p : prog W A) : prepares p -> prepares (with_context ctx p).
Proof. intros Hp w res w'. unfold with_context. destruct (p w) as [[a|e] w1] eqn:E; intros [= <- <-]; by apply Hp in E. Qed.

Lemma prepares_ensure c models : prepares (ensureIndexes c models).
Proof. destruct c as [c|]; intros w res w'; simpl; [apply create_keeps|by intros [= <- <-]]. Qed.

Lemma prepares_recover now : prepares (RecoverExpired now).
Proof. intros w res w'. apply recover_keeps. Qed.

Lemma prepares_rooms c : prepares (rooms_EnsureIndexes c).
Proof. destruct c; [apply prepares_ensure|by intros w res w' [= <- <-]]. Qed.

Lemma builds_ensure ctx c models : builds (with_context ctx (ensureIndexes (Some c) models)) c models.
Proof.
  intros w a w'. unfold with_context. simpl. destruct (CreateMany c models w) as [[[]|e] w1] eqn:E; [|done]. intros [= <- <-]. by apply create_ok in E.
Qed.

Lemma starts_base name : starts (common_Start name) name [].
Proof.
  intros w res w' [= <- <-]. destruct (start_streams name w) as [Hs Hi]. split_and!; [rewrite Hs; set_solver|set_solver|done].
Qed.

Lemma starts_skip {A} (p : prog W A) q name built : prepares p -> starts q name built -> starts (bind p (fun _ => q)) name built.
Proof.
  intros Hp Hq w res w'. unfold bind. destruct (p w) as [[a|e] w1] eqn:E; apply Hp in E as [Hs Hi].
  - intros Hr%Hq. destruct res as [[]|]; [|congruence]. destruct Hr as (? & ? & Hi'). split_and!; [done|done|]. intros c. by rewrite Hi.
  - by intros [= <- <-].
Qed.

Lemma starts_build {A} (p : prog W A) q name built c models : prepares p -> builds p c models -> starts q name built ->
  starts (bind p (fun _ => q)) name ((c, models) :: built).
Proof.
  intros Hp Hb Hq w res w'. unfold bind. destruct (p w) as [[a|e] w1] eqn:E.
  - pose proof (Hb _ _ _ E) as Hm. apply Hp in E as [Hs Hi]. intros Hr%Hq. destruct res as [[]|]; [|congruence].
    destruct Hr as (? & Hall & Hi'). split_and!; [done| |intros c'; by rewrite Hi].
    intros c' models' [[= -> ->]|Hin]%elem_of_cons; [by rewrite Hm|by apply Hall].
  - apply Hp in E as [Hs _]. by intros [= <- <-].
Qed.

Lemma starts_ensure ctx c models q name built : starts q name built ->
  starts (bind (with_context ctx (ensureIndexes (Some c) models)) (fun _ => q)) name ((c, models) :: built).
Proof. apply starts_build; [apply prepares_context, prepares_ensure|apply builds_ensure]. Qed.

Lemma starts_each items q name : starts q name [] ->
  starts (bind (ensure_each ((fun x => (x.1.1, Some x.1.2, x.2)) <$> items)) (fun _ => q)) name ((fun x => (x.1.2, x.2)) <$> items).
Proof.
  intros Hq. induction items as [|[[n c] models] items IH]; [done|]. simpl.
  intros w res w' E. eapply (starts_ensure ("ensure " +:+ n +:+ " indexes") c models); [exact IH|].
  rewrite <- E. unfold bind. by destruct (with_context _ _ w) as [[?|?] ?].
Qed.

(** The connection a process works with. *)
Definition has_connection (mongo : option MongoModule) (db : Z * string) : Prop :=
  is_Some (DriverClient mongo) /\ DriverDatabase mongo = Some db.

(** C19 A service starts on its indexes: with a database connection, the user center, the
    lobby and battle end their start with streams to other services only if every collection
    they use has all indexes that are declared for it, and drop no other index; a start that
    fails, at whichever index or step, opens no stream. *)
Theorem services_start_on_their_indexes mongo db now :
  has_connection mongo db ->
  let coll name := (db, name) : collection in
  starts (usercenter_Start (usercenter_NewModule mongo) now) "usercenter"
    [(coll "accounts", accountIndexes); (coll "account_identities", identityIndexes); (coll "refresh_tokens", refreshTokenIndexes);
     (coll "idempotency_records", idempotencyIndexes)] /\
  starts (lobby_Start (lobby_NewModule mongo)) "lobby"
    [(coll "players", playerIndexes); (coll "player_assets", assetIndexes); (coll "asset_ledger", ledgerIndexes);
     (coll "player_snapshots", snapshotIndexes)] /\
  starts (battle_Start (battle_NewModule mongo)) "battle" [(coll "battle_room_snapshots", roomSnapshotIndexes)].
Proof.
  intros [[c Hc] Hdb]. cbn zeta. unfold usercenter_NewModule, lobby_NewModule, battle_NewModule, DriverCollection. rewrite Hc, Hdb.
  split_and!.
  - do 4 apply starts_ensure. apply starts_skip; [apply prepares_context, prepares_recover|apply starts_base].
  - apply (starts_each [("players", (db, "players"), playerIndexes); ("assets", (db, "player_assets"), assetIndexes);
      ("ledger", (db, "asset_ledger"), ledgerIndexes); ("snapshots", (db, "player_snapshots"), snapshotIndexes)]), starts_base.
  - apply starts_ensure, starts_base.
Qed.

(** Without a connection no service starts. *)
Lemma services_need_connection mongo now w : DriverDatabase mongo = None ->
  usercenter_Start (usercenter_NewModule mongo) now w = (Err resources_required, w) /\
  lobby_Start (lobby_NewModule mongo) w = (Err resources_required, w) /\
  battle_Start (battle_NewModule mongo) w = (Err resources_required, w).
Proof. intros Hdb. unfold usercenter_NewModule, lobby_NewModule, battle_NewModule. rewrite Hdb. by destruct (DriverClient mongo). Qed.

End start.
(** ** Routes: the [RegisterInternal] of the modules and of their components *)

Definition GUEST_AUTHENTICATE_REQUEST : Z := 1001.
Definition REFRESH_AUTHENTICATE_REQUEST : Z := 1002.
Definition REVOKE_REFRESH_TOKEN_REQUEST : Z := 1003.
Definition PASSWORD_AUTHENTICATE_REQUEST : Z := 1004.

(** The methods that handle messages. *)
Inductive method :=
  | ServiceStatus (service : Z)
  | GuestAuthenticate | RefreshAuthenticate | RevokeRefreshToken | PasswordAuthenticate | LinkPlayer
  | ClientLoginAuthenticate | ClientRefreshAuthenticate
  | EnsurePlayer | SettleAssets | LobbyRestore | BattleRestore
  | LifecycleHandle (service : Z).

Section routes.
Context {A : Type} (handle : method -> Streaming.handler (A := A)).
Notation Router := (gmap Z (gmap Z (Streaming.handler (A := A)))).
Notation on := (fun service messageID m (r : Router) => Streaming.Register r service messageID (handle m)).

Definition common_RegisterInternal (service : Z) (r : Router) : Router := on service SERVICE_STATUS_REQUEST (ServiceStatus service) r.
Definition domainAuth_RegisterInternal (r : Router) : Router :=
  let r := on SERVICE_TYPE_USERCENTER GUEST_AUTHENTICATE_REQUEST GuestAuthenticate r in
  let r := on SERVICE_TYPE_USERCENTER REFRESH_AUTHENTICATE_REQUEST RefreshAuthenticate r in
  let r := on SERVICE_TYPE_USERCENTER REVOKE_REFRESH_TOKEN_REQUEST RevokeRefreshToken r in
  let r := on SERVICE_TYPE_USERCENTER PASSWORD_AUTHENTICATE_REQUEST PasswordAuthenticate r in
  on SERVICE_TYPE_USERCENTER ServiceClients.LINK_PLAYER_REQUEST LinkPlayer r.
Definition clientAuth_RegisterInternal (r : Router) : Router :=
  let r := on SERVICE_TYPE_USERCENTER ServiceClients.CLIENT_LOGIN_AUTHENTICATE_REQUEST ClientLoginAuthenticate r in
  on SERVICE_TYPE_USERCENTER ServiceClients.CLIENT_REFRESH_AUTHENTICATE_REQUEST ClientRefreshAuthenticate r.
Definition player_RegisterInternal (r : Router) : Router :=
  let r := on SERVICE_TYPE_LOBBY ServiceClients.ENSURE_PLAYER_REQUEST EnsurePlayer r in
  let r := on SERVICE_TYPE_LOBBY ServiceClients.SETTLEMENT_REQUEST SettleAssets r in
  on SERVICE_TYPE_LOBBY RESTORE_PLAYER_STATE_REQUEST LobbyRestore r.
(** [SessionLifecycleConsumer.Register] *)
Definition lifecycle_Register (service : Z) (r : Router) : Router := on service SESSION_LIFECYCLE_EVENT (LifecycleHandle service) r.

Definition usercenter_RegisterInternal (m : UserCenterModule) (r : Router) : Router :=
  let r := common_RegisterInternal SERVICE_TYPE_USERCENTER r in
  if negb (domainAuth m) then r
  else
    let r := domainAuth_RegisterInternal r in
    if clientAuth m then clientAuth_RegisterInternal r else r.
Definition lobby_RegisterInternal (m : LobbyModule) (r : Router) : Router :=
  let r := common_RegisterInternal SERVICE_TYPE_LOBBY r in
  let r := if component m then player_RegisterInternal r else r in
  if lb_lifecycle m then lifecycle_Register SERVICE_TYPE_LOBBY r else r.
Definition battle_RegisterInternal (m : BattleModule) (r : Router) : Router :=
  let r := common_RegisterInternal SERVICE_TYPE_BATTLE r in
  let r := if bt_lifecycle m then lifecycle_Register SERVICE_TYPE_BATTLE r else r in
  on SERVICE_TYPE_BATTLE RESTORE_PLAYER_STATE_REQUEST BattleRestore r.
(** The gateway has the method of its embedded module. *)
Definition gateway_RegisterInternal (r : Router) : Router := common_RegisterInternal SERVICE_TYPE_GATEWAY r.

(** The loop of [main] over the enabled modules. *)
Definition internal_router (enabled : string -> bool) (mongo : option MongoModule) : Router :=
  let r := Streaming.NewRouter in
  let r := if enabled "usercenter" then usercenter_RegisterInternal (usercenter_NewModule mongo) r else r in
  let r := if enabled "lobby" then lobby_RegisterInternal (lobby_NewModule mongo) r else r in
  let r := if enabled "battle" then battle_RegisterInternal (battle_NewModule mongo) r else r in
  if enabled "gateway" then gateway_RegisterInternal r else r.

(** Which method should answer a message to a service. *)
Definition routes : list (string * Z * list (Z * method)) :=
  [("usercenter", SERVICE_TYPE_USERCENTER,
     [(SERVICE_STATUS_REQUEST, ServiceStatus SERVICE_TYPE_USERCENTER); (GUEST_AUTHENTICATE_REQUEST, GuestAuthenticate);
      (REFRESH_AUTHENTICATE_REQUEST, RefreshAuthenticate); (REVOKE_REFRESH_TOKEN_REQUEST, RevokeRefreshToken);
      (PASSWORD_AUTHENTICATE_REQUEST, PasswordAuthenticate); (ServiceClients.LINK_PLAYER_REQUEST, LinkPlayer);
      (ServiceClients.CLIENT_LOGIN_AUTHENTICATE_REQUEST, ClientLoginAuthenticate);
      (ServiceClients.CLIENT_REFRESH_AUTHENTICATE_REQUEST, ClientRefreshAuthenticate)]);
   ("lobby", SERVICE_TYPE_LOBBY,
     [(SERVICE_STATUS_REQUEST, ServiceStatus SERVICE_TYPE_LOBBY); (ServiceClients.ENSURE_PLAYER_REQUEST, EnsurePlayer);
      (ServiceClients.SETTLEMENT_REQUEST, SettleAssets); (RESTORE_PLAYER_STATE_REQUEST, LobbyRestore);
      (SESSION_LIFECYCLE_EVENT, LifecycleHandle SERVICE_TYPE_LOBBY)]);
   ("battle", SERVICE_TYPE_BATTLE,
     [(SERVICE_STATUS_REQUEST, ServiceStatus SERVICE_TYPE_BATTLE); (SESSION_LIFECYCLE_EVENT, LifecycleHandle SERVICE_TYPE_BATTLE);
      (RESTORE_PLAYER_STATE_REQUEST, BattleRestore)]);
   ("gateway", SERVICE_TYPE_GATEWAY, [(SERVICE_STATUS_REQUEST, ServiceStatus SERVICE_TYPE_GATEWAY)])].
Definition expected (enabled : string -> bool) (service messageID : Z) : option method :=
  '(name, _, ms) ← List.find (fun x => Z.eqb service x.1.2) routes;
  if enabled name then snd <$> List.find (fun x => Z.eqb messageID x.1) ms else None.

Lemma lookup_register (r : Router) service messageID h s i :
  Streaming.lookup_handler (Streaming.Register r service messageID h) s i =
  if (s =? service) && (i =? messageID) then Some h else Streaming.lookup_handler r s i.
Proof.
  unfold Streaming.lookup_handler, Streaming.Register. destruct (Z.eqb_spec s service) as [->|Hs].
  - rewrite lookup_insert_eq. simpl. destruct (Z.eqb_spec i messageID) as [->|Hi]; [by rewrite lookup_insert_eq|].
    rewrite lookup_insert_ne by done. simpl. by destruct (r !! service).
  - by rewrite lookup_insert_ne.
Qed.

(** The messages the components send to each other: the gateway's authentication client,
    player resolver, restore and lifecycle publisher, the lobby's linker, and the settlement
    client of battle. *)
Definition sent : list (string * Z * Z) :=
  [("usercenter", SERVICE_TYPE_USERCENTER, ServiceClients.CLIENT_LOGIN_AUTHENTICATE_REQUEST);
   ("usercenter", SERVICE_TYPE_USERCENTER, ServiceClients.CLIENT_REFRESH_AUTHENTICATE_REQUEST);
   ("usercenter", SERVICE_TYPE_USERCENTER, ServiceClients.LINK_PLAYER_REQUEST);
   ("lobby", SERVICE_TYPE_LOBBY, ServiceClients.ENSURE_PLAYER_REQUEST);
   ("lobby", SERVICE_TYPE_LOBBY, ServiceClients.SETTLEMENT_REQUEST);
   ("lobby", SERVICE_TYPE_LOBBY, RESTORE_PLAYER_STATE_REQUEST);
   ("battle", SERVICE_TYPE_BATTLE, RESTORE_PLAYER_STATE_REQUEST);
   ("lobby", SERVICE_TYPE_LOBBY, SESSION_LIFECYCLE_EVENT);
   ("battle", SERVICE_TYPE_BATTLE, SESSION_LIFECYCLE_EVENT)].

(** Decides comparisons of ids, of which at most two are unknown. *)
Ltac decide_ids enabling :=
  repeat match goal with
    | |- context [?x =? ?y] =>
        match eval vm_compute in (x =? y) with
        | true => change (x =? y) with true
        | false => change (x =? y) with false
        | _ => destruct (Z.eqb_spec x y); [subst x|]
        end; cbn [andb List.find fst snd mbind option_bind fmap option_fmap option_map]; enabling;
        try reflexivity
    end.

Lemma router_lookup enabled mongo db service messageID :
  has_connection mongo db ->
  Streaming.lookup_handler (internal_router enabled mongo) service messageID = handle <$> expected enabled service messageID.
Proof.
  intros [[c Hc] Hdb]. unfold internal_router, usercenter_NewModule, lobby_NewModule, battle_NewModule, DriverCollection. rewrite Hc, Hdb.
  unfold usercenter_RegisterInternal, lobby_RegisterInternal, battle_RegisterInternal.
  cbn [domainAuth clientAuth component lb_lifecycle bt_lifecycle negb].
  unfold gateway_RegisterInternal, common_RegisterInternal, domainAuth_RegisterInternal, clientAuth_RegisterInternal,
    player_RegisterInternal, lifecycle_Register, expected, routes. cbn [List.find fst snd].
  destruct (enabled "gateway") eqn:E1, (enabled "battle") eqn:E2, (enabled "lobby") eqn:E3, (enabled "usercenter") eqn:E4;
    rewrite ?lookup_register; decide_ids ltac:(rewrite ?E1, ?E2, ?E3, ?E4); done.
Qed.

(** C24 Every message has its handler: for any choice of enabled services, the routing table
    that [main] builds sends each pair of service type and message id to exactly the method
    meant for it and to none otherwise, and each kind of message the services send to each
    other is handled exactly when the service it is sent to is enabled in the process. *)
Theorem messages_are_routed enabled mongo db service messageID :
  has_connection mongo db ->
  Streaming.lookup_handler (internal_router enabled mongo) service messageID = handle <$> expected enabled service messageID /\
  forall name, (name, service, messageID) ∈ sent ->
    is_Some (Streaming.lookup_handler (internal_router enabled mongo) service messageID) <-> enabled name = true.
Proof.
  intros Hc. rewrite (router_lookup _ _ _ _ _ Hc). split; [done|]. intros name Hin. rewrite fmap_is_Some.
  unfold sent in Hin. repeat (apply elem_of_cons in Hin as [[= -> -> ->]|Hin]; [unfold expected; simpl; by destruct (enabled _); split; eauto using is_Some_None|]).
  by apply not_elem_of_nil in Hin.
Qed.

End routes.

(** ** A database in memory *)

Section runs.

Record memory := mkMemory { m_indexes : gmap collection (list IndexModel); m_streaming : gset string }.
#[local] Instance memory_services : Services memory := {|
  CreateMany c l w := (Ok tt, mkMemory (<[c := default [] (m_indexes w !! c) ++ l]> (m_indexes w)) (m_streaming w));
  RecoverExpired _ w := (Ok 0, w);
  streaming_Start name w := mkMemory (m_indexes w) ({[name]} ∪ m_streaming w);
  indexes w c := default [] (m_indexes w !! c);
  streaming := m_streaming
|}.
#[local] Instance memory_laws : ServicesLaws memory.
Proof.
  split; simpl.
  - intros c l w w' [= <-]. simpl. rewrite lookup_insert_eq. simpl. set_solver.
  - intros c l w res w' [= <- <-]. split; [done|]. intros c'. simpl. destruct (decide (c = c')) as [->|Hne].
    + rewrite lookup_insert_eq. simpl. set_solver.
    + by rewrite lookup_insert_ne.
  - by intros now w res w' [= <- <-].
  - done.
Qed.

Definition connection : MongoModule := mkMongo (Config.Mongo Config.Defaults) (Some 1) (Some (1, "game01")).
Lemma connection_ok : has_connection (Some connection) (1, "game01").
Proof. split; [by exists 1|done]. Qed.

Lemma services_start_on_their_indexes_witness :
  exists w', lobby_Start (lobby_NewModule (Some connection)) (mkMemory ∅ ∅) = (Ok tt, w') /\
    playerIndexes ⊆ indexes w' (1, "game01", "players").
Proof.
  destruct (lobby_Start (lobby_NewModule (Some connection)) (mkMemory ∅ ∅)) as [x w'] eqn:E.
  assert (x = Ok tt) as -> by (apply (f_equal fst) in E; exact (eq_sym E)).
  exists w'. split; [reflexivity|].
  destruct (services_start_on_their_indexes (W := memory) (Some connection) (1, "game01") 0 connection_ok) as (_ & Hl & _).
  destruct (Hl _ _ _ E) as (_ & Hb & _). apply Hb. by left.
Defined.

Definition deaf (m : method) : Streaming.handler (A := unit) := fun _ a => (Ok None, a).
Lemma messages_are_routed_witness :
  Streaming.lookup_handler (internal_router deaf (fun name => bool_decide (name = "lobby")) (Some connection))
    SERVICE_TYPE_LOBBY ServiceClients.SETTLEMENT_REQUEST = Some (deaf SettleAssets).
Proof.
  exact (proj1 (messages_are_routed deaf (fun name => bool_decide (name = "lobby")) (Some connection) (1, "game01")
    SERVICE_TYPE_LOBBY ServiceClients.SETTLEMENT_REQUEST connection_ok)).
Defined.

End runs.

End Modules.
