(* ===== verification/App.v ===== *)
(** * Starting and stopping a process: [common/app/module.go], [main.go] and
    [services/common/module.go]

    A module is what the process starts and stops; what its operations do to the rest of the
    world is a parameter, as is the registry, which is used through an interface that the
    registry in memory implements. *)

From S2P Require Import Prelude Proto Discovery Config.
Import Proto Discovery.
Open Scope Z_scope.

Module App.

(** ** Modules: [app/module.go] *)

Section modules.
Context {W : Type}.

(** [Module], and [DrainingModule] for the modules that are one. *)
Record Module := mkModule {
  Name : string;
  RegisterRoutes : W -> W;
  Start : W -> option error * W;
  Stop : W -> option error * W;
  draining : option ((W -> W) * (W -> option error * W))
}.

Definition enabled (c : Config.Config) (name : string) : bool :=
  match Config.Services c !! name with Some s => Config.Enabled s | None => false end.

(** The loop of [StartEnabled] with the modules [started] so far. *)
Fixpoint start_from (c : Config.Config) (started ms : list Module) (w : W) : list Module * option error * W :=
  match ms with
  | [] => (started, None, w)
  | m :: ms =>
      if negb (enabled c (Name m)) then start_from c started ms w
      else match Start m (RegisterRoutes m w) with
           | (Some e, w) => (started, Some e, w)
           | (None, w) => start_from c (started ++ [m]) ms w
           end
  end.
Definition StartEnabled (c : Config.Config) (ms : list Module) (w : W) : list Module * option error * W :=
  start_from c [] ms w.

(** The loop of [StopReverse] over the modules from the last to the first. *)
Fixpoint stop_each (first : option error) (ms : list Module) (w : W) : option error * W :=
  match ms with
  | [] => (first, w)
  | m :: ms =>
      match Stop m w with
      | (Some e, w) => stop_each (match first with None => Some e | Some _ => first end) ms w
      | (None, w) => stop_each first ms w
      end
  end.
Definition StopReverse (ms : list Module) (w : W) : option error * W := stop_each None (reverse ms) w.

(** ** [main.go] *)

(** [enabledModules], given the constructors of the four modules. *)
Definition enabledModules (c : Config.Config) (usercenter lobby battle gateway : Module) : list Module :=
  (if enabled c "usercenter" then [usercenter] else []) ++
  (if enabled c "lobby" then [lobby] else []) ++
  (if enabled c "battle" then [battle] else []) ++
  (if enabled c "gateway" then [gateway] else []).

(** [discovery.Registry] as [main] uses it: [Register] gives the function that ends the
    registration. [registrations w] is what the registry holds. *)
Class Registrar := {
  Register : Registration -> W -> res (W -> option error * W) * W;
  registrations : W -> gmap string Registration
}.
Class RegistrarLaws `{Registrar} := {
  register_ok r w close w' : Register r w = (Ok close, w') ->
    registrations w' = <[item_key r := r]> (registrations w) /\
    forall w1 w2, close w1 = (None, w2) -> registrations w2 = delete (item_key r) (registrations w1);
  register_err r w e w' : Register r w = (Err e, w') -> registrations w' = registrations w
}.

Context `{Registrar}.

(** [for i := len(registrations) - 1; i >= 0; i-- { _ = registrations[i]() }] on the reversed
    list. *)
Fixpoint close_each (closes : list (W -> option error * W)) (w : W) : W :=
  match closes with [] => w | close :: closes => close_each closes (close w).2 end.
Definition close_all (closes : list (W -> option error * W)) (w : W) : W := close_each (reverse closes) w.

Definition module_registration (c : Config.Config) (m : Module) : Registration :=
  mkRegistration (Name m) (Config.InstanceID (Config.App c)) (Config.AdvertiseAddress (Config.GRPC c)) "" 0 "".

Fixpoint register_from (c : Config.Config) (closes : list (W -> option error * W)) (ms : list Module) (w : W) :
    res (list (W -> option error * W)) * W :=
  match ms with
  | [] => (Ok closes, w)
  | m :: ms =>
      match Register (module_registration c m) w with
      | (Err e, w) => (Err e, close_all closes w)
      | (Ok close, w) => register_from c (closes ++ [close]) ms w
      end
  end.
Definition registerModules (c : Config.Config) (ms : list Module) (w : W) : res (list (W -> option error * W)) * W :=
  register_from c [] ms w.

Definition begin_drain (m : Module) (w : W) : W := match draining m with Some (b, _) => b w | None => w end.
Definition drain (m : Module) (w : W) : W := match draining m with Some (_, d) => (d w).2 | None => w end.

(** [main] after its context ended: the servers are [stopGRPC] and [srv.Shutdown]. *)
Definition shutdown (stopGRPC stopHTTP : W -> W) (started : list Module) (closes : list (W -> option error * W)) (w : W) : W :=
  let w := foldl (fun w m => begin_drain m w) w started in
  let w := close_all closes w in
  let w := foldl (fun w m => drain m w) w started in
  (StopReverse started (stopHTTP (stopGRPC w))).2.

(** ** What starting and stopping does *)

(** The modules that were started are the enabled ones up to the one that failed. *)
Lemma start_from_spec c ms : forall started w started' e w',
  start_from c started ms w = (started', e, w') ->
  exists k, started' = started ++ take k (filter (fun m => enabled c (Name m) = true) ms) /\
    (e = None -> (length (filter (fun m => enabled c (Name m) = true) ms) <= k)%nat).
Proof.
  induction ms as [|m ms IH]; intros started w started' e w' Hs; simpl in Hs.
  { injection Hs as <- <- <-. exists 0%nat. rewrite app_nil_r. split; [done|]. simpl. lia. }
  destruct (enabled c (Name m)) eqn:Em; cbn [negb] in Hs.
  - rewrite filter_cons_True by done. destruct (Start m _) as [[e1|] w1].
    + injection Hs as <- <- <-. exists 0%nat. by rewrite app_nil_r.
    + apply IH in Hs as (k & -> & Hk). exists (S k). simpl. rewrite <- app_assoc. split; [done|]. intros ->. specialize (Hk eq_refl). lia.
  - rewrite filter_cons_False by (by rewrite Em). by eapply IH.
Qed.

(** Every module is stopped, whatever the others' [Stop] says; the error is the first. *)
Lemma stop_each_spec ms : forall first w,
  stop_each first ms w = (foldl (fun x m => let '(e, w) := Stop m x.2 in (match x.1 with None => e | Some _ => x.1 end, w)) (first, w) ms).
Proof.
  induction ms as [|m ms IH]; intros first w; simpl; [done|]. destruct (Stop m w) as [[e|] w1]; rewrite IH; [done|].
  by destruct first.
Qed.

Context `{!RegistrarLaws}.

(** The closing functions end the registrations [regs], in this order. *)
Definition ends (closes : list (W -> option error * W)) (rs : list Registration) : Prop :=
  Forall2 (fun close r => forall w1 w2, close w1 = (None, w2) -> registrations w2 = delete (item_key r) (registrations w1)) closes rs.

Definition withdrawn (rs : list Registration) (m : gmap string Registration) : gmap string Registration :=
  foldl (fun m r => delete (item_key r) m) m rs.

Lemma close_each_withdraws closes rs w :
  ends closes rs -> Forall (fun close => forall w, (close w).1 = None) closes ->
  registrations (close_each closes w) = withdrawn rs (registrations w).
Proof.
  intros He. revert w. induction He as [|close r closes rs Hc He IH]; intros w Hok; simpl; [done|].
  apply Forall_cons in Hok as [Hw Hok]. rewrite IH by done. unfold withdrawn. simpl. f_equal.
  specialize (Hw w). destruct (close w) as [o w2] eqn:E. simpl in Hw. subst o. by apply Hc.
Qed.

Lemma withdrawn_perm rs rs' m : rs ≡ₚ rs' -> withdrawn rs m = withdrawn rs' m.
Proof.
  intros Hp. unfold withdrawn. revert m. induction Hp as [|r l l' _ IH|r r' l|? ? ? ? IH1 ? IH2]; intros m; simpl; [done|done| |].
  - by rewrite delete_delete.
  - by rewrite IH1.
Qed.

Lemma lookup_withdrawn rs m k : withdrawn rs m !! k = if decide (k ∈ item_key <$> rs) then None else m !! k.
Proof.
  unfold withdrawn. revert m. induction rs as [|r rs IH]; intros m; simpl; [done|]. rewrite IH.
  destruct (decide (k ∈ item_key <$> rs)) as [?|Hn]; [rewrite decide_True; [done|by right]|].
  destruct (decide (k = item_key r)) as [->|Hne].
  - rewrite decide_True by (by left). apply lookup_delete_eq.
  - rewrite decide_False; [by apply lookup_delete_ne|]. by intros [?|?]%elem_of_cons.
Qed.

Definition announced (rs : list Registration) (m : gmap string Registration) : gmap string Registration :=
  foldl (fun m r => <[item_key r := r]> m) m rs.

Lemma register_from_spec (P : (W -> option error * W) -> Prop) c ms :
  (forall r w close w', Register r w = (Ok close, w') -> P close) ->
  forall closes rs w0 w res w',
  ends closes rs -> Forall P closes -> registrations w = announced rs (registrations w0) ->
  register_from c closes ms w = (res, w') ->
  match res with
  | Ok closes' => exists rs', rs' = rs ++ (module_registration c <$> ms) /\ ends closes' rs' /\ Forall P closes' /\
      registrations w' = announced rs' (registrations w0)
  | Err _ => exists k closes' rs' w1, rs' = rs ++ take k (module_registration c <$> ms) /\ ends closes' rs' /\ Forall P closes' /\
      registrations w1 = announced rs' (registrations w0) /\ w' = close_all closes' w1
  end.
Proof.
  intros HP. induction ms as [|m ms IH]; intros closes rs w0 w res w' He Hcl Hw Hr; simpl in Hr.
  { injection Hr as <- <-. exists rs. by rewrite app_nil_r. }
  destruct (Register _ w) as [[close|e] w1] eqn:Er.
  - destruct (register_ok _ _ _ _ Er) as [Hreg Hclose].
    apply (IH _ (rs ++ [module_registration c m]) w0) in Hr.
    + destruct res as [closes'|e'].
      * destruct Hr as (rs' & -> & ? & ? & ?). eexists. split; [done|]. rewrite <- app_assoc in *. done.
      * destruct Hr as (k & closes' & rs' & w2 & -> & ? & ? & ? & ?). exists (S k), closes', (rs ++ module_registration c m :: take k (module_registration c <$> ms)), w2.
        rewrite <- app_assoc in *. by split_and!.
    + apply Forall2_app; [done|]. by constructor.
    + apply Forall_app. split; [done|]. constructor; [by eapply HP|done].
    + rewrite Hreg, Hw. unfold announced. by rewrite foldl_app.
  - injection Hr as <- <-. apply register_err in Er. exists 0%nat, closes, rs, w1. rewrite app_nil_r. split_and!; [done|done|done|congruence|done].
Qed.

Lemma withdrawn_announced rs m : withdrawn rs (announced rs m) = withdrawn rs m.
Proof.
  apply map_eq. intros k. rewrite !lookup_withdrawn. destruct (decide _) as [|Hn]; [done|].
  unfold announced. revert m. induction rs as [|r rs IH]; intros m; simpl; [done|]. rewrite IH by set_solver.
  apply lookup_insert_ne. set_solver.
Qed.

Lemma close_all_withdraws closes rs w :
  ends closes rs -> Forall (fun close => forall w, (close w).1 = None) closes ->
  registrations (close_all closes w) = withdrawn rs (registrations w).
Proof.
  intros He Hok. unfold close_all. rewrite (close_each_withdraws _ (reverse rs)).
  - apply withdrawn_perm, reverse_Permutation.
  - by apply Forall2_reverse.
  - rewrite Forall_forall in *. intros close Hc. apply Hok. by rewrite elem_of_reverse in Hc.
Qed.

(** The operations of a module do not touch the registry. *)
Definition quiet (m : Module) : Prop :=
  (forall w, registrations (RegisterRoutes m w) = registrations w) /\
  (forall w, registrations (Start m w).2 = registrations w) /\ (forall w, registrations (Stop m w).2 = registrations w) /\
  (forall w, registrations (begin_drain m w) = registrations w) /\ (forall w, registrations (drain m w) = registrations w).

Lemma start_from_quiet c ms : forall started w started' e w',
  Forall quiet ms -> start_from c started ms w = (started', e, w') -> registrations w' = registrations w.
Proof.
  induction ms as [|m ms IH]; intros started w started' e w' Hq Hs; simpl in Hs; [by injection Hs as <- <- <-|].
  apply Forall_cons in Hq as [(Hr & Hst & _) Hq]. destruct (enabled c (Name m)); cbn [negb] in Hs; [|by eapply IH].
  specialize (Hst (RegisterRoutes m w)). rewrite Hr in Hst. destruct (Start m _) as [[e1|] w1]; [by injection Hs as <- <- <-|].
  rewrite <- Hst. by eapply IH.
Qed.

Lemma stop_each_quiet ms : forall first w,
  Forall quiet ms -> registrations (stop_each first ms w).2 = registrations w.
Proof.
  induction ms as [|m ms IH]; intros first w Hq; simpl; [done|]. apply Forall_cons in Hq as [(_ & _ & Hst & _) Hq].
  specialize (Hst w). destruct (Stop m w) as [[e|] w1]; rewrite IH by done; exact Hst.
Qed.

Lemma drains_quiet (f : Module -> W -> W) ms w :
  Forall (fun m => forall w, registrations (f m w) = registrations w) ms ->
  registrations (foldl (fun w m => f m w) w ms) = registrations w.
Proof. intros Hf. revert w. induction Hf as [|m ms Hm Hf IH]; intros w; simpl; [done|]. by rewrite IH. Qed.

(** The life of a process. The modules it starts are the enabled ones, in their order, up
    to the first that fails. If their registration fails at some point, none of them is
    left in the registry; if it succeeds, all of them are, at the address of this instance.
    When the process has shut down, from whatever state, the registry has none of its
    registrations, whatever errors the modules report while they drain and stop. *)
Theorem process_lifecycle c ms w started e w1 res w2 (stopGRPC stopHTTP : W -> W) :
  Forall quiet ms -> (forall w, registrations (stopGRPC w) = registrations w) ->
  (forall w, registrations (stopHTTP w) = registrations w) ->
  (forall r w close w', Register r w = (Ok close, w') -> forall w1, (close w1).1 = None) ->
  StartEnabled c ms w = (started, e, w1) -> registerModules c started w1 = (res, w2) ->
  let mine := module_registration c <$> started in
  (exists k, started = take k (filter (fun m => enabled c (Name m) = true) ms)) /\
  (e = None -> started = filter (fun m => enabled c (Name m) = true) ms) /\
  match res with
  | Err _ => (forall r, r ∈ mine -> registrations w !! item_key r = None) -> registrations w2 = registrations w
  | Ok closes =>
      registrations w2 = announced mine (registrations w) /\
      forall w3, registrations (shutdown stopGRPC stopHTTP started closes w3) = withdrawn mine (registrations w3)
  end.
Proof.
  intros Hq Hgrpc Hhttp Hclose Hs Hr mine.
  destruct (start_from_spec _ _ _ _ _ _ _ Hs) as (k & Hst & Hk). simpl in Hst.
  assert (Forall quiet started) as Hqs.
  { rewrite Forall_forall in *. intros m Hm. apply Hq. rewrite Hst in Hm. apply elem_of_take in Hm as (i & Hi & _).
    apply list_elem_of_lookup_2 in Hi. by apply list_elem_of_filter in Hi as [_ ?]. }
  pose proof (start_from_quiet _ _ _ _ _ _ _ Hq Hs) as Hw1.
  split; [eauto|]. split. { intros He. rewrite Hst. apply take_ge. by apply Hk. }
  pose proof (register_from_spec _ c started Hclose [] [] w1 w1 res w2 (Forall2_nil_2 _ _ _) (proj2 (Forall_nil _) I) eq_refl Hr) as Hspec.
  destruct res as [closes|err].
  - destruct Hspec as (rs & -> & He & Hok & Hreg). simpl in *. rewrite <- Hw1. split; [done|]. intros w3.
    unfold shutdown, StopReverse. cbn zeta.
    rewrite stop_each_quiet by (rewrite Forall_forall in *; intros m Hm; apply Hqs; by rewrite elem_of_reverse in Hm).
    rewrite Hhttp, Hgrpc, (drains_quiet drain), (close_all_withdraws _ mine), (drains_quiet begin_drain); [done| |done|done|];
      rewrite Forall_forall in *; intros m Hm; by apply Hqs.
  - destruct Hspec as (k' & closes & rs & w3 & -> & He & Hok & Hreg & ->). simpl in *. intros Hfresh.
    rewrite (close_all_withdraws _ _ _ He Hok), Hreg, withdrawn_announced, Hw1.
    apply map_eq. intros key. rewrite lookup_withdrawn. destruct (decide _) as [Hin|]; [|done].
    apply list_elem_of_fmap in Hin as (r & -> & Hin). symmetry. apply Hfresh.
    apply elem_of_take in Hin as (i & Hi & _). by apply list_elem_of_lookup_2 in Hi.
Qed.

End modules.
Arguments Module : clear implicits.
Arguments Registrar : clear implicits.
Arguments RegistrarLaws : clear implicits.

(** The registry in memory is such a registry. *)
#[export] Instance static_registrar : Registrar Registry := {|
  Register item r := (Ok (fun r1 => (None, close_registration item r1)), Discovery.Register item r);
  registrations := items
|}.
#[export] Instance static_registrar_laws : RegistrarLaws Registry _.
Proof.
  split; [|done]. intros r w close w' [= <- <-]. split; [done|]. by intros w1 w2 [= <-].
Qed.

(** ** The common part of the modules: [services/common/module.go] *)

Record ServiceStatusRequest := mkStatusRequest { }.
Record ServiceStatusResponse := mkStatus { ss_ServiceType : Z; ss_InstanceId : string; ss_Available : bool }.

Definition serviceStatus `{ProtoMessage ServiceStatusRequest} (serviceType : Z) (c : Config.Config) (payload : string) :
    res (MessageResult ServiceStatusResponse) :=
  match Unmarshal (A := ServiceStatusRequest) payload with
  | Err e => Err e
  | Ok _ => Ok (mkResult SERVICE_STATUS_RESPONSE (mkStatus serviceType (Config.InstanceID (Config.App c)) true))
  end.

Definition InternalTargets (source : string) : gmap string Z :=
  delete source {[ "gateway" := SERVICE_TYPE_GATEWAY; "lobby" := SERVICE_TYPE_LOBBY;
                   "usercenter" := SERVICE_TYPE_USERCENTER; "battle" := SERVICE_TYPE_BATTLE ]}.

(** A module connects to every other service, and never to instances of its own. *)
Lemma internal_targets source name :
  is_Some (InternalTargets source !! name) <->
  name <> source /\ name ∈ ["gateway"; "lobby"; "usercenter"; "battle"].
Proof.
  unfold InternalTargets. rewrite lookup_delete_is_Some. rewrite <- elem_of_dom. set_unfold. naive_solver.
Qed.

(** ** A run *)

Section runs.

(** Modules that do nothing, one of which drains. *)
Definition idle (name : string) (drains : bool) : Module Registry :=
  mkModule name (fun w => w) (fun w => (None, w)) (fun w => (Some (Text name), w))
    (if drains then Some (fun w => w, fun w => (None, w)) else None).
Definition two : list (Module Registry) := [idle "lobby" false; idle "gateway" true].

Lemma idle_quiet name drains : quiet (idle name drains).
Proof. by destruct drains. Qed.

Lemma process_lifecycle_witness :
  exists closes w2, registerModules Config.Defaults two (New []) = (Ok closes, w2) /\
    items w2 = announced (module_registration Config.Defaults <$> two) ∅.
Proof.
  destruct (registerModules Config.Defaults two (New [])) as [res w2] eqn:E.
  assert (StartEnabled Config.Defaults two (New []) = (two, None, New [])) as Hs by (vm_compute; reflexivity).
  assert (is_ok res = true) as Hok by (apply (f_equal (fun x => is_ok x.1)) in E; exact (eq_sym E)).
  destruct (process_lifecycle Config.Defaults two (New []) two None (New []) res w2 (fun w => w) (fun w => w)) as (_ & _ & Hx).
  - repeat constructor; apply idle_quiet.
  - done.
  - done.
  - by intros r w close w' [= <- <-] w1.
  - exact Hs.
  - exact E.
  - destruct res as [closes|]; [|discriminate]. exists closes, w2. split; [reflexivity|]. exact (proj1 Hx).
Defined.

End runs.

End App.
