(* ===== verification/Process.v ===== *)
(** * The process: [main.go]

    [main] from the loaded configuration to its return, composed of the definitions that
    model what it calls: the registry it opens ([Etcd]), the connections ([Modules]), the id
    generator, the modules it starts, registers and stops ([App]). [os.Exit] ends the process
    without the deferred calls; a return runs them, last first. What the process holds open
    is shown by [held]. *)

From S2P Require Import Prelude Snowflake Config Discovery App Etcd Modules.
Open Scope Z_scope.

Module Process.

Inductive resource := EtcdClient | RedisClient (c : Z) | MongoClient (c : Z) | Listener.
#[export] Instance resource_eq_dec : EqDecision resource.
Proof. solve_decision. Defined.
#[export] Instance resource_countable : Countable resource.
Proof.
  refine (inj_countable'
    (fun r => match r with EtcdClient => inl tt | RedisClient c => inr (inl c) | MongoClient c => inr (inr (inl c)) | Listener => inr (inr (inr tt)) end)
    (fun x => match x with inl _ => EtcdClient | inr (inl c) => RedisClient c | inr (inr (inl c)) => MongoClient c | inr (inr (inr _)) => Listener end) _).
  by intros [].
Defined.

(** How [main] ends: with [os.Exit(1)] after logging, or by returning. *)
Inductive outcome := Exit (logged : string) | Returned.

(** The listener and the servers; [serve_until_done] is everything that happens from the start
    of the HTTP server to the end of the context: requests, and the steps of the modules.
    [GracefulStop] tells whether it ended before the context of the shutdown did. *)
Class Host (W : Type) := {
  net_Listen : string -> prog W unit;
  close_listener : W -> W;
  serve_grpc : W -> W;
  GracefulStop : W -> bool * W;
  Stop : W -> W;
  serve_until_done : W -> W;
  http_Shutdown : W -> W;
  held : W -> gset resource
}.

Section process.
Context {W : Type} `{Host W, Etcd.Dial W, Modules.RedisDriver W, Modules.Driver W, App.Registrar W}.
(** The constructors of the modules, given the connection. *)
Context (usercenter lobby battle gateway : Modules.MongoModule -> App.Module W).

Definition stopGRPC (w : W) : W :=
  match GracefulStop w with
  | (true, w) => w
  | (false, w) => Stop w
  end.

Definition deferred (disc : Etcd.opened) (redis : Z) (mongo : Modules.MongoModule) (w : W) : W :=
  let w := close_listener w in
  let w := (Modules.Shutdown (Some mongo) w).2 in
  let w := (Modules.RedisClose redis w).2 in
  (Etcd.Close disc w).2.

(** [main] once its connections are open. *)
Definition serve (cfg : Config.Config) (disc : Etcd.opened) (redis : Z) (mongo : Modules.MongoModule) (w : W) : outcome * W :=
  let mods := App.enabledModules cfg (usercenter mongo) (lobby mongo) (battle mongo) (gateway mongo) in
  match net_Listen (Config.ListenAddress (Config.GRPC cfg)) w with
  | (Err _, w) => (Exit "listen grpc", w)
  | (Ok _, w) =>
      let w := serve_grpc w in
      match App.StartEnabled cfg mods w with
      | (_, Some _, w) => (Exit "start module", w)
      | (started, None, w) =>
          match App.registerModules cfg started w with
          | (Err _, w) => (Exit "register service", w)
          | (Ok closes, w) =>
              let w := serve_until_done w in
              let w := App.shutdown stopGRPC http_Shutdown started closes w in
              (Returned, deferred disc redis mongo w)
          end
      end
  end.

Definition main (load : res Config.Config) (w : W) : outcome * W :=
  match load with
  | Err _ => (Exit "load config", w)
  | Ok cfg =>
      match Etcd.Open (Config.Discovery cfg) w with
      | (Err _, w) => (Exit "open discovery", w)
      | (Ok disc, w) =>
          match Modules.redis_New (Config.Redis cfg) w with
          | (Err _, w) => (Exit "connect redis", w)
          | (Ok redis, w) =>
              match Modules.Init (Modules.NewMongoModule cfg) w with
              | (Err _, w) => (Exit "connect mongo", w)
              | (Ok mongo, w) =>
                  match Snowflake.New (Config.NodeID (Config.IDGenerator cfg)) with
                  | Err _ => (Exit "create id generator", w)
                  | Ok _ => serve cfg disc redis mongo w
                  end
              end
          end
      end
  end.

(** ** What the process holds *)

(** Closing gives back what was opened, whatever it reports; nothing else changes what is held. *)
Class HostLaws := {
  dial_ok es w w' : Etcd.New_client es w = (Ok tt, w') -> EtcdClient ∉ held w /\ held w' = {[EtcdClient]} ∪ held w;
  dial_err es w e w' : Etcd.New_client es w = (Err e, w') -> held w' = held w;
  sync_held w : held (Etcd.Sync w).2 = held w;
  close_etcd w : held (Etcd.Close_client w).2 = held w ∖ {[EtcdClient]};
  redis_new o w c w' : Modules.NewClient o w = (c, w') -> RedisClient c ∉ held w /\ held w' = {[RedisClient c]} ∪ held w;
  redis_ping c w : held (Modules.RedisPing c w).2 = held w;
  redis_close c w : held (Modules.RedisClose c w).2 = held w ∖ {[RedisClient c]};
  mongo_connect_ok o w c w' : Modules.Connect o w = (Ok c, w') -> MongoClient c ∉ held w /\ held w' = {[MongoClient c]} ∪ held w;
  mongo_connect_err o w e w' : Modules.Connect o w = (Err e, w') -> held w' = held w;
  mongo_ping c t w : held (Modules.Ping c t w).2 = held w;
  mongo_disconnect c w : held (Modules.Disconnect c w).2 = held w ∖ {[MongoClient c]};
  listen_ok a w w' : net_Listen a w = (Ok tt, w') -> Listener ∉ held w /\ held w' = {[Listener]} ∪ held w;
  listen_err a w e w' : net_Listen a w = (Err e, w') -> held w' = held w;
  listener_closed w : held (close_listener w) = held w ∖ {[Listener]};
  serve_held w : held (serve_grpc w) = held w;
  graceful_held w : held (GracefulStop w).2 = held w;
  stop_held w : held (Stop w) = held w;
  run_held w : held (serve_until_done w) = held w;
  http_held w : held (http_Shutdown w) = held w;
  register_held r w : held (App.Register r w).2 = held w;
  close_held r w close w' : App.Register r w = (Ok close, w') -> forall w1, held (close w1).2 = held w1
}.
(** The operations of a module neither open nor close these. *)
Definition steady (m : App.Module W) : Prop :=
  (forall w, held (App.RegisterRoutes m w) = held w) /\ (forall w, held (App.Start m w).2 = held w) /\
  (forall w, held (App.Stop m w).2 = held w) /\ (forall w, held (App.begin_drain m w) = held w) /\
  (forall w, held (App.drain m w) = held w).

Context `{!HostLaws}.

Lemma open_held cfg w res w' : Etcd.Open cfg w = (res, w') ->
  match res with
  | Err _ => held w' = held w
  | Ok o => exists l, l ## held w /\ held w' = l ∪ held w /\ forall w2, held (Etcd.Close o w2).2 = held w2 ∖ l
  end.
Proof.
  unfold Etcd.Open. case_bool_decide.
  { intros [= <- <-]. exists ∅. split_and!; [set_solver|set_solver|]. intros w2. simpl. set_solver. }
  destruct (Etcd.New_client _ w) as [[[]|e] w1] eqn:En; [|intros [= <- <-]; by eapply dial_err].
  destruct (dial_ok _ _ _ En) as [Hn Hh]. pose proof (sync_held w1) as Hs. destruct (Etcd.Sync w1) as [[[]|e] w2]; simpl in Hs.
  - intros [= <- <-]. exists {[EtcdClient]}. split_and!; [set_solver|congruence|]. intros w3. apply close_etcd.
  - intros [= <- <-]. rewrite close_etcd, Hs, Hh. set_solver.
Qed.

Lemma redis_held cfg w res w' : Modules.redis_New cfg w = (res, w') ->
  match res with
  | Err _ => held w' = held w
  | Ok c => RedisClient c ∉ held w /\ held w' = {[RedisClient c]} ∪ held w
  end.
Proof.
  unfold Modules.redis_New. destruct (Modules.NewClient _ w) as [c w1] eqn:En. destruct (redis_new _ _ _ _ En) as [Hn Hh].
  pose proof (redis_ping c w1) as Hp. destruct (Modules.RedisPing c w1) as [[[]|e] w2]; simpl in Hp; intros [= <- <-].
  - split; [done|congruence].
  - rewrite redis_close, Hp, Hh. set_solver.
Qed.

Lemma mongo_held m w res w' : Modules.Init m w = (res, w') ->
  match res with
  | Err _ => held w' = held w
  | Ok m' => exists c, MongoClient c ∉ held w /\ held w' = {[MongoClient c]} ∪ held w /\
      forall w2, held (Modules.Shutdown (Some m') w2).2 = held w2 ∖ {[MongoClient c]}
  end.
Proof.
  unfold Modules.Init. destruct (Modules.Connect _ w) as [[c|e] w1] eqn:Ec; [|intros [= <- <-]; by eapply mongo_connect_err].
  destruct (mongo_connect_ok _ _ _ _ Ec) as [Hn Hh]. pose proof (mongo_ping c (Config.ConnectTimeout (Modules.dbConf m)) w1) as Hp.
  destruct (Modules.Ping c _ w1) as [[[]|e] w2]; simpl in Hp; intros [= <- <-].
  - exists c. split_and!; [done|congruence|]. intros w3. apply mongo_disconnect.
  - rewrite mongo_disconnect, Hp, Hh. set_solver.
Qed.

Lemma start_held cfg ms : forall started w started' e w', Forall steady ms ->
  App.start_from cfg started ms w = (started', e, w') -> held w' = held w /\ (Forall steady started -> Forall steady started').
Proof.
  induction ms as [|m ms IH]; intros started w started' e w' Hq; simpl; [by intros [= <- <- <-]|].
  apply Forall_cons in Hq as [Hm Hq]. destruct (App.enabled cfg _); simpl; [|by apply IH].
  pose proof Hm as (Hr & Hst & _). specialize (Hst (App.RegisterRoutes m w)). rewrite Hr in Hst.
  destruct (App.Start m _) as [[e1|] w1]; simpl in Hst; [by intros [= <- <- <-]|]. intros Hs. apply IH in Hs as [Hh Hf]; [|done].
  split; [congruence|]. intros Hst'. apply Hf, Forall_app. by split; [|constructor].
Qed.

Lemma close_each_held closes w : Forall (fun close => forall w1, held (close w1).2 = held w1) closes -> held (App.close_each closes w) = held w.
Proof. intros Hc. revert w. induction Hc as [|c cs Hc Hcs IH]; intros w; simpl; [done|]. by rewrite IH. Qed.

Lemma close_all_held closes w : Forall (fun close => forall w1, held (close w1).2 = held w1) closes -> held (App.close_all closes w) = held w.
Proof. intros Hc. apply close_each_held. rewrite Forall_forall in *. intros c Hin. apply Hc. by rewrite elem_of_reverse in Hin. Qed.

Lemma register_from_held cfg ms : forall closes w res w', Forall (fun close => forall w1, held (close w1).2 = held w1) closes ->
  App.register_from cfg closes ms w = (res, w') ->
  held w' = held w /\ match res with Ok cs => Forall (fun close => forall w1, held (close w1).2 = held w1) cs | Err _ => True end.
Proof.
  induction ms as [|m ms IH]; intros closes w res w' Hc; simpl; [by intros [= <- <-]|].
  pose proof (register_held (App.module_registration cfg m) w) as Hr.
  destruct (App.Register _ w) as [[close|e] w1] eqn:Er; simpl in Hr.
  - intros Hs. apply IH in Hs as [Hh Hf]; [split; [congruence|done]|]. apply Forall_app. split; [done|]. constructor; [by eapply close_held|done].
  - intros [= <- <-]. split; [|done]. by rewrite close_all_held.
Qed.

Lemma fold_held (f : App.Module W -> W -> W) ms w : Forall (fun m => forall w, held (f m w) = held w) ms ->
  held (foldl (fun w m => f m w) w ms) = held w.
Proof. intros Hf. revert w. induction Hf as [|m ms Hm Hf IH]; intros w; simpl; [done|]. by rewrite IH. Qed.

Lemma stopGRPC_held w : held (stopGRPC w) = held w.
Proof. unfold stopGRPC. pose proof (graceful_held w) as E. destruct (GracefulStop w) as [[] w']; [done|]. by rewrite stop_held. Qed.
Lemma stop_held_each ms : forall first w, Forall steady ms -> held (App.stop_each first ms w).2 = held w.
Proof.
  induction ms as [|m ms IH]; intros first w Hq; simpl; [done|]. apply Forall_cons in Hq as [(_ & _ & Hst & _) Hq].
  specialize (Hst w). destruct (App.Stop m w) as [[e|] w1]; rewrite IH by done; exact Hst.
Qed.

Lemma shutdown_held started closes w : Forall steady started -> Forall (fun close => forall w1, held (close w1).2 = held w1) closes ->
  held (App.shutdown stopGRPC http_Shutdown started closes w) = held w.
Proof.
  intros Hs Hc. unfold App.shutdown, App.StopReverse. cbn zeta.
  rewrite stop_held_each by (rewrite Forall_forall in *; intros m Hm; apply Hs; by rewrite elem_of_reverse in Hm).
  rewrite http_held, stopGRPC_held, (fold_held App.drain), close_all_held, (fold_held App.begin_drain); [done| |done|];
    (eapply Forall_impl; [exact Hs|]); by intros m (_ & _ & _ & ? & ?).
Qed.

(** Nothing but the registry changes the registrations, and ending a registration succeeds. *)
Class QuietLaws := {
  graceful_quiet w : App.registrations (GracefulStop w).2 = App.registrations w;
  stop_quiet w : App.registrations (Stop w) = App.registrations w;
  http_quiet w : App.registrations (http_Shutdown w) = App.registrations w;
  deferred_quiet disc redis mongo w : App.registrations (deferred disc redis mongo w) = App.registrations w;
  close_succeeds r w close w' : App.Register r w = (Ok close, w') -> forall w1, (close w1).1 = None
}.

Lemma grpc_quiet `{!QuietLaws} w : App.registrations (stopGRPC w) = App.registrations w.
Proof. unfold stopGRPC. pose proof (graceful_quiet w) as E. destruct (GracefulStop w) as [[] w']; [done|]. by rewrite stop_quiet. Qed.

Definition modules_of (cfg : Config.Config) (mongo : Modules.MongoModule) : list (App.Module W) :=
  App.enabledModules cfg (usercenter mongo) (lobby mongo) (battle mongo) (gateway mongo).

(** Once the connections are open, the process ends by an exit with them open, or after it
    has closed its listener and withdrawn its registrations. *)
Lemma serve_spec `{!App.RegistrarLaws W _, !QuietLaws} cfg disc redis mongo w out w' :
  Forall (fun m => steady m /\ App.quiet m) (modules_of cfg mongo) -> serve cfg disc redis mongo w = (out, w') ->
  match out with
  | Exit why => held w ⊆ held w' /\ why ∉ ["load config"; "open discovery"]
  | Returned =>
      (exists w2, held w2 = {[Listener]} ∪ held w /\ w' = deferred disc redis mongo w2) /\ Listener ∉ held w /\
      forall m, m ∈ modules_of cfg mongo -> App.enabled cfg (App.Name m) = true ->
        App.registrations w' !! Discovery.item_key (App.module_registration cfg m) = None
  end.
Proof.
  intros [Hsteady Hquiet]%Forall_and. unfold serve. fold (modules_of cfg mongo).
  destruct (net_Listen _ w) as [[[]|e] w1] eqn:El.
  2: { intros [= <- <-]. rewrite (listen_err _ _ _ _ El). split; [done|set_solver]. }
  destruct (listen_ok _ _ _ El) as [Hn Hl].
  destruct (App.StartEnabled _ _ _) as [[started [e|]] w2] eqn:Es;
    destruct (start_held _ _ _ _ _ _ _ Hsteady Es) as [Hh2 Hst]; rewrite serve_held, Hl in Hh2.
  { intros [= <- <-]. rewrite Hh2. set_solver. }
  destruct (App.registerModules cfg started w2) as [[closes|e] w3] eqn:Er;
    destruct (register_from_held _ _ _ _ _ _ (proj2 (Forall_nil _) I) Er) as [Hh3 Hcl].
  2: { intros [= <- <-]. rewrite Hh3, Hh2. set_solver. }
  intros [= <- <-].
  destruct (App.process_lifecycle _ _ _ _ _ _ _ _ stopGRPC http_Shutdown Hquiet grpc_quiet http_quiet close_succeeds Es Er)
    as (_ & Hall & _ & Hdown).
  split_and!; [|done|].
  - eexists. split; [|done]. by rewrite shutdown_held, run_held, Hh3, Hh2 by auto.
  - intros m Hin Hen. rewrite deferred_quiet, Hdown, App.lookup_withdrawn, decide_True; [done|].
    apply list_elem_of_fmap. exists (App.module_registration cfg m). split; [done|]. apply list_elem_of_fmap. exists m. split; [done|].
    rewrite (Hall eq_refl). by apply list_elem_of_filter.
Qed.


End process.
(** ** A process without modules' own resources *)

Section runs.

Record machine := mkMachine { m_held : gset resource; m_registry : Discovery.Registry }.
Definition add (x : resource) (w : machine) : machine := mkMachine ({[x]} ∪ m_held w) (m_registry w).
Definition drop (x : resource) (w : machine) : machine := mkMachine (m_held w ∖ {[x]}) (m_registry w).
Definition open_once (x : resource) : prog machine unit := fun w =>
  if decide (x ∈ m_held w) then (Err (Text "already open"), w) else (Ok tt, add x w).
Definition handles (f : resource -> option Z) (w : machine) : list Z := omap f (elements (m_held w)).
Definition redis_handle (x : resource) : option Z := match x with RedisClient c => Some c | _ => None end.
Definition mongo_handle (x : resource) : option Z := match x with MongoClient c => Some c | _ => None end.

#[local] Instance machine_dial : Etcd.Dial machine := {|
  Etcd.New_client _ := open_once EtcdClient;
  Etcd.Sync w := (Ok tt, w);
  Etcd.Close_client w := (Ok tt, drop EtcdClient w)
|}.
#[local] Instance machine_redis : Modules.RedisDriver machine := {|
  Modules.NewClient _ w := let c := above (handles redis_handle w) in (c, add (RedisClient c) w);
  Modules.RedisPing _ w := (Ok tt, w);
  Modules.RedisClose c w := (Ok tt, drop (RedisClient c) w)
|}.
#[local] Instance machine_mongo : Modules.Driver machine := {|
  Modules.Connect _ w := let c := above (handles mongo_handle w) in (Ok c, add (MongoClient c) w);
  Modules.Ping _ _ w := (Ok tt, w);
  Modules.Disconnect c w := (Ok tt, drop (MongoClient c) w);
  Modules.connected w := list_to_set (handles mongo_handle w)
|}.
#[local] Instance machine_host : Host machine := {|
  net_Listen _ := open_once Listener;
  close_listener := drop Listener;
  serve_grpc w := w; GracefulStop w := (true, w); Stop w := w; serve_until_done w := w; http_Shutdown w := w;
  held := m_held
|}.
#[local] Instance machine_registrar : App.Registrar machine := {|
  App.Register item w := (Ok (fun w1 => (None, mkMachine (m_held w1) (Discovery.close_registration item (m_registry w1)))),
                          mkMachine (m_held w) (Discovery.Register item (m_registry w)));
  App.registrations w := Discovery.items (m_registry w)
|}.
#[local] Instance machine_registrar_laws : App.RegistrarLaws machine _.
Proof. split; [|done]. intros r w close w' [= <- <-]. split; [done|]. by intros w1 w2 [= <-]. Qed.

Lemma open_once_ok x w w' : open_once x w = (Ok tt, w') -> x ∉ m_held w /\ m_held w' = {[x]} ∪ m_held w.
Proof. unfold open_once. case_decide; [done|]. by intros [= <-]. Qed.
Lemma open_once_err x w e w' : open_once x w = (Err e, w') -> m_held w' = m_held w.
Proof. unfold open_once. case_decide; [by intros [= _ <-]|done]. Qed.
Lemma handle_fresh (f : resource -> option Z) (mk : Z -> resource) w : (forall c, f (mk c) = Some c) -> mk (above (handles f w)) ∉ m_held w.
Proof.
  intros Hf Hin. apply (above_fresh (handles f w)). apply list_elem_of_omap. exists (mk (above (handles f w))). split; [by apply elem_of_elements|done].
Qed.

#[local] Instance machine_laws : HostLaws (W := machine).
Proof.
  split; simpl; try done.
  - intros _ w w'. apply open_once_ok.
  - intros _ w e w'. apply open_once_err.
  - intros _ w c w' [= <- <-]. split; [by apply handle_fresh|done].
  - intros _ w c w' [= <- <-]. split; [by apply handle_fresh|done].
  - intros _ w w'. apply open_once_ok.
  - intros _ w e w'. apply open_once_err.
  - by intros r w close w' [= <- <-].
Qed.
#[local] Instance machine_quiet : QuietLaws (W := machine).
Proof. split; try done; [|by intros r w close w' [= <- <-]]. intros [] redis [? [?|] ?] w; done. Qed.

Definition idle (name : string) (_ : Modules.MongoModule) : App.Module machine :=
  App.mkModule name (fun w => w) (fun w => (None, w)) (fun w => (None, w)) None.
Definition boot : machine := mkMachine ∅ (Discovery.New []).
Definition the_main := main (idle "usercenter") (idle "lobby") (idle "battle") (idle "gateway").


(** [os.Exit] runs no deferred call: a process that cannot listen leaves its connections open. *)
Lemma exit_skips_deferred_calls :
  the_main (Ok Config.Defaults) (add Listener boot) =
  (Exit "listen grpc", mkMachine {[Listener; RedisClient 1; MongoClient 1]} (Discovery.New [])).
Proof. vm_compute. reflexivity. Qed.

End runs.
End Process.
