(* ===== verification/LoadTest.v ===== *)
(** * The load test: [cmd/loadtest/main.go]

    A client of the test is a program over its view of the network and of the clock, with the
    updates of the shared counters as its log; the log of a test is an interleaving of those
    of its clients. Left out are the pings of a held connection, which change nothing, and
    the wording of the lines that are printed. Counters stay far below 2^63 and are not
    wrapped. *)

From S2P Require Import Prelude Proto Auth ClientProto TokenBucket.
From stdpp Require Import pretty sorting.
Import Proto ClientProto.
Open Scope Z_scope.

Module LoadTest.

(** ** Counters *)

Inductive counter :=
  | connected | connectOK | connectFailed | requests | success | failures | resumes | resumeSuccess | resumeFailures.
#[export] Instance counter_eq_dec : EqDecision counter.
Proof. solve_decision. Defined.

Record counters := mkCounters { value : counter -> Z; latencies : list Z; connectErrors : gmap string Z }.
Definition zero : counters := mkCounters (fun _ => 0) [] ∅.

(** The atomic updates: [Add] of a counter and the two sections under a lock. *)
Inductive stat := Add (c : counter) (n : Z) | AddError (message : string) | AddLatency (d : Z).
Definition record (s : counters) (a : stat) : counters :=
  match a with
  | Add c n => mkCounters (fun c' => if decide (c' = c) then value s c' + n else value s c') (latencies s) (connectErrors s)
  | AddError message =>
      if 10 <=? Z.of_nat (size (connectErrors s)) then s
      else mkCounters (value s) (latencies s) (<[message := default 0 (connectErrors s !! message) + 1]> (connectErrors s))
  | AddLatency d =>
      if Z.of_nat (length (latencies s)) <? 100000 then mkCounters (value s) (latencies s ++ [d]) (connectErrors s) else s
  end.

Definition observeConnectFailure (err : option error) : list stat :=
  Add connectFailed 1 :: match err with None => [] | Some e => [AddError (error_Error e)] end.
Definition observe (latency : Z) (ok : bool) : list stat :=
  [Add requests 1; Add (if ok then success else failures) 1; AddLatency latency].

Definition validScenario (scenario : string) : bool :=
  bool_decide (scenario ∈ ["connect-hold"; "guest-login"; "password-login"; "resume-storm"]).

(** ** Clients *)

(** The clock and a websocket connection, by its handle. *)
Class Network (W : Type) := {
  Now : W -> Z * W;
  Sleep : Z -> W -> W;
  Dial : string -> prog W Z;
  SetReadDeadline : Z -> Z -> prog W unit;
  WriteMessage : Z -> string -> prog W unit;
  ReadMessage : Z -> prog W (Z * string);
  Close : Z -> W -> W
}.

Inductive outcome (A : Type) := Done (a : A) | Panics | Unfinished.
#[global] Arguments Done {A} a.
#[global] Arguments Panics {A}.
#[global] Arguments Unfinished {A}.

Definition BinaryMessage : Z := 2.

Section client.
Context {W : Type} `{Network W, !ProtoMessage Envelope, !ProtoMessage Auth.LoginRequest, !ProtoMessage LoginResponse,
  !ProtoMessage ResumeRequest, !ProtoMessage ResumeResponse}.

Definition client (A : Type) : Type := W -> outcome A * list stat * W.
Definition done {A} (a : A) : client A := fun w => (Done a, [], w).
Definition panics {A} : client A := fun w => (Panics, [], w).
Definition unfinished {A} : client A := fun w => (Unfinished, [], w).
Definition tell (l : list stat) : client unit := fun w => (Done tt, l, w).
Definition act {A} (f : W -> A * W) : client A := fun w => let '(a, w') := f w in (Done a, [], w').
Definition close (connection : Z) : client unit := act (fun w => (tt, Close connection w)).
Definition andthen {A B} (p : client A) (k : A -> client B) : client B := fun w =>
  let '(o, l, w') := p w in
  match o with
  | Done a => let '(o', l', w'') := k a w' in (o', l ++ l', w'')
  | Panics => (Panics, l, w')
  | Unfinished => (Unfinished, l, w')
  end.
Notation "x <~ p ;; k" := (andthen p (fun x => k)) (at level 100, p at next level, right associativity).

(** The attempts of [dial] that are left. Without any it returns neither a connection nor an
    error. *)
Fixpoint dial_attempts (n : nat) (target : string) (attempt : Z) (lastErr : option error) : client (option Z * option error) :=
  match n with
  | O => done (None, lastErr)
  | S n =>
      r <~ act (Dial target);;
      match r with
      | Ok connection => done (Some connection, None)
      | Err err =>
          _ <~ tell (observeConnectFailure (Some err));;
          _ <~ (match n with O => done tt | S _ => act (fun w => (tt, Sleep ((attempt + 1) * 100 * Millisecond) w)) end);;
          dial_attempts n target (attempt + 1) (Some err)
      end
  end.
Definition dial (target : string) (retries : Z) : client (option Z * option error) :=
  dial_attempts (Z.to_nat retries) target 0 None.

(** The read that ends the holding of a connection. *)
Definition holdConnection (connection deadline : Z) : client unit :=
  r <~ act (SetReadDeadline connection deadline);;
  match r with
  | Err _ => done tt
  | Ok _ => _ <~ act (ReadMessage connection);; done tt
  end.

(** How many messages are read at most; [frames] below bounds how many there are. *)
Context (reads : nat).

Fixpoint read_loop (n : nat) (connection expectedMessageID requestID : Z) : client (res Envelope) :=
  match n with
  | O => unfinished
  | S n =>
      r <~ act (ReadMessage connection);;
      match r with
      | Err e => done (Err e)
      | Ok (messageType, payload) =>
          if negb (messageType =? BinaryMessage) then read_loop n connection expectedMessageID requestID
          else match Unmarshal payload with
          | Err _ => read_loop n connection expectedMessageID requestID
          | Ok envelope =>
              if (e_MessageId envelope =? expectedMessageID) && (e_RequestId envelope =? requestID) then done (Ok envelope)
              else read_loop n connection expectedMessageID requestID
          end
      end
  end.
Definition readResponse (connection expectedMessageID requestID deadline : Z) : client (res Envelope) :=
  r <~ act (SetReadDeadline connection deadline);;
  match r with
  | Err e => done (Err e)
  | Ok _ => read_loop reads connection expectedMessageID requestID
  end.

(** Sending a request and reading its response, as [login] and [resume] do; [None] is their
    [false]. *)
Definition request (connection messageID responseID requestID : Z) (payload : res string) : client (option Envelope) :=
  match payload with
  | Err _ => done None
  | Ok payload =>
      match Marshal (mkClientEnvelope messageID requestID "" payload) with
      | Err _ => done None
      | Ok envelope =>
          r <~ act (WriteMessage connection envelope);;
          match r with
          | Err _ => done None
          | Ok _ =>
              now <~ act Now;;
              r <~ readResponse connection responseID requestID (time_Add now (15 * Second));;
              done (match r with Ok e => Some e | Err _ => None end)
          end
      end
  end.

Definition login (connection provider : Z) (installID username password : string) (requestRunID : Z) : client (option LoginResponse) :=
  r <~ request connection MessageLoginRequest MessageLoginResponse 1
         (Marshal (Auth.mkLogin provider "" installID username password
            ("loadtest-" +:+ installID +:+ "-" +:+ pretty requestRunID)));;
  done (match r with
        | None => None
        | Some envelope =>
            match Unmarshal (e_Payload envelope) with
            | Err _ => None
            | Ok response =>
                if bool_decide (l_SessionId response = "") || bool_decide (l_ResumeToken response = "") then None else Some response
            end
        end).

Definition resume (connection : Z) (sessionID resumeToken : string) : client (option string) :=
  r <~ request connection MessageResumeRequest MessageResumeResponse 2
         (Marshal (mkResumeRequest sessionID resumeToken ∅));;
  done (match r with
        | None => None
        | Some envelope =>
            match Unmarshal (e_Payload envelope) with
            | Err _ => None
            | Ok response => if bool_decide (s_ResumeToken response = "") then None else Some (s_ResumeToken response)
            end
        end).

(** A request with its latency: [start := time.Now()], the request, [stats.observe]. *)
Definition timed {A} (p : client (option A)) : client (option A) :=
  start <~ act Now;;
  r <~ p;;
  now <~ act Now;;
  _ <~ tell (observe (now - start) (bool_decide (is_Some r)));;
  done r.

(** [connection.Close()] with the end of its count. *)
Definition hang_up (connection : Z) : client unit :=
  _ <~ close connection;;
  tell [Add connected (-1)].

Definition AUTH_PROVIDER_GUEST : Z := 1.
Definition AUTH_PROVIDER_PASSWORD : Z := 2.

Section run.
Context (target scenario : string) (installID username password : string) (resumeInterval dialRetries deadline requestRunID : Z).

(** The case [resume-storm] after the connection is counted; its result is the session to go
    on with, if any. *)
Definition storm (connection : Z) (sessionID resumeToken : string) : client (option (string * string)) :=
  session <~ (if bool_decide (sessionID = "") then
                response <~ timed (login connection AUTH_PROVIDER_GUEST installID username password requestRunID);;
                done ((fun r => (l_SessionId r, l_ResumeToken r)) <$> response)
              else done (Some (sessionID, resumeToken)));;
  _ <~ hang_up connection;;
  match session with
  | None => done None
  | Some (sessionID, resumeToken) =>
      _ <~ act (fun w => (tt, Sleep resumeInterval w));;
      r <~ dial target dialRetries;;
      match r with
      | (_, Some _) => _ <~ tell [Add resumeFailures 1];; done None
      | (None, None) => panics
      | (Some connection, None) =>
          _ <~ tell [Add connected 1; Add resumes 1];;
          next <~ timed (resume connection sessionID resumeToken);;
          _ <~ tell [Add (if bool_decide (is_Some next) then resumeSuccess else resumeFailures) 1];;
          _ <~ hang_up connection;;
          done (Some (sessionID, default resumeToken next))
      end
  end.

Fixpoint client_loop (fuel : nat) (sessionID resumeToken : string) : client unit :=
  match fuel with
  | O => unfinished
  | S fuel =>
      now <~ act Now;;
      if negb (time_Before now deadline) then done tt
      else
        r <~ dial target dialRetries;;
        match r with
        | (_, Some _) => done tt
        | (None, None) => panics
        | (Some connection, None) =>
            _ <~ tell [Add connected 1; Add connectOK 1];;
            if bool_decide (scenario = "connect-hold") then
              _ <~ holdConnection connection deadline;; hang_up connection
            else if bool_decide (scenario = "guest-login") || bool_decide (scenario = "password-login") then
              response <~ timed (login connection
                (if bool_decide (scenario = "password-login") then AUTH_PROVIDER_PASSWORD else AUTH_PROVIDER_GUEST)
                installID username password requestRunID);;
              match response with
              | None => hang_up connection
              | Some _ => _ <~ holdConnection connection deadline;; hang_up connection
              end
            else if bool_decide (scenario = "resume-storm") then
              session <~ storm connection sessionID resumeToken;;
              match session with
              | None => done tt
              | Some (sessionID, resumeToken) => client_loop fuel sessionID resumeToken
              end
            else client_loop fuel sessionID resumeToken
        end
  end.
End run.

Definition runClient (fuel : nat) (target scenario : string) (index : Z) (usernamePrefix runID password : string)
    (resumeInterval dialRetries deadline requestRunID : Z) : client unit :=
  let installID := usernamePrefix +:+ "-" +:+ runID +:+ "-" +:+ pretty index in
  let username := usernamePrefix +:+ "-" +:+ runID +:+ "-" +:+ pretty index in
  client_loop target scenario installID username password resumeInterval dialRetries deadline requestRunID fuel "" "".

(** ** The test: the flags, and the clients [main] starts *)

Record flags := mkFlags {
  target : string; scenario : string; connections : Z; ramp : Z; duration : Z; usernamePrefix : string; runID : string;
  password : string; interval : Z; dialRetries : Z
}.
Context (out_of_range : TokenBucket.float64 -> Z).
Definition ramp_wait (f : flags) : Z :=
  TokenBucket.int64_of_float out_of_range (SFdiv 53 1024 (TokenBucket.f_of_Z Second) (TokenBucket.f_of_Z (ramp f))).
Fixpoint start_from (n : nat) (i : Z) (f : flags) (deadline : Z) (w : W) : list Z * W :=
  match n with
  | O => ([], w)
  | S n =>
      let w := if 0 <? i then Sleep (ramp_wait f) w else w in
      let '(now, w) := Now w in
      if time_After now deadline then ([], w)
      else let '(indices, w) := start_from n (i + 1) f deadline w in (i :: indices, w)
  end.
(** The run id and the deadline of the clients, and their indices. *)
Definition main (f : flags) (pid : Z) : prog W (string * Z * list Z) := fun w =>
  if (connections f <=? 0) || (ramp f <=? 0) || (duration f <=? 0) || (dialRetries f <=? 0) then
    (Err (Text "connections, ramp-per-second, duration and dial-retries must be positive"), w)
  else if negb (validScenario (scenario f)) then (Err (Text "unsupported scenario"), w)
  else
    let runID := if bool_decide (runID f = "") then pretty pid else runID f in
    let '(now, w) := Now w in
    let deadline := time_Add now (duration f) in
    let '(indices, w) := start_from (Z.to_nat (connections f)) 0 f deadline w in
    (Ok (runID, deadline, indices), w).

(** ** The summary *)

(** The two loops that sort the latencies; nothing is out of range. *)
Fixpoint sift (j : nat) (l : list Z) : list Z :=
  match j with
  | O => l
  | S i =>
      match l !! j, l !! i with
      | Some x, Some y => if x <? y then sift i (<[i := x]> (<[j := y]> l)) else l
      | _, _ => l
      end
  end.
Definition sort (l : list Z) : list Z := foldl (fun l i => sift i l) l (seq 1 (length l - 1)).

(** [None] is a panic. *)
Definition percentile (sorted : list Z) (p : TokenBucket.float64) : option Z :=
  if bool_decide (length sorted = 0%nat) then Some 0
  else
    let index := TokenBucket.int64_of_float out_of_range (SFmul 53 1024 (TokenBucket.f_of_Z (Z.of_nat (length sorted) - 1)) p) in
    if index <? 0 then None else sorted !! Z.to_nat index.
Definition p50 : TokenBucket.float64 := S754_finite false 4503599627370496 (-53).
Definition p95 : TokenBucket.float64 := S754_finite false 8556839292003942 (-53).
Definition p99 : TokenBucket.float64 := S754_finite false 8917127262193582 (-53).

Definition printed : list counter := [connectOK; connectFailed; requests; success; failures; resumes; resumeSuccess; resumeFailures].
Definition report (s : counters) : list Z := value s <$> connected :: printed.
Definition printSummary (s : counters) : option (list Z * (Z * Z * Z) * gmap string Z) :=
  let sorted := sort (latencies s) in
  a ← percentile sorted p50;
  b ← percentile sorted p95;
  c ← percentile sorted p99;
  Some (value s <$> printed, (a, b, c), connectErrors s).

End client.

(** ** Sorting *)

Lemma sift_spec pre : forall x post, StronglySorted Z.le pre ->
  exists l, sift (length pre) (pre ++ x :: post) = l ++ post /\ l ≡ₚ x :: pre /\ StronglySorted Z.le l.
Proof.
  induction pre as [|y pre IH] using rev_ind; intros x post Hs.
  { exists [x]. split_and!; [done|done|]. repeat constructor. }
  apply StronglySorted_app in Hs as (Hy & Hs & _). rewrite length_app, Nat.add_1_r. cbn [sift].
  rewrite <- app_assoc. cbn [app].
  rewrite (lookup_app_r pre) by lia. replace (S (length pre) - length pre)%nat with 1%nat by lia. cbn [lookup list_lookup].
  rewrite list_lookup_middle by done. destruct (Z.ltb_spec x y) as [Hlt|Hge].
  - rewrite (insert_app_r_alt pre (y :: x :: post)) by lia. replace (S (length pre) - length pre)%nat with 1%nat by lia.
    rewrite (insert_app_r_alt pre) by lia. rewrite Nat.sub_diag. cbn [insert list_insert].
    destruct (IH x (y :: post) Hs) as (l & -> & Hp & Hl). exists (l ++ [y]). rewrite <- app_assoc. split_and!; [done| |].
    + rewrite Hp. simpl. by rewrite (Permutation_app_comm pre [y]).
    + apply StronglySorted_app. split_and!; [|done|repeat constructor]. intros a b Ha Hb%list_elem_of_singleton. subst b.
      rewrite Hp in Ha. apply elem_of_cons in Ha as [->|Ha]; [lia|]. apply Hy; [done|by apply list_elem_of_singleton].
  - exists (pre ++ [y; x]). rewrite <- app_assoc. split_and!; [done| |].
    + change (pre ++ [y] ++ [x] ≡ₚ [x] ++ (pre ++ [y])). rewrite app_assoc. apply Permutation_app_comm.
    + apply StronglySorted_app. split_and!; [|done|repeat constructor; lia]. intros a b Ha Hb.
      assert (a <= y) by (apply Hy; [done|by apply list_elem_of_singleton]).
      apply elem_of_cons in Hb as [->|Hb%list_elem_of_singleton]; [done|subst; lia].
Qed.

Lemma sort_spec l : sort l ≡ₚ l /\ StronglySorted Z.le (sort l).
Proof.
  destruct l as [|x l]; [split; [done|constructor]|]. unfold sort. cbn [length]. rewrite Nat.sub_succ, Nat.sub_0_r.
  assert (forall rest pre, pre <> [] -> StronglySorted Z.le pre ->
    foldl (fun l i => sift i l) (pre ++ rest) (seq (length pre) (length rest)) ≡ₚ pre ++ rest /\
    StronglySorted Z.le (foldl (fun l i => sift i l) (pre ++ rest) (seq (length pre) (length rest)))) as Hloop.
  { induction rest as [|y rest IH]; intros pre Hne Hs; cbn [length seq foldl]; [by rewrite app_nil_r|].
    destruct (sift_spec pre y rest Hs) as (m & -> & Hp & Hm).
    assert (length m = S (length pre)) as Hlen by (rewrite Hp; done).
    destruct (IH m) as [IHp IHs]; [by intros ->|done|]. rewrite Hlen in IHp, IHs. split; [|done].
    rewrite IHp, Hp. cbn [app]. by rewrite Permutation_middle. }
  apply (Hloop l [x]); [done|repeat constructor].
Qed.

(** ** Percentiles

    Rounding moves a product by less than one unit in its last place, so the index that is
    computed in floating point is not beyond the last latency. *)

Lemma shr_1_value r : 0 <= shr_m r -> shr_m (shr_1 r) = shr_m r / 2.
Proof. destruct r as [[|[p|p|]|p] a b]; simpl; [done| | |done|lia]; intros _. - apply Z.div_unique with 1; lia. - apply Z.div_unique with 0; lia. Qed.
Lemma shr_value n r : 0 <= shr_m r -> shr_m (Nat.iter n shr_1 r) = shr_m r / 2 ^ Z.of_nat n.
Proof.
  intros Hr. induction n as [|n IH]; [by rewrite Z.div_1_r|]. change (Nat.iter (S n) shr_1 r) with (shr_1 (Nat.iter n shr_1 r)).
  rewrite shr_1_value, IH by (rewrite IH; apply Z.div_pos; [done|apply Z.pow_pos_nonneg; lia]).
  rewrite Z.div_div by lia. f_equal. rewrite Nat2Z.inj_succ, Z.pow_succ_r by lia. lia.
Qed.
Lemma shr_down t r e : 0 <= t -> 0 <= shr_m r -> shr r e t = (if t =? 0 then r else Nat.iter (Z.to_nat t) shr_1 r, e + t).
Proof.
  intros Ht Hr. destruct t as [|p|p]; [by rewrite Z.add_0_r| |lia]. unfold shr. by rewrite TokenBucket.iter_pos_nat, Z2Nat.inj_pos.
Qed.
Lemma round_up m l : 0 <= m -> m <= round_nearest_even m l <= m + 1.
Proof. intros Hm. destruct l as [|[]]; simpl; try lia. destruct (Z.even m); lia. Qed.

(** A positive mantissa of more than 53 digits is rounded up by less than one unit in the last
    place. *)
Lemma rounded_above P e : let t := Zpos (digits2_pos P) - 53 in
  1 <= t -> -1074 <= e + t -> e + t <= 970 ->
  exists m' e', binary_round_aux 53 1024 false (Zpos P) e loc_Exact = S754_finite false m' e' /\
    e + t <= e' <= e + t + 1 /\ Zpos m' * 2 ^ (e' - e) <= Zpos P + 2 ^ t.
Proof.
  intros t Ht Hmin Hmax. pose proof (TokenBucket.digits_bounds P) as Hdb. assert (0 < 2 ^ t) as Hp by (apply Z.pow_pos_nonneg; lia).
  unfold binary_round_aux. unfold shr_fexp at 1. cbn [Zdigits2 shr_record_of_loc].
  replace (fexp 53 1024 (Zpos (digits2_pos P) + e) - e) with t by (unfold fexp, emin; lia).
  rewrite shr_down by (simpl; lia). destruct (Z.eqb_spec t 0); [lia|]. set (r := Nat.iter _ _ _).
  assert (shr_m r = Zpos P / 2 ^ t) as Hrm.
  { unfold r. rewrite shr_value by done. simpl shr_m. by rewrite Z2Nat.id by lia. }
  assert (2 ^ 52 <= Zpos P / 2 ^ t < 2 ^ 53) as [Hlow Hhigh].
  { split; [apply Z.div_le_lower_bound; [done|]|apply Z.div_lt_upper_bound; [done|]]; rewrite <- Z.pow_add_r by lia.
    - replace (t + 52) with (Zpos (digits2_pos P) - 1) by lia. lia.
    - replace (t + 53) with (Zpos (digits2_pos P)) by lia. lia. }
  pose proof (round_up (shr_m r) (loc_of_shr_record r) ltac:(lia)) as Hq. set (q := round_nearest_even _ _) in *.
  assert (q * 2 ^ t <= Zpos P + 2 ^ t) as Hbound by (pose proof (Z.mul_div_le (Zpos P) (2 ^ t) Hp); nia).
  clearbody q. destruct q as [|q|q]; [lia| |lia]. unfold shr_fexp. cbn [Zdigits2 shr_record_of_loc].
  pose proof (TokenBucket.digits_bounds q) as Hqb.
  assert (52 < Zpos (digits2_pos q)) by (apply (Z.pow_lt_mono_r_iff 2); lia).
  assert (Zpos (digits2_pos q) - 1 < 54) by (apply (Z.pow_lt_mono_r_iff 2); lia).
  assert (Zpos (digits2_pos q) <> 55) by (intros E; rewrite E in Hqb; change (2 ^ (55 - 1)) with (2 * 2 ^ 53) in Hqb; lia).
  set (u := Zpos (digits2_pos q) - 53). assert (0 < 2 ^ u) as Hu by (apply Z.pow_pos_nonneg; lia).
  replace (fexp 53 1024 (Zpos (digits2_pos q) + (e + t)) - (e + t)) with u by (unfold fexp, emin; lia).
  rewrite shr_down by (simpl; lia).
  assert (shr_m (if u =? 0 then Build_shr_record (Zpos q) false false
    else Nat.iter (Z.to_nat u) shr_1 (Build_shr_record (Zpos q) false false)) = Zpos q / 2 ^ u) as ->.
  { destruct (Z.eqb_spec u 0) as [->|]; [by rewrite Z.div_1_r|]. rewrite shr_value by done. simpl shr_m. by rewrite Z2Nat.id by lia. }
  assert (0 < Zpos q / 2 ^ u) as Hpos.
  { apply Z.div_str_pos. split; [done|]. etransitivity; [|apply Hqb]. apply Z.pow_le_mono_r; lia. }
  pose proof (Z.mul_div_le (Zpos q) (2 ^ u) Hu) as Hdiv. destruct (Zpos q / 2 ^ u) as [|m'|m'] eqn:Em; [lia| |lia].
  destruct (Z.leb_spec (e + t + u) (1024 - 53)) as [_|]; [|lia]. eexists _, _. split; [done|]. split; [lia|].
  replace (e + t + u - e) with (u + t) by lia. rewrite Z.pow_add_r by lia. nia.
Qed.

Lemma index_below k m : 1 <= k < 2 ^ 52 -> 2 ^ 52 <= Zpos m < 2 ^ 53 ->
  exists m' e', SFmul 53 1024 (TokenBucket.f_of_Z k) (S754_finite false m (-53)) = S754_finite false m' e' /\
    e' <= 0 /\ Zpos m' < (k + 1) * 2 ^ (- e').
Proof.
  intros Hk Hm. destruct k as [|k|k]; [lia| |lia].
  assert (Zpos (digits2_pos k) <= 52) as Hd.
  { pose proof (TokenBucket.digits_bounds k) as [Hk' _]. assert (Zpos (digits2_pos k) - 1 < 52); [|lia]. apply (Z.pow_lt_mono_r_iff 2); lia. }
  unfold TokenBucket.f_of_Z. cbn [binary_normalize].
  destruct (TokenBucket.binary_round_exact k 0 k 0) as (k' & Hr & Hle & Hk'); [lia..|]. cbn zeta in *. rewrite Hr. clear Hr.
  set (e1 := Zpos (digits2_pos k) + (0 + 0) - 53) in *. replace (0 + 0 - e1) with (- e1) in Hk' by lia.
  cbn [SFmul xorb]. set (P := (k' * m)%positive).
  assert (Zpos (digits2_pos k') = 53) as Hdk' by (rewrite (TokenBucket.digits_shift k (- e1)) by lia; lia).
  pose proof (TokenBucket.digits_bounds k') as Hb. rewrite Hdk' in Hb. change (53 - 1) with 52 in Hb.
  assert (2 ^ 104 <= Zpos P < 2 ^ 106) as HP
    by (unfold P; rewrite Pos2Z.inj_mul; change (2 ^ 104) with (2 ^ 52 * 2 ^ 52); change (2 ^ 106) with (2 ^ 53 * 2 ^ 53); nia).
  pose proof (TokenBucket.digits_bounds P) as Hdb.
  assert (104 < Zpos (digits2_pos P)) by (apply (Z.pow_lt_mono_r_iff 2); lia).
  assert (Zpos (digits2_pos P) - 1 < 106) by (apply (Z.pow_lt_mono_r_iff 2); lia).
  destruct (rounded_above P (e1 + -53)) as (m' & e' & -> & He' & Hm'); [lia..|]. eexists _, _. split; [done|].
  set (t := Zpos (digits2_pos P) - 53) in *. split; [lia|].
  assert (2 ^ t < 2 ^ (53 - e1)) by (apply Z.pow_lt_mono_r; lia).
  assert (Zpos P <= Zpos k * 2 ^ (53 - e1)) as HPk.
  { unfold P. rewrite Pos2Z.inj_mul, Hk'. replace (53 - e1) with (- e1 + 53) by lia. rewrite Z.pow_add_r by lia. nia. }
  apply (Z.mul_lt_mono_pos_r (2 ^ (e' - (e1 + -53)))); [apply Z.pow_pos_nonneg; lia|].
  rewrite <- Z.mul_assoc, <- Z.pow_add_r by lia. replace (- e' + (e' - (e1 + -53))) with (53 - e1) by lia. nia.
Qed.

(** A percentile of latencies is one of them. *)
Lemma percentile_spec oor sorted m :
  Z.of_nat (length sorted) < 2 ^ 52 -> 2 ^ 52 <= Zpos m < 2 ^ 53 ->
  exists d, percentile oor sorted (S754_finite false m (-53)) = Some d /\ (sorted = [] /\ d = 0 \/ d ∈ sorted).
Proof.
  intros Hlen Hm. unfold percentile. case_bool_decide as E; [exists 0; split; [done|]; left; split; [by apply nil_length_inv|done]|].
  assert (exists i, TokenBucket.int64_of_float oor (SFmul 53 1024 (TokenBucket.f_of_Z (Z.of_nat (length sorted) - 1)) (S754_finite false m (-53))) = i /\
    0 <= i <= Z.of_nat (length sorted) - 1) as (i & -> & Hi).
  { destruct (decide (length sorted = 1%nat)) as [->|Hn]; [exists 0; split; [done|lia]|].
    destruct (index_below (Z.of_nat (length sorted) - 1) m) as (m' & e' & -> & He & Hlt); [lia|done|]. eexists. split; [done|].
    simpl. assert (0 < 2 ^ (- e')) by (apply Z.pow_pos_nonneg; lia).
    assert (Z.shiftl (Zpos m') e' = Zpos m' / 2 ^ (- e')) as ->.
    { rewrite <- (Z.opp_involutive e') at 1. by rewrite Z.shiftl_opp_r, Z.shiftr_div_pow2 by lia. }
    assert (0 <= Zpos m' / 2 ^ (- e') < Z.of_nat (length sorted)) as Hd
      by (split; [apply Z.div_pos; lia|apply Z.div_lt_upper_bound; lia]).
    unfold id. rewrite (proj2 (Z.leb_le _ _)), (proj2 (Z.ltb_lt _ _)) by lia. simpl. lia. }
  rewrite (proj2 (Z.ltb_ge _ _)) by lia. destruct (lookup_lt_is_Some_2 sorted (Z.to_nat i)) as [d Hd]; [lia|].
  exists d. split; [done|]. right. by eapply list_elem_of_lookup_2.
Qed.

(** ** What a client logs *)

(** The total added to a counter, and the number of messages and latencies, in a log. *)
Definition added (c : counter) (a : stat) : Z := match a with Add c' n => if decide (c = c') then n else 0 | _ => 0 end.
Definition is_error (a : stat) : Z := match a with AddError _ => 1 | _ => 0 end.
Definition is_latency (a : stat) : Z := match a with AddLatency _ => 1 | _ => 0 end.
Definition total {A} (f : A -> Z) (l : list A) : Z := foldr (fun a n => f a + n) 0 l.

Lemma total_app {A} (f : A -> Z) l l' : total f (l ++ l') = total f l + total f l'.
Proof. induction l as [|a l IH]; simpl; lia. Qed.
Lemma total_insert {A} (f : A -> Z) l i x y : l !! i = Some x -> total f (<[i := y]> l) = total f l - f x + f y.
Proof. revert i. induction l as [|z l IH]; intros [|i]; simpl; [done|done|intros [= ->]; lia|intros Hi; rewrite (IH _ Hi); lia]. Qed.

(** The connections of one client that are counted: none or one, all along its log. *)
Fixpoint holding (a : Z) (l : list stat) : option Z :=
  match l with
  | [] => Some a
  | x :: l => let b := a + added connected x in if (0 <=? b) && (b <=? 1) then holding b l else None
  end.
Lemma holding_app a l l' : holding a (l ++ l') = holding a l ≫= fun b => holding b l'.
Proof. revert a. induction l as [|x l IH]; intros a; simpl; [done|]. case_match; [apply IH|done]. Qed.

(** The accounts of a log: requests by their results and latencies, connections that failed by
    their messages, resumptions by their results, of which [lost] are connections that could
    not be reopened, and requests against connections, of which [credit] are older. *)
Definition tallied (lost credit : Z) (l : list stat) : Prop :=
  total (added requests) l = total (added success) l + total (added failures) l /\
  total is_latency l = total (added requests) l /\
  total is_error l = total (added connectFailed) l /\
  total (added resumeSuccess) l + total (added resumeFailures) l = total (added resumes) l + lost /\
  total (added requests) l <= total (added connectOK) l + total (added resumes) l + credit.
Lemma tallied_app a c b d l l' : tallied a c l -> tallied b d l' -> tallied (a + b) (c + d) (l ++ l').
Proof. unfold tallied. rewrite !total_app. lia. Qed.
Lemma tallied_nil : tallied 0 0 [].
Proof. unfold tallied. simpl. lia. Qed.
Lemma tallied_fewer a c d l : tallied a c l -> c <= d -> tallied a d l.
Proof. unfold tallied. lia. Qed.

(** The clock of a client goes forward, what it opens stays open until it closes it, and fewer
    than [reads] messages come before a deadline. *)
Class NetworkLaws (W : Type) `{Network W} (reads : nat) := {
  clock : W -> Z;
  opened : W -> gset Z;
  frames : W -> Z -> nat;
  now_clock w : clock w <= (Now w).1 /\ clock w <= clock (Now w).2;
  sleep_clock d w : clock w <= clock (Sleep d w) /\ clock w + d <= clock (Sleep d w);
  dial_clock t w : clock w <= clock (Dial t w).2;
  deadline_clock c t w : clock w <= clock (SetReadDeadline c t w).2;
  write_clock c b w : clock w <= clock (WriteMessage c b w).2;
  read_clock c w : clock w <= clock (ReadMessage c w).2;
  close_clock c w : clock w <= clock (Close c w);
  now_opened w : opened (Now w).2 = opened w;
  sleep_opened d w : opened (Sleep d w) = opened w;
  dial_ok t w c w' : Dial t w = (Ok c, w') -> c ∉ opened w /\ opened w' = {[c]} ∪ opened w;
  dial_err t w e w' : Dial t w = (Err e, w') -> opened w' = opened w;
  deadline_opened c t w : opened (SetReadDeadline c t w).2 = opened w;
  write_opened c b w : opened (WriteMessage c b w).2 = opened w;
  read_opened c w : opened (ReadMessage c w).2 = opened w;
  close_opened c w : opened (Close c w) = opened w ∖ {[c]};
  read_frames c w x w' : ReadMessage c w = (Ok x, w') -> (frames w' c < frames w c)%nat;
  frames_bound w c : (frames w c < reads)%nat
}.

Section logs.
Notation "x <~ p ;; k" := (andthen p (fun x => k)) (at level 100, p at next level, right associativity).
Context {W : Type} {reads : nat} `{NetworkLaws W reads} `{!ProtoMessage Envelope, !ProtoMessage Auth.LoginRequest, !ProtoMessage LoginResponse,
  !ProtoMessage ResumeRequest, !ProtoMessage ResumeResponse}.

(** [p] run in [w] ends in a way that satisfies [Q]. *)
Definition ends {A} (p : client A) (w : W) (Q : outcome A -> list stat -> W -> Prop) : Prop := let '(o, l, w') := p w in Q o l w'.

Lemma ends_done {A} (a : A) w Q : Q (Done a) [] w -> ends (done a) w Q.
Proof. done. Qed.
Lemma ends_tell l w Q : Q (Done tt) l w -> ends (tell l) w Q.
Proof. done. Qed.
Lemma ends_act {A} (f : W -> A * W) w Q : Q (Done (f w).1) [] (f w).2 -> ends (act f) w Q.
Proof. unfold ends, act. by destruct (f w). Qed.
Lemma ends_mono {A} (p : client A) w (Q Q' : outcome A -> list stat -> W -> Prop) :
  ends p w Q -> (forall o l w', Q o l w' -> Q' o l w') -> ends p w Q'.
Proof. unfold ends. destruct (p w) as [[o l] w']. auto. Qed.
Lemma ends_then {A B} (p : client A) (k : A -> client B) w (Q : outcome B -> list stat -> W -> Prop) :
  ends p w (fun o l w' => exists a, o = Done a /\ ends (k a) w' (fun o' l' => Q o' (l ++ l'))) -> ends (andthen p k) w Q.
Proof.
  unfold ends, andthen. destruct (p w) as [[o l] w']. intros (a & -> & Hk). by destruct (k a w') as [[o' l'] w''].
Qed.

(** A program that logs nothing, opens and closes nothing, and ends. *)
Definition quiet {A} (p : client A) : Prop := forall w,
  ends p w (fun o l w' => (exists a, o = Done a) /\ l = [] /\ clock w <= clock w' /\ opened w' = opened w).

Lemma quiet_done {A} (a : A) : quiet (done a).
Proof. intros w. apply ends_done. split_and!; eauto; done. Qed.
Lemma quiet_act {A} (f : W -> A * W) : (forall w, clock w <= clock (f w).2) -> (forall w, opened (f w).2 = opened w) -> quiet (act f).
Proof. intros Hc Ho w. apply ends_act. split_and!; eauto. Qed.
Lemma quiet_then {A B} (p : client A) (k : A -> client B) : quiet p -> (forall a, quiet (k a)) -> quiet (andthen p k).
Proof.
  intros Hp Hk w. apply ends_then. eapply ends_mono; [apply Hp|]. intros o l w' ([a ->] & -> & Hc & Ho). exists a. split; [done|].
  eapply ends_mono; [apply Hk|]. intros o' l' w'' (Ha & -> & Hc' & Ho'). split_and!; [done|done|lia|congruence].
Qed.

Lemma quiet_now : quiet (act Now).
Proof. apply quiet_act; [apply now_clock|apply now_opened]. Qed.
Lemma quiet_deadline c t : quiet (act (SetReadDeadline c t)).
Proof. apply quiet_act; [apply deadline_clock|apply deadline_opened]. Qed.
Lemma quiet_write c b : quiet (act (WriteMessage c b)).
Proof. apply quiet_act; [apply write_clock|apply write_opened]. Qed.
Lemma quiet_read c : quiet (act (ReadMessage c)).
Proof. apply quiet_act; [apply read_clock|apply read_opened]. Qed.

Lemma read_loop_ends n c id rid : forall w, (frames w c < n)%nat ->
  ends (read_loop n c id rid) w (fun o l w' => (exists a, o = Done a) /\ l = [] /\ clock w <= clock w' /\ opened w' = opened w).
Proof.
  induction n as [|n IH]; intros w Hf; [lia|]. cbn [read_loop]. apply ends_then, ends_act.
  pose proof (read_clock c w). pose proof (read_opened c w). destruct (ReadMessage c w) as [r w1] eqn:E. cbn [fst snd] in *.
  exists r. split; [done|]. cbn [app].
  destruct r as [[messageType payload]|e]; [|apply ends_done; split_and!; eauto].
  apply read_frames in E. assert (frames w1 c < n)%nat as Hlt by lia. specialize (IH w1 Hlt).
  repeat case_match; try (eapply ends_mono; [exact IH|]; intros o l w' (Ha & -> & Hc & Ho); split_and!; [done|done|lia|congruence]).
  apply ends_done. split_and!; eauto.
Qed.

Lemma quiet_readResponse c id rid deadline : quiet (readResponse reads c id rid deadline).
Proof.
  apply quiet_then; [apply quiet_deadline|]. intros [[]|e]; [|apply quiet_done]. intros w. apply read_loop_ends, frames_bound.
Qed.
Lemma quiet_request c id resp rid payload : quiet (request reads c id resp rid payload).
Proof.
  unfold request. repeat (case_match; try apply quiet_done). apply quiet_then; [apply quiet_write|]. intros [[]|e]; [|apply quiet_done].
  apply quiet_then; [apply quiet_now|]. intros now. apply quiet_then; [apply quiet_readResponse|]. intros r. apply quiet_done.
Qed.
Lemma quiet_login c provider installID username password pid : quiet (login reads c provider installID username password pid).
Proof. apply quiet_then; [apply quiet_request|]. intros r. apply quiet_done. Qed.
Lemma quiet_resume c sessionID resumeToken : quiet (resume reads c sessionID resumeToken).
Proof. apply quiet_then; [apply quiet_request|]. intros r. apply quiet_done. Qed.
Lemma quiet_hold c deadline : quiet (holdConnection c deadline).
Proof.
  apply quiet_then; [apply quiet_deadline|]. intros [[]|e]; [|apply quiet_done].
  apply quiet_then; [apply quiet_read|]. intros r. apply quiet_done.
Qed.

(** A sequence of updates, by its effect on the counted connections and its accounts. *)
Definition segment (a b lost credit : Z) (l : list stat) : Prop := holding a l = Some b /\ tallied lost credit l.
Lemma segment_app a b c lost lost' credit credit' l l' :
  segment a b lost credit l -> segment b c lost' credit' l' -> segment a c (lost + lost') (credit + credit') (l ++ l').
Proof. intros [Hh Ht] [Hh' Ht']. split; [by rewrite holding_app, Hh|by apply tallied_app]. Qed.
Lemma segment_nil a : segment a a 0 0 [].
Proof. split; [done|apply tallied_nil]. Qed.
Ltac compute_segment := split; [done|unfold tallied; simpl; lia].
Lemma segment_observe a d ok : 0 <= a <= 1 -> segment a a 0 1 (observe d ok).
Proof. intros Ha. assert (a = 0 \/ a = 1) as [->| ->] by lia; destruct ok; compute_segment. Qed.
Lemma segment_failure err l : segment 0 0 0 0 l -> segment 0 0 0 0 (observeConnectFailure (Some err) ++ l).
Proof. intros Hl. apply (segment_app 0 0 0 0 0 0 0 _ _); [|done]. compute_segment. Qed.

Lemma dial_attempts_end n target : forall attempt lastErr w, (0 < n)%nat \/ is_Some lastErr ->
  ends (dial_attempts n target attempt lastErr) w (fun o l w' =>
    clock w <= clock w' /\ segment 0 0 0 0 l /\
    ((exists c, o = Done (Some c, None) /\ c ∉ opened w /\ opened w' = {[c]} ∪ opened w) \/
     (exists e, o = Done (None, Some e) /\ opened w' = opened w))).
Proof.
  induction n as [|n IH]; intros attempt lastErr w Hn; cbn [dial_attempts].
  { apply ends_done. destruct Hn as [?|[e ->]]; [lia|]. split_and!; [done|apply segment_nil|by eauto]. }
  apply ends_then, ends_act. pose proof (dial_clock target w) as Hc. destruct (Dial target w) as [[c|err] w1] eqn:E; cbn [fst snd] in *;
    eexists; (split; [done|]); cbn [app].
  { apply ends_done. split_and!; [done|apply segment_nil|]. left. exists c. split; [done|by eapply dial_ok]. }
  apply dial_err in E. apply ends_then, ends_tell. eexists. split; [done|]. apply ends_then.
  apply (ends_mono _ _ (fun o l w2 => o = Done tt /\ l = [] /\ clock w1 <= clock w2 /\ opened w2 = opened w1)).
  { destruct n; [by apply ends_done|]. apply ends_act. split_and!; [done|done|apply sleep_clock|apply sleep_opened]. }
  intros o l w2 (-> & -> & Hc2 & Ho2). eexists. split; [done|]. eapply ends_mono; [apply IH; by eauto|].
  intros o l w' (Hc' & Hl & Ho'). rewrite Ho2, E in Ho'. split_and!; [lia|by apply segment_failure|done].
Qed.

Lemma timed_ends {A} (p : client (option A)) w : quiet p ->
  ends (timed p) w (fun o l w' => exists r, o = Done r /\ (forall a, 0 <= a <= 1 -> segment a a 0 1 l) /\
    clock w <= clock w' /\ opened w' = opened w).
Proof.
  intros Hp. unfold timed. apply ends_then. eapply ends_mono; [apply quiet_now|]. intros o l w1 ([start ->] & -> & Hc1 & Ho1).
  eexists. split; [done|]. apply ends_then. eapply ends_mono; [apply Hp|]. intros o l w2 ([r ->] & -> & Hc2 & Ho2).
  eexists. split; [done|]. apply ends_then. eapply ends_mono; [apply quiet_now|]. intros o l w3 ([now ->] & -> & Hc3 & Ho3).
  eexists. split; [done|]. apply ends_then, ends_tell. eexists. split; [done|]. apply ends_done. cbn [app]. rewrite app_nil_r.
  exists r. split_and!; [done|intros a Ha; by apply segment_observe|lia|congruence].
Qed.

Lemma hang_up_ends c w O : opened w = {[c]} ∪ O -> c ∉ O ->
  ends (hang_up c) w (fun o l w' => o = Done tt /\ segment 1 0 0 0 l /\ clock w <= clock w' /\ opened w' = O).
Proof.
  intros Ho Hc. unfold hang_up. apply ends_then, ends_act. eexists. split; [done|]. apply ends_tell. cbn [app].
  split_and!; [done|compute_segment|apply close_clock|]. simpl. rewrite close_opened, Ho. set_solver.
Qed.

Section run.
Context (target scenario installID username password : string) (resumeInterval dialRetries deadline requestRunID : Z).
Hypothesis retries_positive : 0 < dialRetries.

Lemma dial_ends w :
  ends (dial target dialRetries) w (fun o l w' =>
    clock w <= clock w' /\ segment 0 0 0 0 l /\
    ((exists c, o = Done (Some c, None) /\ c ∉ opened w /\ opened w' = {[c]} ∪ opened w) \/
     (exists e, o = Done (None, Some e) /\ opened w' = opened w))).
Proof. apply dial_attempts_end. left. lia. Qed.

Notation storm' := (storm reads target installID username password resumeInterval dialRetries requestRunID).
Notation loop' := (client_loop reads target scenario installID username password resumeInterval dialRetries deadline requestRunID).

(** The second half of a round: a new connection that resumes the session. *)
Lemma storm_resumes_end sessionID resumeToken w : 
  ends (r <~ dial target dialRetries;;
        match r with
        | (_, Some _) => _ <~ tell [Add resumeFailures 1];; done None
        | (None, None) => panics
        | (Some connection, None) =>
            _ <~ tell [Add connected 1; Add resumes 1];;
            next <~ timed (resume reads connection sessionID resumeToken);;
            _ <~ tell [Add (if bool_decide (is_Some next) then resumeSuccess else resumeFailures) 1];;
            _ <~ hang_up connection;;
            done (Some (sessionID, default resumeToken next))
        end) w (fun o l w' => exists s, o = Done s /\ clock w <= clock w' /\ opened w' = opened w /\
    segment 0 0 (match s with None => 1 | Some _ => 0 end) 0 l).
Proof.
  apply ends_then. eapply ends_mono; [apply dial_ends|]. intros o l1 w1 (Hc1 & Hl1 & [(c & -> & Hn & Ho1)|(e & -> & Ho1)]); eexists; (split; [done|]).
  2: { apply ends_then, ends_tell. eexists. split; [done|]. apply ends_done. eexists. split_and!; [done|done|done|].
       apply (segment_app 0 0 0 0 1 0 0); [done|]. compute_segment. }
  apply ends_then, ends_tell. eexists. split; [done|]. apply ends_then. eapply ends_mono; [apply timed_ends, quiet_resume|].
  intros o l2 w2 (next & -> & Hl2 & Hc2 & Ho2). eexists. split; [done|]. apply ends_then, ends_tell. eexists. split; [done|].
  apply ends_then. eapply ends_mono; [apply (hang_up_ends c _ (opened w)); [congruence|done]|]. intros o l3 w3 (-> & Hl3 & Hc3 & Ho3).
  eexists. split; [done|]. apply ends_done. eexists. split_and!; [done|lia|done|]. rewrite app_nil_r.
  apply (segment_app 0 0 0 0 0 0 0); [done|]. apply (segment_app 0 1 0 (-1) 1 (-1) 1); [compute_segment|].
  apply (segment_app 1 1 0 0 1 1 0); [by apply Hl2|]. apply (segment_app 1 1 0 1 0 0 0); [|done].
  case_bool_decide; compute_segment.
Qed.

Lemma storm_ends c sessionID resumeToken w O : opened w = {[c]} ∪ O -> c ∉ O ->
  ends (storm' c sessionID resumeToken) w (fun o l w' => exists s, o = Done s /\ opened w' = O /\
    (s <> None -> clock w + resumeInterval <= clock w') /\
    exists lost, 0 <= lost <= 1 /\ (s <> None -> lost = 0) /\ segment 1 0 lost 1 l).
Proof.
  intros Ho Hn. unfold storm. apply ends_then.
  apply (ends_mono _ _ (fun o l w1 => exists s, o = Done s /\ clock w <= clock w1 /\ opened w1 = opened w /\
    exists credit, credit <= 1 /\ segment 1 1 0 credit l)).
  { case_bool_decide.
    - apply ends_then. eapply ends_mono; [apply timed_ends, quiet_login|]. intros o l w1 (r & -> & Hl & Hc & Ho1).
      eexists. split; [done|]. apply ends_done. eexists. split_and!; [done|done|done|]. exists 1. rewrite app_nil_r. split; [done|].
      by apply Hl.
    - apply ends_done. eexists. split_and!; [done|done|done|]. exists 0. split; [done|apply segment_nil]. }
  intros o l1 w1 (s & -> & Hc1 & Ho1 & credit & Hcr & Hl1). eexists. split; [done|].
  apply ends_then. eapply ends_mono; [apply (hang_up_ends c _ O); [congruence|done]|]. intros o l2 w2 (-> & Hl2 & Hc2 & Ho2).
  eexists. split; [done|]. pose proof (segment_app _ _ _ _ _ _ _ _ _ Hl1 Hl2) as [Hh Ht]. rewrite Z.add_0_r in Ht.
  assert (segment 1 0 0 1 (l1 ++ l2)) as Hl12 by (split; [done|eapply tallied_fewer; [exact Ht|lia]]).
  destruct s as [[sid tok]|].
  - apply ends_then, ends_act. eexists. split; [done|]. cbn [fst snd app]. eapply ends_mono; [apply storm_resumes_end|].
    intros o l3 w3 (s & -> & Hc3 & Ho3 & Hl3). exists s. rewrite sleep_opened in Ho3. pose proof (sleep_clock resumeInterval w2).
    split_and!; [done|congruence|lia|]. exists (match s with None => 1 | Some _ => 0 end).
    split; [destruct s; lia|]. split; [by destruct s|]. rewrite app_assoc. by apply (segment_app 1 0 0 0 _ 1 0).
  - apply ends_done. exists None. split_and!; [done|done|done|]. exists 0. rewrite app_nil_r. split; [lia|done].
Qed.

(** A connection that is held and closed, and one with a login before. *)
Definition used_up (O : gset Z) (o : outcome unit) (l : list stat) (w' : W) : Prop :=
  o = Done tt /\ opened w' = O /\ segment 1 0 0 1 l.
Lemma held_ends c w O : opened w = {[c]} ∪ O -> c ∉ O ->
  ends (_ <~ holdConnection c deadline;; hang_up c) w (fun o l w' => o = Done tt /\ opened w' = O /\ segment 1 0 0 0 l).
Proof.
  intros Ho Hc. apply ends_then. eapply ends_mono; [apply quiet_hold|]. intros o l w1 ([[] ->] & -> & _ & Ho1). eexists. split; [done|].
  eapply ends_mono; [apply (hang_up_ends c _ O); [congruence|done]|]. intros o l w2 (-> & Hl & _ & Ho2). done.
Qed.
Lemma login_ends c provider w O : opened w = {[c]} ∪ O -> c ∉ O ->
  ends (response <~ timed (login reads c provider installID username password requestRunID);;
        match response with None => hang_up c | Some _ => _ <~ holdConnection c deadline;; hang_up c end) w (used_up O).
Proof.
  intros Ho Hc. apply ends_then. eapply ends_mono; [apply timed_ends, quiet_login|]. intros o l1 w1 (r & -> & Hl1 & _ & Ho1).
  eexists. split; [done|].
  apply (ends_mono _ _ (fun o l w' => o = Done tt /\ opened w' = O /\ segment 1 0 0 0 l)).
  { destruct r; [by apply held_ends; [congruence|]|]. eapply ends_mono; [apply (hang_up_ends c _ O); [congruence|done]|].
    intros o l w2 (-> & Hl & _ & Ho2). done. }
  intros o l2 w2 (-> & Ho2 & Hl2). split_and!; [done|done|]. apply (segment_app 1 1 0 0 0 1 0); [by apply Hl1|done].
Qed.

Lemma client_loop_ends : validScenario scenario = true -> forall fuel sessionID resumeToken w,
  ends (loop' fuel sessionID resumeToken) w (fun o l w' => o <> Panics /\ opened w' = opened w /\
    (exists lost, 0 <= lost <= 1 /\ segment 0 0 lost 0 l) /\
    (0 < resumeInterval -> (0 < fuel)%nat -> deadline <= clock w + (Z.of_nat fuel - 1) * resumeInterval -> o = Done tt)).
Proof.
  intros Hv. induction fuel as [|fuel IH]; intros sid tok w; cbn [client_loop].
  { unfold ends, unfinished. split_and!; [done|done|exists 0; split; [lia|apply segment_nil]|lia]. }
  apply ends_then, ends_act. pose proof (now_clock w) as [Hnow Hc0]. pose proof (now_opened w) as Ho0.
  destruct (Now w) as [now w0]. cbn [fst snd] in *. eexists. split; [done|]. cbn [app].
  destruct (time_Before now deadline) eqn:Eb; cbn [negb].
  2: { apply ends_done. split_and!; [done|done|exists 0; split; [lia|apply segment_nil]|done]. }
  unfold time_Before in Eb. apply Z.ltb_lt in Eb.
  apply ends_then. eapply ends_mono; [apply dial_ends|]. intros o l1 w1 (Hc1 & Hl1 & [(c & -> & Hn & Ho1)|(e & -> & Ho1)]); eexists; (split; [done|]).
  2: { apply ends_done. rewrite app_nil_r. split_and!; [done|congruence|by exists 0|done]. }
  rewrite Ho0 in Hn, Ho1. apply ends_then, ends_tell. eexists. split; [done|].
  assert (segment 0 1 0 (-1) (l1 ++ [Add connected 1; Add connectOK 1])) as Hl by (apply (segment_app 0 0 1 0 0 0 (-1)); [done|compute_segment]).
  assert (forall p, ends p w1 (used_up (opened w)) -> ends p w1 (fun o l2 w2 => o <> Panics /\ opened w2 = opened w /\
    (exists lost, 0 <= lost <= 1 /\ segment 0 0 lost 0 (l1 ++ [Add connected 1; Add connectOK 1] ++ l2)) /\
    (0 < resumeInterval -> (0 < S fuel)%nat -> deadline <= clock w + (Z.of_nat (S fuel) - 1) * resumeInterval -> o = Done tt))) as Hend.
  { intros p Hp. eapply ends_mono; [exact Hp|]. intros o l2 w2 (-> & Ho2 & Hl2). split_and!; [done|done| |done].
    exists 0. split; [lia|]. rewrite app_assoc. by apply (segment_app 0 1 0 0 0 (-1) 1). }
  case_bool_decide as E1.
  { apply Hend. eapply ends_mono; [by apply (held_ends c _ (opened w))|]. intros o l2 w2 (-> & Ho2 & [Hh Ht]).
    split_and!; [done|done|]. split; [done|]. eapply tallied_fewer; [exact Ht|lia]. }
  destruct (bool_decide (scenario = "guest-login") || bool_decide (scenario = "password-login")) eqn:E2.
  { apply Hend. by apply (login_ends c _ _ (opened w)). }
  destruct (bool_decide (scenario = "resume-storm")) eqn:E3.
  2: { exfalso. apply bool_decide_eq_false in E3. apply orb_false_iff in E2 as [E2 E4]. apply bool_decide_eq_false in E2, E4. apply bool_decide_eq_true in Hv. set_solver. }
  apply ends_then. eapply ends_mono; [by apply (storm_ends c _ _ _ (opened w))|].
  intros o l2 w2 (s & -> & Ho2 & Hck & lost & Hlost & Hz & Hl2). eexists. split; [done|].
  assert (segment 0 0 lost 0 (l1 ++ [Add connected 1; Add connectOK 1] ++ l2)) as Hl3 by (rewrite app_assoc; by apply (segment_app 0 1 0 0 _ (-1) 1)).
  destruct s as [[sid' tok']|].
  - eapply ends_mono; [apply IH|]. intros o l3 w3 (Hp & Ho3 & (lost' & Hlost' & Hl4) & Hd). rewrite Ho2 in Ho3. split_and!; [done|done| |].
    + exists lost'. split; [done|]. rewrite (app_assoc _ l2 l3), app_assoc. rewrite Hz in Hl3 by done. by apply (segment_app 0 0 0 0 _ 0 0).
    + intros Hi _ Hdl. specialize (Hck ltac:(done)). apply Hd; [done| |nia]. destruct fuel; [|lia]. lia.
  - apply ends_done. rewrite app_nil_r. split_and!; [done|done| |done]. eauto.
Qed.
End run.
End logs.
(** ** The whole test *)

(** The clients take turns. *)
Inductive interleaving : list (list stat) -> list stat -> Prop :=
  | interleaved_none ls : Forall (fun l => l = []) ls -> interleaving ls []
  | interleaved_next ls i a l log : ls !! i = Some (a :: l) -> interleaving (<[i := l]> ls) log -> interleaving ls (a :: log).

Lemma interleaving_total (f : stat -> Z) ls log : interleaving ls log -> total f log = total (total f) ls.
Proof.
  induction 1 as [ls Hn|ls i a l log Hi Hint IH].
  - induction Hn as [|l ls -> _ IH]; simpl; [done|]. simpl in IH. lia.
  - cbn [total foldr]. fold (total f log). rewrite IH, (total_insert _ _ _ _ _ Hi). simpl. fold (total f l). lia.
Qed.

Lemma interleaving_holding ls log : interleaving ls log -> forall cs n,
  Forall2 (fun l c => 0 <= c <= 1 /\ holding c l = Some 0) ls cs -> 0 <= total id cs + total (added connected) (take n log) <= Z.of_nat (length ls).
Proof.
  assert (forall (ls : list (list stat)) cs, Forall2 (fun l c => 0 <= c <= 1 /\ holding c l = Some 0) ls cs -> 0 <= total id cs <= Z.of_nat (length ls)) as Hb.
  { induction 1 as [|l c ls' cs' [Hc _] _ IH]; cbn [total foldr length]; [lia|]. fold (total id cs'). unfold id at 1 3. lia. }
  induction 1 as [ls Hn|ls i a l log Hi Hint IH]; intros cs n Hf.
  { rewrite take_nil. simpl. specialize (Hb _ _ Hf). lia. }
  destruct n as [|n]; [simpl; specialize (Hb _ _ Hf); lia|].
  destruct (Forall2_lookup_l _ _ _ _ _ Hf Hi) as (c & Hci & Hc & Hh). cbn [holding] in Hh.
  destruct ((0 <=? c + added connected a) && (c + added connected a <=? 1)) eqn:E; [|done]. breflect.
  specialize (IH (<[i := c + added connected a]> cs) n). rewrite length_insert, (total_insert _ _ _ _ _ Hci) in IH.
  cbn [take total foldr]. fold (total (added connected) (take n log)). unfold id in IH at 2 3.
  enough (Forall2 (fun l c => 0 <= c <= 1 /\ holding c l = Some 0) (<[i := l]> ls) (<[i := c + added connected a]> cs)) as Hf'
    by (specialize (IH Hf'); unfold id in *; lia).
  apply Forall2_insert; [done|]. split; [lia|done].
Qed.

Lemma total_perm {A} (f : A -> Z) l l' : l ≡ₚ l' -> total f l = total f l'.
Proof. induction 1; simpl; lia. Qed.

Lemma record_value log : forall s c, value (foldl record s log) c = value s c + total (added c) log.
Proof.
  induction log as [|a log IH]; intros s c; cbn [foldl total foldr]; [simpl; lia|]. rewrite IH. fold (total (added c) log).
  destruct a as [c' n|m|d]; simpl; repeat case_match; simpl; try lia; case_decide; simplify_eq; lia.
Qed.
Lemma record_latencies log : forall s, Z.of_nat (length (latencies s)) <= 100000 ->
  Z.of_nat (length (latencies (foldl record s log))) = Z.min 100000 (Z.of_nat (length (latencies s)) + total is_latency log).
Proof.
  assert (forall l, 0 <= total is_latency l) as Hpos by (induction l as [|[] l IHl]; simpl; lia).
  induction log as [|a log IH]; intros s Hs; cbn [foldl total foldr]; [simpl; lia|]. fold (total is_latency log). specialize (Hpos log).
  destruct a as [c' n|m|d]; simpl; [by rewrite IH|case_match; by rewrite IH|].
  destruct (Z.ltb_spec (Z.of_nat (length (latencies s))) 100000); [|rewrite IH by done; lia].
  rewrite IH; simpl; rewrite length_app; simpl; lia.
Qed.

(** The messages that are kept are few, and counted at most as often as they came. *)
Definition messages (s : counters) : Z := total snd (map_to_list (connectErrors s)).
Lemma messages_insert (m : gmap string Z) k :
  total snd (map_to_list (<[k := default 0 (m !! k) + 1]> m)) = total snd (map_to_list m) + 1.
Proof.
  destruct (m !! k) as [n|] eqn:E; simpl.
  - rewrite <- insert_delete_eq, (total_perm _ _ _ (map_to_list_insert _ _ _ (lookup_delete_eq m k))).
    rewrite <- (total_perm _ _ _ (map_to_list_delete _ _ _ E)). simpl. lia.
  - rewrite (total_perm _ _ _ (map_to_list_insert _ _ _ E)). simpl. lia.
Qed.
Lemma record_errors log : forall s, (size (connectErrors s) <= 10)%nat ->
  (size (connectErrors (foldl record s log)) <= 10)%nat /\ messages (foldl record s log) <= messages s + total is_error log.
Proof.
  induction log as [|a log IH]; intros s Hs; cbn [foldl total foldr]; [simpl; lia|]. fold (total is_error log).
  destruct a as [c' n|m|d]; simpl.
  - exact (IH (record s (Add c' n)) Hs).
  - case_match eqn:E; [specialize (IH s Hs); lia|]. apply Z.leb_gt in E.
    destruct (IH (mkCounters (value s) (latencies s) (<[m := default 0 (connectErrors s !! m) + 1]> (connectErrors s)))) as [H1 H2].
    { simpl. rewrite map_size_insert. case_match; unfold id; lia. }
    split; [done|]. unfold messages in *. simpl in H2. rewrite messages_insert in H2. lia.
  - case_match; [|by apply IH]. exact (IH (mkCounters (value s) (latencies s ++ [d]) (connectErrors s)) Hs).
Qed.

Lemma start_from_indices {W} `{Network W} oor n i f deadline w : exists k, (k <= n)%nat /\
  (start_from oor n i f deadline w).1 = (fun j => i + Z.of_nat j) <$> seq 0 k.
Proof.
  revert i w. induction n as [|n IH]; intros i w; simpl; [by exists 0%nat|]. destruct (Now _) as [now w1].
  destruct (time_After now deadline); [exists 0%nat; split; [lia|done]|]. destruct (IH (i + 1) w1) as (k & Hk & E).
  destruct (start_from oor n (i + 1) f deadline w1) as [js w2]. simpl in E. exists (S k). split; [lia|]. subst js. cbn [fst seq fmap list_fmap].
  f_equal; [lia|]. rewrite <- fmap_S_seq, <- list_fmap_compose. apply list_fmap_ext. intros j x _. simpl. lia.
Qed.

Section test.
Context {W : Type} {reads : nat} `{NetworkLaws W reads} `{!ProtoMessage Envelope, !ProtoMessage Auth.LoginRequest, !ProtoMessage LoginResponse,
  !ProtoMessage ResumeRequest, !ProtoMessage ResumeResponse} (out_of_range : TokenBucket.float64 -> Z).

(** A client that ran to its end with log [l], in its view of the network. *)
Definition ran (f : flags) (runID : string) (deadline pid i : Z) (l : list stat) : Prop := exists fuel w w',
  runClient reads fuel (target f) (scenario f) i (usernamePrefix f) runID (password f) (interval f) (dialRetries f) deadline pid w =
  (Done tt, l, w').

Lemma main_ok f pid w runID deadline indices w1 : main out_of_range f pid w = (Ok (runID, deadline, indices), w1) ->
  0 < dialRetries f /\ validScenario (scenario f) = true /\
  exists n, indices = Z.of_nat <$> seq 0 n /\ Z.of_nat n <= connections f.
Proof.
  unfold main. case_match eqn:E; [done|]. destruct (validScenario (scenario f)); [|done]. cbn [negb]. destruct (Now w) as [now w0].
  destruct (start_from_indices out_of_range (Z.to_nat (connections f)) 0 f (time_Add now (duration f)) w0) as (n & Hn & Ei).
  destruct (start_from _ _ _ _ _ _) as [js w2]. intros [= <- <- <- <-]. simpl in Ei. breflect. split_and!; [lia|done|]. exists n. split; [|lia].
  subst js. apply list_fmap_ext. intros j x _. lia.
Qed.

(** A client of the load test ends and closes what it opened: it never panics, whatever
    the network does, its connections are closed when it stops, and it does stop, once the
    clock, which each round moves by the resume interval at least, has passed the deadline. *)
Theorem load_client_finishes f i runID deadline pid fuel w :
  0 < dialRetries f -> validScenario (scenario f) = true ->
  exists o l w', runClient reads fuel (target f) (scenario f) i (usernamePrefix f) runID (password f) (interval f) (dialRetries f) deadline pid w =
    (o, l, w') /\ o <> Panics /\ opened w' = opened w /\
    (0 < interval f -> (0 < fuel)%nat -> deadline <= clock w + (Z.of_nat fuel - 1) * interval f -> o = Done tt).
Proof.
  intros Hr Hv. pose proof (client_loop_ends (target f) (scenario f) (usernamePrefix f +:+ "-" +:+ runID +:+ "-" +:+ pretty i)
    (usernamePrefix f +:+ "-" +:+ runID +:+ "-" +:+ pretty i) (password f) (interval f) (dialRetries f) deadline pid Hr Hv fuel "" "" w) as Hends.
  unfold ends in Hends. unfold runClient. destruct (client_loop _ _ _ _ _ _ _ _ _ _ _ _ _ w) as [[o l] w'].
  destruct Hends as (Hp & Ho & _ & Hd). by exists o, l, w'.
Qed.

Lemma ran_segment f runID deadline pid i l : 0 < dialRetries f -> validScenario (scenario f) = true ->
  ran f runID deadline pid i l -> exists lost, 0 <= lost <= 1 /\ segment 0 0 lost 0 l.
Proof.
  intros Hr Hv (fuel & w & w' & Hrun). pose proof (client_loop_ends (target f) (scenario f) (usernamePrefix f +:+ "-" +:+ runID +:+ "-" +:+ pretty i)
    (usernamePrefix f +:+ "-" +:+ runID +:+ "-" +:+ pretty i) (password f) (interval f) (dialRetries f) deadline pid Hr Hv fuel "" "" w) as Hends.
  unfold ends in Hends. unfold runClient in Hrun. rewrite Hrun in Hends. apply Hends.
Qed.

Lemma total_zeros n : total id (replicate n 0) = 0.
Proof. induction n as [|n IH]; [done|]. change (0 + total id (replicate n 0) = 0). lia. Qed.

(** What the clients log adds up. *)
Lemma logs_tallied ls : Forall (fun l => exists lost, 0 <= lost <= 1 /\ segment 0 0 lost 0 l) ls -> forall log, interleaving ls log ->
  (exists lost, 0 <= lost <= Z.of_nat (length ls) /\ tallied lost 0 log) /\ total (added connected) log = 0 /\
  forall n, 0 <= total (added connected) (take n log) <= Z.of_nat (length ls).
Proof.
  intros Hls log Hint. assert (forall n, 0 <= total (added connected) (take n log) <= Z.of_nat (length ls)) as Hpre.
  { intros n. pose proof (interleaving_holding _ _ Hint (replicate (length ls) 0) n) as Hb.
    rewrite total_zeros in Hb. apply Hb. clear -Hls. induction Hls as [|l ls (lost & _ & Hh & _) _ IH]; simpl; constructor; [split; [lia|done]|done]. }
  split_and!; [| |done].
  - assert (exists lost, 0 <= lost <= Z.of_nat (length ls) /\ tallied lost 0 (concat ls)) as (lost & Hlost & Ht).
    { clear -Hls. induction Hls as [|l ls (lost & Hl & _ & Ht) _ (lost' & Hl' & Ht')]; [exists 0; split; [simpl; lia|apply tallied_nil]|].
      exists (lost + lost'). split; [cbn [length]; lia|]. by apply (tallied_app _ 0 _ 0). }
    exists lost. split; [done|]. assert (forall f, total f (concat ls) = total f log) as Heq.
    { intros f. rewrite (interleaving_total f _ _ Hint). clear. induction ls as [|l ls IH]; simpl; [done|]. rewrite total_app, IH. done. }
    unfold tallied in *. by rewrite !Heq in Ht.
  - rewrite (interleaving_total _ _ _ Hint). clear -Hls. induction Hls as [|l ls (lost & _ & Hh & _) _ IH]; [done|].
    change (total (added connected) l + total (total (added connected)) ls = 0). rewrite IH.
    enough (forall l a b, holding a l = Some b -> a + total (added connected) l = b) as Hsum by (specialize (Hsum _ _ _ Hh); lia).
    clear. induction l as [|x l IH]; intros a b; simpl; [intros [= ->]; lia|]. case_match; [|done]. intros Hh%IH. fold (total (added connected) l). lia.
Qed.

(** C40 The counters of a load test add up, for every interleaving of its clients: at most as
    many clients as asked for run, with distinct indices; the active connections are between
    none and one per client at every moment and none at the end; requests are successes and
    failures, not more than the connections made for them; resumptions that were tried have a
    result each, further failures are connections that could not be reopened, at most one per
    client; a latency is kept of each request up to 100000, at most ten messages of failed
    connections are kept, counted at most as often as connections failed; and the summary is
    printed without a panic, with percentiles that are latencies of the test. *)
Theorem load_test_adds_up f pid w runID deadline indices w1 ls log :
  main out_of_range f pid w = (Ok (runID, deadline, indices), w1) ->
  Forall2 (ran f runID deadline pid) indices ls -> interleaving ls log ->
  let s := foldl record zero log in
  (exists n, indices = Z.of_nat <$> seq 0 n /\ Z.of_nat n <= connections f) /\
  (forall k, 0 <= value (foldl record zero (take k log)) connected <= Z.of_nat (length ls)) /\
  value s connected = 0 /\
  value s requests = value s success + value s failures /\
  value s requests <= value s connectOK + value s resumes /\
  value s resumes <= value s resumeSuccess + value s resumeFailures <= value s resumes + Z.of_nat (length ls) /\
  Z.of_nat (length (latencies s)) = Z.min 100000 (value s requests) /\
  (size (connectErrors s) <= 10)%nat /\ messages s <= value s connectFailed /\
  exists counts a b c, printSummary out_of_range s = Some (counts, (a, b, c), connectErrors s) /\
    Forall (fun d => d ∈ latencies s \/ latencies s = [] /\ d = 0) [a; b; c].
Proof.
  intros Hmain Hran Hint s. destruct (main_ok _ _ _ _ _ _ _ Hmain) as (Hr & Hv & Hn).
  assert (Forall (fun l => exists lost, 0 <= lost <= 1 /\ segment 0 0 lost 0 l) ls) as Hls.
  { eapply Forall2_Forall_r; [exact Hran|]. apply Forall_true. intros i l Hl. by eapply ran_segment. }
  destruct (logs_tallied ls Hls log Hint) as ((lost & Hlost & Ht) & Hc & Hk). unfold tallied in Ht.
  assert (Z.of_nat (length (latencies s)) = Z.min 100000 (value s requests)) as Hlat.
  { unfold s. rewrite record_latencies, record_value by (simpl; lia). simpl. lia. }
  destruct (record_errors log zero) as [He1 He2]; [simpl; rewrite map_size_empty; lia|].
  change (messages zero) with 0 in He2.
  split_and!; try done; try (unfold s; rewrite !record_value; cbn [value zero]; lia).
  - intros k. rewrite record_value. specialize (Hk k). simpl. lia.
  - destruct (sort_spec (latencies s)) as [Hperm _].
    assert (Z.of_nat (length (sort (latencies s))) < 2 ^ 52) as Hlen by (rewrite Hperm; lia).
    destruct (percentile_spec out_of_range (sort (latencies s)) 4503599627370496 Hlen ltac:(lia)) as (a & Ea & Ha).
    destruct (percentile_spec out_of_range (sort (latencies s)) 8556839292003942 Hlen ltac:(lia)) as (b & Eb & Hb).
    destruct (percentile_spec out_of_range (sort (latencies s)) 8917127262193582 Hlen ltac:(lia)) as (c & Ec & Hc').
    exists (value s <$> printed), a, b, c. unfold printSummary, p50, p95, p99. rewrite Ea, Eb, Ec. split; [done|].
    assert (forall d, (sort (latencies s) = [] /\ d = 0 \/ d ∈ sort (latencies s)) -> d ∈ latencies s \/ latencies s = [] /\ d = 0) as Hd.
    { intros d [[E ->]|Hd]; [right|left; by rewrite <- Hperm]. rewrite E in Hperm. by apply Permutation_nil_l in Hperm. }
    do 3 (apply Forall_cons_2; [by apply Hd|]). by apply Forall_nil_2.
Qed.
End test.

(** ** Runs *)

Section runs.

(** A network on which every dial succeeds and at most one message waits. *)
Record net := mkNet { m_clock : Z; inbox : option (Z * string); m_open : gset Z }.
#[local] Instance net_network : Network net := {|
  Now w := (m_clock w, mkNet (m_clock w + 1) (inbox w) (m_open w));
  Sleep d w := mkNet (m_clock w + Z.max 0 d) (inbox w) (m_open w);
  Dial _ w := let c := above (elements (m_open w)) in (Ok c, mkNet (m_clock w) (Some (BinaryMessage, "m")) ({[c]} ∪ m_open w));
  SetReadDeadline _ _ w := (Ok tt, w);
  WriteMessage _ _ w := (Ok tt, w);
  ReadMessage _ w := match inbox w with
    | Some x => (Ok x, mkNet (m_clock w) None (m_open w))
    | None => (Err (Text "i/o timeout"), w)
    end;
  Close c w := mkNet (m_clock w) (inbox w) (m_open w ∖ {[c]})
|}.
#[local] Instance net_laws : NetworkLaws net 2.
Proof.
  refine {| clock := m_clock; opened := m_open; frames w _ := match inbox w with Some _ => 1%nat | None => 0%nat end |}; simpl; try done; try (intros; lia);
    try (intros _ w; by destruct (inbox w)).
  - intros _ w c w' [= <- <-]. split; [|done]. intros Hin. apply (above_fresh (elements (m_open w))). by apply elem_of_elements.
  - intros _ w x w'. destruct (inbox w); [|done]. intros [= <- <-]. simpl. lia.
  - intros w _. destruct (inbox w); lia.
Defined.

Definition codec {A} (a : A) : ProtoMessage A := {| Marshal _ := Ok "m"; Unmarshal _ := Ok a |}.
#[local] Instance envelope_codec : ProtoMessage Envelope := codec (mkClientEnvelope MessageLoginResponse 1 "" "m").
#[local] Instance login_codec : ProtoMessage Auth.LoginRequest := codec (Auth.mkLogin 1 "" "" "" "" "").
#[local] Instance login_response_codec : ProtoMessage LoginResponse := codec (mkLoginResponse "a" "s" "t" 1 "r" 0 "p").
#[local] Instance resume_codec : ProtoMessage ResumeRequest := codec (mkResumeRequest "s" "t" ∅).
#[local] Instance resume_response_codec : ProtoMessage ResumeResponse := codec (mkResumeResponse "a" "s" "u" 1 "p").

Definition two_guests : flags := mkFlags "ws://gateway/ws" "guest-login" 2 10 60000000000 "perf" "7" "secret" 5000000000 3.
Definition logged_in : list stat :=
  [Add connected 1; Add connectOK 1; Add requests 1; Add success 1; AddLatency 2; Add connected (-1)].
Definition start : net := mkNet 0 None ∅.

Lemma load_client_finishes_witness : exists l w',
  runClient 2 14 "ws://gateway/ws" "guest-login" 0 "perf" "7" "secret" 5000000000 3 60000000000 1 start = (Done tt, l, w') /\ m_open w' = ∅.
Proof.
  destruct (load_client_finishes (W := net) two_guests 0 "7" 60000000000 1 14 start) as (o & l & w' & E & _ & Ho & Hd); [done|done|].
  exists l, w'. rewrite <- (Hd ltac:(reflexivity) ltac:(lia) ltac:(vm_compute; discriminate)). split; [exact E|exact Ho].
Defined.

Lemma guest_ran i : ran (W := net) (reads := 2) two_guests "7" 60000000000 1 i logged_in.
Proof. exists 2%nat, start. eexists. unfold runClient. vm_compute. reflexivity. Qed.

Lemma load_test_adds_up_witness : value (foldl record zero (logged_in ++ logged_in)) requests = 2 /\
  exists w1, main (fun _ => 0) two_guests 1 start = (Ok ("7", 60000000000, [0; 1]), w1) /\
  value (foldl record zero (logged_in ++ logged_in)) connected = 0.
Proof.
  split; [reflexivity|]. eexists. split; [vm_compute; reflexivity|].
  refine (proj1 (proj2 (proj2 (load_test_adds_up (W := net) (reads := 2) (fun _ => 0) two_guests 1 start "7" 60000000000 [0; 1] _
    [logged_in; logged_in] (logged_in ++ logged_in) _ _ _)))).
  - vm_compute. reflexivity.
  - repeat constructor; apply guest_ran.
  - do 6 (eapply (interleaved_next _ 0); [reflexivity|]; cbn). do 6 (eapply (interleaved_next _ 1); [reflexivity|]; cbn).
    apply interleaved_none. repeat constructor.
Defined.

(** A held connection is given up at the first message of the gateway, long before the
    deadline. *)
Lemma hold_ends_at_first_message :
  holdConnection 1 60000000000 (mkNet 3 (Some (BinaryMessage, "restore")) {[1]}) = (Done tt, [], mkNet 3 None {[1]}).
Proof. reflexivity. Qed.

(** Once ten messages are kept, those are not counted any more either. *)
Lemma kept_message_is_not_counted :
  let failure m := observeConnectFailure (Some (Text m)) in
  let s := foldl record zero (concat (failure <$> ["0"; "1"; "2"; "3"; "4"; "5"; "6"; "7"; "8"; "9"; "0"; "0"])) in
  value s connectFailed = 12 /\ connectErrors s !! "0" = Some 1.
Proof. vm_compute. done. Qed.
End runs.

End LoadTest.
