(* ===== verification/Util.v ===== *)
(** * Helpers: [common/util/panicutil], [common/util/reflectutil], and the access log of
    [common/logging/gin.go]

    A panic is [Err]. Types and values are seen as [reflect] shows them to these helpers. *)

From S2P Require Import Prelude.
Open Scope Z_scope.

Module Util.

(** ** [panicutil] *)

Definition Must (err : option error) : res unit := match err with Some e => Err e | None => Ok tt end.
Definition Must2 (str : string) (err : option error) : res unit :=
  match err with Some e => Err (Text (str +:+ " " +:+ error_Error e)) | None => Ok tt end.
Definition MustTrue (ok : bool) (err : string) : res unit := if ok then Ok tt else Err (Text err).
Definition MustTrue2 (ok : bool) (err : error) : res unit := if ok then Ok tt else Err err.
Definition MustExist {A} (v : option A) : res unit := match v with Some _ => Ok tt | None => Err (Text "nil") end.
Definition MustT1 {A} (arg : A) (err : option error) : res A := match err with Some e => Err e | None => Ok arg end.
Definition MustT2 {A B} (arg1 : A) (arg2 : B) (err : option error) : res (A * B) :=
  match err with Some e => Err e | None => Ok (arg1, arg2) end.

(** ** [reflectutil] *)

(** Types: pointers, structs, which may have a [GenericType] method, and the other kinds. *)
Inductive type := Ptr (t : type) | Struct (name : string) (generic : option (list type)) | OtherKind (kind : Z).

Definition GetNonPtrTyp (t : type) : type := match t with Ptr t => t | t => t end.
Fixpoint GetStructTyp (t : type) : res type :=
  match t with
  | Ptr t => GetStructTyp t
  | Struct _ _ => Ok t
  | OtherKind _ => Err (Text "not struct type")
  end.
Definition MustGetStructTyp (t : type) : res type := match GetStructTyp t with Ok t => Ok t | Err e => Err e end.
Definition GetStructGenericType (t : type) : res (list type) :=
  match MustGetStructTyp t with
  | Ok (Struct _ (Some g)) => Ok g
  | Ok _ => Err (Text "get wrong generic typer")
  | Err e => Err e
  end.

(** Values: a pointer may be nil; a field has a name and a value, and is zero or not. *)
Inductive gvalue := VPtr (v : option gvalue) | VStruct (fields : list (string * gvalue)) | VOther (zero : bool).
Fixpoint GetStructValue (v : gvalue) : res gvalue :=
  match v with
  | VPtr (Some v) => GetStructValue v
  | VPtr None => Err (Text "not struct type")
  | VStruct _ => Ok v
  | VOther _ => Err (Text "not struct type")
  end.
Definition MustGetStructValue (v : gvalue) : res gvalue := GetStructValue v.
Fixpoint IsZero (v : gvalue) : bool :=
  match v with
  | VPtr p => match p with None => true | Some _ => false end
  | VStruct fs => (fix all fs := match fs with [] => true | (_, f) :: fs => IsZero f && all fs end) fs
  | VOther z => z
  end.
Fixpoint FieldByName (name : string) (fs : list (string * gvalue)) : option gvalue :=
  match fs with [] => None | (n, v) :: fs => if bool_decide (n = name) then Some v else FieldByName name fs end.
(** The value, whether it was found, or an error; the outer failure is the panic of [IsZero] on the value of
    a field that does not exist. *)
Definition GetStructFieldValue (v : gvalue) (name : string) : res (res (option gvalue)) :=
  match GetStructValue v with
  | Err e => Ok (Err e)
  | Ok (VStruct fs) =>
      match FieldByName name fs with
      | None => Err (Text "reflect: call of reflect.Value.IsZero on zero Value")
      | Some f => if IsZero f then Ok (Ok None) else Ok (Ok (Some f))
      end
  | Ok _ => Ok (Ok None)
  end.

Fixpoint pointers (n : nat) (t : type) : type := match n with O => t | S n => Ptr (pointers n t) end.

(** The struct behind any number of pointers, if there is one. *)
Lemma struct_type_spec t : match GetStructTyp t with
  | Ok u => exists n name g, u = Struct name g /\ t = pointers n u
  | Err _ => exists n k, t = pointers n (OtherKind k)
  end.
Proof.
  induction t as [t IH|name g|k]; simpl; [|by exists 0%nat, name, g|by exists 0%nat, k].
  destruct (GetStructTyp t) as [u|e]; [destruct IH as (n & name & g & -> & ->); by exists (S n), name, g|].
  destruct IH as (n & k & ->). by exists (S n), k.
Qed.

(** Asking for a field that the struct does not have panics; a field with its zero value is
    reported as missing. *)
Lemma missing_field_panics : is_ok (GetStructFieldValue (VStruct [("HP", VOther true)]) "Name") = false /\
  GetStructFieldValue (VStruct [("HP", VOther true)]) "HP" = Ok (Ok None).
Proof. done. Qed.

(** ** The access log: [GinAccess], [RequestID] *)

Inductive level := LevelInfo | LevelWarn | LevelError.
Record gin_context := mkGin {
  request_header : string; keys : gmap string string; response_header : gmap string string; status : Z; errors : list string
}.
Definition requestIDHeader : string := "X-Request-ID".
Definition set_request_id (id : string) (c : gin_context) : gin_context :=
  mkGin (request_header c) (<["request_id" := id]> (keys c)) (<[requestIDHeader := id]> (response_header c)) (status c) (errors c).
Record log_line := mkLine { l_level : level; l_request_id : string; l_status : Z; l_error : option (list string) }.

(** [next] are the handlers behind the middleware, [uuid] the id made when the request has none. *)
Definition GinAccess (next : gin_context -> gin_context) (uuid : string) (c : gin_context) : gin_context * log_line :=
  let requestID := if bool_decide (request_header c = "") then uuid else request_header c in
  let c := next (set_request_id requestID c) in
  let level := if 500 <=? status c then LevelError else if 400 <=? status c then LevelWarn else LevelInfo in
  (c, mkLine level requestID (status c) (match errors c with [] => None | es => Some es end)).
Definition RequestID (c : gin_context) : string := default "" (keys c !! "request_id").

(** The handlers, the client and the log see the same, non-empty id, provided that the
    handlers leave it alone; server errors are logged as errors. *)
Lemma access_log_identifies_request next uuid c c' line :
  uuid <> "" -> (forall x, keys (next x) = keys x /\ response_header (next x) = response_header x) ->
  GinAccess next uuid c = (c', line) ->
  RequestID c' = l_request_id line /\ response_header c' !! requestIDHeader = Some (l_request_id line) /\ l_request_id line <> "" /\
  (request_header c <> "" -> l_request_id line = request_header c) /\
  (l_level line = LevelError <-> 500 <= status c').
Proof.
  intros Hu Hn. unfold GinAccess. intros [= <- <-]. cbn [l_request_id l_level].
  destruct (Hn (set_request_id (if bool_decide (request_header c = "") then uuid else request_header c) c)) as [Hk Hr].
  unfold RequestID. rewrite Hk, Hr. cbn [keys response_header set_request_id]. rewrite !lookup_insert_eq. split_and!; [done|done| | |].
  - by case_bool_decide.
  - intros Hne. by rewrite bool_decide_false.
  - repeat case_on; breflect; split; intros; try done; lia.
Qed.

End Util.
